(** * Window-Go: a shallow embedding of the widget toolkit's state machines

    The development follows the Go sources of the [gui] package:
    the scroll bar, the scrollable container, the multi-line text area,
    the menu bar with its tree of sub-menus, the prompt, and the window
    with its focus chain, compositor ordering and key dispatcher.

    Conventions.
    - A Go [int] is a 64-bit two's complement integer; it is modelled by
      [Z], and every addition or subtraction of the source goes through
      [wrap], which writes the wrap-around out.
    - A Go [string] that is processed byte-wise or rune-wise is a
      [list ascii]; a string that is only a name (a box style) is a
      [string].
    - A run-time panic of the source (index or slice out of range) is the
      [None] of an [option].
    - Pointers to elements are addresses into an object store; the focus
      chain and the element list hold addresses, never copies.
    - Fields that only carry colours, glyphs or absolute screen positions
      computed while rendering are left out of the records. *)

From Stdlib Require Import ZArith Lia List Bool Ascii String Sorted Permutation.
From Stdlib Require Import Floats.SpecFloat.
From stdpp Require Import base option list strings gmap.

Local Open Scope Z_scope.

(** ** Go integers and slices *)

Module GoInt.

Definition int_min : Z := - 2 ^ 63.
Definition int_max : Z := 2 ^ 63 - 1.

(** 64-bit two's complement wrap-around. *)
Definition wrap (z : Z) : Z := (z + 2 ^ 63) mod 2 ^ 64 - 2 ^ 63.

Definition in_int (z : Z) : Prop := int_min <= z <= int_max.

Definition add (a b : Z) : Z := wrap (a + b).
Definition sub (a b : Z) : Z := wrap (a - b).

(** [len(s)] of a slice. *)
Definition len {A} (l : list A) : Z := Z.of_nat (length l).

(** [s[i]]: panics outside [0, len). *)
Definition index {A} (l : list A) (i : Z) : option A :=
  if (0 <=? i) && (i <? len l) then l !! Z.to_nat i else None.

(** [s[i] = v] *)
Definition store {A} (l : list A) (i : Z) (v : A) : option (list A) :=
  if (0 <=? i) && (i <? len l) then Some (<[Z.to_nat i := v]> l) else None.

(** [s[lo:hi]]: panics unless [0 <= lo <= hi <= len]. *)
Definition slice {A} (l : list A) (lo hi : Z) : option (list A) :=
  if (0 <=? lo) && (lo <=? hi) && (hi <=? len l)
  then Some (take (Z.to_nat (hi - lo)) (drop (Z.to_nat lo) l))
  else None.

(** [s[lo:]] and [s[:hi]] *)
Definition slice_from {A} (l : list A) (lo : Z) : option (list A) :=
  slice l lo (len l).
Definition slice_to {A} (l : list A) (hi : Z) : option (list A) :=
  slice l 0 hi.

End GoInt.

Import GoInt.

Notation "a +i b" := (GoInt.add a b) (at level 50, left associativity).
Notation "a -i b" := (GoInt.sub a b) (at level 50, left associativity).

(** Code that may panic runs in the [option] monad, with stdpp's
    [x ← c; k] for its bind. *)

(** ** The [strings] package, as far as the toolkit uses it *)

Module GoStrings.

Abbreviation bytes := (list ascii).

Definition byte_eqb (a b : ascii) : bool := Ascii.eqb a b.
Arguments byte_eqb : simpl never.

(** [strings.HasPrefix] *)
Fixpoint HasPrefix (s p : bytes) {struct p} : bool :=
  match p with
  | [] => true
  | c :: p' =>
      match s with
      | [] => false
      | d :: s' => byte_eqb c d && HasPrefix s' p'
      end
  end.

(** [strings.Index]: the position of the first occurrence. *)
Fixpoint Index (s sub : bytes) : option nat :=
  if HasPrefix s sub then Some 0%nat
  else match s with
       | [] => None
       | _ :: s' => S <$> Index s' sub
       end.

(** [strings.Count] for a non-empty [sub]: the loop
    [for { i := Index(s, sub); if i == -1 { return n }; n++; s = s[i+len(sub):] }].
    The loop runs at most [len(s)] times; [fuel] bounds it. *)
Fixpoint count_loop (fuel : nat) (s sub : bytes) : nat :=
  match fuel with
  | O => O
  | S fuel' =>
      match Index s sub with
      | None => O
      | Some i => S (count_loop fuel' (drop (i + length sub) s) sub)
      end
  end.

Definition Count (s sub : bytes) : nat := count_loop (length s) s sub.

(** [strings.Split(s, sep)] for a non-empty [sep] ([genSplit]): [n] is
    [Count(s, sep)], the loop cuts [n] fields off and the rest is the last. *)
Fixpoint split_loop (n : nat) (s sep : bytes) : list bytes :=
  match n with
  | O => [s]
  | S n' =>
      match Index s sep with
      | None => [s]
      | Some m => take m s :: split_loop n' (drop (m + length sep) s) sep
      end
  end.

Definition Split (s sep : bytes) : list bytes := split_loop (Count s sep) s sep.

(** [strings.Join] *)
Fixpoint Join (elems : list bytes) (sep : bytes) : bytes :=
  match elems with
  | [] => []
  | [e] => e
  | e :: rest => e ++ sep ++ Join rest sep
  end.

(** [strings.ReplaceAll(s, old, new)] for a non-empty [old]: the loop of
    [strings.Replace] with [n = Count(s, old)]. *)
Fixpoint replace_loop (n : nat) (s old new : bytes) : bytes :=
  match n with
  | O => s
  | S n' =>
      match Index s old with
      | None => s
      | Some j => take j s ++ new ++ replace_loop n' (drop (j + length old) s) old new
      end
  end.

Definition ReplaceAll (s old new : bytes) : bytes :=
  replace_loop (Count s old) s old new.

Definition CR : ascii := "013"%char.
Definition LF : ascii := "010"%char.

(** The text with every occurrence of "\r\n" replaced by "\n", read
    left to right, as the specification words it. *)
Fixpoint normalize_crlf (s : bytes) : bytes :=
  match s with
  | [] => []
  | c :: t =>
      match t with
      | d :: rest =>
          if byte_eqb c CR && byte_eqb d LF then LF :: normalize_crlf rest
          else c :: normalize_crlf t
      | [] => [c]
      end
  end.

End GoStrings.

Import GoStrings.

(** ** Callbacks

    The toolkit stores Go closures in its elements ([OnScroll],
    [OnItemSelected], button actions, a key handler).  A closure is
    named here; a method that invokes one reports the invocation to its
    caller, which interprets it.  The one closure the toolkit itself
    installs is the text area's [OnScroll], which copies the new value
    into [viewTopLine]. *)

Inductive Callback : Type :=
  | SyncViewTopLine            (* func(newValue int) { ta.viewTopLine = newValue } *)
  | External (name : nat).     (* a closure supplied by the application *)

(** ** ScrollBar *)

Module ScrollBar.

Record t : Type := mk {
  X : Z;
  Y : Z;
  Height : Z;
  Value : Z;
  MaxValue : Z;
  IsActive : bool;
  Visible : bool;
  OnScroll : option Callback
}.

Definition set_Value (v : Z) (sb : t) : t :=
  mk (X sb) (Y sb) (Height sb) v (MaxValue sb) (IsActive sb) (Visible sb) (OnScroll sb).
Definition set_MaxValue (v : Z) (sb : t) : t :=
  mk (X sb) (Y sb) (Height sb) (Value sb) v (IsActive sb) (Visible sb) (OnScroll sb).
Definition set_Height (v : Z) (sb : t) : t :=
  mk (X sb) (Y sb) v (Value sb) (MaxValue sb) (IsActive sb) (Visible sb) (OnScroll sb).
Definition set_IsActive (b : bool) (sb : t) : t :=
  mk (X sb) (Y sb) (Height sb) (Value sb) (MaxValue sb) b (Visible sb) (OnScroll sb).
Definition set_Visible (b : bool) (sb : t) : t :=
  mk (X sb) (Y sb) (Height sb) (Value sb) (MaxValue sb) (IsActive sb) b (OnScroll sb).
Definition set_OnScroll (cb : option Callback) (sb : t) : t :=
  mk (X sb) (Y sb) (Height sb) (Value sb) (MaxValue sb) (IsActive sb) (Visible sb) cb.

(** [NewScrollBar] *)
Definition NewScrollBar (x y height value maxValue : Z) : t :=
  let height := if height <? 2 then 2 else height in
  let value := if value <? 0 then 0 else value in
  let maxValue := if maxValue <? 0 then 0 else maxValue in
  let value := if value >? maxValue then maxValue else value in
  mk x y height value maxValue false false None.

(** The value [SetValue] computes before it compares it with the old one. *)
Definition clamped (sb : t) (value : Z) : Z :=
  if value <? 0 then 0
  else if value >? MaxValue sb then MaxValue sb
  else value.

(** [SetValue]: the scroll bar after the call, and the invocation of
    [OnScroll] it made, if any: [Some (cb, v)] stands for the call
    [sb.OnScroll(v)] of the closure [cb]. *)
Definition SetValue (value : Z) (sb : t) : t * option (Callback * Z) :=
  let oldValue := Value sb in
  let newValue := clamped sb value in
  if negb (newValue =? oldValue) then
    let sb' := set_Value newValue sb in
    match OnScroll sb' with
    | Some cb => (sb', Some (cb, Value sb'))
    | None => (sb', None)
    end
  else (sb, None).

End ScrollBar.

(** ** Container *)

Module Container.

Record t : Type := mk {
  X : Z;
  Y : Z;
  Width : Z;
  Height : Z;
  Content : list bytes;
  scrollBar : ScrollBar.t;
  needsScroll : bool;
  totalContentHeight : Z;
  IsActive : bool;
  HighlightedIndex : Z;
  SelectedIndex : Z;
  OnItemSelected : option Callback;
  lastConfirmedIndex : Z;
  hasConfirmedSelection : bool
}.

Definition set_Content (v : list bytes) (c : t) : t :=
  mk (X c) (Y c) (Width c) (Height c) v (scrollBar c) (needsScroll c)
     (totalContentHeight c) (IsActive c) (HighlightedIndex c) (SelectedIndex c)
     (OnItemSelected c) (lastConfirmedIndex c) (hasConfirmedSelection c).
Definition set_scrollBar (v : ScrollBar.t) (c : t) : t :=
  mk (X c) (Y c) (Width c) (Height c) (Content c) v (needsScroll c)
     (totalContentHeight c) (IsActive c) (HighlightedIndex c) (SelectedIndex c)
     (OnItemSelected c) (lastConfirmedIndex c) (hasConfirmedSelection c).
Definition set_needsScroll (v : bool) (c : t) : t :=
  mk (X c) (Y c) (Width c) (Height c) (Content c) (scrollBar c) v
     (totalContentHeight c) (IsActive c) (HighlightedIndex c) (SelectedIndex c)
     (OnItemSelected c) (lastConfirmedIndex c) (hasConfirmedSelection c).
Definition set_totalContentHeight (v : Z) (c : t) : t :=
  mk (X c) (Y c) (Width c) (Height c) (Content c) (scrollBar c) (needsScroll c)
     v (IsActive c) (HighlightedIndex c) (SelectedIndex c)
     (OnItemSelected c) (lastConfirmedIndex c) (hasConfirmedSelection c).
Definition set_IsActive (v : bool) (c : t) : t :=
  mk (X c) (Y c) (Width c) (Height c) (Content c) (scrollBar c) (needsScroll c)
     (totalContentHeight c) v (HighlightedIndex c) (SelectedIndex c)
     (OnItemSelected c) (lastConfirmedIndex c) (hasConfirmedSelection c).
Definition set_HighlightedIndex (v : Z) (c : t) : t :=
  mk (X c) (Y c) (Width c) (Height c) (Content c) (scrollBar c) (needsScroll c)
     (totalContentHeight c) (IsActive c) v (SelectedIndex c)
     (OnItemSelected c) (lastConfirmedIndex c) (hasConfirmedSelection c).
Definition set_SelectedIndex (v : Z) (c : t) : t :=
  mk (X c) (Y c) (Width c) (Height c) (Content c) (scrollBar c) (needsScroll c)
     (totalContentHeight c) (IsActive c) (HighlightedIndex c) v
     (OnItemSelected c) (lastConfirmedIndex c) (hasConfirmedSelection c).
Definition set_lastConfirmedIndex (v : Z) (c : t) : t :=
  mk (X c) (Y c) (Width c) (Height c) (Content c) (scrollBar c) (needsScroll c)
     (totalContentHeight c) (IsActive c) (HighlightedIndex c) (SelectedIndex c)
     (OnItemSelected c) v (hasConfirmedSelection c).
Definition set_hasConfirmedSelection (v : bool) (c : t) : t :=
  mk (X c) (Y c) (Width c) (Height c) (Content c) (scrollBar c) (needsScroll c)
     (totalContentHeight c) (IsActive c) (HighlightedIndex c) (SelectedIndex c)
     (OnItemSelected c) (lastConfirmedIndex c) v.

(** [c.scrollBar.SetValue(v)].  The container installs no [OnScroll]
    itself; an invocation of a closure the application installed is
    outside the container's state and is dropped here. *)
Definition scroll_to (v : Z) (c : t) : t :=
  set_scrollBar (fst (ScrollBar.SetValue v (scrollBar c))) c.

(** [GetScrollOffset] *)
Definition GetScrollOffset (c : t) : Z := ScrollBar.Value (scrollBar c).

(** [ensureHighlightVisible] *)
Definition ensureHighlightVisible (c : t) : t :=
  if negb (ScrollBar.Visible (scrollBar c)) || (HighlightedIndex c <? 0) then c
  else
    let scrollOffset := ScrollBar.Value (scrollBar c) in
    let bottomVisibleIndex := scrollOffset +i Height c -i 1 in
    if HighlightedIndex c <? scrollOffset then
      scroll_to (HighlightedIndex c) c
    else if HighlightedIndex c >? bottomVisibleIndex then
      scroll_to (HighlightedIndex c -i Height c +i 1) c
    else c.

(** [ensureSelectionVisible] *)
Definition ensureSelectionVisible (c : t) : t := ensureHighlightVisible c.

(** [updateScrollState] *)
Definition updateScrollState (c : t) : t :=
  let c := set_totalContentHeight (len (Content c)) c in
  let c := set_needsScroll (totalContentHeight c >? Height c) c in
  let c :=
    if HighlightedIndex c >=? totalContentHeight c then
      if totalContentHeight c >? 0
      then set_HighlightedIndex (totalContentHeight c -i 1) c
      else set_HighlightedIndex (-1) c
    else c in
  let c := set_scrollBar (ScrollBar.set_Visible (needsScroll c) (scrollBar c)) c in
  let c :=
    if needsScroll c then
      let sbMaxValue := totalContentHeight c -i Height c in
      let sbMaxValue := if sbMaxValue <? 0 then 0 else sbMaxValue in
      let c := set_scrollBar (ScrollBar.set_MaxValue sbMaxValue (scrollBar c)) c in
      scroll_to (ScrollBar.Value (scrollBar c)) c
    else
      let c := set_scrollBar (ScrollBar.set_MaxValue 0 (scrollBar c)) c in
      scroll_to 0 c in
  ensureHighlightVisible c.

(** [NewContainer] *)
Definition NewContainer (x y width height : Z) (content : list bytes) : t :=
  let width := if width <? 1 then 1 else width in
  let height := if height <? 1 then 1 else height in
  let sbX := width -i 1 in
  let sbY := 0 in
  let sbHeight := height in
  let sb := ScrollBar.NewScrollBar sbX sbY sbHeight 0 0 in
  let sb := ScrollBar.set_Visible false sb in
  let c := mk x y width height content sb false 0 false 0 (-1) None (-1) false in
  let c := updateScrollState c in
  let c :=
    if (HighlightedIndex c >=? len (Content c)) && (len (Content c) >? 0)
    then set_HighlightedIndex (len (Content c) -i 1) c
    else if len (Content c) =? 0 then set_HighlightedIndex (-1) c
    else c in
  ensureHighlightVisible c.

(** [SetContent] *)
Definition SetContent (content : list bytes) (c : t) : t :=
  let c :=
    if hasConfirmedSelection c &&
       ((lastConfirmedIndex c <? 0) || (lastConfirmedIndex c >=? len content))
    then set_SelectedIndex (-1) (set_hasConfirmedSelection false c)
    else c in
  updateScrollState (set_Content content c).

(** [HighlightNext] *)
Definition HighlightNext (c : t) : t :=
  if HighlightedIndex c <? totalContentHeight c -i 1 then
    ensureHighlightVisible (set_HighlightedIndex (HighlightedIndex c +i 1) c)
  else c.

(** [HighlightPrevious] *)
Definition HighlightPrevious (c : t) : t :=
  if HighlightedIndex c >? 0 then
    ensureHighlightVisible (set_HighlightedIndex (HighlightedIndex c -i 1) c)
  else c.

(** [SelectNext], [SelectPrevious] *)
Definition SelectNext (c : t) : t := HighlightNext c.
Definition SelectPrevious (c : t) : t := HighlightPrevious c.

(** [SelectHighlightedItem]: the container after the call and the
    invocation of [OnItemSelected] it made, if any. *)
Definition SelectHighlightedItem (c : t) : t * option (Callback * Z) :=
  if (HighlightedIndex c >=? 0) && (HighlightedIndex c <? len (Content c)) then
    let c := set_SelectedIndex (HighlightedIndex c) c in
    let c := set_lastConfirmedIndex (HighlightedIndex c) c in
    let c := set_hasConfirmedSelection true c in
    match OnItemSelected c with
    | Some cb => (c, Some (cb, SelectedIndex c))
    | None => (c, None)
    end
  else (c, None).

Definition ConfirmSelection (c : t) : t * option (Callback * Z) :=
  SelectHighlightedItem c.

(** [ClearConfirmedSelection] *)
Definition ClearConfirmedSelection (c : t) : t :=
  set_hasConfirmedSelection false (set_lastConfirmedIndex (-1) (set_SelectedIndex (-1) c)).

(** [GetLastConfirmedItem]: the index and the row of the last confirmed
    selection and whether there is one. *)
Definition GetLastConfirmedItem (c : t) : option (Z * bytes * bool) :=
  if negb (hasConfirmedSelection c) then Some (-1, [], false)
  else if (lastConfirmedIndex c >=? 0) && (lastConfirmedIndex c <? len (Content c)) then
    row ← index (Content c) (lastConfirmedIndex c);
    Some (lastConfirmedIndex c, row, true)
  else Some (-1, [], false).

(** [GetSelectedIndex], [GetHighlightedIndex] *)
Definition GetSelectedIndex (c : t) : Z := SelectedIndex c.
Definition GetHighlightedIndex (c : t) : Z := HighlightedIndex c.

(** [GetScrollbar] hands out the pointer to the owned scroll bar. *)
Definition GetScrollbar (c : t) : ScrollBar.t := scrollBar c.

(** The viewport of a container: [maxOffset = max(0, contentLength - height)]. *)
Definition maxOffset (c : t) : Z := Z.max 0 (len (Content c) - Height c).

(** The state a container is in between two method calls: the derived
    fields agree with the content, the offset is inside [[0, maxOffset]],
    and the highlight is a row of the content or [-1] (no highlight). *)
Definition wf (c : t) : Prop :=
  1 <= Height c <= int_max /\
  len (Content c) <= int_max /\
  totalContentHeight c = len (Content c) /\
  needsScroll c = (len (Content c) >? Height c) /\
  ScrollBar.Visible (scrollBar c) = (len (Content c) >? Height c) /\
  ScrollBar.MaxValue (scrollBar c) = maxOffset c /\
  0 <= GetScrollOffset c <= maxOffset c /\
  -1 <= HighlightedIndex c < Z.max 1 (len (Content c)) /\
  (len (Content c) = 0 -> HighlightedIndex c = -1).

(** The sums [ensureHighlightVisible] computes stay inside the [int]
    range: the index of the last visible row and the offset that puts the
    highlighted row there. *)
Definition no_overflow (c : t) : Prop :=
  in_int (GetScrollOffset c + Height c) /\
  in_int (GetScrollOffset c + Height c - 1) /\
  in_int (HighlightedIndex c - Height c) /\
  in_int (HighlightedIndex c - Height c + 1).

(** The highlighted row, when there is one, is a row of the viewport. *)
Definition in_view (c : t) : Prop :=
  0 <= HighlightedIndex c ->
  GetScrollOffset c <= HighlightedIndex c <= GetScrollOffset c + Height c - 1.

End Container.


(** ** Runes: the conversions [[]rune(s)] and [string(runes)]

    Go decodes a string as UTF-8 ([unicode/utf8]): a byte that starts no
    well-formed sequence decodes to [RuneError] and consumes one byte;
    [string(r)] encodes a rune, an invalid one as [RuneError].  The masks
    and shifts of the encoder are written with [/] and [mod]. *)

Module Utf8.

Definition RuneError : Z := 0xFFFD.
Definition MaxRune : Z := 0x10FFFF.

(** The numeric value of a byte, and the byte of a value below 256. *)
Definition val (b : ascii) : Z := Z.of_N (N_of_ascii b).
Definition byte (z : Z) : ascii := ascii_of_N (Z.to_N z).

(** The rune [string(r)] really encodes. *)
Definition sanitize (r : Z) : Z :=
  if (r <? 0) || (r >? MaxRune) || ((0xD800 <=? r) && (r <=? 0xDFFF))
  then RuneError else r.

(** [utf8.EncodeRune] *)
Definition EncodeRune (r : Z) : bytes :=
  if (0 <=? r) && (r <=? 0x7F) then [byte r]
  else if (0 <=? r) && (r <=? 0x7FF) then
    [byte (0xC0 + r / 64); byte (0x80 + r mod 64)]
  else
    let r := sanitize r in
    if r <=? 0xFFFF then
      [byte (0xE0 + r / 4096); byte (0x80 + (r / 64) mod 64); byte (0x80 + r mod 64)]
    else
      [byte (0xF0 + r / 262144); byte (0x80 + (r / 4096) mod 64);
       byte (0x80 + (r / 64) mod 64); byte (0x80 + r mod 64)].

(** [string(runes)] *)
Definition String (rs : list Z) : bytes := flat_map EncodeRune rs.

(** The table [first] with [acceptRanges]: for a leading byte, the
    length of the sequence and the range the second byte must be in. *)
Definition first (p0 : Z) : option (Z * Z * Z) :=
  if p0 <? 0xC2 then None
  else if p0 <=? 0xDF then Some (2, 0x80, 0xBF)
  else if p0 =? 0xE0 then Some (3, 0xA0, 0xBF)
  else if p0 <=? 0xEC then Some (3, 0x80, 0xBF)
  else if p0 =? 0xED then Some (3, 0x80, 0x9F)
  else if p0 <=? 0xEF then Some (3, 0x80, 0xBF)
  else if p0 =? 0xF0 then Some (4, 0x90, 0xBF)
  else if p0 <=? 0xF3 then Some (4, 0x80, 0xBF)
  else if p0 =? 0xF4 then Some (4, 0x80, 0x8F)
  else None.

(** A continuation byte: [locb <= b <= hicb]. *)
Definition cont (b : Z) : bool := (0x80 <=? b) && (b <=? 0xBF).

(** [[]rune(s)]: [utf8.DecodeRuneInString] applied until the string ends. *)
Fixpoint Runes (s : bytes) : list Z :=
  match s with
  | [] => []
  | c0 :: t =>
      let p0 := val c0 in
      if p0 <? 0x80 then p0 :: Runes t
      else
        match first p0 with
        | None => RuneError :: Runes t
        | Some (sz, lo, hi) =>
            match t with
            | [] => RuneError :: Runes t
            | c1 :: t1 =>
                let b1 := val c1 in
                if (b1 <? lo) || (hi <? b1) then RuneError :: Runes t
                else if sz <=? 2 then
                  ((p0 mod 32) * 64 + b1 mod 64) :: Runes t1
                else
                  match t1 with
                  | [] => RuneError :: Runes t
                  | c2 :: t2 =>
                      let b2 := val c2 in
                      if negb (cont b2) then RuneError :: Runes t
                      else if sz <=? 3 then
                        ((p0 mod 16) * 4096 + (b1 mod 64) * 64 + b2 mod 64) :: Runes t2
                      else
                        match t2 with
                        | [] => RuneError :: Runes t
                        | c3 :: t3 =>
                            let b3 := val c3 in
                            if negb (cont b3) then RuneError :: Runes t
                            else
                              ((p0 mod 8) * 262144 + (b1 mod 64) * 4096
                               + (b2 mod 64) * 64 + b3 mod 64) :: Runes t3
                        end
                  end
            end
        end
  end.

(** [utf8.RuneCountInString], which is [len([]rune(s))]. *)
Definition RuneLen (s : bytes) : Z := len (Runes s).

(** [unicode.IsSpace] *)
Definition IsSpace (r : Z) : bool :=
  ((0x09 <=? r) && (r <=? 0x0D)) || (r =? 0x20) || (r =? 0x85) || (r =? 0xA0)
  || (r =? 0x1680) || ((0x2000 <=? r) && (r <=? 0x200A))
  || (r =? 0x2028) || (r =? 0x2029) || (r =? 0x202F) || (r =? 0x205F)
  || (r =? 0x3000).

(** [len(strings.Fields(s))]: the number of maximal runs of non-space
    runes; [inField] tells whether the previous rune was in a field. *)
Fixpoint count_fields (inField : bool) (rs : list Z) : Z :=
  match rs with
  | [] => 0
  | r :: rs' =>
      if IsSpace r then count_fields false rs'
      else if inField then count_fields true rs'
      else 1 + count_fields true rs'
  end.

Definition FieldsCount (s : bytes) : Z := count_fields false (Runes s).

End Utf8.

(** ** TextArea *)

Module TextArea.
Import Utf8.

Record t : Type := mk {
  X : Z;
  Y : Z;
  Width : Z;
  Height : Z;
  IsActive : bool;
  Lines : list bytes;
  cursorLine : Z;
  cursorCol : Z;
  viewTopLine : Z;
  scrollBar : ScrollBar.t;
  needsScroll : bool;
  maxChars : Z;
  wordCount : Z;
  charCount : Z;
  showWordCount : bool;
  showCharCount : bool
}.

Definition set_IsActive (v : bool) (ta : t) : t :=
  mk (X ta) (Y ta) (Width ta) (Height ta) v (Lines ta) (cursorLine ta)
     (cursorCol ta) (viewTopLine ta) (scrollBar ta) (needsScroll ta) (maxChars ta)
     (wordCount ta) (charCount ta) (showWordCount ta) (showCharCount ta).
Definition set_Lines (v : list bytes) (ta : t) : t :=
  mk (X ta) (Y ta) (Width ta) (Height ta) (IsActive ta) v (cursorLine ta)
     (cursorCol ta) (viewTopLine ta) (scrollBar ta) (needsScroll ta) (maxChars ta)
     (wordCount ta) (charCount ta) (showWordCount ta) (showCharCount ta).
Definition set_cursorLine (v : Z) (ta : t) : t :=
  mk (X ta) (Y ta) (Width ta) (Height ta) (IsActive ta) (Lines ta) v
     (cursorCol ta) (viewTopLine ta) (scrollBar ta) (needsScroll ta) (maxChars ta)
     (wordCount ta) (charCount ta) (showWordCount ta) (showCharCount ta).
Definition set_cursorCol (v : Z) (ta : t) : t :=
  mk (X ta) (Y ta) (Width ta) (Height ta) (IsActive ta) (Lines ta) (cursorLine ta)
     v (viewTopLine ta) (scrollBar ta) (needsScroll ta) (maxChars ta)
     (wordCount ta) (charCount ta) (showWordCount ta) (showCharCount ta).
Definition set_viewTopLine (v : Z) (ta : t) : t :=
  mk (X ta) (Y ta) (Width ta) (Height ta) (IsActive ta) (Lines ta) (cursorLine ta)
     (cursorCol ta) v (scrollBar ta) (needsScroll ta) (maxChars ta)
     (wordCount ta) (charCount ta) (showWordCount ta) (showCharCount ta).
Definition set_scrollBar (v : ScrollBar.t) (ta : t) : t :=
  mk (X ta) (Y ta) (Width ta) (Height ta) (IsActive ta) (Lines ta) (cursorLine ta)
     (cursorCol ta) (viewTopLine ta) v (needsScroll ta) (maxChars ta)
     (wordCount ta) (charCount ta) (showWordCount ta) (showCharCount ta).
Definition set_needsScroll (v : bool) (ta : t) : t :=
  mk (X ta) (Y ta) (Width ta) (Height ta) (IsActive ta) (Lines ta) (cursorLine ta)
     (cursorCol ta) (viewTopLine ta) (scrollBar ta) v (maxChars ta)
     (wordCount ta) (charCount ta) (showWordCount ta) (showCharCount ta).
Definition set_counts (words chars : Z) (ta : t) : t :=
  mk (X ta) (Y ta) (Width ta) (Height ta) (IsActive ta) (Lines ta) (cursorLine ta)
     (cursorCol ta) (viewTopLine ta) (scrollBar ta) (needsScroll ta) (maxChars ta)
     words chars (showWordCount ta) (showCharCount ta).

(** [ta.scrollBar.SetValue(v)]: the closure [NewTextArea] installs as
    [OnScroll] copies the new value into [viewTopLine]; a closure of the
    application acts outside the text area. *)
Definition scroll_to (v : Z) (ta : t) : t :=
  let '(sb, fired) := ScrollBar.SetValue v (scrollBar ta) in
  let ta := set_scrollBar sb ta in
  match fired with
  | Some (SyncViewTopLine, newValue) => set_viewTopLine newValue ta
  | _ => ta
  end.

(** The loop of [calculateCounts] that adds up the rune counts and one
    per line break. *)
Fixpoint count_chars (acc : Z) (lines : list bytes) : Z :=
  match lines with
  | [] => acc
  | [line] => acc +i RuneLen line
  | line :: rest => count_chars (acc +i RuneLen line +i 1) rest
  end.

(** [calculateCounts] *)
Definition calculateCounts (ta : t) : t :=
  let fullText := Join (Lines ta) [" "%char] in
  let totalWords := FieldsCount fullText in
  set_counts totalWords (count_chars 0 (Lines ta)) ta.

(** The height the text lines may use: [Height - 1], at least 1. *)
Definition visibleHeight (ta : t) : Z :=
  let h := Height ta -i 1 in if h <? 1 then 1 else h.

(** [updateScrollState] *)
Definition updateScrollState (ta : t) : t :=
  let contentHeight := len (Lines ta) in
  let visibleHeight := visibleHeight ta in
  let ta := set_needsScroll (contentHeight >? visibleHeight) ta in
  let ta := set_scrollBar (ScrollBar.set_Visible (needsScroll ta) (scrollBar ta)) ta in
  if needsScroll ta then
    let sbMaxValue := contentHeight -i visibleHeight in
    let sbMaxValue := if sbMaxValue <? 0 then 0 else sbMaxValue in
    let ta := set_scrollBar (ScrollBar.set_MaxValue sbMaxValue (scrollBar ta)) ta in
    let ta := set_scrollBar (ScrollBar.set_Height visibleHeight (scrollBar ta)) ta in
    let ta := scroll_to (ScrollBar.Value (scrollBar ta)) ta in
    set_viewTopLine (ScrollBar.Value (scrollBar ta)) ta
  else
    let ta := set_scrollBar (ScrollBar.set_MaxValue 0 (scrollBar ta)) ta in
    let ta := scroll_to 0 ta in
    set_viewTopLine 0 ta.

(** [ensureCursorVisible] *)
Definition ensureCursorVisible (ta : t) : t :=
  let visibleHeight := visibleHeight ta in
  let bottomVisibleLine := viewTopLine ta +i visibleHeight -i 1 in
  if cursorLine ta <? viewTopLine ta then
    let ta := set_viewTopLine (cursorLine ta) ta in
    scroll_to (viewTopLine ta) ta
  else if cursorLine ta >? bottomVisibleLine then
    let ta := set_viewTopLine (cursorLine ta -i visibleHeight +i 1) ta in
    scroll_to (viewTopLine ta) ta
  else ta.

(** [clampCursorCol] *)
Definition clampCursorCol (ta : t) : option t :=
  let ta := if cursorLine ta <? 0 then set_cursorLine 0 ta else ta in
  let ta :=
    if cursorLine ta >=? len (Lines ta) then
      if len (Lines ta) >? 0 then set_cursorLine (len (Lines ta) -i 1) ta
      else set_cursorLine 0 (set_Lines [[]] ta)
    else ta in
  if len (Lines ta) =? 0 then
    Some (set_cursorCol 0 (set_cursorLine 0 (set_Lines [[]] ta)))
  else
    line ← index (Lines ta) (cursorLine ta);
    let currentLineLen := RuneLen line in
    Some (if cursorCol ta <? 0 then set_cursorCol 0 ta
          else if cursorCol ta >? currentLineLen then set_cursorCol currentLineLen ta
          else ta).

(** The common tail of the editing methods. *)
Definition refresh (ta : t) : option t :=
  ta ← clampCursorCol ta;
  Some (ensureCursorVisible (updateScrollState (calculateCounts ta))).

(** The guard [if ta.cursorLine < 0 || ta.cursorLine >= len(ta.Lines) { ta.clampCursorCol() }] *)
Definition clamp_if_outside (ta : t) : option t :=
  if (cursorLine ta <? 0) || (cursorLine ta >=? len (Lines ta))
  then clampCursorCol ta else Some ta.

Definition NL : Z := 10.

(** [InsertChar] *)
Definition InsertChar (r : Z) (ta : t) : option t :=
  if IsActive ta then
    if (maxChars ta >? 0) && (charCount ta >=? maxChars ta) && negb (r =? NL)
    then Some ta
    else
      ta ← clamp_if_outside ta;
      line ← index (Lines ta) (cursorLine ta);
      let currentLineRunes := Runes line in
      ta ←
        (if r =? NL then
           after ← slice_from currentLineRunes (cursorCol ta);
           let textAfterCursor := String after in
           before ← slice_to currentLineRunes (cursorCol ta);
           lines ← store (Lines ta) (cursorLine ta) (String before);
           let ta := set_Lines lines ta in
           let nextLineIndex := cursorLine ta +i 1 in
           head ← slice_to (Lines ta) nextLineIndex;
           tail ← slice_from (Lines ta) nextLineIndex;
           let ta := set_Lines (head ++ ([textAfterCursor] ++ tail)) ta in
           Some (set_cursorCol 0 (set_cursorLine nextLineIndex ta))
         else
           before ← slice_to currentLineRunes (cursorCol ta);
           after ← slice_from currentLineRunes (cursorCol ta);
           let newLine := String before ++ String [r] ++ String after in
           lines ← store (Lines ta) (cursorLine ta) newLine;
           let ta := set_Lines lines ta in
           Some (set_cursorCol (cursorCol ta +i 1) ta));
      refresh ta
  else Some ta.

(** [DeleteChar] *)
Definition DeleteChar (ta : t) : option t :=
  if IsActive ta then
    if (cursorLine ta =? 0) && (cursorCol ta =? 0) then Some ta
    else
      ta ← clamp_if_outside ta;
      ta ←
        (if cursorCol ta >? 0 then
           line ← index (Lines ta) (cursorLine ta);
           let currentLineRunes := Runes line in
           before ← slice_to currentLineRunes (cursorCol ta -i 1);
           after ← slice_from currentLineRunes (cursorCol ta);
           let newLine := String before ++ String after in
           lines ← store (Lines ta) (cursorLine ta) newLine;
           let ta := set_Lines lines ta in
           Some (set_cursorCol (cursorCol ta -i 1) ta)
         else
           let prevLineIndex := cursorLine ta -i 1 in
           prevLine ← index (Lines ta) prevLineIndex;
           let prevLineRunes := Runes prevLine in
           line ← index (Lines ta) (cursorLine ta);
           let currentLineRunes := Runes line in
           let newCursorCol := len prevLineRunes in
           lines ← store (Lines ta) prevLineIndex
                     (String prevLineRunes ++ String currentLineRunes);
           let ta := set_Lines lines ta in
           head ← slice_to (Lines ta) (cursorLine ta);
           tail ← slice_from (Lines ta) (cursorLine ta +i 1);
           let ta := set_Lines (head ++ tail) ta in
           Some (set_cursorCol newCursorCol (set_cursorLine prevLineIndex ta)));
      refresh ta
  else Some ta.

(** [DeleteForward] *)
Definition DeleteForward (ta : t) : option t :=
  if IsActive ta then
    ta ← clamp_if_outside ta;
    if (cursorLine ta <? 0) || (cursorLine ta >=? len (Lines ta)) then Some ta
    else
      line ← index (Lines ta) (cursorLine ta);
      let currentLineRunes := Runes line in
      if cursorCol ta <? len currentLineRunes then
        before ← slice_to currentLineRunes (cursorCol ta);
        after ← slice_from currentLineRunes (cursorCol ta +i 1);
        let newLine := String before ++ String after in
        lines ← store (Lines ta) (cursorLine ta) newLine;
        refresh (set_Lines lines ta)
      else if cursorLine ta <? len (Lines ta) -i 1 then
        let nextLineIndex := cursorLine ta +i 1 in
        nextLine ← index (Lines ta) nextLineIndex;
        let nextLineRunes := Runes nextLine in
        lines ← store (Lines ta) (cursorLine ta)
                  (String currentLineRunes ++ String nextLineRunes);
        let ta := set_Lines lines ta in
        head ← slice_to (Lines ta) nextLineIndex;
        tail ← slice_from (Lines ta) (nextLineIndex +i 1);
        refresh (set_Lines (head ++ tail) ta)
      else Some ta
  else Some ta.

(** [MoveCursorLeft] *)
Definition MoveCursorLeft (ta : t) : option t :=
  let ta :=
    if cursorCol ta >? 0 then set_cursorCol (cursorCol ta -i 1) ta
    else if cursorLine ta >? 0 then
      let ta := set_cursorLine (cursorLine ta -i 1) ta in
      if (cursorLine ta >=? 0) && (cursorLine ta <? len (Lines ta)) then
        match index (Lines ta) (cursorLine ta) with
        | Some line => set_cursorCol (RuneLen line) ta
        | None => ta
        end
      else set_cursorCol 0 ta
    else ta in
  Some (ensureCursorVisible ta).

(** [MoveCursorRight] *)
Definition MoveCursorRight (ta : t) : option t :=
  ta ← clamp_if_outside ta;
  if (cursorLine ta <? 0) || (cursorLine ta >=? len (Lines ta)) then Some ta
  else
    line ← index (Lines ta) (cursorLine ta);
    let currentLineLen := RuneLen line in
    let ta :=
      if cursorCol ta <? currentLineLen then set_cursorCol (cursorCol ta +i 1) ta
      else if cursorLine ta <? len (Lines ta) -i 1 then
        set_cursorCol 0 (set_cursorLine (cursorLine ta +i 1) ta)
      else ta in
    Some (ensureCursorVisible ta).

(** [MoveCursorUp] *)
Definition MoveCursorUp (ta : t) : option t :=
  if cursorLine ta >? 0 then
    ta ← clampCursorCol (set_cursorLine (cursorLine ta -i 1) ta);
    Some (ensureCursorVisible ta)
  else Some ta.

(** [MoveCursorDown] *)
Definition MoveCursorDown (ta : t) : option t :=
  if cursorLine ta <? len (Lines ta) -i 1 then
    ta ← clampCursorCol (set_cursorLine (cursorLine ta +i 1) ta);
    Some (ensureCursorVisible ta)
  else Some ta.

(** [MoveCursor] *)
Definition MoveCursor (deltaLine deltaCol : Z) (ta : t) : option t :=
  let targetLine := cursorLine ta +i deltaLine in
  let targetCol := cursorCol ta +i deltaCol in
  let targetLine :=
    if targetLine <? 0 then 0
    else if targetLine >=? len (Lines ta) then len (Lines ta) -i 1
    else targetLine in
  ta ←
    (if negb (targetLine =? cursorLine ta) then
       ta ← clampCursorCol (set_cursorLine targetLine ta);
       if negb (deltaCol =? 0) then clampCursorCol (set_cursorCol targetCol ta)
       else Some ta
     else if negb (deltaCol =? 0) then clampCursorCol (set_cursorCol targetCol ta)
     else Some ta);
  Some (ensureCursorVisible ta).

(** [GetText] *)
Definition GetText (ta : t) : bytes := Join (Lines ta) [LF].

(** [SetText] *)
Definition SetText (text : bytes) (ta : t) : t :=
  let ta := set_Lines (Split (ReplaceAll text [CR; LF] [LF]) [LF]) ta in
  let ta := if len (Lines ta) =? 0 then set_Lines [[]] ta else ta in
  let ta := set_cursorLine 0 ta in
  let ta := set_cursorCol 0 ta in
  let ta := set_viewTopLine 0 ta in
  ensureCursorVisible (updateScrollState (calculateCounts ta)).

(** [NewTextArea] *)
Definition NewTextArea (initialText : bytes) (x y width height maxChars : Z)
    (showWordCount showCharCount : bool) : t :=
  let width := if width <? 3 then 3 else width in
  let height := if height <? 2 then 2 else height in
  let lines := Split (ReplaceAll initialText [CR; LF] [LF]) [LF] in
  let lines := if len lines =? 0 then [[]] else lines in
  let sbX := width -i 1 in
  let sbY := 0 in
  let sbHeight := height -i 1 in
  let sbHeight := if sbHeight <? 1 then 1 else sbHeight in
  let sb := ScrollBar.NewScrollBar sbX sbY sbHeight 0 0 in
  let sb := ScrollBar.set_Visible false sb in
  let ta := mk x y width height false lines 0 0 0 sb false maxChars 0 0
               showWordCount showCharCount in
  let ta := set_scrollBar (ScrollBar.set_OnScroll (Some SyncViewTopLine) (scrollBar ta)) ta in
  ensureCursorVisible (updateScrollState (calculateCounts ta)).

(** [GetScrollbar] *)
Definition GetScrollbar (ta : t) : ScrollBar.t := scrollBar ta.

(** The state of the cursor the editing methods keep: there is a line,
    the cursor is on a line, and its column is at most the rune length
    of that line. *)
Definition cursor_ok (ta : t) : Prop :=
  Lines ta <> [] /\
  0 <= cursorLine ta < len (Lines ta) /\
  exists line, index (Lines ta) (cursorLine ta) = Some line /\
               0 <= cursorCol ta <= RuneLen line.

(** Two states with the same text, cursor and activity. *)
Definition same_text (ta ta' : t) : Prop :=
  Lines ta' = Lines ta /\ cursorLine ta' = cursorLine ta /\
  cursorCol ta' = cursorCol ta /\ IsActive ta' = IsActive ta.

(** Sizes a Go program can hold: the number of lines and the rune length
    of every line leave room below the largest [int]. *)
Definition fits (ta : t) : Prop :=
  len (Lines ta) < int_max /\
  Forall (fun line => RuneLen line < int_max) (Lines ta).

(** The editing operations of a text area. *)
Inductive op : Type :=
  | OpInsertChar (r : Z)
  | OpDeleteChar
  | OpDeleteForward
  | OpMoveCursorLeft
  | OpMoveCursorRight
  | OpMoveCursorUp
  | OpMoveCursorDown
  | OpSetText (text : bytes).

Definition run (o : op) (ta : t) : option t :=
  match o with
  | OpInsertChar r => InsertChar r ta
  | OpDeleteChar => DeleteChar ta
  | OpDeleteForward => DeleteForward ta
  | OpMoveCursorLeft => MoveCursorLeft ta
  | OpMoveCursorRight => MoveCursorRight ta
  | OpMoveCursorUp => MoveCursorUp ta
  | OpMoveCursorDown => MoveCursorDown ta
  | OpSetText text => Some (SetText text ta)
  end.

(** [x] is [ta] but for the lines, the cursor and the top line. *)
Definition edited (ta x : t) : Prop :=
  x = set_viewTopLine (viewTopLine x)
        (set_cursorCol (cursorCol x) (set_cursorLine (cursorLine x) (set_Lines (Lines x) ta))).

(** The ways an operation ends: it leaves the text area alone; it edits
    the lines or the cursor and runs the common tail [refresh]; or it
    moves the cursor over the same lines and runs [ensureCursorVisible]. *)
Inductive outcome (ta ta' : t) : Prop :=
  | unchanged : ta' = ta -> outcome ta ta'
  | refreshed (x : t) :
      edited ta x -> Lines x <> [] -> len (Lines x) <= int_max ->
      refresh x = Some ta' -> outcome ta ta'
  | moved (x : t) :
      edited ta x -> Lines x = Lines ta -> viewTopLine x = viewTopLine ta ->
      cursor_ok x -> ta' = ensureCursorVisible x -> outcome ta ta'.

(** The scrolling state of a text area between two calls: the scroll bar
    carries the closure of [NewTextArea], it is shown when the lines do
    not fit, its range is the number of lines that do not fit, its value
    is the top line of the view, and the cursor line is inside the view. *)
Definition view_ok (ta : t) : Prop :=
  ScrollBar.OnScroll (scrollBar ta) = Some SyncViewTopLine /\
  1 <= Height ta <= int_max /\
  needsScroll ta = (len (Lines ta) >? visibleHeight ta) /\
  ScrollBar.MaxValue (scrollBar ta) = Z.max 0 (len (Lines ta) - visibleHeight ta) /\
  0 <= viewTopLine ta <= ScrollBar.MaxValue (scrollBar ta) /\
  ScrollBar.Value (scrollBar ta) = viewTopLine ta /\
  viewTopLine ta <= cursorLine ta <= viewTopLine ta + visibleHeight ta - 1.

(** The number of runes of the lines and of the line breaks between them. *)
Definition text_size (lines : list bytes) : Z :=
  foldr (fun line n => RuneLen line + n) 0 lines + (len lines - 1).

(** The size of the argument of an operation: a text the lines of which
    leave room below the largest [int]. *)
Definition op_fits (o : op) : Prop :=
  match o with
  | OpSetText text => len text < int_max
  | _ => True
  end.

End TextArea.

(** ** Display width of a string ([getStringDisplayWidth])

    The width class of a rune comes from the table of
    [golang.org/x/text/width], which is not part of the repository: it
    is a parameter [LookupRuneKind] of the functions that measure text. *)

Module Width.

Inductive Kind : Type :=
  | Neutral | EastAsianAmbiguous | EastAsianWide
  | EastAsianNarrow | EastAsianFullwidth | EastAsianHalfwidth.

(** [utf8.RuneLen]: the number of bytes of the encoding, -1 for a rune
    that has none. *)
Definition RuneLen (r : Z) : Z :=
  if r <? 0 then -1
  else if r <=? 0x7F then 1
  else if r <=? 0x7FF then 2
  else if (0xD800 <=? r) && (r <=? 0xDFFF) then -1
  else if r <=? 0xFFFF then 3
  else if r <=? Utf8.MaxRune then 4
  else -1.

Definition rune_width (LookupRuneKind : Z -> Kind) (r : Z) : Z :=
  match LookupRuneKind r with
  | EastAsianWide | EastAsianFullwidth => 2
  | Neutral => if RuneLen r >=? 4 then 2 else 1
  | _ => 1
  end.

Definition getStringDisplayWidth (LookupRuneKind : Z -> Kind) (s : bytes) : Z :=
  fold_left (fun displayWidth r => displayWidth +i rune_width LookupRuneKind r)
            (Utf8.Runes s) 0.

End Width.

(** ** Menu, MenuItem *)

Module Menu.

(** A menu owns its items and an item owns its sub-menu.  The item's
    [Parent] pointer is written by [AddItem] and never read; it is left
    out.  A pointer to a sub-menu (the menu bar's [ActiveMenu], an entry
    of the compositor's list) is the path of item positions that leads
    to it from the top-level menu. *)
Inductive t : Type := mk {
  Items : list MenuItem;
  X : Z;
  Y : Z;
  Width : Z;
  Height : Z;
  SelectedIdx : Z;
  IsOpen : bool;
  IsTopLevel : bool;
  zIndex : Z
}
with MenuItem : Type := mkMenuItem {
  Text : bytes;
  Action : option Callback;
  SubMenu : option t;
  IsActive : bool;
  ItemWidth : Z;
  ItemX : Z;
  ItemY : Z
}.

Definition set_Items (v : list MenuItem) (m : t) : t :=
  mk v (X m) (Y m) (Width m) (Height m) (SelectedIdx m) (IsOpen m) (IsTopLevel m) (zIndex m).
Definition set_X (v : Z) (m : t) : t :=
  mk (Items m) v (Y m) (Width m) (Height m) (SelectedIdx m) (IsOpen m) (IsTopLevel m) (zIndex m).
Definition set_Y (v : Z) (m : t) : t :=
  mk (Items m) (X m) v (Width m) (Height m) (SelectedIdx m) (IsOpen m) (IsTopLevel m) (zIndex m).
Definition set_size (w h : Z) (m : t) : t :=
  mk (Items m) (X m) (Y m) w h (SelectedIdx m) (IsOpen m) (IsTopLevel m) (zIndex m).
Definition set_SelectedIdx (v : Z) (m : t) : t :=
  mk (Items m) (X m) (Y m) (Width m) (Height m) v (IsOpen m) (IsTopLevel m) (zIndex m).
Definition set_IsOpen (v : bool) (m : t) : t :=
  mk (Items m) (X m) (Y m) (Width m) (Height m) (SelectedIdx m) v (IsTopLevel m) (zIndex m).

Definition set_SubMenu (v : option t) (i : MenuItem) : MenuItem :=
  mkMenuItem (Text i) (Action i) v (IsActive i) (ItemWidth i) (ItemX i) (ItemY i).
Definition set_IsActive (v : bool) (i : MenuItem) : MenuItem :=
  mkMenuItem (Text i) (Action i) (SubMenu i) v (ItemWidth i) (ItemX i) (ItemY i).
Definition set_pos (x y : Z) (i : MenuItem) : MenuItem :=
  mkMenuItem (Text i) (Action i) (SubMenu i) (IsActive i) (ItemWidth i) x y.

(** A pointer to a menu below the top-level one. *)
Abbreviation path := (list nat).

(** [m.Items[i].IsActive = v] *)
Definition set_item_active (i : Z) (v : bool) (m : t) : option t :=
  item ← index (Items m) i;
  items ← store (Items m) i (set_IsActive v item);
  Some (set_Items items m).

(** [GetZIndex] *)
Definition GetZIndex (m : t) : Z := if IsTopLevel m then 100 else 150.

(** [NewMenu] *)
Definition NewMenu (x y : Z) (isTopLevel : bool) : t :=
  mk [] x y 0 0 (-1) isTopLevel isTopLevel 150.

(** The common start of [SelectNext] and [SelectPrevious]: clear the
    current selection when it is an item. *)
Definition clear_selection (m : t) : option t :=
  if (SelectedIdx m >=? 0) && (SelectedIdx m <? len (Items m))
  then set_item_active (SelectedIdx m) false m
  else Some m.

(** [SelectNext]; Go's [%] truncates, which is [Z.rem]. *)
Definition SelectNext (m : t) : option t :=
  if len (Items m) =? 0 then Some m
  else
    m ← clear_selection m;
    let m := set_SelectedIdx (Z.rem (SelectedIdx m +i 1) (len (Items m))) m in
    set_item_active (SelectedIdx m) true m.

(** [SelectPrevious] *)
Definition SelectPrevious (m : t) : option t :=
  if len (Items m) =? 0 then Some m
  else
    m ← clear_selection m;
    let m := set_SelectedIdx (SelectedIdx m -i 1) m in
    let m := if SelectedIdx m <? 0 then set_SelectedIdx (len (Items m) -i 1) m else m in
    set_item_active (SelectedIdx m) true m.

(** Opening a sub-menu: [IsOpen = true], [SelectedIdx = 0], and the first
    item, if there is one, marked active. *)
Definition open_at (x y : Z) (sub : t) : option t :=
  let sub := set_Y y (set_X x sub) in
  let sub := set_IsOpen true sub in
  let sub := set_SelectedIdx 0 sub in
  if len (Items sub) >? 0 then set_item_active 0 true sub else Some sub.

(** [ActivateSelected], up to the call of the item's action: the menu
    after the call, and the action to run whose result is the result of
    the method ([None]: the method returns [false]). *)
Definition ActivateSelected (m : t) : option (t * option Callback) :=
  if (SelectedIdx m <? 0) || (SelectedIdx m >=? len (Items m)) then Some (m, None)
  else
    item ← index (Items m) (SelectedIdx m);
    match SubMenu item with
    | Some sub =>
        sub ←
          (if IsTopLevel m
           then open_at (X m +i ItemX item) (Y m +i 1) sub
           else open_at (X m +i Width m) (Y m +i ItemY item -i 1) sub);
        items ← store (Items m) (SelectedIdx m) (set_SubMenu (Some sub) item);
        Some (set_Items items m, None)
    | None => Some (m, Action item)
    end.

(** [CloseSubMenus] *)
Fixpoint CloseSubMenus (m : t) : t :=
  set_Items
    (map (fun item =>
            match SubMenu item with
            | Some sub => set_SubMenu (Some (set_IsOpen false (CloseSubMenus sub))) item
            | None => item
            end) (Items m)) m.

(** The menu a path points to. *)
Fixpoint get (m : t) (p : path) : option t :=
  match p with
  | [] => Some m
  | i :: p' =>
      item ← Items m !! i;
      sub ← SubMenu item;
      get sub p'
  end.

(** The tree with the menu a path points to replaced. *)
Fixpoint put (m : t) (p : path) (new : t) : t :=
  match p with
  | [] => new
  | i :: p' =>
      match Items m !! i with
      | Some item =>
          match SubMenu item with
          | Some sub =>
              set_Items (<[i := set_SubMenu (Some (put sub p' new)) item]> (Items m)) m
          | None => m
          end
      | None => m
      end
  end.

(** The open sub-menus below a menu, each followed by the open sub-menus
    below it: [collectSubmenus] of [getAllElements].  [here] is the path
    of [m]. *)
Fixpoint collectSubmenus (here : path) (m : t) : list path :=
  (fix items (i : nat) (l : list MenuItem) : list path :=
     match l with
     | [] => []
     | item :: l' =>
         match SubMenu item with
         | Some sub =>
             if IsOpen sub
             then (here ++ [i]) :: collectSubmenus (here ++ [i]) sub ++ items (S i) l'
             else items (S i) l'
         | None => items (S i) l'
         end
     end) O (Items m).

(** The depth of the tree of sub-menus below a menu: the measure of the
    inductions over that tree. *)
Fixpoint depth (m : t) : nat :=
  S (fold_right
       (fun item d =>
          Nat.max (match SubMenu item with Some sub => depth sub | None => O end) d)
       O (Items m)).

Section Building.
Variable LookupRuneKind : Z -> Width.Kind.

(** [NewMenuItem] *)
Definition NewMenuItem (text : bytes) (action : option Callback) : MenuItem :=
  let displayWidth := Width.getStringDisplayWidth LookupRuneKind text in
  mkMenuItem text action None false (displayWidth +i 2) 0 0.

(** [recalculateSize] *)
Definition recalculateSize (m : t) : t :=
  if IsTopLevel m then
    let width := fold_left (fun width item => width +i ItemWidth item) (Items m) 0 in
    set_size width 1 m
  else
    let width :=
      fold_left
        (fun width item =>
           let displayWidth := Width.getStringDisplayWidth LookupRuneKind (Text item) in
           if displayWidth +i 2 >? width then displayWidth +i 2 else width)
        (Items m) 0 in
    set_size (width +i 4) (len (Items m) +i 2) m.

(** [AddItem] *)
Definition AddItem (item : MenuItem) (m : t) : t :=
  let item :=
    if IsTopLevel m then
      match last (Items m) with
      | Some prevItem => set_pos (ItemX prevItem +i ItemWidth prevItem) 0 item
      | None => set_pos 0 0 item
      end
    else set_pos 1 (len (Items m) +i 1) item in
  recalculateSize (set_Items (Items m ++ [item]) m).

(** [AddSubMenu]: the menu with the new item, and the pointer to the new
    sub-menu, relative to [m]. *)
Definition AddSubMenu (text : bytes) (m : t) : t * path :=
  let submenu := NewMenu 0 0 false in
  let item := set_SubMenu (Some submenu) (NewMenuItem text None) in
  (AddItem item m, [length (Items m)]).

End Building.

End Menu.

(** ** MenuBar *)

Module MenuBar.

Record t : Type := mk {
  Menu : Menu.t;
  X : Z;
  Y : Z;
  Width : Z;
  IsActive : bool;
  ActiveMenu : option Menu.path;
  zIndex : Z
}.

Definition set_Menu (v : Menu.t) (mb : t) : t :=
  mk v (X mb) (Y mb) (Width mb) (IsActive mb) (ActiveMenu mb) (zIndex mb).
Definition set_IsActive (v : bool) (mb : t) : t :=
  mk (Menu mb) (X mb) (Y mb) (Width mb) v (ActiveMenu mb) (zIndex mb).
Definition set_ActiveMenu (v : option Menu.path) (mb : t) : t :=
  mk (Menu mb) (X mb) (Y mb) (Width mb) (IsActive mb) v (zIndex mb).

(** [NewMenuBar] *)
Definition NewMenuBar (x y width : Z) : t :=
  mk (Menu.NewMenu x y true) x y width false None 100.

(** [GetZIndex] *)
Definition GetZIndex (mb : t) : Z := 100.

(** [NeedsCursor] *)
Definition NeedsCursor (mb : t) : bool := false.

(** [Activate] *)
Definition Activate (mb : t) : option t :=
  let mb := set_IsActive true mb in
  if (Menu.SelectedIdx (Menu mb) <? 0) && (len (Menu.Items (Menu mb)) >? 0) then
    let m := Menu.set_SelectedIdx 0 (Menu mb) in
    m ← Menu.set_item_active 0 true m;
    Some (set_Menu m mb)
  else Some mb.

(** [Deactivate] *)
Definition Deactivate (mb : t) : option t :=
  let mb := set_IsActive false mb in
  let mb := set_ActiveMenu None mb in
  m ← Menu.clear_selection (Menu mb);
  let m := Menu.set_SelectedIdx (-1) m in
  Some (set_Menu (Menu.CloseSubMenus m) mb).

(** A method call through the pointer [mb.ActiveMenu]. *)
Definition on_active (p : Menu.path) (f : Menu.t -> option Menu.t) (mb : t) : option t :=
  active ← Menu.get (Menu mb) p;
  active ← f active;
  Some (set_Menu (Menu.put (Menu mb) p active) mb).

(** A method call on the top-level menu [mb.Menu]. *)
Definition on_top (f : Menu.t -> option Menu.t) (mb : t) : option t :=
  m ← f (Menu mb);
  Some (set_Menu m mb).

(** [SelectNext] *)
Definition SelectNext (mb : t) : option t :=
  if negb (IsActive mb) then Some mb
  else match ActiveMenu mb with
       | Some p => on_active p Menu.SelectNext mb
       | None => on_top Menu.SelectNext mb
       end.

(** [SelectPrevious] *)
Definition SelectPrevious (mb : t) : option t :=
  if negb (IsActive mb) then Some mb
  else match ActiveMenu mb with
       | Some p => on_active p Menu.SelectPrevious mb
       | None => on_top Menu.SelectPrevious mb
       end.

(** [MoveRight] *)
Definition MoveRight (mb : t) : option t :=
  if negb (IsActive mb) || bool_decide (ActiveMenu mb <> None) then Some mb
  else on_top Menu.SelectNext mb.

(** [MoveLeft] *)
Definition MoveLeft (mb : t) : option t :=
  if negb (IsActive mb) || bool_decide (ActiveMenu mb <> None) then Some mb
  else on_top Menu.SelectPrevious mb.

(** [MoveDown] *)
Definition MoveDown (mb : t) : option t :=
  if negb (IsActive mb) then Some mb
  else match ActiveMenu mb with
       | Some p => on_active p Menu.SelectNext mb
       | None =>
           let m := Menu mb in
           if (Menu.SelectedIdx m >=? 0) && (Menu.SelectedIdx m <? len (Menu.Items m)) then
             item ← index (Menu.Items m) (Menu.SelectedIdx m);
             match Menu.SubMenu item with
             | Some sub =>
                 sub ← Menu.open_at (X mb +i Menu.ItemX item) (Y mb +i 1) sub;
                 items ← store (Menu.Items m) (Menu.SelectedIdx m)
                           (Menu.set_SubMenu (Some sub) item);
                 let mb := set_Menu (Menu.set_Items items m) mb in
                 Some (set_ActiveMenu (Some [Z.to_nat (Menu.SelectedIdx m)]) mb)
             | None => Some mb
             end
           else Some mb
       end.

(** [MoveUp] *)
Definition MoveUp (mb : t) : option t :=
  if negb (IsActive mb) then Some mb
  else match ActiveMenu mb with
       | Some p =>
           active ← Menu.get (Menu mb) p;
           if Menu.SelectedIdx active >? 0 then on_active p Menu.SelectPrevious mb
           else
             let mb := set_Menu (Menu.put (Menu mb) p (Menu.set_IsOpen false active)) mb in
             Some (set_ActiveMenu None mb)
       | None => Some mb
       end.

(** The sub-menu [ActivateSelected] makes the active one after the
    activation of the selected item of [current] opened it: the test
    [selectedItem.SubMenu != nil && selectedItem.SubMenu.IsOpen]. *)
Definition opened_submenu (here : Menu.path) (current : Menu.t) : option Menu.path :=
  if (Menu.SelectedIdx current >=? 0) && (Menu.SelectedIdx current <? len (Menu.Items current))
  then
    match Menu.Items current !! Z.to_nat (Menu.SelectedIdx current) with
    | Some selectedItem =>
        match Menu.SubMenu selectedItem with
        | Some sub =>
            if Menu.IsOpen sub then Some (here ++ [Z.to_nat (Menu.SelectedIdx current)])
            else None
        | None => None
        end
    | None => None
    end
  else None.

(** [ActivateSelected] up to the call of the item's action: the menu bar
    so far, the menu the activation went to ([currentMenu], [None] for
    the top-level menu), and the action to call. *)
Definition ActivateSelected_begin (mb : t)
  : option (t * option Menu.path * option Callback) :=
  match ActiveMenu mb with
  | Some p =>
      current ← Menu.get (Menu mb) p;
      '(current, action) ← Menu.ActivateSelected current;
      Some (set_Menu (Menu.put (Menu mb) p current) mb, Some p, action)
  | None =>
      '(m, action) ← Menu.ActivateSelected (Menu mb);
      Some (set_Menu m mb, None, action)
  end.

(** [ActivateSelected] from the return of the action on: [result] is
    what the action returned, or [false] when none was called. *)
Definition ActivateSelected_end (result : bool) (currentMenu : option Menu.path) (mb : t)
  : option (t * bool) :=
  if result then
    mb ← Deactivate mb;
    Some (mb, true)
  else
    match currentMenu with
    | Some p =>
        if bool_decide (ActiveMenu mb = Some p) then
          current ← Menu.get (Menu mb) p;
          match opened_submenu p current with
          | Some q => Some (set_ActiveMenu (Some q) mb, result)
          | None => Some (mb, result)
          end
        else Some (mb, result)
    | None =>
        match opened_submenu [] (Menu mb) with
        | Some q => Some (set_ActiveMenu (Some q) mb, result)
        | None => Some (mb, result)
        end
    end.

Section Building.
Variable LookupRuneKind : Z -> Width.Kind.

(** [AddItem] *)
Definition AddItem (text : bytes) (action : option Callback) (mb : t) : t :=
  set_Menu (Menu.AddItem LookupRuneKind (Menu.NewMenuItem LookupRuneKind text action) (Menu mb)) mb.

(** [AddSubMenu] *)
Definition AddSubMenu (text : bytes) (mb : t) : t * Menu.path :=
  let '(m, p) := Menu.AddSubMenu LookupRuneKind text (Menu mb) in
  (set_Menu m mb, p).

End Building.

End MenuBar.

(** ** Prompt *)

Module Prompt.

Inductive PromptStyle : Type := SingleLinePrompt | DialogBoxPrompt.

Record PromptButton : Type := mkButton {
  Text : bytes;
  ButtonIsActive : bool;
  Action : option Callback
}.

(** [NewPromptButton] *)
Definition NewPromptButton (text : bytes) (action : option Callback) : PromptButton :=
  mkButton text false action.

Definition set_ButtonIsActive (v : bool) (b : PromptButton) : PromptButton :=
  mkButton (Text b) v (Action b).

Record t : Type := mk {
  Title : bytes;
  Message : bytes;
  Buttons : list PromptButton;
  X : Z;
  Y : Z;
  Width : Z;
  Height : Z;
  Style : PromptStyle;
  IsActive : bool;
  SelectedIdx : Z;
  Modal : bool;
  zIndex : Z
}.

Definition set_Buttons (v : list PromptButton) (p : t) : t :=
  mk (Title p) (Message p) v (X p) (Y p) (Width p) (Height p) (Style p)
     (IsActive p) (SelectedIdx p) (Modal p) (zIndex p).
Definition set_IsActive (v : bool) (p : t) : t :=
  mk (Title p) (Message p) (Buttons p) (X p) (Y p) (Width p) (Height p) (Style p)
     v (SelectedIdx p) (Modal p) (zIndex p).
Definition set_SelectedIdx (v : Z) (p : t) : t :=
  mk (Title p) (Message p) (Buttons p) (X p) (Y p) (Width p) (Height p) (Style p)
     (IsActive p) v (Modal p) (zIndex p).
Definition set_Modal (v : bool) (p : t) : t :=
  mk (Title p) (Message p) (Buttons p) (X p) (Y p) (Width p) (Height p) (Style p)
     (IsActive p) (SelectedIdx p) v (zIndex p).

(** [NewSingleLinePrompt] *)
Definition NewSingleLinePrompt (title message : bytes) (x y width : Z)
    (buttons : list PromptButton) : t :=
  mk title message buttons x y width 1 SingleLinePrompt false 0 false 1000.

(** [NewDialogPrompt]; Go's [/] truncates, which is [Z.quot]. *)
Definition NewDialogPrompt (title message : bytes) (x y width : Z)
    (buttons : list PromptButton) : t :=
  let messageChars := len message in
  let charsPerLine := width -i 4 in
  let charsPerLine := if charsPerLine <? 1 then 1 else charsPerLine in
  let messageLines := Z.quot (messageChars +i charsPerLine -i 1) charsPerLine in
  let messageLines := if messageLines <? 1 then 1 else messageLines in
  let height := messageLines +i 5 in
  mk title message buttons x y width height DialogBoxPrompt false 0 true 1000.

(** The loop of [SetActive] over the buttons, from position [i] on. *)
Fixpoint mark_buttons (i : Z) (selected : Z) (active : bool) (bs : list PromptButton)
  : list PromptButton :=
  match bs with
  | [] => []
  | b :: bs' =>
      set_ButtonIsActive ((i =? selected) && active) b
        :: mark_buttons (i + 1) selected active bs'
  end.

(** [SetActive] *)
Definition SetActive (active : bool) (p : t) : t :=
  let p := set_IsActive active p in
  set_Buttons (mark_buttons 0 (SelectedIdx p) active (Buttons p)) p.

(** [p.Buttons[i].IsActive = v] *)
Definition set_button_active (i : Z) (v : bool) (p : t) : option t :=
  b ← index (Buttons p) i;
  bs ← store (Buttons p) i (set_ButtonIsActive v b);
  Some (set_Buttons bs p).

Definition clear_selection (p : t) : option t :=
  if (SelectedIdx p >=? 0) && (SelectedIdx p <? len (Buttons p))
  then set_button_active (SelectedIdx p) false p
  else Some p.

(** [SelectNext] *)
Definition SelectNext (p : t) : option t :=
  if negb (IsActive p) || (len (Buttons p) <=? 1) then Some p
  else
    p ← clear_selection p;
    let p := set_SelectedIdx (Z.rem (SelectedIdx p +i 1) (len (Buttons p))) p in
    set_button_active (SelectedIdx p) true p.

(** [SelectPrevious] *)
Definition SelectPrevious (p : t) : option t :=
  if negb (IsActive p) || (len (Buttons p) <=? 1) then Some p
  else
    p ← clear_selection p;
    let p := set_SelectedIdx (SelectedIdx p -i 1) p in
    let p := if SelectedIdx p <? 0 then set_SelectedIdx (len (Buttons p) -i 1) p else p in
    set_button_active (SelectedIdx p) true p.

(** [ActivateSelected] up to the call of the button's action: the action
    to call, [None] when the method returns [false] without a call. *)
Definition ActivateSelected_begin (p : t) : option Callback :=
  if negb (IsActive p) || (SelectedIdx p <? 0) || (SelectedIdx p >=? len (Buttons p))
  then None
  else
    match Buttons p !! Z.to_nat (SelectedIdx p) with
    | Some button => Action button
    | None => None
    end.

(** [ActivateSelected] from the return of the action on. *)
Definition ActivateSelected_end (result : bool) (p : t) : t * bool :=
  if result then (SetActive false p, result) else (p, result).

(** [NeedsCursor] *)
Definition NeedsCursor (p : t) : bool := false.

(** [IsModal] *)
Definition IsModal (p : t) : bool := Modal p && IsActive p.

End Prompt.

(** ** The simple elements *)

Module Label.
Record t : Type := mk { Text : bytes; X : Z; Y : Z }.
(** [NewLabel] *)
Definition NewLabel (text : bytes) (x y : Z) : t := mk text x y.
End Label.

Module Button.
Record t : Type := mk {
  Text : bytes; X : Z; Y : Z; Width : Z;
  Action : option Callback; IsActive : bool
}.
Definition set_IsActive (v : bool) (b : t) : t :=
  mk (Text b) (X b) (Y b) (Width b) (Action b) v.
(** [NewButton] *)
Definition NewButton (text : bytes) (x y width : Z) (action : option Callback) : t :=
  mk text x y width action false.
End Button.

Module TextBox.
Record t : Type := mk {
  Text : bytes; X : Z; Y : Z; Width : Z;
  IsActive : bool; CursorPos : Z; IsPristine : bool
}.
Definition set_IsActive (v : bool) (tb : t) : t :=
  mk (Text tb) (X tb) (Y tb) (Width tb) v (CursorPos tb) (IsPristine tb).
Definition set_Text (v : bytes) (tb : t) : t :=
  mk v (X tb) (Y tb) (Width tb) (IsActive tb) (CursorPos tb) (IsPristine tb).
Definition set_CursorPos (v : Z) (tb : t) : t :=
  mk (Text tb) (X tb) (Y tb) (Width tb) (IsActive tb) v (IsPristine tb).
Definition set_IsPristine (v : bool) (tb : t) : t :=
  mk (Text tb) (X tb) (Y tb) (Width tb) (IsActive tb) (CursorPos tb) v.
(** [NewTextBox] *)
Definition NewTextBox (initialText : bytes) (x y width : Z) : t :=
  let tb := mk initialText x y width false (len initialText) true in
  if CursorPos tb >? len (Text tb) then set_CursorPos (len (Text tb)) tb else tb.
End TextBox.

Module CheckBox.
Record t : Type := mk {
  Label : bytes; Checked : bool; X : Z; Y : Z; IsActive : bool
}.
Definition set_IsActive (v : bool) (cb : t) : t :=
  mk (Label cb) (Checked cb) (X cb) (Y cb) v.
Definition set_Checked (v : bool) (cb : t) : t :=
  mk (Label cb) v (X cb) (Y cb) (IsActive cb).
(** [NewCheckBox] *)
Definition NewCheckBox (label : bytes) (x y : Z) (initialChecked : bool) : t :=
  mk label initialChecked x y false.
End CheckBox.

Module Spacer.
Record t : Type := mk { Height : Z; X : Z; Y : Z }.
(** [NewSpacer] *)
Definition NewSpacer (x y height : Z) : t := mk height x y.
End Spacer.

(** A radio button points to its group, and the group to its buttons:
    both are addresses into the object store. *)
Module RadioButton.
Record t : Type := mk {
  Label : bytes; Value : bytes; X : Z; Y : Z;
  IsActive : bool; IsSelected : bool; Group : nat
}.
Definition set_IsActive (v : bool) (rb : t) : t :=
  mk (Label rb) (Value rb) (X rb) (Y rb) v (IsSelected rb) (Group rb).
Definition set_IsSelected (v : bool) (rb : t) : t :=
  mk (Label rb) (Value rb) (X rb) (Y rb) (IsActive rb) v (Group rb).
End RadioButton.

Module RadioGroup.
Record t : Type := mk {
  Buttons : list nat; SelectedIndex : Z; SelectedValue : bytes
}.
(** [NewRadioGroup] *)
Definition NewRadioGroup : t := mk [] (-1) [].
End RadioGroup.

(** ** Progress bars

    A Go [float64] is a [spec_float] of the Standard Library's IEEE 754
    model; [<], [<=] are [SFltb], [SFleb], and a comparison with NaN is
    false. *)

Module ProgressBar.

Abbreviation float64 := spec_float.
Definition f0 : float64 := S754_zero false.
(** 100 = 7036874417766400 * 2^-46 *)
Definition f100 : float64 := S754_finite false 7036874417766400 (-46).

Record t : Type := mk {
  Value : float64; MaxValue : float64; ShowPercentage : bool;
  X : Z; Y : Z; Width : Z
}.

(** [NewProgressBar] *)
Definition NewProgressBar (x y width : Z) (initialValue maxValue : float64)
    (showPercentage : bool) : t :=
  let maxValue := if SFleb maxValue f0 then f100 else maxValue in
  let initialValue := if SFltb initialValue f0 then f0 else initialValue in
  let initialValue := if SFltb maxValue initialValue then maxValue else initialValue in
  mk initialValue maxValue showPercentage x y width.

(** [SetValue] *)
Definition SetValue (value : float64) (pb : t) : t :=
  let v :=
    if SFltb value f0 then f0
    else if SFltb (MaxValue pb) value then MaxValue pb
    else value in
  mk v (MaxValue pb) (ShowPercentage pb) (X pb) (Y pb) (Width pb).

(** [NewGradientProgressBar] differs in the colours only. *)
Definition NewGradientProgressBar := NewProgressBar.

End ProgressBar.

(** ** Elements *)

(** The closed set of element variants.  [Other] stands for a type that
    only renders (a segment, a segment group). *)
Inductive Element : Type :=
  | ELabel (l : Label.t)
  | EButton (b : Button.t)
  | ETextBox (tb : TextBox.t)
  | ECheckBox (cb : CheckBox.t)
  | ESpacer (s : Spacer.t)
  | ERadioButton (rb : RadioButton.t)
  | EProgressBar (pb : ProgressBar.t)
  | EGradientProgressBar (pb : ProgressBar.t)
  | EScrollBar (sb : ScrollBar.t)
  | EContainer (c : Container.t)
  | ETextArea (ta : TextArea.t)
  | EMenu (m : Menu.t)
  | EMenuBar (mb : MenuBar.t)
  | EPrompt (p : Prompt.t)
  | EOther (kind : nat).

(** The [IsActive] field of an element, for the kinds that have one. *)
Definition is_active (e : Element) : bool :=
  match e with
  | EButton b => Button.IsActive b
  | ETextBox tb => TextBox.IsActive tb
  | ECheckBox cb => CheckBox.IsActive cb
  | ERadioButton rb => RadioButton.IsActive rb
  | EScrollBar sb => ScrollBar.IsActive sb
  | EContainer c => Container.IsActive c
  | ETextArea ta => TextArea.IsActive ta
  | EMenuBar mb => MenuBar.IsActive mb
  | EPrompt p => Prompt.IsActive p
  | _ => false
  end.

(** The kinds the focus chain holds: the cases of the type switches of
    [AddElement] and [setFocus]. *)
Definition focusable (e : Element) : bool :=
  match e with
  | EButton _ | ETextBox _ | ECheckBox _ | ERadioButton _ | EScrollBar _
  | EContainer _ | ETextArea _ | EMenuBar _ | EPrompt _ => true
  | _ => false
  end.

(** The [ZIndexer] capability: [Menu] and [MenuBar] are the types with a
    [GetZIndex] method. *)
Definition GetZIndex (e : Element) : option Z :=
  match e with
  | EMenu m => Some (Menu.GetZIndex m)
  | EMenuBar mb => Some (MenuBar.GetZIndex mb)
  | _ => None
  end.

(** The z-index the sort of [getSortedElements] gives an element:
    [GetZIndex] for a [ZIndexer], 0 otherwise. *)
Definition zOf (e : Element) : Z := default 0 (GetZIndex e).

(** [sort.SliceStable]: the stable sort by a key.  Any stable sort
    computes the same list; this one inserts each element, from the
    last to the first, in front of the first element whose key is not
    smaller. *)
Section StableSort.
Context {A : Type} (key : A -> Z).

Fixpoint insert_stable (x : A) (l : list A) : list A :=
  match l with
  | [] => [x]
  | y :: l' => if key y <? key x then y :: insert_stable x l' else x :: l
  end.

Fixpoint SliceStable (l : list A) : list A :=
  match l with
  | [] => []
  | x :: l' => insert_stable x (SliceStable l')
  end.

(** The order of the keys, and the elements with a given key in the
    order of the list. *)
Definition by_key (a b : A) : Prop := key a <= key b.

Definition with_key (k : Z) (l : list A) : list A :=
  List.filter (fun x => key x =? k) l.

(** An occurrence of [a] in [l] comes before an occurrence of [b]. *)
Definition before (a b : A) (l : list A) : Prop :=
  exists l1 l2 l3, l = l1 ++ a :: l2 ++ b :: l3.

End StableSort.

(** ** Box styles *)

Module Box.

Record BoxType : Type := mk {
  TopLeft : string; TopRight : string;
  BottomLeft : string; BottomRight : string;
  Horizontal : string; Vertical : string
}.

(** [BoxTypes] *)
Definition BoxTypes : gmap string BoxType :=
  <["single" := mk "┌" "┐" "└" "┘" "─" "│"]>
  (<["double" := mk "╔" "╗" "╚" "╝" "═" "║"]>
  (<["round" := mk "╭" "╮" "╰" "╯" "─" "│"]>
  (<["bold" := mk "┏" "┓" "┗" "┛" "━" "┃"]> ∅)))%string.

End Box.

(** ** Window *)

Module Window.

(** A pointer to an element: to an object of the store, to the scroll
    bar a container or text area owns, or to a sub-menu in the tree of a
    menu bar (or of a menu that is an element itself). *)
Inductive Ref : Type :=
  | Obj (a : nat)
  | ScrollBarOf (a : nat)
  | SubMenuOf (a : nat) (p : Menu.path).

#[global] Instance Ref_eq_dec : EqDecision Ref.
Proof. solve_decision. Defined.

Record t : Type := mk {
  Title : bytes;
  Icon : bytes;
  X : Z;
  Y : Z;
  Width : Z;
  Height : Z;
  BoxStyle : string;
  Elements : list Ref;
  focusableElements : list Ref;
  focusedIndex : Z;
  KeyHandler : option Callback
}.

Definition set_Elements (v : list Ref) (w : t) : t :=
  mk (Title w) (Icon w) (X w) (Y w) (Width w) (Height w) (BoxStyle w)
     v (focusableElements w) (focusedIndex w) (KeyHandler w).
Definition set_focusableElements (v : list Ref) (w : t) : t :=
  mk (Title w) (Icon w) (X w) (Y w) (Width w) (Height w) (BoxStyle w)
     (Elements w) v (focusedIndex w) (KeyHandler w).
Definition set_focusedIndex (v : Z) (w : t) : t :=
  mk (Title w) (Icon w) (X w) (Y w) (Width w) (Height w) (BoxStyle w)
     (Elements w) (focusableElements w) v (KeyHandler w).
Definition set_KeyHandler (v : option Callback) (w : t) : t :=
  mk (Title w) (Icon w) (X w) (Y w) (Width w) (Height w) (BoxStyle w)
     (Elements w) (focusableElements w) (focusedIndex w) v.

(** The program state: the objects by address, the radio groups by
    address, and the window. *)
Record State : Type := mkState {
  heap : gmap nat Element;
  groups : gmap nat RadioGroup.t;
  win : t
}.

Definition set_heap (v : gmap nat Element) (st : State) : State :=
  mkState v (groups st) (win st).
Definition set_groups (v : gmap nat RadioGroup.t) (st : State) : State :=
  mkState (heap st) v (win st).
Definition set_win (v : t) (st : State) : State :=
  mkState (heap st) (groups st) v.

(** [NewWindow] *)
Definition NewWindow (icon title : bytes) (x y width height : Z) (boxStyle : string) : t :=
  let boxStyle :=
    match Box.BoxTypes !! boxStyle with
    | Some _ => boxStyle
    | None => "single"%string
    end in
  mk title icon x y width height boxStyle [] [] (-1) None.

(** [SetKeyStrokeHandler] *)
Definition SetKeyStrokeHandler (handler : option Callback) (st : State) : State :=
  set_win (set_KeyHandler handler (win st)) st.

(** The element a pointer points to. *)
Definition deref (st : State) (r : Ref) : option Element :=
  match r with
  | Obj a => heap st !! a
  | ScrollBarOf a =>
      match heap st !! a with
      | Some (EContainer c) => Some (EScrollBar (Container.scrollBar c))
      | Some (ETextArea ta) => Some (EScrollBar (TextArea.scrollBar ta))
      | _ => None
      end
  | SubMenuOf a p =>
      match heap st !! a with
      | Some (EMenuBar mb) => EMenu <$> Menu.get (MenuBar.Menu mb) p
      | Some (EMenu m) => EMenu <$> Menu.get m p
      | _ => None
      end
  end.

(** A write through a pointer. *)
Definition assign (r : Ref) (e : Element) (st : State) : State :=
  match r with
  | Obj a => set_heap (<[a := e]> (heap st)) st
  | ScrollBarOf a =>
      match heap st !! a, e with
      | Some (EContainer c), EScrollBar sb =>
          set_heap (<[a := EContainer (Container.set_scrollBar sb c)]> (heap st)) st
      | Some (ETextArea ta), EScrollBar sb =>
          set_heap (<[a := ETextArea (TextArea.set_scrollBar sb ta)]> (heap st)) st
      | _, _ => st
      end
  | SubMenuOf a p =>
      match heap st !! a, e with
      | Some (EMenuBar mb), EMenu m =>
          set_heap (<[a := EMenuBar (MenuBar.set_Menu (Menu.put (MenuBar.Menu mb) p m) mb)]>
                      (heap st)) st
      | Some (EMenu top), EMenu m =>
          set_heap (<[a := EMenu (Menu.put top p m)]> (heap st)) st
      | _, _ => st
      end
  end.

(** A method call through a pointer. *)
Definition modify (r : Ref) (f : Element -> option Element) (st : State) : option State :=
  e ← deref st r;
  e ← f e;
  Some (assign r e st).

(** The first type switch of [setFocus]: the focus leaves the element. *)
Definition deactivate (e : Element) : option Element :=
  match e with
  | EButton el => Some (EButton (Button.set_IsActive false el))
  | ETextBox el => Some (ETextBox (TextBox.set_IsActive false el))
  | ECheckBox el => Some (ECheckBox (CheckBox.set_IsActive false el))
  | ERadioButton el => Some (ERadioButton (RadioButton.set_IsActive false el))
  | EScrollBar el => Some (EScrollBar (ScrollBar.set_IsActive false el))
  | EContainer el => Some (EContainer (Container.set_IsActive false el))
  | ETextArea el => Some (ETextArea (TextArea.set_IsActive false el))
  | EMenuBar el => EMenuBar <$> MenuBar.Deactivate (MenuBar.set_IsActive false el)
  | EPrompt el => Some (EPrompt (Prompt.SetActive false el))
  | _ => Some e
  end.

(** The second type switch of [setFocus]: the focus enters the element. *)
Definition activate (e : Element) : option Element :=
  match e with
  | EButton el => Some (EButton (Button.set_IsActive true el))
  | ETextBox el => Some (ETextBox (TextBox.set_IsActive true el))
  | ECheckBox el => Some (ECheckBox (CheckBox.set_IsActive true el))
  | ERadioButton el => Some (ERadioButton (RadioButton.set_IsActive true el))
  | EScrollBar el => Some (EScrollBar (ScrollBar.set_IsActive true el))
  | EContainer el => Some (EContainer (Container.set_IsActive true el))
  | ETextArea el => Some (ETextArea (TextArea.set_IsActive true el))
  | EMenuBar el => EMenuBar <$> MenuBar.Activate (MenuBar.set_IsActive true el)
  | EPrompt el => Some (EPrompt (Prompt.SetActive true el))
  | _ => Some e
  end.

Definition chain (st : State) : list Ref := focusableElements (win st).
Definition focus (st : State) : Z := focusedIndex (win st).
Definition set_focus (v : Z) (st : State) : State :=
  set_win (set_focusedIndex v (win st)) st.

(** [setFocus] *)
Definition setFocus (newIndex : Z) (st : State) : option State :=
  if len (chain st) =? 0 then Some (set_focus (-1) st)
  else
    st ←
      (if (focus st >=? 0) && (focus st <? len (chain st)) then
         r ← index (chain st) (focus st);
         modify r deactivate st
       else Some st);
    let st :=
      if newIndex <? 0 then set_focus (len (chain st) -i 1) st
      else if newIndex >=? len (chain st) then set_focus 0 st
      else set_focus newIndex st in
    if (focus st >=? 0) && (focus st <? len (chain st)) then
      r ← index (chain st) (focus st);
      modify r activate st
    else Some st.

(** The type switch of [AddElement]: the element starts inactive (a
    button is left as it is), and the pointers it contributes to the
    focus chain. *)
Definition prepare (r : Ref) (e : Element) : Element * list Ref :=
  match e with
  | EButton v => (e, [r])
  | ETextBox v => (ETextBox (TextBox.set_IsActive false v), [r])
  | ECheckBox v => (ECheckBox (CheckBox.set_IsActive false v), [r])
  | ERadioButton v => (ERadioButton (RadioButton.set_IsActive false v), [r])
  | EScrollBar v => (EScrollBar (ScrollBar.set_IsActive false v), [r])
  | ETextArea v => (ETextArea (TextArea.set_IsActive false v), [r])
  | EContainer v =>
      let v := Container.set_IsActive false v in
      let v := Container.set_scrollBar
                 (ScrollBar.set_IsActive false (Container.scrollBar v)) v in
      (EContainer v,
       match r with
       | Obj a => [r; ScrollBarOf a]
       | _ => [r]
       end)
  | EMenuBar v => (EMenuBar (MenuBar.set_IsActive false v), [r])
  | EPrompt v => (EPrompt (Prompt.SetActive false v), [r])
  | _ => (e, [])
  end.

(** The loop of [AddElement] over the pointers to add to the chain. *)
Fixpoint add_focusable (toAdd : list Ref) (st : State) : option State :=
  match toAdd with
  | [] => Some st
  | focusableElement :: rest =>
      if bool_decide (focusableElement ∈ chain st) then add_focusable rest st
      else
        let st := set_win (set_focusableElements (chain st ++ [focusableElement]) (win st)) st in
        st ← (if focus st =? -1 then setFocus 0 (set_focus 0 st) else Some st);
        add_focusable rest st
  end.

(** [AddElement] *)
Definition AddElement (element : Ref) (st : State) : option State :=
  let st := set_win (set_Elements (Elements (win st) ++ [element]) (win st)) st in
  match deref st element with
  | Some e =>
      let '(e, elementsToAdd) := prepare element e in
      add_focusable elementsToAdd (assign element e st)
  | None => None
  end.

(** The first position of a pointer in a slice. *)
Fixpoint find_ref (r : Ref) (l : list Ref) : option nat :=
  match l with
  | [] => None
  | e :: l' => if bool_decide (e = r) then Some O else S <$> find_ref r l'
  end.

(** [RemoveElement] *)
Definition RemoveElement (element : Ref) (st : State) : State :=
  let w := win st in
  let w :=
    match find_ref element (Elements w) with
    | Some i => set_Elements (take i (Elements w) ++ drop (S i) (Elements w)) w
    | None => w
    end in
  let w :=
    match find_ref element (focusableElements w) with
    | Some i =>
        let w := set_focusableElements
                   (take i (focusableElements w) ++ drop (S i) (focusableElements w)) w in
        if focusedIndex w >=? Z.of_nat i then set_focusedIndex (focusedIndex w -i 1) w
        else w
    | None => w
    end in
  set_win w st.

(** [getAllElements] *)
Definition getAllElements (st : State) : list Ref :=
  Elements (win st) ++
  flat_map
    (fun element =>
       match element, deref st element with
       | Obj a, Some (EMenuBar menuBar) =>
           SubMenuOf a <$> Menu.collectSubmenus [] (MenuBar.Menu menuBar)
       | _, _ => []
       end)
    (Elements (win st)).

(** The z-index the compositor sorts a pointer by. *)
Definition zIndexOf (st : State) (r : Ref) : Z :=
  match deref st r with
  | Some e => zOf e
  | None => 0
  end.

(** [getSortedElements] *)
Definition getSortedElements (st : State) : list Ref :=
  SliceStable (zIndexOf st) (getAllElements st).

(** Whether the element a pointer points to is active. *)
Definition ref_active (st : State) (r : Ref) : bool :=
  match deref st r with
  | Some e => is_active e
  | None => false
  end.

(** The number of entries of the focus chain that are active. *)
Definition active_count (st : State) : nat :=
  length (List.filter (ref_active st) (chain st)).

(** [setFocus] called with each index of a list, in order. *)
Fixpoint setFocus_seq (indices : list Z) (st : State) : option State :=
  match indices with
  | [] => Some st
  | newIndex :: rest => st ← setFocus newIndex st; setFocus_seq rest st
  end.

(** The variant of an element, and the scroll bar it owns. *)
Definition kind (e : Element) : nat :=
  match e with
  | ELabel _ => 0 | EButton _ => 1 | ETextBox _ => 2 | ECheckBox _ => 3
  | ESpacer _ => 4 | ERadioButton _ => 5 | EProgressBar _ => 6
  | EGradientProgressBar _ => 7 | EScrollBar _ => 8 | EContainer _ => 9
  | ETextArea _ => 10 | EMenu _ => 11 | EMenuBar _ => 12 | EPrompt _ => 13
  | EOther _ => 14
  end%nat.

Definition owned_bar (e : Element) : option ScrollBar.t :=
  match e with
  | EContainer c => Some (Container.scrollBar c)
  | ETextArea ta => Some (TextArea.scrollBar ta)
  | _ => None
  end.

(** An entry of the focus chain, as [AddElement] makes them: a pointer
    to an object of a focusable kind, or to the scroll bar of a
    container or text area. *)
Definition entry_ok (st : State) (r : Ref) : Prop :=
  match r with
  | Obj a => exists e, heap st !! a = Some e /\ focusable e = true
  | ScrollBarOf a => exists e, heap st !! a = Some e /\ is_Some (owned_bar e)
  | SubMenuOf _ _ => False
  end.

(** The focus chain [AddElement] builds: no pointer twice, every
    pointer an entry, and a length that is an [int]. *)
Definition chain_ok (st : State) : Prop :=
  NoDup (chain st) /\ Forall (entry_ok st) (chain st) /\ len (chain st) <= int_max.

(** No entry but the focused one is active. *)
Definition quiet_except_focus (st : State) : Prop :=
  forall (i : nat) (r : Ref),
    chain st !! i = Some r -> Z.of_nat i <> focus st -> ref_active st r = false.

(** The entry at the focus index is active and no other is. *)
Definition focus_marks_active (st : State) : Prop :=
  forall (i : nat) (r : Ref),
    chain st !! i = Some r -> ref_active st r = bool_decide (Z.of_nat i = focus st).

(** The object a pointer leads into. *)
Definition addr (r : Ref) : nat :=
  match r with
  | Obj a | ScrollBarOf a | SubMenuOf a _ => a
  end.

(** The focus between two calls of the window's methods: nothing is
    focused in an empty chain; in a chain with entries the index is
    inside it, the entry there is active and no other entry is. *)
Definition focus_inv (st : State) : Prop :=
  chain_ok st /\
  ((chain st = [] /\ focus st = -1) \/
   (0 <= focus st < len (chain st) /\ focus_marks_active st)).

(** An object that [AddElement] has not been given yet: the address
    holds an element, no entry of the chain leads into it, and a button
    (the one kind [AddElement] does not reset) is inactive. *)
Definition addable (st : State) (a : nat) : Prop :=
  (exists e, heap st !! a = Some e /\ (kind e = 1%nat -> is_active e = false)) /\
  (forall r, r ∈ chain st -> addr r <> a).

(** The elements at the addresses of a list added to the window, in order. *)
Definition AddElements (l : list nat) (st : State) : option State :=
  foldl (fun acc a => st ← acc; AddElement (Obj a) st) (Some st) l.

End Window.

(** ** The key dispatcher: one iteration of the loop of [WindowActions] *)

Module Dispatch.
Import Window.

(** The outcome of one key: the flags [loopNeedsRender] and
    [loopShouldQuit]. *)
Record Flags : Type := mkFlags { needsRender : bool; shouldQuit : bool }.

Definition quiet : Flags := mkFlags false false.
Definition render : Flags := mkFlags true false.
Definition quit : Flags := mkFlags false true.

(** Key bytes. *)
Definition ESC : Z := 27.
Definition LBRACKET : Z := 91.
Definition TAB : Z := 9.
Definition ENTER : Z := 13.
Definition CTRL_C : Z := 3.

Section WithClosures.

(** The closures of the application, as functions of the program state:
    the window's [KeyStrokeHandler] (its results are [handled],
    [needsRender], [shouldQuit]), an action of a button, menu item or
    prompt button (its result is the [bool] it returns), and a
    notification with an integer argument ([OnItemSelected], [OnScroll]).
    [MakeRaw_ok] tells whether [term.MakeRaw] succeeds after a button
    action. *)
Variable HandleKeyStroke : Callback -> list Z -> State -> State * (bool * bool * bool).
Variable call_action : Callback -> State -> State * bool.
Variable call_notify : Callback -> Z -> State -> State.
Variable MakeRaw_ok : bool.

(** [sb.SetValue(v)] through a pointer to a scroll bar. *)
Definition ScrollBar_SetValue (r : Ref) (v : Z) (st : State) : option State :=
  e ← deref st r;
  match e with
  | EScrollBar sb =>
      let '(sb, fired) := ScrollBar.SetValue v sb in
      let st := assign r (EScrollBar sb) st in
      match fired with
      | Some (SyncViewTopLine, newValue) =>
          match r with
          | ScrollBarOf a =>
              match heap st !! a with
              | Some (ETextArea ta) =>
                  Some (set_heap (<[a := ETextArea (TextArea.set_viewTopLine newValue ta)]>
                                    (heap st)) st)
              | _ => Some st
              end
          | _ => Some st
          end
      | Some (External cb, newValue) => Some (call_notify (External cb) newValue st)
      | None => Some st
      end
  | _ => None
  end.

(** [mb.ActivateSelected()] through a pointer to a menu bar. *)
Definition MenuBar_ActivateSelected (r : Ref) (st : State) : option (State * bool) :=
  e ← deref st r;
  match e with
  | EMenuBar mb =>
      if negb (MenuBar.IsActive mb) then Some (st, false)
      else
        '(mb, currentMenu, action) ← MenuBar.ActivateSelected_begin mb;
        let st := assign r (EMenuBar mb) st in
        let '(st, result) :=
          match action with
          | Some cb => call_action cb st
          | None => (st, false)
          end in
        e ← deref st r;
        match e with
        | EMenuBar mb =>
            '(mb, result) ← MenuBar.ActivateSelected_end result currentMenu mb;
            Some (assign r (EMenuBar mb) st, result)
        | _ => None
        end
  | _ => None
  end.

(** [p.ActivateSelected()] through a pointer to a prompt. *)
Definition Prompt_ActivateSelected (r : Ref) (st : State) : option (State * bool) :=
  e ← deref st r;
  match e with
  | EPrompt p =>
      match Prompt.ActivateSelected_begin p with
      | Some cb =>
          let '(st, result) := call_action cb st in
          e ← deref st r;
          match e with
          | EPrompt p =>
              let '(p, result) := Prompt.ActivateSelected_end result p in
              Some (assign r (EPrompt p) st, result)
          | _ => None
          end
      | None => Some (st, false)
      end
  | _ => None
  end.

(** The loop of [RadioGroup.Select] over the buttons. *)
Fixpoint select_buttons (i : Z) (selectedIndex : Z) (buttons : list nat)
    (h : gmap nat Element) : gmap nat Element :=
  match buttons with
  | [] => h
  | a :: rest =>
      let h :=
        match h !! a with
        | Some (ERadioButton btn) =>
            <[a := ERadioButton (RadioButton.set_IsSelected (i =? selectedIndex) btn)]> h
        | _ => h
        end in
      select_buttons (i + 1) selectedIndex rest h
  end.

(** [rg.Select(selectedIndex)] through a pointer to a group. *)
Definition RadioGroup_Select (g : nat) (selectedIndex : Z) (st : State) : option State :=
  rg ← groups st !! g;
  let buttons := RadioGroup.Buttons rg in
  if (selectedIndex <? 0) || (selectedIndex >=? len buttons) then Some st
  else
    a ← index buttons selectedIndex;
    e ← heap st !! a;
    match e with
    | ERadioButton btn =>
        let rg := RadioGroup.mk buttons selectedIndex (RadioButton.Value btn) in
        let st := set_groups (<[g := rg]> (groups st)) st in
        Some (set_heap (select_buttons 0 selectedIndex buttons (heap st)) st)
    | _ => None
    end.

(** The position of a button among the buttons of its group. *)
Fixpoint position (a : nat) (buttons : list nat) (i : Z) : Z :=
  match buttons with
  | [] => -1
  | b :: rest => if bool_decide (b = a) then i else position a rest (i + 1)
  end.

(** The focused element, when the focus index is inside the chain. *)
Definition focusedElement (st : State) : option (Ref * Element) :=
  if (focus st >=? 0) && (focus st <? len (chain st)) then
    r ← index (chain st) (focus st);
    e ← deref st r;
    Some (r, e)
  else None.

Definition focus_next (st : State) : option State := setFocus (focus st +i 1) st.
Definition focus_previous (st : State) : option State := setFocus (focus st -i 1) st.

Definition with_flags (f : Flags) (st : option State) : option (State * Flags) :=
  st ← st; Some (st, f).

(** The branch of an active menu bar. *)
Definition menubar_keys (r : Ref) (key : list Z) (st : State) : option (State * Flags) :=
  let on_bar (f : MenuBar.t -> option MenuBar.t) :=
    with_flags render
      (modify r (fun e => match e with
                          | EMenuBar mb => EMenuBar <$> f mb
                          | _ => None
                          end) st) in
  match key with
  | [27; 91; 65] => on_bar MenuBar.MoveUp
  | [27; 91; 66] => on_bar MenuBar.MoveDown
  | [27; 91; 67] => on_bar MenuBar.MoveRight
  | [27; 91; 68] => on_bar MenuBar.MoveLeft
  | [27; 91; 90] => with_flags render (focus_previous st)
  | [9] => with_flags render (focus_next st)
  | [13] =>
      '(st, shouldQuit) ← MenuBar_ActivateSelected r st;
      Some (st, mkFlags true shouldQuit)
  | [27] => on_bar MenuBar.Deactivate
  | [3] => Some (st, quit)
  | _ => Some (st, quiet)
  end.

(** The branch of an active prompt. *)
Definition prompt_keys (r : Ref) (p : Prompt.t) (key : list Z) (st : State)
  : option (State * Flags) :=
  let on_prompt (f : Prompt.t -> option Prompt.t) (st : State) :=
    modify r (fun e => match e with
                       | EPrompt p => EPrompt <$> f p
                       | _ => None
                       end) st in
  match key with
  | [27; 91; 67] => with_flags render (on_prompt Prompt.SelectNext st)
  | [27; 91; 68] => with_flags render (on_prompt Prompt.SelectPrevious st)
  | [27; 91; 90] =>
      if negb (Prompt.IsModal p) then with_flags render (focus_previous st)
      else Some (st, quiet)
  | [9] =>
      if Prompt.IsModal p then with_flags render (on_prompt Prompt.SelectNext st)
      else with_flags render (focus_next st)
  | [13] =>
      '(st, shouldQuit) ← Prompt_ActivateSelected r st;
      Some (st, mkFlags true shouldQuit)
  | [27] =>
      if negb (Prompt.IsModal p) then
        st ← on_prompt (fun p => Some (Prompt.SetActive false p)) st;
        with_flags render (focus_next st)
      else Some (st, quiet)
  | [3] => Some (st, quit)
  | _ => Some (st, quiet)
  end.

(** The branch of an active text area. *)
Definition textarea_keys (r : Ref) (key : list Z) (st : State) : option (State * Flags) :=
  let on_area (f : TextArea.t -> option TextArea.t) :=
    with_flags render
      (modify r (fun e => match e with
                          | ETextArea ta => ETextArea <$> f ta
                          | _ => None
                          end) st) in
  match key with
  | [k] =>
      if (k >=? 32) && (k <? 127) then on_area (TextArea.InsertChar k)
      else if (k =? 127) || (k =? 8) then on_area TextArea.DeleteChar
      else if k =? 9 then with_flags render (focus_next st)
      else if k =? 13 then on_area (TextArea.InsertChar TextArea.NL)
      else if k =? 3 then Some (st, quit)
      else Some (st, quiet)
  | [27; 91; 68] => on_area TextArea.MoveCursorLeft
  | [27; 91; 67] => on_area TextArea.MoveCursorRight
  | [27; 91; 65] => on_area TextArea.MoveCursorUp
  | [27; 91; 66] => on_area TextArea.MoveCursorDown
  | [27; 91; 90] => with_flags render (focus_previous st)
  | [27; 91; 51; 126] => on_area TextArea.DeleteForward
  | _ => Some (st, quiet)
  end.

(** The branch of an active text box; the text is edited byte-wise. *)
Definition textbox_keys (r : Ref) (tb : TextBox.t) (key : list Z) (st : State)
  : option (State * Flags) :=
  let put (tb : TextBox.t) := Some (assign r (ETextBox tb) st, render) in
  match key with
  | [k] =>
      if (k >=? 32) && (k <? 127) then
        let tb :=
          if TextBox.IsPristine tb
          then TextBox.set_IsPristine false (TextBox.set_CursorPos 0 (TextBox.set_Text [] tb))
          else tb in
        before ← slice_to (TextBox.Text tb) (TextBox.CursorPos tb);
        after ← slice_from (TextBox.Text tb) (TextBox.CursorPos tb);
        let tb := TextBox.set_Text (before ++ [Utf8.byte k] ++ after) tb in
        put (TextBox.set_CursorPos (TextBox.CursorPos tb +i 1) tb)
      else if (k =? 127) || (k =? 8) then
        if TextBox.CursorPos tb >? 0 then
          before ← slice_to (TextBox.Text tb) (TextBox.CursorPos tb -i 1);
          after ← slice_from (TextBox.Text tb) (TextBox.CursorPos tb);
          let tb := TextBox.set_Text (before ++ after) tb in
          let tb := TextBox.set_CursorPos (TextBox.CursorPos tb -i 1) tb in
          put (TextBox.set_IsPristine false tb)
        else Some (st, quiet)
      else if k =? 9 then with_flags render (focus_next st)
      else if k =? 13 then with_flags render (focus_next st)
      else if k =? 3 then Some (st, quit)
      else Some (st, quiet)
  | [27; 91; 68] =>
      if TextBox.CursorPos tb >? 0 then
        put (TextBox.set_IsPristine false
               (TextBox.set_CursorPos (TextBox.CursorPos tb -i 1) tb))
      else Some (st, quiet)
  | [27; 91; 67] =>
      if TextBox.CursorPos tb <? len (TextBox.Text tb) then
        put (TextBox.set_IsPristine false
               (TextBox.set_CursorPos (TextBox.CursorPos tb +i 1) tb))
      else Some (st, quiet)
  | [27; 91; 90] => with_flags render (focus_previous st)
  | [27; 91; 51; 126] =>
      if TextBox.CursorPos tb <? len (TextBox.Text tb) then
        before ← slice_to (TextBox.Text tb) (TextBox.CursorPos tb);
        after ← slice_from (TextBox.Text tb) (TextBox.CursorPos tb +i 1);
        put (TextBox.set_IsPristine false (TextBox.set_Text (before ++ after) tb))
      else Some (st, quiet)
  | _ => Some (st, quiet)
  end.

(** The branch of an active container. *)
Definition container_keys (r : Ref) (c : Container.t) (key : list Z) (st : State)
  : option (State * Flags) :=
  match key with
  | [27; 91; 65] => Some (assign r (EContainer (Container.SelectPrevious c)) st, render)
  | [27; 91; 66] => Some (assign r (EContainer (Container.SelectNext c)) st, render)
  | [27; 91; 90] => with_flags render (focus_previous st)
  | [9] => with_flags render (focus_next st)
  | [13] =>
      match Container.OnItemSelected c with
      | Some cb =>
          if Container.SelectedIndex c >=? 0
          then Some (call_notify cb (Container.SelectedIndex c) st, render)
          else Some (st, render)
      | None => Some (st, render)
      end
  | [3] | [113] | [81] => Some (st, quit)
  | _ => Some (st, quiet)
  end.

(** The branch of an active scroll bar. *)
Definition scrollbar_keys (r : Ref) (sb : ScrollBar.t) (key : list Z) (st : State)
  : option (State * Flags) :=
  match key with
  | [27; 91; 65] =>
      if ScrollBar.Visible sb
      then with_flags render (ScrollBar_SetValue r (ScrollBar.Value sb -i 1) st)
      else Some (st, quiet)
  | [27; 91; 66] =>
      if ScrollBar.Visible sb
      then with_flags render (ScrollBar_SetValue r (ScrollBar.Value sb +i 1) st)
      else Some (st, quiet)
  | [27; 91; 90] => with_flags render (focus_previous st)
  | [9] | [13] => with_flags render (focus_next st)
  | [3] | [113] | [81] => Some (st, quit)
  | _ => Some (st, quiet)
  end.

(** The last branch: buttons, check boxes, radio buttons, elements that
    are focused but not active, and no focused element at all. *)
Definition other_keys (focused : option (Ref * Element)) (key : list Z) (st : State)
  : option (State * Flags) :=
  match key with
  | [9] =>
      if len (chain st) >? 0 then with_flags render (focus_next st)
      else Some (st, quiet)
  | [13] =>
      match focused with
      | Some (_, EButton btn) =>
          if Button.IsActive btn then
            match Button.Action btn with
            | Some cb =>
                let '(st, quitAction) := call_action cb st in
                if negb quitAction then
                  if MakeRaw_ok then Some (st, render) else Some (st, quit)
                else Some (st, quit)
            | None => Some (st, quiet)
            end
          else with_flags render (focus_next st)
      | Some (r, ECheckBox cb) =>
          if CheckBox.IsActive cb then
            Some (assign r (ECheckBox (CheckBox.set_Checked (negb (CheckBox.Checked cb)) cb)) st,
                  render)
          else with_flags render (focus_next st)
      | Some (Obj a, ERadioButton rb) =>
          if RadioButton.IsActive rb then
            rg ← groups st !! RadioButton.Group rb;
            let targetIndex := position a (RadioGroup.Buttons rg) 0 in
            if negb (targetIndex =? -1)
            then with_flags render (RadioGroup_Select (RadioButton.Group rb) targetIndex st)
            else Some (st, quiet)
          else with_flags render (focus_next st)
      | _ => with_flags render (focus_next st)
      end
  | [113] | [81] | [3] => Some (st, quit)
  | [27; 91; 90] =>
      if len (chain st) >? 0 then with_flags render (focus_previous st)
      else Some (st, quiet)
  | _ => Some (st, quiet)
  end.

(** The built-in key handling: the branch is chosen by the kind of the
    focused element and its [IsActive] flag, the menu bar first. *)
Definition default_keys (key : list Z) (st : State) : option (State * Flags) :=
  let focused := focusedElement st in
  match focused with
  | Some (r, EMenuBar mb) =>
      if MenuBar.IsActive mb then menubar_keys r key st else other_keys focused key st
  | Some (r, EPrompt p) =>
      if Prompt.IsActive p then prompt_keys r p key st else other_keys focused key st
  | Some (r, ETextArea ta) =>
      if TextArea.IsActive ta then textarea_keys r key st else other_keys focused key st
  | Some (r, ETextBox tb) =>
      if TextBox.IsActive tb then textbox_keys r tb key st else other_keys focused key st
  | Some (r, EContainer c) =>
      if Container.IsActive c then container_keys r c key st else other_keys focused key st
  | Some (r, EScrollBar sb) =>
      if ScrollBar.IsActive sb then scrollbar_keys r sb key st else other_keys focused key st
  | _ => other_keys focused key st
  end.

(** One key of the loop of [WindowActions]: the custom handler has the
    first refusal. *)
Definition handle_key (key : list Z) (st : State) : option (State * Flags) :=
  match KeyHandler (win st) with
  | Some h =>
      let '(st', (handled, needsRender, shouldQuit)) := HandleKeyStroke h key st in
      if handled then Some (st', mkFlags needsRender shouldQuit)
      else default_keys key st'
  | None => default_keys key st
  end.

(** The key handler, if one is installed, declines the key and leaves
    the state as it is. *)
Definition handler_declines (key : list Z) (st : State) : Prop :=
  match KeyHandler (win st) with
  | Some h =>
      exists needsRender shouldQuit,
        HandleKeyStroke h key st = (st, (false, needsRender, shouldQuit))
  | None => True
  end.

(** Whichever prompt has the focus and is active is modal. *)
Definition focused_prompt_modal (st : State) : Prop :=
  forall r q, focusedElement st = Some (r, EPrompt q) ->
              Prompt.IsActive q = true -> Prompt.Modal q = true.

End WithClosures.

End Dispatch.

(** ** Segments and segment groups *)

Module Segment.

Record t : Type := mk {
  X : Z; Y : Z; Width : Z; Height : Z;
  Elements : list Window.Ref;
  BorderStyle : string;
  Title : bytes
}.

Definition set_pos (x y : Z) (s : t) : t :=
  mk x y (Width s) (Height s) (Elements s) (BorderStyle s) (Title s).
Definition set_Elements (v : list Window.Ref) (s : t) : t :=
  mk (X s) (Y s) (Width s) (Height s) v (BorderStyle s) (Title s).

(** [NewSegment] *)
Definition NewSegment (x y width height : Z) : t :=
  mk x y width height [] "" [].

(** [NewBorderedSegment] *)
Definition NewBorderedSegment (x y width height : Z) (borderStyle : string) (title : bytes) : t :=
  let borderStyle :=
    match Box.BoxTypes !! borderStyle with
    | Some _ => borderStyle
    | None => "single"%string
    end in
  mk x y width height [] borderStyle title.

(** [AddElement] *)
Definition AddElement (element : Window.Ref) (s : t) : t :=
  set_Elements (Elements s ++ [element]) s.

End Segment.

(** A group holds pointers to its segments: addresses into a store of
    segments. *)
Module SegmentGroup.

Record t : Type := mk { X : Z; Y : Z; Segments : list nat }.

Abbreviation store := (gmap nat Segment.t).

(** [NewSegmentGroup] *)
Definition NewSegmentGroup (x y : Z) : t := mk x y [].

(** The loop [for _, s := range sg.Segments { currentX += s.Width + 1 }]. *)
Fixpoint advance (h : store) (currentX : Z) (segments : list nat) : option Z :=
  match segments with
  | [] => Some currentX
  | a :: rest =>
      s ← h !! a;
      advance h (currentX +i (Segment.Width s +i 1)) rest
  end.

(** [AddSegment] *)
Definition AddSegment (segment : nat) (st : t * store) : option (t * store) :=
  let '(sg, h) := st in
  let currentX := X sg in
  let currentX := if len (Segments sg) >? 0 then currentX +i 1 else currentX in
  currentX ← advance h currentX (Segments sg);
  s ← h !! segment;
  let h := <[segment := Segment.set_pos currentX (Y sg) s]> h in
  Some (mk (X sg) (Y sg) (Segments sg ++ [segment]), h).

(** [AddSegments] *)
Fixpoint AddSegments (segments : list nat) (st : t * store) : option (t * store) :=
  match segments with
  | [] => Some st
  | segment :: rest => st ← AddSegment segment st; AddSegments rest st
  end.

(** The loop of [GetTotalWidth] from position [i] on. *)
Fixpoint total_from (h : store) (n : Z) (i : Z) (totalWidth : Z) (segments : list nat)
  : option Z :=
  match segments with
  | [] => Some totalWidth
  | a :: rest =>
      segment ← h !! a;
      let totalWidth := totalWidth +i Segment.Width segment in
      let totalWidth := if i <? n -i 1 then totalWidth +i 1 else totalWidth in
      total_from h n (i + 1) totalWidth rest
  end.

(** [GetTotalWidth] *)
Definition GetTotalWidth (sg : t) (h : store) : option Z :=
  total_from h (len (Segments sg)) 0 0 (Segments sg).

(** The loop of [GetMaxHeight]. *)
Fixpoint max_from (h : store) (maxHeight : Z) (segments : list nat) : option Z :=
  match segments with
  | [] => Some maxHeight
  | a :: rest =>
      segment ← h !! a;
      max_from h (if Segment.Height segment >? maxHeight
                  then Segment.Height segment else maxHeight) rest
  end.

(** [GetMaxHeight] *)
Definition GetMaxHeight (sg : t) (h : store) : option Z :=
  max_from h 0 (Segments sg).

(** The widths of the segments of a list of pointers. *)
Definition widths (h : store) (segments : list nat) : list Z :=
  omap (fun a => Segment.Width <$> h !! a) segments.

Definition sum (l : list Z) : Z := fold_right Z.add 0 l.

(** The column behind segments of the widths [ws] in a group at [x]:
    each segment is followed by a separator column, and one column more
    is left free once the group holds a segment. *)
Definition position (x : Z) (ws : list Z) : Z :=
  x + (if len ws >? 0 then 1 else 0) + sum ws + len ws.

(** A group at [(x, y)] filled with the segments [done] of the store
    [h0]: each of them stands at its column, in the row of the group,
    otherwise as it was, and no other segment has been written to. *)
Definition placed (x y : Z) (h0 : store) (done : list nat) (st : t * store) : Prop :=
  X (fst st) = x /\ Y (fst st) = y /\ Segments (fst st) = done /\
  (forall (k : nat) a, done !! k = Some a ->
     exists s, h0 !! a = Some s /\
       snd st !! a = Some (Segment.set_pos (position x (widths h0 (take k done))) y s)) /\
  (forall a, a ∉ done -> snd st !! a = h0 !! a).

End SegmentGroup.

(** ** Text wrapping ([wrapText])

    [strings.Fields] is a parameter: the text is cut into words by the
    library, the lines are filled by the loop of [wrapText]. *)

Module Banner.

Section WithFields.
Variable Fields : bytes -> list bytes.

(** The loop of [wrapText] over [words[1:]]. *)
Fixpoint wrap_loop (width : Z) (lines : list bytes) (currentLine : bytes)
    (words : list bytes) : list bytes :=
  match words with
  | [] => lines ++ [currentLine]
  | word :: rest =>
      if len currentLine +i len word +i 1 <=? width
      then wrap_loop width lines (currentLine ++ [" "%char] ++ word) rest
      else wrap_loop width (lines ++ [currentLine]) word rest
  end.

(** [wrapText] *)
Definition wrapText (text : bytes) (width : Z) : list bytes :=
  match Fields text with
  | [] => [[]]
  | first :: rest => wrap_loop width [] first rest
  end.

End WithFields.

(** [EstimateStringWidth] *)
Definition EstimateStringWidth (s : bytes) : Z := wrap (Utf8.RuneLen s * 8).

End Banner.

(** ** States of the elements between two calls *)

Module Shape.

(** A text box whose cursor is a position of its text. *)
Definition textbox_ok (tb : TextBox.t) : Prop :=
  0 <= TextBox.CursorPos tb <= len (TextBox.Text tb) /\ len (TextBox.Text tb) < int_max.

(** A menu as the methods leave it: the selection is an item or -1 (no
    selection), and no item but the selected one is marked active. *)
Definition menu_ok (m : Menu.t) : Prop :=
  -1 <= Menu.SelectedIdx m < Z.max 1 (len (Menu.Items m)) /\
  len (Menu.Items m) < int_max /\
  forall (i : nat) item, Menu.Items m !! i = Some item ->
    Z.of_nat i <> Menu.SelectedIdx m -> Menu.IsActive item = false.

(** A prompt as the methods leave it: the selection is a button (0 when
    there is none) and exactly the selected button of an active prompt
    is marked. *)
Definition prompt_ok (p : Prompt.t) : Prop :=
  0 <= Prompt.SelectedIdx p < Z.max 1 (len (Prompt.Buttons p)) /\
  len (Prompt.Buttons p) < int_max /\
  forall (i : nat) b, Prompt.Buttons p !! i = Some b ->
    Prompt.ButtonIsActive b = (Z.of_nat i =? Prompt.SelectedIdx p) && Prompt.IsActive p.

(** The counters of a text area agree with its text. *)
Definition counts_ok (ta : TextArea.t) : Prop :=
  TextArea.charCount ta = TextArea.count_chars 0 (TextArea.Lines ta) /\
  TextArea.wordCount ta = Utf8.FieldsCount (Join (TextArea.Lines ta) [" "%char]).

(** A radio group whose buttons are distinct radio buttons of the store. *)
Definition group_ok (st : Window.State) (g : nat) : Prop :=
  exists rg, Window.groups st !! g = Some rg /\
    NoDup (RadioGroup.Buttons rg) /\
    forall a, a ∈ RadioGroup.Buttons rg ->
      exists rb, Window.heap st !! a = Some (ERadioButton rb).

End Shape.

(** ** Concrete states used to exercise the statements *)

Module Samples.

Definition sample_bar : ScrollBar.t :=
  ScrollBar.set_OnScroll (Some (External 0))
    (ScrollBar.set_Value 3 (ScrollBar.NewScrollBar 0 0 10 0 15)).

(** Twenty-five rows of content. *)
Definition rows25 : list bytes := replicate 25 [].

Definition sample_container : Container.t :=
  Nat.iter 12 Container.HighlightNext (Container.NewContainer 0 0 20 10 rows25).

(** A focused text area holding two lines, "ab" and "c". *)
Definition sample_text_area : TextArea.t :=
  TextArea.set_IsActive true
    (TextArea.NewTextArea ["a"; "b"; LF; "c"]%char 0 0 20 5 0 true true).

(** A focused text area three rows high (two rows of text) that holds the
    lines "a", "b" and "c", after one [MoveCursorDown]: the cursor is on
    the last line of the view. *)
Definition tall_text_area : TextArea.t :=
  let ta := TextArea.set_IsActive true
              (TextArea.NewTextArea ["a"; LF; "b"; LF; "c"]%char 0 0 20 3 0 true true) in
  default ta (TextArea.MoveCursorDown ta).

(** Closures that do nothing: a key handler that declines every key,
    actions that return [false]. *)
Definition decline : Callback -> list Z -> Window.State -> Window.State * (bool * bool * bool) :=
  fun _ _ st => (st, (false, false, false)).
Definition no_action : Callback -> Window.State -> Window.State * bool :=
  fun _ st => (st, false).
Definition no_notify : Callback -> Z -> Window.State -> Window.State :=
  fun _ _ st => st.

Definition handle_key : list Z -> Window.State -> option (Window.State * Dispatch.Flags) :=
  Dispatch.handle_key decline no_action no_notify true.

(** The keys of a list, one after the other. *)
Definition handle_keys (keys : list (list Z)) (st : Window.State) : option Window.State :=
  foldl (fun acc key => st ← acc; fst <$> handle_key key st) (Some st) keys.

Definition KEY_UP : list Z := [27; 91; 65].
Definition KEY_DOWN : list Z := [27; 91; 66].
Definition KEY_ENTER : list Z := [13].
Definition KEY_ESCAPE : list Z := [27].

(** Every rune has width class [Neutral]. *)
Definition neutral : Z -> Width.Kind := fun _ => Width.Neutral.

Definition empty_window : Window.t := Window.NewWindow [] [] 0 0 80 24 "single".

(** A menu bar "F" whose sub-menu holds "R" and "x", "R" having the
    sub-menu with the single item "a". *)
Definition nested_bar : MenuBar.t :=
  let bar := fst (MenuBar.AddSubMenu neutral ["F"%char] (MenuBar.NewMenuBar 0 0 40)) in
  let '(file, p) := Menu.AddSubMenu neutral ["R"%char] (Menu.NewMenu 0 0 false) in
  let recent := Menu.AddItem neutral (Menu.NewMenuItem neutral ["a"%char] None)
                  (Menu.NewMenu 0 0 false) in
  let file := Menu.AddItem neutral (Menu.NewMenuItem neutral ["x"%char] None)
                (Menu.put file p recent) in
  MenuBar.set_Menu (Menu.put (MenuBar.Menu bar) [0%nat] file) bar.

(** That menu bar after [Activate]: "F" is selected. *)
Definition active_bar : MenuBar.t := default nested_bar (MenuBar.Activate nested_bar).

(** A window whose only element is that menu bar, focused. *)
Definition menu_state : option Window.State :=
  Window.AddElement (Window.Obj 0)
    (Window.mkState {[ 0%nat := EMenuBar nested_bar ]} ∅ empty_window).

(** The active sub-menu pointer and the open flags and selections of the
    top-level menu, of the sub-menu of "F" and of the sub-menu of "R". *)
Definition menu_view (st : Window.State)
  : option (option Menu.path * Z * option (bool * Z) * option (bool * Z)) :=
  e ← Window.heap st !! 0%nat;
  match e with
  | EMenuBar mb =>
      let view := fun m => (Menu.IsOpen m, Menu.SelectedIdx m) in
      Some (MenuBar.ActiveMenu mb, Menu.SelectedIdx (MenuBar.Menu mb),
            view <$> Menu.get (MenuBar.Menu mb) [0%nat],
            view <$> Menu.get (MenuBar.Menu mb) [0%nat; 0%nat])
  | _ => None
  end.

(** A dialog prompt added before a label. *)
Definition dialog : Prompt.t :=
  Prompt.NewDialogPrompt ["T"%char] ["m"%char] 2 2 30
    [Prompt.NewPromptButton ["O"%char; "K"%char] None].

Definition prompt_state : option Window.State :=
  st ← Window.AddElement (Window.Obj 0)
         (Window.mkState {[ 0%nat := EPrompt dialog;
                            1%nat := ELabel (Label.NewLabel ["l"%char] 0 0) ]}
                         ∅ empty_window);
  Window.AddElement (Window.Obj 1) st.

(** Two buttons, the first one focused. *)
Definition two_buttons : option Window.State :=
  st ← Window.AddElement (Window.Obj 0)
         (Window.mkState {[ 0%nat := EButton (Button.NewButton ["a"%char] 0 0 5 None);
                            1%nat := EButton (Button.NewButton ["b"%char] 0 1 5 None) ]}
                         ∅ empty_window);
  Window.AddElement (Window.Obj 1) st.

(** The state of an [option], the empty window standing for a panic. *)
Definition the (st : option Window.State) : Window.State :=
  default (Window.mkState ∅ ∅ empty_window) st.

(** A window with a button, a container (and its scroll bar), the nested
    menu bar, the dialog, a text area and a label, added in this order. *)
Definition mixed_heap : gmap nat Element :=
  {[ 0%nat := EButton (Button.NewButton ["a"%char] 0 0 5 None);
     1%nat := EContainer (Container.NewContainer 0 1 20 10 rows25);
     2%nat := EMenuBar nested_bar;
     3%nat := EPrompt dialog;
     4%nat := ETextArea (TextArea.NewTextArea ["t"%char] 0 12 20 5 0 true true);
     5%nat := ELabel (Label.NewLabel ["l"%char] 0 0) ]}.

Definition mixed_state : Window.State :=
  the (foldl (fun acc a => st ← acc; Window.AddElement (Window.Obj a) st)
             (Some (Window.mkState mixed_heap ∅ empty_window))
             [0; 1; 2; 3; 4; 5]%nat).

(** The window of [prompt_state]: the dialog is focused and active. *)
Definition dialog_state : Window.State := the prompt_state.

(** A dialog with the buttons "Yes" and "No". *)
Definition two_button_dialog : Prompt.t :=
  Prompt.NewDialogPrompt ["T"%char] ["m"%char] 2 2 30
    [Prompt.NewPromptButton ["Y"%char] None; Prompt.NewPromptButton ["N"%char] None].

(** A single-line prompt (not modal) and a button. *)
Definition line_prompt_state : Window.State :=
  the (Window.AddElements [0; 1]%nat
         (Window.mkState
            {[ 0%nat := EPrompt (Prompt.NewSingleLinePrompt ["T"%char] ["m"%char] 0 0 30
                                   [Prompt.NewPromptButton ["O"%char] None]);
               1%nat := EButton (Button.NewButton ["a"%char] 0 1 5 None) ]}
            ∅ empty_window)).

(** A form: a check box, two radio buttons of one group, a text box and
    a container of 25 rows; [form_focus i] is the form with the focus on
    entry [i] of its chain. *)
Definition form_heap : gmap nat Element :=
  {[ 0%nat := ECheckBox (CheckBox.NewCheckBox ["c"%char] 0 0 false);
     1%nat := ERadioButton (RadioButton.mk ["a"%char] ["A"%char] 0 1 false false 0);
     2%nat := ERadioButton (RadioButton.mk ["b"%char] ["B"%char] 0 2 false false 0);
     3%nat := ETextBox (TextBox.NewTextBox ["h"%char; "i"%char] 0 3 10);
     4%nat := EContainer (Container.NewContainer 0 4 20 10 rows25) ]}.

Definition form_state : Window.State :=
  the (Window.AddElements [0; 1; 2; 3; 4]%nat
         (Window.mkState form_heap {[ 0%nat := RadioGroup.mk [1; 2]%nat (-1) [] ]}
                         empty_window)).

Definition form_focus (i : Z) : Window.State := the (Window.setFocus i form_state).

(** The scroll bar of [sample_bar] (value 3) once its maximum has been
    lowered to 2, as [updateScrollState] lowers it before it calls
    [SetValue] with the stored value. *)
Definition lowered_bar : ScrollBar.t := ScrollBar.set_MaxValue 2 sample_bar.

(** Twenty-five rows in a viewport of ten whose highlight was set past
    the content ([HighlightedIndex] is an exported field). *)
Definition overshoot_container : Container.t :=
  Container.set_HighlightedIndex 40 (Container.NewContainer 0 0 20 10 rows25).

(** A container made empty (no row is highlighted), given twenty-five
    rows by [SetContent] and scrolled to offset 5 through its scroll bar,
    as the arrow keys on the focused scroll bar do. *)
Definition unlit_container : Container.t :=
  Container.scroll_to 5
    (Container.SetContent rows25 (Container.NewContainer 0 0 20 10 [])).

(** Twenty-five rows in a viewport of ten, row 22 highlighted, with the
    value 20 written into the scroll bar that [GetScrollbar] hands out. *)
Definition stray_container : Container.t :=
  let c := Container.set_HighlightedIndex 22 (Container.NewContainer 0 0 20 10 rows25) in
  Container.set_scrollBar (ScrollBar.set_Value 20 (Container.scrollBar c)) c.

(** The call [prompt.SetActive(true)] an application makes on the prompt
    at an address. *)
Definition show_prompt (a : nat) (st : Window.State) : option Window.State :=
  Window.modify (Window.Obj a)
    (fun e => match e with
              | EPrompt p => Some (EPrompt (Prompt.SetActive true p))
              | _ => None
              end) st.

(** Two buttons and a dialog added to a window, the dialog then shown
    with [SetActive(true)]: the first button has the focus. *)
Definition shown_prompt_state : Window.State :=
  the (st ← Window.AddElements [0; 1; 2]%nat
              (Window.mkState
                 {[ 0%nat := EButton (Button.NewButton ["a"%char] 0 0 5 None);
                    1%nat := EButton (Button.NewButton ["b"%char] 0 1 5 None);
                    2%nat := EPrompt dialog ]}
                 ∅ empty_window);
       show_prompt 2 st).

End Samples.
(** * Properties *)

(** ** Integers *)

Lemma wrap_id (z : Z) : in_int z -> wrap z = z.
Proof.
  unfold in_int, int_min, int_max, wrap. intros H.
  rewrite Z.mod_small by lia. lia.
Qed.

Lemma add_id (a b : Z) : in_int (a + b) -> a +i b = a + b.
Proof. apply wrap_id. Qed.

Lemma sub_id (a b : Z) : in_int (a - b) -> a -i b = a - b.
Proof. apply wrap_id. Qed.

Lemma len_nonneg {A} (l : list A) : 0 <= len l.
Proof. unfold len. lia. Qed.

(** Rewrites the wrapped operations whose operands are visibly in range. *)
Ltac unwrap :=
  repeat match goal with
  | |- context [?a +i ?b] =>
      rewrite (add_id a b) by (unfold in_int, int_min, int_max in *; lia)
  | |- context [?a -i ?b] =>
      rewrite (sub_id a b) by (unfold in_int, int_min, int_max in *; lia)
  end.

(** Case analysis on every integer comparison of the goal. *)
Ltac cmp :=
  repeat match goal with
  | |- context [?a <? ?b] => destruct (Z.ltb_spec a b); try lia
  | |- context [?a <=? ?b] => destruct (Z.leb_spec a b); try lia
  | |- context [?a >? ?b] => destruct (Z.gtb_spec a b); try lia
  | |- context [?a >=? ?b] => destruct (Z.geb_spec a b); try lia
  | |- context [?a =? ?b] => destruct (Z.eqb_spec a b); try lia
  end.

(** ** Slices *)

Section Slices.
Context {A : Type}.
Implicit Types l : list A.

Lemma len_app l1 l2 : len (l1 ++ l2) = len l1 + len l2.
Proof. unfold len. rewrite length_app. lia. Qed.

Lemma len_cons (x : A) l : len (x :: l) = 1 + len l.
Proof. unfold len. simpl. lia. Qed.

Lemma len_nil_iff l : len l = 0 <-> l = [].
Proof. unfold len. destruct l; simpl; split; intros; try discriminate; try lia; auto. Qed.

Lemma index_Some l (i : Z) :
  0 <= i < len l -> exists x, index l i = Some x /\ l !! Z.to_nat i = Some x.
Proof.
  intros H. unfold index.
  destruct (Z.leb_spec 0 i); [|lia]. destruct (Z.ltb_spec i (len l)); [|lia]. simpl.
  destruct (lookup_lt_is_Some_2 l (Z.to_nat i)) as [x Hx]; [unfold len in *; lia|].
  exists x. rewrite Hx. auto.
Qed.

Lemma index_inv l (i : Z) (x : A) :
  index l i = Some x -> 0 <= i < len l /\ l !! Z.to_nat i = Some x.
Proof.
  unfold index.
  destruct (Z.leb_spec 0 i); simpl; [|discriminate].
  destruct (Z.ltb_spec i (len l)); simpl; [|discriminate]. auto with zarith.
Qed.

Lemma store_Some l (i : Z) (v : A) :
  0 <= i < len l -> store l i v = Some (<[Z.to_nat i := v]> l).
Proof.
  intros H. unfold store.
  destruct (Z.leb_spec 0 i); [|lia]. destruct (Z.ltb_spec i (len l)); [|lia]. reflexivity.
Qed.

Lemma len_insert l (n : nat) (v : A) : len (<[n := v]> l) = len l.
Proof. unfold len. rewrite length_insert. reflexivity. Qed.

Lemma slice_to_Some l (k : Z) :
  0 <= k <= len l -> slice_to l k = Some (take (Z.to_nat k) l).
Proof.
  intros H. unfold slice_to, slice.
  destruct (Z.leb_spec 0 0); [|lia]. destruct (Z.leb_spec 0 k); [|lia].
  destruct (Z.leb_spec k (len l)); [|lia]. simpl.
  rewrite Z.sub_0_r. reflexivity.
Qed.

Lemma slice_from_Some l (k : Z) :
  0 <= k <= len l -> slice_from l k = Some (drop (Z.to_nat k) l).
Proof.
  intros H. unfold slice_from, slice.
  destruct (Z.leb_spec 0 k); [|lia]. destruct (Z.leb_spec k (len l)); [|lia].
  destruct (Z.leb_spec (len l) (len l)); [|lia]. simpl.
  f_equal. apply take_ge. rewrite length_drop. unfold len. lia.
Qed.

Lemma len_take l (k : Z) : 0 <= k <= len l -> len (take (Z.to_nat k) l) = k.
Proof. unfold len. intros H. rewrite length_take. lia. Qed.

Lemma len_drop l (k : Z) : 0 <= k <= len l -> len (drop (Z.to_nat k) l) = len l - k.
Proof. unfold len. intros H. rewrite length_drop. lia. Qed.

End Slices.

(** ** ScrollBar *)

Module ScrollBarFacts.
Import ScrollBar.

Lemma SetValue_Value (sb : t) (v : Z) :
  Value (fst (SetValue v sb)) = clamped sb v.
Proof.
  unfold SetValue.
  destruct (Z.eqb_spec (clamped sb v) (Value sb)) as [E|E]; simpl.
  - congruence.
  - destruct (OnScroll sb); reflexivity.
Qed.

Lemma SetValue_frame (sb : t) (v : Z) :
  let sb' := fst (SetValue v sb) in
  MaxValue sb' = MaxValue sb /\ IsActive sb' = IsActive sb /\
  Visible sb' = Visible sb /\ OnScroll sb' = OnScroll sb /\
  Height sb' = Height sb.
Proof.
  unfold SetValue. destruct (negb _); [destruct (OnScroll _) eqn:E|]; simpl; auto.
Qed.

Lemma clamped_range (sb : t) (v : Z) :
  0 <= MaxValue sb -> 0 <= clamped sb v <= MaxValue sb.
Proof.
  unfold clamped. intros H.
  destruct (Z.ltb_spec v 0); [lia|].
  destruct (Z.gtb_spec v (MaxValue sb)); lia.
Qed.

Lemma clamped_in_range (sb : t) (v : Z) :
  0 <= v <= MaxValue sb -> clamped sb v = v.
Proof.
  unfold clamped. intros H.
  destruct (Z.ltb_spec v 0); [lia|].
  destruct (Z.gtb_spec v (MaxValue sb)); lia.
Qed.

(** C6. For every scroll bar and every integer [v], [SetValue v] stores
    [v] clamped into [[0, MaxValue]]: 0 for a negative [v], [MaxValue]
    for a [v] above it, [v] itself otherwise.  The [OnScroll]
    notification is made (with the stored value) exactly when the clamped
    value differs from the value stored before.  A call with the value
    already stored changes nothing and notifies nobody when that value
    is inside [[0, MaxValue]]; when it is outside, the call stores the
    clamped value and notifies. *)
Theorem SetValue_clamps_and_notifies (sb : t) (v : Z) :
  let sb' := fst (SetValue v sb) in
  let fired := snd (SetValue v sb) in
  (v < 0 -> Value sb' = 0) /\
  (0 <= v <= MaxValue sb -> Value sb' = v) /\
  (0 <= v -> MaxValue sb < v -> Value sb' = MaxValue sb) /\
  (0 <= MaxValue sb ->
     Value sb' = Z.max 0 (Z.min v (MaxValue sb)) /\ 0 <= Value sb' <= MaxValue sb) /\
  Value sb' = clamped sb v /\
  MaxValue sb' = MaxValue sb /\ OnScroll sb' = OnScroll sb /\
  (Value sb' <> Value sb ->
     fired = (fun cb => (cb, Value sb')) <$> OnScroll sb) /\
  (Value sb' = Value sb -> fired = None /\ sb' = sb) /\
  (forall cb, OnScroll sb = Some cb ->
     (is_Some fired <-> Value sb' <> Value sb)) /\
  (0 <= Value sb <= MaxValue sb -> SetValue (Value sb) sb = (sb, None)) /\
  (Value sb < 0 \/ MaxValue sb < Value sb ->
     Value (fst (SetValue (Value sb) sb)) <> Value sb /\
     snd (SetValue (Value sb) sb)
       = (fun cb => (cb, clamped sb (Value sb))) <$> OnScroll sb).
Proof.
  cbv zeta.
  pose proof (SetValue_Value sb v) as HV.
  pose proof (SetValue_frame sb v) as (FM & _ & _ & FO & _).
  assert (Hneg : v < 0 -> clamped sb v = 0).
  { intros Hv. unfold clamped. destruct (Z.ltb_spec v 0); [reflexivity|lia]. }
  assert (Hin : forall x, 0 <= x <= MaxValue sb -> clamped sb x = x)
    by (intros x; apply clamped_in_range).
  assert (Hup : 0 <= v -> MaxValue sb < v -> clamped sb v = MaxValue sb).
  { intros H0 Hv. unfold clamped.
    destruct (Z.ltb_spec v 0); [lia|].
    destruct (Z.gtb_spec v (MaxValue sb)); lia. }
  rewrite HV.
  split; [exact Hneg|]. split; [apply Hin|]. split; [exact Hup|].
  split.
  { intros Hmax. split; [|apply clamped_range, Hmax].
    destruct (Z.lt_ge_cases v 0) as [Hv|Hv]; [rewrite Hneg by exact Hv; lia|].
    destruct (Z.le_gt_cases v (MaxValue sb)) as [Hm|Hm].
    - rewrite Hin by lia. lia.
    - rewrite Hup by lia. lia. }
  split; [reflexivity|]. split; [exact FM|]. split; [exact FO|].
  split.
  { intros Hne. unfold SetValue.
    destruct (Z.eqb_spec (clamped sb v) (Value sb)); [contradiction|]. simpl.
    destruct (OnScroll sb); reflexivity. }
  split.
  { intros He. unfold SetValue.
    destruct (Z.eqb_spec (clamped sb v) (Value sb)); [|contradiction]. simpl. auto. }
  split.
  { intros cb Hcb. unfold SetValue.
    destruct (Z.eqb_spec (clamped sb v) (Value sb)) as [E|E]; simpl.
    - split; [intros [x Hx]; discriminate|contradiction].
    - rewrite Hcb. simpl. split; [auto|eauto]. }
  split.
  { intros Hr. unfold SetValue. rewrite (clamped_in_range sb (Value sb) Hr).
    rewrite Z.eqb_refl. reflexivity. }
  intros Hout. rewrite SetValue_Value.
  assert (Hne : clamped sb (Value sb) <> Value sb).
  { unfold clamped. destruct (Z.ltb_spec (Value sb) 0); [lia|].
    destruct (Z.gtb_spec (Value sb) (MaxValue sb)); lia. }
  split; [exact Hne|]. unfold SetValue.
  destruct (Z.eqb_spec (clamped sb (Value sb)) (Value sb)); [contradiction|]. simpl.
  destruct (OnScroll sb); reflexivity.
Qed.

(** A scroll bar that holds the value 3 while its maximum is 2, the
    state in which [updateScrollState] calls [SetValue] with the stored
    value: the call with the value already stored stores 2 and notifies. *)
Lemma SetValue_current_value_fires :
  Value Samples.lowered_bar = 3 /\ MaxValue Samples.lowered_bar = 2 /\
  SetValue (Value Samples.lowered_bar) Samples.lowered_bar
    = (set_Value 2 Samples.lowered_bar, Some (External 0, 2)) /\
  ~ (forall (sb : t), snd (SetValue (Value sb) sb) = None).
Proof.
  repeat split; try reflexivity.
  intros H. specialize (H Samples.lowered_bar). discriminate H.
Qed.

End ScrollBarFacts.

(** ** Container *)

Module ContainerFacts.
Import Container.

Lemma scroll_to_offset (c : t) (v : Z) :
  GetScrollOffset (scroll_to v c) = ScrollBar.clamped (scrollBar c) v.
Proof. unfold GetScrollOffset, scroll_to. simpl. apply ScrollBarFacts.SetValue_Value. Qed.

Lemma scroll_to_frame (c : t) (v : Z) :
  let c' := scroll_to v c in
  Height c' = Height c /\ Content c' = Content c /\
  totalContentHeight c' = totalContentHeight c /\
  needsScroll c' = needsScroll c /\
  HighlightedIndex c' = HighlightedIndex c /\
  ScrollBar.Visible (scrollBar c') = ScrollBar.Visible (scrollBar c) /\
  ScrollBar.MaxValue (scrollBar c') = ScrollBar.MaxValue (scrollBar c).
Proof.
  unfold scroll_to. simpl.
  pose proof (ScrollBarFacts.SetValue_frame (scrollBar c) v) as F. simpl in F.
  intuition.
Qed.

Lemma scroll_to_wf (c : t) (v : Z) : wf c -> wf (scroll_to v c).
Proof.
  intros (HH & HL & HT & HN & HV & HM & HO & HI & HE).
  pose proof (scroll_to_frame c v) as F. cbv zeta in F.
  destruct F as (F1 & F2 & F3 & F4 & F5 & F6 & F7).
  unfold wf, maxOffset in *. rewrite scroll_to_offset, ?F1, ?F2, ?F3, ?F4, ?F5, ?F6, ?F7.
  pose proof (ScrollBarFacts.clamped_range (scrollBar c) v) as R.
  rewrite HM in R.
  repeat split; try tauto; try lia.
Qed.

(** What [ensureHighlightVisible] computes, as the viewport rule states it. *)
Lemma ensureHighlightVisible_spec (c : t) :
  wf c -> 0 <= HighlightedIndex c ->
  let c' := ensureHighlightVisible c in
  let off := GetScrollOffset c in
  let hi := HighlightedIndex c in
  (hi < off -> GetScrollOffset c' = hi) /\
  (hi > off + Height c - 1 -> GetScrollOffset c' = hi - Height c + 1) /\
  (off <= hi <= off + Height c - 1 -> GetScrollOffset c' = off) /\
  0 <= GetScrollOffset c' <= maxOffset c.
Proof.
  intros Hwf Hhi. cbv zeta.
  destruct Hwf as (HH & HL & HT & HN & HV & HM & HO & HI & HE).
  pose proof (len_nonneg (Content c)) as Hlen.
  unfold ensureHighlightVisible. rewrite HV.
  unfold maxOffset in *. unfold GetScrollOffset in HO.
  destruct (Z.gtb_spec (len (Content c)) (Height c)) as [Hvis|Hvis]; simpl.
  - destruct (Z.ltb_spec (HighlightedIndex c) 0); [lia|]. simpl.
    unwrap.
    destruct (Z.ltb_spec (HighlightedIndex c) (ScrollBar.Value (scrollBar c))).
    + rewrite scroll_to_offset, ScrollBarFacts.clamped_in_range by lia.
      unfold GetScrollOffset. repeat split; intros; lia.
    + destruct (Z.gtb_spec (HighlightedIndex c)
                  (ScrollBar.Value (scrollBar c) + Height c - 1)).
      * rewrite scroll_to_offset, ScrollBarFacts.clamped_in_range by lia.
        unfold GetScrollOffset. repeat split; intros; lia.
      * unfold GetScrollOffset. repeat split; intros; lia.
  - unfold GetScrollOffset. repeat split; intros; lia.
Qed.

Lemma ensureHighlightVisible_wf (c : t) : wf c -> wf (ensureHighlightVisible c).
Proof.
  intros Hwf. unfold ensureHighlightVisible.
  destruct (negb _ || _); [assumption|].
  destruct (_ <? _); [apply scroll_to_wf; assumption|].
  destruct (_ >? _); [apply scroll_to_wf; assumption|assumption].
Qed.

Lemma ensureHighlightVisible_highlight (c : t) :
  HighlightedIndex (ensureHighlightVisible c) = HighlightedIndex c.
Proof.
  unfold ensureHighlightVisible.
  destruct (negb _ || _); [reflexivity|].
  destruct (_ <? _); [apply scroll_to_frame|].
  destruct (_ >? _); [apply scroll_to_frame|reflexivity].
Qed.

Lemma set_HighlightedIndex_wf (c : t) (v : Z) :
  wf c -> -1 <= v < Z.max 1 (len (Content c)) ->
  (len (Content c) = 0 -> v = -1) ->
  wf (set_HighlightedIndex v c).
Proof. unfold wf, maxOffset, GetScrollOffset. simpl. intuition. Qed.

Lemma HighlightNext_wf (c : t) : wf c -> wf (HighlightNext c).
Proof.
  intros Hwf. unfold HighlightNext.
  pose proof Hwf as (HH & HL & HT & HN & HV & HM & HO & HI & HE).
  pose proof (len_nonneg (Content c)) as Hlen.
  rewrite HT. unwrap.
  destruct (Z.ltb_spec (HighlightedIndex c) (len (Content c) - 1)); [|assumption].
  apply ensureHighlightVisible_wf, set_HighlightedIndex_wf; [assumption|lia|lia].
Qed.

Lemma HighlightPrevious_wf (c : t) : wf c -> wf (HighlightPrevious c).
Proof.
  intros Hwf. unfold HighlightPrevious.
  pose proof Hwf as (HH & HL & HT & HN & HV & HM & HO & HI & HE).
  pose proof (len_nonneg (Content c)) as Hlen.
  destruct (Z.gtb_spec (HighlightedIndex c) 0); [|assumption].
  unwrap.
  apply ensureHighlightVisible_wf, set_HighlightedIndex_wf; [assumption|lia|lia].
Qed.

(** After a highlight move the highlighted row is inside the viewport. *)
Lemma HighlightNext_visible (c : t) :
  wf c -> 0 <= HighlightedIndex c < len (Content c) - 1 ->
  let c' := HighlightNext c in
  HighlightedIndex c' = HighlightedIndex c + 1 /\
  (len (Content c) > Height c ->
   GetScrollOffset c' <= HighlightedIndex c' <= GetScrollOffset c' + Height c - 1 \/
   HighlightedIndex c' < GetScrollOffset c).
Proof.
  intros Hwf Hhi. cbv zeta.
  pose proof Hwf as (HH & HL & HT & HN & HV & HM & HO & HI & HE).
  unfold HighlightNext. rewrite HT. unwrap.
  destruct (Z.ltb_spec (HighlightedIndex c) (len (Content c) - 1)); [|lia].
  rewrite ensureHighlightVisible_highlight. simpl. split; [reflexivity|].
  intros Hvis.
  set (c1 := set_HighlightedIndex (HighlightedIndex c + 1) c).
  assert (Hwf1 : wf c1) by (apply set_HighlightedIndex_wf; [assumption|lia|lia]).
  pose proof (ensureHighlightVisible_spec c1 Hwf1) as S. simpl in S.
  specialize (S ltac:(lia)). destruct S as (S1 & S2 & S3 & S4).
  change (GetScrollOffset c1) with (GetScrollOffset c) in *.
  destruct (Z.lt_ge_cases (HighlightedIndex c + 1) (GetScrollOffset c)); [right; lia|].
  left.
  destruct (Z.le_gt_cases (HighlightedIndex c + 1) (GetScrollOffset c + Height c - 1)).
  - rewrite S3 by lia. lia.
  - rewrite S2 by lia. lia.
Qed.

(** What [ensureHighlightVisible] does in every state in which its sums
    stay in range. *)
Lemma ensureHighlightVisible_cases (c : t) :
  no_overflow c ->
  let c' := ensureHighlightVisible c in
  let off := GetScrollOffset c in
  let hi := HighlightedIndex c in
  (ScrollBar.Visible (scrollBar c) = false \/ hi < 0 -> c' = c) /\
  (off <= hi <= off + Height c - 1 -> c' = c) /\
  (ScrollBar.Visible (scrollBar c) = true -> 0 <= hi -> hi < off ->
     c' = scroll_to hi c) /\
  (ScrollBar.Visible (scrollBar c) = true -> 0 <= hi -> off <= hi ->
   hi > off + Height c - 1 -> c' = scroll_to (hi - Height c + 1) c).
Proof.
  intros (H1 & H2 & H3 & H4). cbv zeta.
  unfold ensureHighlightVisible, GetScrollOffset in *.
  rewrite (add_id _ _ H1), (sub_id _ _ H2), (sub_id _ _ H3), (add_id _ _ H4).
  destruct (ScrollBar.Visible (scrollBar c)); cbn [negb orb];
    destruct (Z.ltb_spec (HighlightedIndex c) 0);
    destruct (Z.ltb_spec (HighlightedIndex c) (ScrollBar.Value (scrollBar c)));
    destruct (Z.gtb_spec (HighlightedIndex c)
                (ScrollBar.Value (scrollBar c) + Height c - 1));
    repeat split; intros; try reflexivity; try lia; try discriminate;
    try match goal with H : _ \/ _ |- _ => destruct H; [discriminate|lia] end.
Qed.

Lemma clamped_maxOffset (c : t) (v : Z) :
  ScrollBar.MaxValue (scrollBar c) = maxOffset c ->
  ScrollBar.clamped (scrollBar c) v = Z.max 0 (Z.min v (maxOffset c)).
Proof.
  intros Hm. unfold ScrollBar.clamped. rewrite Hm.
  assert (0 <= maxOffset c) by (unfold maxOffset; lia).
  destruct (Z.ltb_spec v 0); [lia|].
  destruct (Z.gtb_spec v (maxOffset c)); lia.
Qed.

(** C3. For every container whose scroll bar has [maxOffset =
    max(0, contentLength - height)] as its maximum: when the scroll bar
    is shown and a row is highlighted (index at least 0),
    [ensureHighlightVisible] sets the offset to the highlighted index
    clamped into [[0, maxOffset]] when that index is below the offset,
    and else to [highlighted - height + 1] clamped into [[0, maxOffset]]
    when the index is above [offset + height - 1]; the clamp leaves the
    index itself when the old offset was at most [maxOffset], and
    [highlighted - height + 1] itself when the old offset was at least 0
    and the highlighted row is a row of the content.  In every other
    case (row inside the viewport, no highlighted row, scroll bar
    hidden) the container is left as it is.  The offset afterwards is
    inside [[0, maxOffset]] whenever it was before or it was moved.
    Scenario A: 25 rows in a viewport of height 10 start with highlight 0
    and offset 0, and twelve [HighlightNext] give highlight 12, offset 3. *)
Theorem ensureVisible_viewport (c : t)
    (Hfit : no_overflow c) (Hmax : ScrollBar.MaxValue (scrollBar c) = maxOffset c) :
  let c' := ensureHighlightVisible c in
  let off := GetScrollOffset c in
  let hi := HighlightedIndex c in
  let shown := ScrollBar.Visible (scrollBar c) in
  let clamp := fun v => Z.max 0 (Z.min v (maxOffset c)) in
  (shown = true -> 0 <= hi -> hi < off ->
     GetScrollOffset c' = clamp hi /\ (off <= maxOffset c -> GetScrollOffset c' = hi)) /\
  (shown = true -> 0 <= hi -> off <= hi -> hi > off + Height c - 1 ->
     GetScrollOffset c' = clamp (hi - Height c + 1) /\
     (0 <= off -> hi < len (Content c) -> GetScrollOffset c' = hi - Height c + 1)) /\
  (off <= hi <= off + Height c - 1 -> c' = c) /\
  (shown = false \/ hi < 0 -> c' = c) /\
  (0 <= off <= maxOffset c \/ GetScrollOffset c' <> off ->
     0 <= GetScrollOffset c' <= maxOffset c) /\
  HighlightedIndex c' = hi /\ Content c' = Content c /\ Height c' = Height c /\
  maxOffset c' = maxOffset c /\
  (forall (x y width : Z) (content : list bytes),
     length content = 25%nat ->
     let c0 := NewContainer x y width 10 content in
     let c12 := Nat.iter 12 HighlightNext c0 in
     HighlightedIndex c0 = 0 /\ GetScrollOffset c0 = 0 /\
     HighlightedIndex c12 = 12 /\ GetScrollOffset c12 = 3).
Proof.
  cbv zeta.
  pose proof (ensureHighlightVisible_cases c Hfit) as (K0 & K1 & K2 & K3). cbv zeta in *.
  assert (Hm0 : 0 <= maxOffset c) by (unfold maxOffset; lia).
  assert (Hoff : forall v, GetScrollOffset (scroll_to v c) = Z.max 0 (Z.min v (maxOffset c))).
  { intros v. rewrite scroll_to_offset. apply clamped_maxOffset, Hmax. }
  split.
  { intros Hs Hhi Hlt. rewrite (K2 Hs Hhi Hlt), Hoff. split; [reflexivity|lia]. }
  split.
  { intros Hs Hhi Hge Hgt. rewrite (K3 Hs Hhi Hge Hgt), Hoff. split; [reflexivity|].
    intros H0 Hlen. unfold maxOffset in *. lia. }
  split; [exact K1|]. split; [exact K0|].
  split.
  { intros Hor.
    assert (Hsame : ensureHighlightVisible c = c -> 0 <= GetScrollOffset c <= maxOffset c).
    { intros E. rewrite E in Hor. destruct Hor as [Hr|Hr]; [exact Hr|contradiction]. }
    destruct (ScrollBar.Visible (scrollBar c)) eqn:Hs;
      [|rewrite (K0 (or_introl eq_refl)) at 1 2; apply Hsame, K0; auto].
    destruct (Z.lt_ge_cases (HighlightedIndex c) 0) as [Hn|Hn];
      [rewrite (K0 (or_intror Hn)) at 1 2; apply Hsame, K0; auto|].
    destruct (Z.lt_ge_cases (HighlightedIndex c) (GetScrollOffset c)) as [Hl|Hl].
    { rewrite (K2 eq_refl Hn Hl), Hoff. lia. }
    destruct (Z.le_gt_cases (HighlightedIndex c) (GetScrollOffset c + Height c - 1)) as [Hb|Hb].
    { rewrite (K1 (conj Hl Hb)) at 1 2. apply Hsame, K1. lia. }
    rewrite (K3 eq_refl Hn Hl ltac:(lia)), Hoff. lia. }
  split; [apply ensureHighlightVisible_highlight|].
  assert (Hframe : Content (ensureHighlightVisible c) = Content c /\
                   Height (ensureHighlightVisible c) = Height c).
  { unfold ensureHighlightVisible.
    destruct (negb _ || _); [auto|].
    destruct (_ <? _); [split; apply scroll_to_frame|].
    destruct (_ >? _); [split; apply scroll_to_frame|auto]. }
  destruct Hframe as [HC HH].
  split; [exact HC|]. split; [exact HH|].
  split; [unfold maxOffset; rewrite HC, HH; reflexivity|].
  intros x y width content Hlen.
  do 26 (destruct content as [|? content]; try discriminate Hlen).
  vm_compute. repeat split.
Qed.

Lemma ensureVisible_viewport_witness :
  no_overflow Samples.overshoot_container /\
  ScrollBar.MaxValue (scrollBar Samples.overshoot_container)
    = maxOffset Samples.overshoot_container /\
  HighlightedIndex Samples.overshoot_container = 40 /\
  GetScrollOffset Samples.overshoot_container = 0 /\
  GetScrollOffset (ensureHighlightVisible Samples.overshoot_container) = 15.
Proof.
  assert (Hfit : no_overflow Samples.overshoot_container).
  { unfold no_overflow, in_int. vm_compute. repeat split; discriminate. }
  assert (Hmax : ScrollBar.MaxValue (scrollBar Samples.overshoot_container)
                 = maxOffset Samples.overshoot_container) by (vm_compute; reflexivity).
  split; [exact Hfit|]. split; [exact Hmax|].
  split; [reflexivity|]. split; [reflexivity|].
  destruct (ensureVisible_viewport Samples.overshoot_container Hfit Hmax)
    as (_ & S2 & _).
  destruct S2 as [S2 _];
    [reflexivity|vm_compute; discriminate|vm_compute; discriminate|vm_compute; reflexivity|].
  rewrite S2. vm_compute. reflexivity.
Defined.

(** A container of twenty-five rows, ten of them visible, that has no
    highlighted row (index -1) and was scrolled to offset 5 through its
    scroll bar, a state the container's own methods keep: -1 is below
    the offset, yet [ensureHighlightVisible] leaves the offset at 5,
    which is neither the highlighted index nor that index clamped (0).
    With the value 20 written into the scroll bar and row 22
    highlighted, the offset stays 20, above [maxOffset = 15]. *)
Lemma ensureHighlightVisible_leaves_offset :
  wf Samples.unlit_container /\
  HighlightedIndex Samples.unlit_container = -1 /\
  GetScrollOffset Samples.unlit_container = 5 /\
  maxOffset Samples.unlit_container = 15 /\
  GetScrollOffset (ensureHighlightVisible Samples.unlit_container) = 5 /\
  ~ (forall c : t,
       HighlightedIndex c < GetScrollOffset c ->
       GetScrollOffset (ensureHighlightVisible c) = HighlightedIndex c \/
       GetScrollOffset (ensureHighlightVisible c)
         = Z.max 0 (Z.min (HighlightedIndex c) (maxOffset c))) /\
  HighlightedIndex Samples.stray_container = 22 /\
  GetScrollOffset Samples.stray_container = 20 /\
  maxOffset Samples.stray_container = 15 /\
  GetScrollOffset (ensureHighlightVisible Samples.stray_container) = 20 /\
  ~ (forall c : t,
       0 <= GetScrollOffset (ensureHighlightVisible c) <= maxOffset c).
Proof.
  split.
  { unfold wf. vm_compute. repeat split; intros; discriminate. }
  do 4 (split; [vm_compute; reflexivity|]).
  split.
  { intros H. specialize (H Samples.unlit_container ltac:(vm_compute; reflexivity)).
    vm_compute in H. destruct H as [H|H]; discriminate H. }
  do 4 (split; [vm_compute; reflexivity|]).
  intros H. destruct (H Samples.stray_container) as [_ H2]. vm_compute in H2.
  apply H2. reflexivity.
Qed.

End ContainerFacts.

(** ** Runes *)

Module Utf8Facts.
Import Utf8.

Lemma val_byte (z : Z) : 0 <= z < 256 -> val (byte z) = z.
Proof.
  intros H. unfold val, byte.
  rewrite N_ascii_embedding by lia. lia.
Qed.

Lemma val_range (b : ascii) : 0 <= val b < 256.
Proof.
  unfold val. pose proof (N_ascii_bounded b). lia.
Qed.

Lemma sanitize_valid (r : Z) :
  let r' := sanitize r in
  0 <= r' <= MaxRune /\ ~ (0xD800 <= r' <= 0xDFFF).
Proof.
  unfold sanitize, MaxRune, RuneError. cbv zeta.
  destruct (Z.ltb_spec r 0); simpl; [lia|].
  destruct (Z.gtb_spec r 1114111); simpl; [lia|].
  destruct (Z.leb_spec 55296 r); simpl; [|lia].
  destruct (Z.leb_spec r 57343); simpl; lia.
Qed.

Lemma sanitize_id (r : Z) :
  0 <= r <= MaxRune -> ~ (0xD800 <= r <= 0xDFFF) -> sanitize r = r.
Proof.
  unfold sanitize, MaxRune. intros H1 H2.
  destruct (Z.ltb_spec r 0); simpl; [lia|].
  destruct (Z.gtb_spec r 1114111); simpl; [lia|].
  destruct (Z.leb_spec 55296 r); simpl; [|reflexivity].
  destruct (Z.leb_spec r 57343); simpl; [lia|reflexivity].
Qed.

(** Decoding what [EncodeRune] wrote gives the rune back (the
    replacement rune for an invalid one) and consumes exactly its bytes. *)
Lemma Runes_EncodeRune (r : Z) (s : bytes) :
  Runes (EncodeRune r ++ s) = sanitize r :: Runes s.
Proof.
  unfold EncodeRune.
  destruct (Z.leb_spec 0 r) as [H0|H0]; simpl.
  - destruct (Z.leb_spec r 127) as [H1|H1]; simpl.
    + rewrite val_byte by lia.
      destruct (Z.ltb_spec r 128); [|lia].
      rewrite sanitize_id by (unfold MaxRune; lia). reflexivity.
    + destruct (Z.leb_spec r 2047) as [H2|H2]; simpl.
      * pose proof (Z.div_mod r 64 ltac:(lia)) as D.
        pose proof (Z.mod_pos_bound r 64 ltac:(lia)) as M.
        assert (2 <= r / 64 < 32) by (split; [apply Z.div_le_lower_bound|apply Z.div_lt_upper_bound]; lia).
        rewrite !val_byte by lia.
        destruct (Z.ltb_spec (192 + r / 64) 128); [lia|].
        unfold first. cmp. simpl. cmp. simpl.
        rewrite sanitize_id by (unfold MaxRune; lia).
        f_equal.
        replace ((192 + r / 64) mod 32) with (r / 64)
          by (apply (Z.mod_unique_pos _ _ 6); lia).
        replace ((128 + r mod 64) mod 64) with (r mod 64)
          by (apply (Z.mod_unique_pos _ _ 2); lia).
        lia.
      * pose proof (sanitize_valid r) as [V1 V2]. cbv zeta in V1, V2.
        unfold MaxRune in *.
        assert (V3 : 2048 <= sanitize r).
        { unfold sanitize, RuneError. destruct (_ || _ || _); lia. }
        set (q := sanitize r) in *.
        pose proof (Z.div_mod q 64 ltac:(lia)) as D.
        pose proof (Z.mod_pos_bound q 64 ltac:(lia)) as M.
        pose proof (Z.div_mod (q / 64) 64 ltac:(lia)) as D2.
        pose proof (Z.mod_pos_bound (q / 64) 64 ltac:(lia)) as M2.
        replace (q / 4096) with (q / 64 / 64) by (rewrite Z.div_div by lia; reflexivity).
        destruct (Z.leb_spec q 65535) as [H3|H3]; simpl.
        -- assert (0 <= q / 64 / 64 < 16) by lia.
           rewrite !val_byte by lia.
           destruct (Z.ltb_spec (224 + q / 64 / 64) 128); [lia|].
           replace ((224 + q / 64 / 64) mod 16) with (q / 64 / 64)
             by (apply (Z.mod_unique_pos _ _ 14); lia).
           replace ((128 + (q / 64) mod 64) mod 64) with ((q / 64) mod 64)
             by (apply (Z.mod_unique_pos _ _ 2); lia).
           replace ((128 + q mod 64) mod 64) with (q mod 64)
             by (apply (Z.mod_unique_pos _ _ 2); lia).
           unfold first, cont.
           destruct (Z.eq_dec (q / 64 / 64) 0) as [E0|E0];
             [|destruct (Z.eq_dec (q / 64 / 64) 13) as [E13|E13]].
           ++ rewrite E0 in *. simpl. cmp; simpl; cmp; simpl; f_equal; lia.
           ++ rewrite E13 in *. simpl. cmp; simpl; cmp; simpl; f_equal; lia.
           ++ cmp; simpl; cmp; simpl; f_equal; lia.
        -- pose proof (Z.div_mod (q / 64 / 64) 64 ltac:(lia)) as D3.
           pose proof (Z.mod_pos_bound (q / 64 / 64) 64 ltac:(lia)) as M3.
           replace (q / 262144) with (q / 64 / 64 / 64)
             by (rewrite !Z.div_div by lia; reflexivity).
           assert (0 <= q / 64 / 64 / 64 < 5) by lia.
           rewrite !val_byte by lia.
           destruct (Z.ltb_spec (240 + q / 64 / 64 / 64) 128); [lia|].
           replace ((240 + q / 64 / 64 / 64) mod 8) with (q / 64 / 64 / 64)
             by (apply (Z.mod_unique_pos _ _ 30); lia).
           replace ((128 + (q / 64 / 64) mod 64) mod 64) with ((q / 64 / 64) mod 64)
             by (apply (Z.mod_unique_pos _ _ 2); lia).
           replace ((128 + (q / 64) mod 64) mod 64) with ((q / 64) mod 64)
             by (apply (Z.mod_unique_pos _ _ 2); lia).
           replace ((128 + q mod 64) mod 64) with (q mod 64)
             by (apply (Z.mod_unique_pos _ _ 2); lia).
           unfold first, cont.
           destruct (Z.eq_dec (q / 64 / 64 / 64) 0) as [E0|E0];
             [|destruct (Z.eq_dec (q / 64 / 64 / 64) 4) as [E4|E4]].
           ++ rewrite E0 in *. simpl. cmp; simpl; cmp; simpl; f_equal; lia.
           ++ rewrite E4 in *. simpl. cmp; simpl; cmp; simpl; f_equal; lia.
           ++ cmp; simpl; cmp; simpl; f_equal; lia.
  - (* a negative rune is encoded as the replacement rune *)
    assert (E : sanitize r = RuneError).
    { unfold sanitize. destruct (Z.ltb_spec r 0); [reflexivity|lia]. }
    rewrite E. unfold RuneError. vm_compute (65533 <=? 65535). cbv iota.
    reflexivity.
Qed.

Lemma Runes_String_app (rs : list Z) (s : bytes) :
  Runes (String rs ++ s) = map sanitize rs ++ Runes s.
Proof.
  induction rs as [|r rs IH]; [reflexivity|].
  unfold String in *. simpl. rewrite <- app_assoc, Runes_EncodeRune, IH. reflexivity.
Qed.

Lemma Runes_String (rs : list Z) : Runes (String rs) = map sanitize rs.
Proof.
  rewrite <- (app_nil_r (String rs)), Runes_String_app. simpl. apply app_nil_r.
Qed.

Lemma String_app (a b : list Z) : String (a ++ b) = String a ++ String b.
Proof. unfold String. apply flat_map_app. Qed.

Lemma RuneLen_String (rs : list Z) : RuneLen (String rs) = len rs.
Proof. unfold RuneLen, len. rewrite Runes_String, length_map. reflexivity. Qed.

End Utf8Facts.

(** ** Strings *)

Module GoStringsFacts.

Lemma byte_eqb_eq (a b : ascii) : byte_eqb a b = true <-> a = b.
Proof. apply Ascii.eqb_eq. Qed.

Lemma byte_eqb_sym (a b : ascii) : byte_eqb a b = byte_eqb b a.
Proof. apply Ascii.eqb_sym. Qed.

Lemma HasPrefix_split (s p : bytes) :
  HasPrefix s p = true -> s = p ++ drop (length p) s.
Proof.
  revert s. induction p as [|c p IH]; intros s H; [reflexivity|].
  destruct s as [|d s]; [discriminate|]. simpl in H.
  apply andb_true_iff in H as [H1 H2]. apply byte_eqb_eq in H1. subst d.
  simpl. f_equal. apply IH, H2.
Qed.

Lemma Index_split (s sub : bytes) (m : nat) :
  Index s sub = Some m ->
  s = take m s ++ sub ++ drop (m + length sub) s.
Proof.
  revert m. induction s as [|c s IH]; intros m H.
  - cbn [Index] in H. destruct (HasPrefix [] sub) eqn:E; [|discriminate].
    injection H as <-. simpl. apply (HasPrefix_split [] sub E).
  - cbn [Index] in H. destruct (HasPrefix (c :: s) sub) eqn:E.
    + injection H as <-. simpl. apply (HasPrefix_split _ _ E).
    + destruct (Index s sub) as [k|] eqn:Ek; [|discriminate].
      simpl in H. injection H as <-. simpl. f_equal. apply IH. reflexivity.
Qed.

Lemma Index_le (s sub : bytes) (m : nat) :
  Index s sub = Some m -> (m + length sub <= length s)%nat.
Proof.
  assert (P : forall t p : bytes, HasPrefix t p = true -> (length p <= length t)%nat).
  { intros t p. revert t. induction p as [|c p IH]; intros t H; simpl; [lia|].
    destruct t as [|d t]; [discriminate|]. simpl in *.
    apply andb_true_iff in H as [_ H]. apply IH in H. lia. }
  revert m. induction s as [|c s IH]; intros m H; cbn [Index] in H.
  - destruct (HasPrefix [] sub) eqn:E; [|discriminate].
    injection H as <-. apply P in E. simpl in *. lia.
  - destruct (HasPrefix (c :: s) sub) eqn:E.
    + injection H as <-. apply P in E. simpl in *. lia.
    + destruct (Index s sub) as [k|] eqn:Ek; [|discriminate].
      simpl in H. injection H as <-. specialize (IH k eq_refl). simpl. lia.
Qed.

Lemma split_loop_nonempty (n : nat) (s sep : bytes) : split_loop n s sep <> [].
Proof. destruct n; simpl; [|destruct (Index s sep)]; discriminate. Qed.

Lemma Join_cons (e : bytes) (rest : list bytes) (sep : bytes) :
  rest <> [] -> Join (e :: rest) sep = e ++ sep ++ Join rest sep.
Proof. destruct rest; [contradiction|reflexivity]. Qed.

(** Joining what the splitting loop cut gives the string back, however
    many cuts were made. *)
Lemma Join_split_loop (n : nat) (s sep : bytes) :
  Join (split_loop n s sep) sep = s.
Proof.
  revert s. induction n as [|n IH]; intros s; [reflexivity|].
  simpl. destruct (Index s sep) as [m|] eqn:E; [|reflexivity].
  rewrite Join_cons by apply split_loop_nonempty.
  rewrite IH. symmetry. apply Index_split, E.
Qed.

Lemma Join_Split (s sep : bytes) : Join (Split s sep) sep = s.
Proof. apply Join_split_loop. Qed.

Lemma Split_nonempty (s sep : bytes) : Split s sep <> [].
Proof. apply split_loop_nonempty. Qed.

(** *** [ReplaceAll] of "\r\n" by "\n" is the left-to-right replacement *)

Lemma HasPrefix_CRLF (s : bytes) :
  HasPrefix s [CR; LF] = true <-> exists rest, s = CR :: LF :: rest.
Proof.
  split.
  - intros H. apply HasPrefix_split in H. simpl in H. eauto.
  - intros [rest ->]. reflexivity.
Qed.

Lemma normalize_crlf_match (rest : bytes) :
  normalize_crlf (CR :: LF :: rest) = LF :: normalize_crlf rest.
Proof. reflexivity. Qed.

Lemma normalize_crlf_skip (c : ascii) (t : bytes) :
  HasPrefix (c :: t) [CR; LF] = false ->
  normalize_crlf (c :: t) = c :: normalize_crlf t.
Proof.
  intros H. destruct t as [|d rest]; [reflexivity|].
  simpl in *. rewrite andb_true_r in H.
  rewrite (byte_eqb_sym CR c), (byte_eqb_sym LF d) in H. rewrite H. reflexivity.
Qed.

Lemma normalize_crlf_none (s : bytes) :
  Index s [CR; LF] = None -> normalize_crlf s = s.
Proof.
  induction s as [|c s IH]; intros H; [reflexivity|].
  cbn [Index] in H. destruct (HasPrefix (c :: s) [CR; LF]) eqn:E; [discriminate|].
  rewrite normalize_crlf_skip by exact E. f_equal. apply IH.
  destruct (Index s [CR; LF]); [discriminate|reflexivity].
Qed.

Lemma normalize_crlf_first (s : bytes) (j : nat) :
  Index s [CR; LF] = Some j ->
  normalize_crlf s = take j s ++ LF :: normalize_crlf (drop (j + 2) s).
Proof.
  revert j. induction s as [|c s IH]; intros j H; [discriminate|].
  cbn [Index] in H. destruct (HasPrefix (c :: s) [CR; LF]) eqn:E.
  - injection H as <-. apply HasPrefix_CRLF in E as [rest E].
    injection E as -> ->. reflexivity.
  - destruct (Index s [CR; LF]) as [k|] eqn:Ek; [|discriminate].
    simpl in H. injection H as <-.
    rewrite normalize_crlf_skip by exact E. simpl. f_equal. apply IH. reflexivity.
Qed.

(** The fuel of [Count] is enough: more fuel counts the same. *)
Lemma count_loop_fuel (sub : bytes) (fuel : nat) (s : bytes) :
  sub <> [] -> (length s <= fuel)%nat ->
  count_loop fuel s sub = count_loop (length s) s sub.
Proof.
  intros Hsub. revert s.
  induction fuel as [fuel IH] using lt_wf_ind. intros s Hlen.
  destruct s as [|c s].
  - destruct fuel; simpl; [reflexivity|].
    destruct sub; [contradiction|]. reflexivity.
  - destruct fuel as [|fuel]; [simpl in Hlen; lia|].
    cbn [count_loop length].
    destruct (Index (c :: s) sub) as [i|] eqn:E; [|reflexivity].
    f_equal.
    pose proof (Index_le _ _ _ E) as Hi.
    assert (0 < length sub)%nat by (destruct sub; [contradiction|simpl; lia]).
    assert (Hd : (length (drop (i + length sub) (c :: s)) <= length s)%nat).
    { rewrite length_drop. simpl in *. lia. }
    rewrite (IH fuel) by (simpl in *; lia).
    rewrite (IH (length s)); [reflexivity| simpl in *; lia | exact Hd].
Qed.

Lemma Count_step (s sub : bytes) (i : nat) :
  sub <> [] -> Index s sub = Some i ->
  Count s sub = S (Count (drop (i + length sub) s) sub).
Proof.
  intros Hsub E. unfold Count.
  pose proof (Index_le _ _ _ E) as Hi.
  assert (0 < length sub)%nat by (destruct sub; [contradiction|simpl; lia]).
  destruct s as [|c s]; [simpl in Hi; lia|].
  cbn [count_loop length]. rewrite E. f_equal.
  apply count_loop_fuel; [assumption|]. rewrite length_drop. simpl. lia.
Qed.

Lemma Count_none (s sub : bytes) : Index s sub = None -> Count s sub = O.
Proof.
  intros E. unfold Count. destruct s; simpl; [reflexivity|].
  simpl in E. rewrite E. reflexivity.
Qed.

Lemma ReplaceAll_CRLF (s : bytes) : ReplaceAll s [CR; LF] [LF] = normalize_crlf s.
Proof.
  remember (length s) as n eqn:Hn. revert s Hn.
  induction n as [n IH] using lt_wf_ind. intros s Hn.
  unfold ReplaceAll.
  destruct (Index s [CR; LF]) as [j|] eqn:E.
  - rewrite (Count_step s [CR; LF] j) by (discriminate || exact E).
    cbn [replace_loop]. rewrite E.
    pose proof (Index_le _ _ _ E) as Hj. simpl in Hj.
    change (length [CR; LF]) with 2%nat.
    fold (ReplaceAll (drop (j + 2) s) [CR; LF] [LF]).
    rewrite (IH (length (drop (j + 2) s))); [| rewrite length_drop; lia | reflexivity].
    symmetry. apply normalize_crlf_first, E.
  - rewrite (Count_none _ _ E). simpl. symmetry. apply normalize_crlf_none, E.
Qed.

End GoStringsFacts.

(** ** TextArea *)

Module TextAreaFacts.
Import Utf8 TextArea.

(** *** The bookkeeping after an edit leaves the text and the cursor alone *)

Lemma same_text_refl (ta : t) : same_text ta ta.
Proof. unfold same_text. auto. Qed.

Lemma same_text_trans (a b c : t) : same_text a b -> same_text b c -> same_text a c.
Proof. unfold same_text. intuition congruence. Qed.

Lemma scroll_to_same (v : Z) (ta : t) : same_text ta (scroll_to v ta).
Proof.
  unfold scroll_to. destruct (ScrollBar.SetValue v (scrollBar ta)) as [sb fired].
  destruct fired as [[[|name] nv]|]; unfold same_text; simpl; auto.
Qed.

Lemma calculateCounts_same (ta : t) : same_text ta (calculateCounts ta).
Proof. unfold same_text; simpl; auto. Qed.

Lemma updateScrollState_same (ta : t) : same_text ta (updateScrollState ta).
Proof.
  unfold updateScrollState. cbv zeta.
  match goal with |- context [if ?b then _ else _] => destruct b end.
  - eapply same_text_trans; [|unfold same_text; simpl; eauto].
    eapply same_text_trans; [|apply scroll_to_same]. unfold same_text; simpl; auto.
  - eapply same_text_trans; [|unfold same_text; simpl; eauto].
    eapply same_text_trans; [|apply scroll_to_same]. unfold same_text; simpl; auto.
Qed.

Lemma ensureCursorVisible_same (ta : t) : same_text ta (ensureCursorVisible ta).
Proof.
  unfold ensureCursorVisible. cbv zeta.
  destruct (_ <? _).
  - eapply same_text_trans; [|apply scroll_to_same]. unfold same_text; simpl; auto.
  - destruct (_ >? _); [|apply same_text_refl].
    eapply same_text_trans; [|apply scroll_to_same]. unfold same_text; simpl; auto.
Qed.

Lemma bookkeeping_same (ta : t) :
  same_text ta (ensureCursorVisible (updateScrollState (calculateCounts ta))).
Proof.
  eapply same_text_trans; [apply calculateCounts_same|].
  eapply same_text_trans; [apply updateScrollState_same|].
  apply ensureCursorVisible_same.
Qed.

Lemma cursor_ok_same (ta ta' : t) : same_text ta ta' -> cursor_ok ta -> cursor_ok ta'.
Proof.
  unfold same_text, cursor_ok. intros (-> & -> & -> & _). auto.
Qed.

(** *** Round trip of the text *)

Lemma SetText_Lines (text : bytes) (ta : t) :
  Lines (SetText text ta) = Split (ReplaceAll text [CR; LF] [LF]) [LF].
Proof.
  unfold SetText. cbv zeta.
  match goal with |- Lines (ensureCursorVisible (updateScrollState (calculateCounts ?x))) = _ =>
    rewrite (proj1 (bookkeeping_same x)) end.
  simpl.
  destruct (Z.eqb_spec (len (Split (ReplaceAll text [CR; LF] [LF]) [LF])) 0) as [E|E];
    [|reflexivity].
  apply len_nil_iff in E. exfalso. exact (GoStringsFacts.Split_nonempty _ _ E).
Qed.

(** C7. [SetText(s)] followed by [GetText()] returns [s] with every
    "\r\n" replaced by "\n": the result of [strings.ReplaceAll], which
    is the left-to-right replacement [normalize_crlf]. *)
Theorem SetText_GetText_roundtrip (s : bytes) (ta : t) :
  GetText (SetText s ta) = ReplaceAll s [CR; LF] [LF] /\
  GetText (SetText s ta) = normalize_crlf s /\
  (Index s [CR; LF] = None -> GetText (SetText s ta) = s).
Proof.
  assert (E : GetText (SetText s ta) = ReplaceAll s [CR; LF] [LF]).
  { unfold GetText. rewrite SetText_Lines. apply GoStringsFacts.Join_Split. }
  split; [exact E|]. rewrite E, GoStringsFacts.ReplaceAll_CRLF.
  split; [reflexivity|]. apply GoStringsFacts.normalize_crlf_none.
Qed.

Lemma SetText_GetText_roundtrip_witness :
  GetText (SetText ["a"; CR; LF; "b"]%char Samples.sample_text_area) = ["a"; LF; "b"]%char /\
  GetText (SetText ["a"; "b"]%char Samples.sample_text_area) = ["a"; "b"]%char.
Proof.
  split.
  - rewrite (proj1 (proj2 (SetText_GetText_roundtrip _ _))). reflexivity.
  - apply (proj2 (proj2 (SetText_GetText_roundtrip _ _))). reflexivity.
Defined.

(** *** The cursor invariant *)

Lemma RuneLen_nonneg (s : bytes) : 0 <= RuneLen s.
Proof. apply len_nonneg. Qed.

(** [clampCursorCol] never fails and leaves a valid cursor. *)
Lemma clampCursorCol_ok (ta : t) :
  len (Lines ta) <= int_max ->
  exists ta', clampCursorCol ta = Some ta' /\ cursor_ok ta' /\
              (Lines ta <> [] -> Lines ta' = Lines ta) /\
              IsActive ta' = IsActive ta.
Proof.
  intros Hfit. pose proof (len_nonneg (Lines ta)) as Hlen.
  unfold clampCursorCol.
  destruct (Z.eqb_spec (len (Lines ta)) 0) as [E0|E0].
  - (* no line at all: the method installs one empty line *)
    apply len_nil_iff in E0.
    assert (R : RuneLen [] = 0) by reflexivity.
    destruct (Z.ltb_spec (cursorLine ta) 0) as [Hc|Hc]; simpl; rewrite E0; simpl.
    + eexists; split; [reflexivity|]. rewrite R.
      destruct (Z.ltb_spec (cursorCol ta) 0);
        [|destruct (Z.gtb_spec (cursorCol ta) 0)];
        unfold cursor_ok; simpl;
        (repeat split; try discriminate; try contradiction; try reflexivity; try lia;
         exists []; split; [reflexivity|rewrite R; lia]).
    + change (len (@nil bytes)) with 0.
      destruct (Z.geb_spec (cursorLine ta) 0); [|lia]. simpl.
      eexists; split; [reflexivity|]. rewrite R.
      destruct (Z.ltb_spec (cursorCol ta) 0);
        [|destruct (Z.gtb_spec (cursorCol ta) 0)];
        unfold cursor_ok; simpl;
        (repeat split; try discriminate; try contradiction; try reflexivity; try lia;
         exists []; split; [reflexivity|rewrite R; lia]).
  - set (ta1 := if cursorLine ta <? 0 then set_cursorLine 0 ta else ta).
    assert (L1 : Lines ta1 = Lines ta) by (unfold ta1; destruct (_ <? _); reflexivity).
    assert (C1 : 0 <= cursorLine ta1).
    { unfold ta1. destruct (Z.ltb_spec (cursorLine ta) 0); simpl; lia. }
    assert (A1 : IsActive ta1 = IsActive ta) by (unfold ta1; destruct (_ <? _); reflexivity).
    set (ta2 := if cursorLine ta1 >=? len (Lines ta1)
                then if len (Lines ta1) >? 0 then set_cursorLine (len (Lines ta1) -i 1) ta1
                     else set_cursorLine 0 (set_Lines [[]] ta1)
                else ta1).
    assert (L2 : Lines ta2 = Lines ta).
    { unfold ta2. rewrite L1.
      destruct (Z.geb_spec (cursorLine ta1) (len (Lines ta))); [|exact L1].
      destruct (Z.gtb_spec (len (Lines ta)) 0); [exact L1|lia]. }
    assert (C2 : 0 <= cursorLine ta2 < len (Lines ta)).
    { unfold ta2. rewrite L1.
      destruct (Z.geb_spec (cursorLine ta1) (len (Lines ta))).
      - destruct (Z.gtb_spec (len (Lines ta)) 0); [|lia]. simpl. unwrap. lia.
      - lia. }
    assert (A2 : IsActive ta2 = IsActive ta).
    { unfold ta2. rewrite L1.
      destruct (Z.geb_spec (cursorLine ta1) (len (Lines ta))); [|exact A1].
      destruct (Z.gtb_spec (len (Lines ta)) 0); exact A1. }
    rewrite L2. destruct (Z.eqb_spec (len (Lines ta)) 0); [contradiction|].
    destruct (index_Some (Lines ta) (cursorLine ta2) C2) as (line & Hi & _).
    rewrite Hi. simpl. eexists. split; [reflexivity|].
    pose proof (RuneLen_nonneg line) as Hr.
    assert (Hne : Lines ta <> []) by (intros H; apply len_nil_iff in H; contradiction).
    destruct (Z.ltb_spec (cursorCol ta2) 0).
    + unfold cursor_ok. simpl. rewrite L2. repeat split; try tauto; try lia.
      exists line. split; [exact Hi|lia].
    + destruct (Z.gtb_spec (cursorCol ta2) (RuneLen line)).
      * unfold cursor_ok. simpl. rewrite L2. repeat split; try tauto; try lia.
        exists line. split; [exact Hi|lia].
      * unfold cursor_ok. rewrite L2. repeat split; try tauto; try lia.
        exists line. split; [exact Hi|lia].
Qed.

Lemma refresh_ok (ta : t) :
  len (Lines ta) <= int_max -> Lines ta <> [] ->
  exists ta', refresh ta = Some ta' /\ cursor_ok ta' /\ Lines ta' = Lines ta /\
              IsActive ta' = IsActive ta.
Proof.
  intros Hfit Hne. unfold refresh.
  destruct (clampCursorCol_ok ta Hfit) as (ta1 & E & Hok & HL & HA).
  rewrite E. simpl. eexists. split; [reflexivity|].
  pose proof (bookkeeping_same ta1) as S.
  split; [exact (cursor_ok_same _ _ S Hok)|].
  destruct S as (S1 & _ & _ & S4). rewrite S1, S4. auto.
Qed.

Lemma clamp_if_outside_id (ta : t) :
  0 <= cursorLine ta < len (Lines ta) -> clamp_if_outside ta = Some ta.
Proof.
  intros H. unfold clamp_if_outside.
  destruct (Z.ltb_spec (cursorLine ta) 0); [lia|].
  destruct (Z.geb_spec (cursorLine ta) (len (Lines ta))); [lia|]. reflexivity.
Qed.

Ltac option_step := cbn [mbind option_bind].

Lemma InsertChar_ok (r : Z) (ta : t) :
  cursor_ok ta -> fits ta ->
  exists ta', InsertChar r ta = Some ta' /\ cursor_ok ta'.
Proof.
  intros Hok [Hlen Hrunes]. pose proof Hok as (Hne & Hcl & line & Hline & Hcol).
  unfold InsertChar.
  destruct (IsActive ta); [|eauto].
  destruct (_ && _ && _); [eauto|].
  rewrite clamp_if_outside_id by exact Hcl. option_step.
  rewrite Hline. option_step.
  unfold RuneLen in Hcol.
  destruct (r =? NL).
  - rewrite (slice_from_Some (Runes line) (cursorCol ta)) by lia. option_step.
    rewrite (slice_to_Some (Runes line) (cursorCol ta)) by lia. option_step.
    rewrite (store_Some (Lines ta) (cursorLine ta)) by lia. option_step. simpl.
    unwrap.
    rewrite slice_to_Some by (rewrite len_insert; lia). option_step.
    rewrite slice_from_Some by (rewrite len_insert; lia). option_step.
    match goal with |- exists ta', refresh ?x = _ /\ _ =>
      destruct (refresh_ok x) as (ta' & E & Hok' & _) end.
    + simpl. rewrite len_app, len_cons, len_take, len_drop
        by (rewrite len_insert; lia). rewrite len_insert. lia.
    + simpl. intros H. apply app_eq_nil in H as [_ H]. discriminate.
    + eauto.
  - rewrite (slice_to_Some (Runes line) (cursorCol ta)) by lia. option_step.
    rewrite (slice_from_Some (Runes line) (cursorCol ta)) by lia. option_step.
    rewrite (store_Some (Lines ta) (cursorLine ta)) by lia. option_step.
    match goal with |- exists ta', refresh ?x = _ /\ _ =>
      destruct (refresh_ok x) as (ta' & E & Hok' & _) end.
    + simpl. rewrite len_insert. lia.
    + simpl. intros H. apply (f_equal len) in H. rewrite len_insert in H.
      change (len []) with 0 in H. lia.
    + eauto.
Qed.

Ltac finish_refresh :=
  match goal with |- exists ta', refresh ?x = _ /\ _ =>
    let ta' := fresh "ta'" in let E := fresh "E" in let Hok' := fresh "Hok'" in
    destruct (refresh_ok x) as (ta' & E & Hok' & _);
    [ | | exists ta'; split; [exact E|exact Hok'] ]
  end.

Lemma nonempty_len {A} (l : list A) : 0 < len l -> l <> [].
Proof. intros H E. subst l. change (len []) with 0 in H. lia. Qed.

Lemma DeleteChar_ok (ta : t) :
  cursor_ok ta -> fits ta ->
  exists ta', DeleteChar ta = Some ta' /\ cursor_ok ta'.
Proof.
  intros Hok [Hlen Hrunes]. pose proof Hok as (Hne & Hcl & line & Hline & Hcol).
  unfold DeleteChar.
  assert (Hrl : RuneLen line < int_max).
  { pose proof Hline as Hl. apply index_inv in Hl as [_ Hl].
    rewrite Forall_lookup in Hrunes. apply (Hrunes _ _ Hl). }
  destruct (IsActive ta); [|eauto].
  destruct (Z.eqb_spec (cursorLine ta) 0) as [Ec|Ec];
    destruct (Z.eqb_spec (cursorCol ta) 0) as [Eo|Eo]; simpl; eauto;
    rewrite clamp_if_outside_id by exact Hcl; option_step;
    unfold RuneLen in Hcol, Hrl.
  - (* first line, inside the line *)
    destruct (Z.gtb_spec (cursorCol ta) 0); [|lia].
    rewrite Hline. option_step. unwrap.
    rewrite slice_to_Some by lia. option_step.
    rewrite slice_from_Some by lia. option_step.
    rewrite store_Some by lia. option_step.
    finish_refresh; simpl; rewrite ?len_insert; [lia|].
    apply nonempty_len. rewrite len_insert. lia.
  - (* start of a later line: merge with the previous line *)
    destruct (Z.gtb_spec (cursorCol ta) 0); [lia|]. unwrap.
    destruct (index_Some (Lines ta) (cursorLine ta - 1)) as (prev & Hprev & _); [lia|].
    rewrite Hprev. option_step. rewrite Hline. option_step.
    rewrite store_Some by lia. option_step. simpl.
    rewrite slice_to_Some by (rewrite len_insert; lia). option_step.
    rewrite slice_from_Some by (rewrite len_insert; lia). option_step.
    finish_refresh; simpl;
      rewrite ?len_app, ?len_take, ?len_drop, ?len_insert by (rewrite ?len_insert; lia);
      [lia|].
    apply nonempty_len.
    rewrite len_app, len_take, len_drop, len_insert by (rewrite ?len_insert; lia). lia.
  - (* inside a later line *)
    destruct (Z.gtb_spec (cursorCol ta) 0); [|lia].
    rewrite Hline. option_step. unwrap.
    rewrite slice_to_Some by lia. option_step.
    rewrite slice_from_Some by lia. option_step.
    rewrite store_Some by lia. option_step.
    finish_refresh; simpl; rewrite ?len_insert; [lia|].
    apply nonempty_len. rewrite len_insert. lia.
Qed.

Lemma DeleteForward_ok (ta : t) :
  cursor_ok ta -> fits ta ->
  exists ta', DeleteForward ta = Some ta' /\ cursor_ok ta'.
Proof.
  intros Hok [Hlen Hrunes]. pose proof Hok as (Hne & Hcl & line & Hline & Hcol).
  unfold DeleteForward.
  destruct (IsActive ta); [|eauto].
  rewrite clamp_if_outside_id by exact Hcl. option_step.
  destruct (Z.ltb_spec (cursorLine ta) 0); [lia|].
  destruct (Z.geb_spec (cursorLine ta) (len (Lines ta))); [lia|]. simpl.
  assert (Hrl : len (Runes line) < int_max).
  { pose proof Hline as Hl. apply index_inv in Hl as [_ Hl].
    rewrite Forall_lookup in Hrunes. apply (Hrunes _ _ Hl). }
  rewrite Hline. option_step. unfold RuneLen in Hcol.
  destruct (Z.ltb_spec (cursorCol ta) (len (Runes line))).
  - rewrite slice_to_Some by lia. option_step. unwrap.
    rewrite slice_from_Some by lia. option_step.
    rewrite store_Some by lia. option_step.
    finish_refresh; simpl; rewrite ?len_insert; [lia|].
    apply nonempty_len. rewrite len_insert. lia.
  - unwrap. destruct (Z.ltb_spec (cursorLine ta) (len (Lines ta) - 1)); [|eauto].
    destruct (index_Some (Lines ta) (cursorLine ta + 1)) as (next & Hnext & _); [lia|].
    rewrite Hnext. option_step.
    rewrite store_Some by lia. option_step. simpl.
    rewrite slice_to_Some by (rewrite len_insert; lia). option_step.
    rewrite slice_from_Some by (rewrite len_insert; lia). option_step.
    finish_refresh; simpl;
      rewrite ?len_app, ?len_take, ?len_drop, ?len_insert by (rewrite ?len_insert; lia);
      [lia|].
    apply nonempty_len.
    rewrite len_app, len_take, len_drop, len_insert by (rewrite ?len_insert; lia). lia.
Qed.

Lemma MoveCursorLeft_ok (ta : t) :
  cursor_ok ta -> fits ta ->
  exists ta', MoveCursorLeft ta = Some ta' /\ cursor_ok ta'.
Proof.
  intros Hok [Hlen Hrunes]. pose proof Hok as (Hne & Hcl & line & Hline & Hcol).
  assert (Hrl : RuneLen line < int_max).
  { pose proof Hline as Hl. apply index_inv in Hl as [_ Hl].
    rewrite Forall_lookup in Hrunes. apply (Hrunes _ _ Hl). }
  unfold MoveCursorLeft. eexists. split; [reflexivity|].
  eapply cursor_ok_same; [apply ensureCursorVisible_same|].
  pose proof (RuneLen_nonneg line).
  destruct (Z.gtb_spec (cursorCol ta) 0).
  - unfold cursor_ok. simpl. unwrap. repeat split; try tauto; try lia.
    exists line. split; [exact Hline|lia].
  - destruct (Z.gtb_spec (cursorLine ta) 0); [|exact Hok].
    simpl. unwrap.
    destruct (Z.geb_spec (cursorLine ta - 1) 0); [|lia].
    destruct (Z.ltb_spec (cursorLine ta - 1) (len (Lines ta))); [|lia]. simpl.
    destruct (index_Some (Lines ta) (cursorLine ta - 1)) as (prev & Hprev & _); [lia|].
    rewrite Hprev. unfold cursor_ok. simpl. repeat split; try tauto; try lia.
    exists prev. split; [exact Hprev|]. pose proof (RuneLen_nonneg prev). lia.
Qed.

Lemma MoveCursorRight_ok (ta : t) :
  cursor_ok ta -> fits ta ->
  exists ta', MoveCursorRight ta = Some ta' /\ cursor_ok ta'.
Proof.
  intros Hok [Hlen Hrunes]. pose proof Hok as (Hne & Hcl & line & Hline & Hcol).
  unfold MoveCursorRight.
  rewrite clamp_if_outside_id by exact Hcl. option_step.
  destruct (Z.ltb_spec (cursorLine ta) 0); [lia|].
  destruct (Z.geb_spec (cursorLine ta) (len (Lines ta))); [lia|]. simpl.
  rewrite Hline. option_step. eexists. split; [reflexivity|].
  eapply cursor_ok_same; [apply ensureCursorVisible_same|].
  assert (Hrl : RuneLen line < int_max).
  { pose proof Hline as Hl. apply index_inv in Hl as [_ Hl].
    rewrite Forall_lookup in Hrunes. apply (Hrunes _ _ Hl). }
  destruct (Z.ltb_spec (cursorCol ta) (RuneLen line)).
  - unfold cursor_ok. simpl. unwrap. repeat split; try tauto; try lia.
    exists line. split; [exact Hline|lia].
  - unwrap. destruct (Z.ltb_spec (cursorLine ta) (len (Lines ta) - 1)); [|exact Hok].
    destruct (index_Some (Lines ta) (cursorLine ta + 1)) as (next & Hnext & _); [lia|].
    unfold cursor_ok. simpl. repeat split; try tauto; try lia.
    exists next. split; [exact Hnext|]. pose proof (RuneLen_nonneg next). lia.
Qed.

Lemma MoveCursorUp_ok (ta : t) :
  cursor_ok ta -> fits ta ->
  exists ta', MoveCursorUp ta = Some ta' /\ cursor_ok ta'.
Proof.
  intros Hok [Hlen Hrunes]. unfold MoveCursorUp.
  destruct (_ >? _); [|eauto].
  match goal with |- context [clampCursorCol ?x] =>
    destruct (clampCursorCol_ok x) as (ta1 & E & Hok1 & _) end; [simpl; lia|].
  rewrite E. option_step. eexists. split; [reflexivity|].
  eapply cursor_ok_same; [apply ensureCursorVisible_same|exact Hok1].
Qed.

Lemma MoveCursorDown_ok (ta : t) :
  cursor_ok ta -> fits ta ->
  exists ta', MoveCursorDown ta = Some ta' /\ cursor_ok ta'.
Proof.
  intros Hok [Hlen Hrunes]. unfold MoveCursorDown.
  destruct (_ <? _); [|eauto].
  match goal with |- context [clampCursorCol ?x] =>
    destruct (clampCursorCol_ok x) as (ta1 & E & Hok1 & _) end; [simpl; lia|].
  rewrite E. option_step. eexists. split; [reflexivity|].
  eapply cursor_ok_same; [apply ensureCursorVisible_same|exact Hok1].
Qed.

Lemma lines_cursor_origin (ta : t) :
  Lines ta <> [] -> cursorLine ta = 0 -> cursorCol ta = 0 -> cursor_ok ta.
Proof.
  intros Hne Hl Hc. unfold cursor_ok. rewrite Hl, Hc.
  destruct (Lines ta) as [|line rest] eqn:E; [contradiction|].
  rewrite len_cons. pose proof (len_nonneg rest).
  repeat split; try discriminate; try lia.
  exists line. split; [reflexivity|]. pose proof (RuneLen_nonneg line). lia.
Qed.

Lemma SetText_ok (text : bytes) (ta : t) : cursor_ok (SetText text ta).
Proof.
  apply lines_cursor_origin.
  - rewrite SetText_Lines. apply GoStringsFacts.Split_nonempty.
  - unfold SetText. cbv zeta.
    match goal with |- cursorLine (ensureCursorVisible (updateScrollState (calculateCounts ?x))) = _ =>
      rewrite (proj1 (proj2 (bookkeeping_same x))) end. reflexivity.
  - unfold SetText. cbv zeta.
    match goal with |- cursorCol (ensureCursorVisible (updateScrollState (calculateCounts ?x))) = _ =>
      rewrite (proj1 (proj2 (proj2 (bookkeeping_same x)))) end. reflexivity.
Qed.

Lemma NewTextArea_ok (initialText : bytes) (x y width height maxChars : Z)
    (showWordCount showCharCount : bool) :
  cursor_ok (NewTextArea initialText x y width height maxChars showWordCount showCharCount).
Proof.
  unfold NewTextArea. cbv zeta.
  eapply cursor_ok_same; [apply bookkeeping_same|].
  apply lines_cursor_origin; simpl; try reflexivity.
  destruct (Z.eqb_spec (len (Split (ReplaceAll initialText [CR; LF] [LF]) [LF])) 0);
    [discriminate|apply GoStringsFacts.Split_nonempty].
Qed.

(** C10. In a text area whose cursor is valid, each of [InsertChar],
    [DeleteChar], [DeleteForward], the four cursor moves and [SetText]
    returns (it does not panic) and leaves at least one line, the cursor
    on a line, and the cursor column between 0 and the rune length of
    that line; [NewTextArea] and [SetText] establish that state. *)
Theorem cursor_invariant (ta : t) (o : op) (Hok : cursor_ok ta) (Hfit : fits ta) :
  (exists ta', run o ta = Some ta' /\
     Lines ta' <> [] /\
     0 <= cursorLine ta' < len (Lines ta') /\
     exists line, index (Lines ta') (cursorLine ta') = Some line /\
                  0 <= cursorCol ta' <= RuneLen line) /\
  (forall text x y width height maxChars showWords showChars,
     cursor_ok (NewTextArea text x y width height maxChars showWords showChars)) /\
  (forall text ta0, cursor_ok (SetText text ta0)).
Proof.
  split; [|split; [intros; apply NewTextArea_ok|intros; apply SetText_ok]].
  assert (H : exists ta', run o ta = Some ta' /\ cursor_ok ta').
  { destruct o; simpl.
    - apply InsertChar_ok; assumption.
    - apply DeleteChar_ok; assumption.
    - apply DeleteForward_ok; assumption.
    - apply MoveCursorLeft_ok; assumption.
    - apply MoveCursorRight_ok; assumption.
    - apply MoveCursorUp_ok; assumption.
    - apply MoveCursorDown_ok; assumption.
    - eexists. split; [reflexivity|apply SetText_ok]. }
  destruct H as (ta' & E & Hok'). exists ta'. split; [exact E|exact Hok'].
Qed.

Lemma cursor_invariant_witness :
  cursor_ok Samples.sample_text_area /\ fits Samples.sample_text_area /\
  exists ta', run (OpInsertChar 10) Samples.sample_text_area = Some ta' /\
              Lines ta' <> [] /\ 0 <= cursorLine ta' < len (Lines ta').
Proof.
  assert (E : Lines Samples.sample_text_area = [["a"; "b"]; ["c"]]%char)
    by (vm_compute; reflexivity).
  assert (Hok : cursor_ok Samples.sample_text_area).
  { unfold cursor_ok. split; [vm_compute; discriminate|].
    split; [vm_compute; split; [discriminate|reflexivity]|].
    eexists. split; [vm_compute; reflexivity|]. vm_compute. split; discriminate. }
  assert (Hfit : fits Samples.sample_text_area).
  { unfold fits. split; [vm_compute; reflexivity|]. rewrite E.
    apply Forall_cons_2; [vm_compute; reflexivity|].
    apply Forall_cons_2; [vm_compute; reflexivity|]. apply Forall_nil_2. }
  split; [exact Hok|]. split; [exact Hfit|].
  destruct (cursor_invariant Samples.sample_text_area (OpInsertChar 10) Hok Hfit)
    as [(ta' & Erun & Hne & Hcl & _) _].
  exists ta'. split; [exact Erun|]. split; [exact Hne|exact Hcl].
Defined.

End TextAreaFacts.

(** ** The compositor's order *)

Module SortFacts.
Section Sort.
Context {A : Type} (key : A -> Z).

Lemma insert_stable_Permutation (x : A) (l : list A) :
  Permutation (insert_stable key x l) (x :: l).
Proof.
  induction l as [|y l IH]; simpl; [reflexivity|].
  destruct (key y <? key x); [|reflexivity].
  rewrite IH. apply perm_swap.
Qed.

Lemma SliceStable_Permutation (l : list A) : Permutation (SliceStable key l) l.
Proof.
  induction l as [|x l IH]; simpl; [reflexivity|].
  rewrite insert_stable_Permutation. apply perm_skip, IH.
Qed.

Lemma insert_stable_sorted (x : A) (l : list A) :
  StronglySorted (by_key key) l -> StronglySorted (by_key key) (insert_stable key x l).
Proof.
  induction 1 as [|y l Hl IH Hy]; simpl.
  - repeat constructor.
  - destruct (Z.ltb_spec (key y) (key x)).
    + constructor; [exact IH|].
      rewrite Forall_forall. intros z Hz.
      rewrite insert_stable_Permutation in Hz.
      apply elem_of_cons in Hz as [->|Hz]; [unfold by_key; lia|].
      rewrite Forall_forall in Hy. apply Hy, Hz.
    + constructor; [constructor; assumption|].
      constructor; [exact H|].
      rewrite Forall_forall in Hy |- *. intros z Hz.
      specialize (Hy z Hz). unfold by_key in *. lia.
Qed.

Lemma SliceStable_sorted (l : list A) : StronglySorted (by_key key) (SliceStable key l).
Proof.
  induction l as [|x l IH]; simpl; [constructor|].
  apply insert_stable_sorted, IH.
Qed.

Lemma insert_stable_with_key (k : Z) (x : A) (l : list A) :
  StronglySorted (by_key key) l ->
  with_key key k (insert_stable key x l) = with_key key k (x :: l).
Proof.
  induction 1 as [|y l Hl IH Hy]; [reflexivity|].
  cbn [insert_stable].
  destruct (Z.ltb_spec (key y) (key x)); [|reflexivity].
  unfold with_key in *. cbn [List.filter] in *. rewrite IH.
  destruct (Z.eqb_spec (key x) k), (Z.eqb_spec (key y) k); try reflexivity. lia.
Qed.

(** The sort is stable: elements with the same key keep their order. *)
Lemma SliceStable_stable (k : Z) (l : list A) :
  with_key key k (SliceStable key l) = with_key key k l.
Proof.
  induction l as [|x l IH]; [reflexivity|].
  cbn [SliceStable]. rewrite insert_stable_with_key by apply SliceStable_sorted.
  unfold with_key in *. cbn [List.filter]. rewrite IH. reflexivity.
Qed.

End Sort.
End SortFacts.
(** ** Menus *)

Module MenuFacts.

Lemma get_put (m : Menu.t) (p : Menu.path) (old new : Menu.t) :
  Menu.get m p = Some old -> Menu.get (Menu.put m p new) p = Some new.
Proof.
  revert m. induction p as [|i p IH]; intros m H; [reflexivity|].
  cbn [Menu.get Menu.put] in *.
  destruct (Menu.Items m !! i) as [item|] eqn:Ei; [|discriminate]. cbn in H.
  destruct (Menu.SubMenu item) as [sub|] eqn:Es; [|discriminate]. cbn in H.
  cbn. rewrite list_lookup_insert_eq by (eapply lookup_lt_Some; eauto).
  cbn. apply (IH sub H).
Qed.

(** A write below the top level leaves the selection of the top-level
    menu alone. *)
Lemma put_SelectedIdx (m : Menu.t) (i : nat) (p : Menu.path) (new : Menu.t) :
  Menu.SelectedIdx (Menu.put m (i :: p) new) = Menu.SelectedIdx m.
Proof.
  cbn [Menu.put]. destruct (Menu.Items m !! i) as [item|]; [|reflexivity].
  destruct (Menu.SubMenu item); reflexivity.
Qed.

Lemma set_item_active_Some (i : Z) (v : bool) (m : Menu.t) :
  0 <= i < len (Menu.Items m) ->
  exists m', Menu.set_item_active i v m = Some m' /\
    Menu.SelectedIdx m' = Menu.SelectedIdx m /\
    len (Menu.Items m') = len (Menu.Items m) /\
    Menu.IsOpen m' = Menu.IsOpen m.
Proof.
  intros H. unfold Menu.set_item_active.
  destruct (index_Some (Menu.Items m) i H) as (item & Hi & _). rewrite Hi. cbn.
  rewrite store_Some by exact H. cbn. eexists. split; [reflexivity|].
  cbn. rewrite len_insert. auto.
Qed.

(** [SelectPrevious] from an item that is not the first one selects the
    item before it. *)
Lemma SelectPrevious_moves_up (m : Menu.t) :
  0 < Menu.SelectedIdx m < len (Menu.Items m) ->
  len (Menu.Items m) <= int_max ->
  exists m', Menu.SelectPrevious m = Some m' /\
    Menu.SelectedIdx m' = Menu.SelectedIdx m - 1 /\
    Menu.IsOpen m' = Menu.IsOpen m.
Proof.
  intros H Hfit. unfold Menu.SelectPrevious, Menu.clear_selection.
  destruct (Z.eqb_spec (len (Menu.Items m)) 0); [lia|].
  destruct (Z.geb_spec (Menu.SelectedIdx m) 0); [|lia].
  destruct (Z.ltb_spec (Menu.SelectedIdx m) (len (Menu.Items m))); [|lia]. cbn.
  destruct (set_item_active_Some (Menu.SelectedIdx m) false m) as (m1 & E1 & S1 & L1 & O1);
    [lia|].
  rewrite E1. cbn. rewrite S1. unwrap.
  destruct (Z.ltb_spec (Menu.SelectedIdx m - 1) 0); [lia|]. cbn.
  destruct (set_item_active_Some (Menu.SelectedIdx m - 1) true
              (Menu.set_SelectedIdx (Menu.SelectedIdx m - 1) m1)) as (m2 & E2 & S2 & L2 & O2);
    [cbn; lia|].
  rewrite E2. eexists. split; [reflexivity|]. rewrite S2, O2. cbn. auto.
Qed.

(** [MoveUp] inside a sub-menu whose selection is not the first item
    moves the selection up by one and leaves the sub-menu active. *)
Lemma MoveUp_moves_selection (mb : MenuBar.t) (p : Menu.path) (active : Menu.t) :
  MenuBar.IsActive mb = true ->
  MenuBar.ActiveMenu mb = Some p ->
  Menu.get (MenuBar.Menu mb) p = Some active ->
  0 < Menu.SelectedIdx active < len (Menu.Items active) ->
  len (Menu.Items active) <= int_max ->
  exists mb' active', MenuBar.MoveUp mb = Some mb' /\
    MenuBar.ActiveMenu mb' = Some p /\
    Menu.get (MenuBar.Menu mb') p = Some active' /\
    Menu.SelectedIdx active' = Menu.SelectedIdx active - 1 /\
    Menu.IsOpen active' = Menu.IsOpen active.
Proof.
  intros Ha Hp Hg Hs Hfit. unfold MenuBar.MoveUp. rewrite Ha, Hp. cbn. rewrite Hg. cbn.
  destruct (Z.gtb_spec (Menu.SelectedIdx active) 0); [|lia].
  unfold MenuBar.on_active. rewrite Hg. cbn.
  destruct (SelectPrevious_moves_up active Hs Hfit) as (active' & E & S & O).
  rewrite E. cbn. eexists _, active'. split; [reflexivity|]. cbn.
  split; [exact Hp|]. split; [eapply get_put, Hg|]. auto.
Qed.

(** [MoveUp] on the first item of the active sub-menu closes that
    sub-menu and clears [ActiveMenu], at whatever depth the sub-menu is. *)
Lemma MoveUp_first_item (mb : MenuBar.t) (p : Menu.path) (active : Menu.t) :
  MenuBar.IsActive mb = true ->
  MenuBar.ActiveMenu mb = Some p ->
  Menu.get (MenuBar.Menu mb) p = Some active ->
  Menu.SelectedIdx active <= 0 ->
  exists mb', MenuBar.MoveUp mb = Some mb' /\
    MenuBar.ActiveMenu mb' = None /\
    MenuBar.Menu mb' = Menu.put (MenuBar.Menu mb) p (Menu.set_IsOpen false active) /\
    Menu.get (MenuBar.Menu mb') p = Some (Menu.set_IsOpen false active) /\
    (p <> [] -> Menu.SelectedIdx (MenuBar.Menu mb') = Menu.SelectedIdx (MenuBar.Menu mb)).
Proof.
  intros Ha Hp Hg Hs. unfold MenuBar.MoveUp. rewrite Ha, Hp. cbn. rewrite Hg. cbn.
  destruct (Z.gtb_spec (Menu.SelectedIdx active) 0); [lia|].
  eexists. split; [reflexivity|]. cbn. repeat split.
  - eapply get_put, Hg.
  - intros Hne. destruct p as [|i p]; [contradiction|]. apply put_SelectedIdx.
Qed.

(** C4, at a sub-menu nested in a sub-menu: Down opens the sub-menu of
    "F", Enter opens the sub-menu of its item "R", and Up on the first
    item of that one closes it and leaves no sub-menu active (the
    navigation is back on the bar) while the sub-menu of "F", its parent,
    stays open; the selections of the bar and of the parent are kept. *)
Theorem MoveUp_nested_returns_to_bar :
  (st ← Samples.menu_state;
   st ← Samples.handle_keys [Samples.KEY_DOWN; Samples.KEY_ENTER] st;
   Samples.menu_view st)
  = Some (Some [0%nat; 0%nat], 0, Some (true, 0), Some (true, 0)) /\
  (st ← Samples.menu_state;
   st ← Samples.handle_keys [Samples.KEY_DOWN; Samples.KEY_ENTER; Samples.KEY_UP] st;
   Samples.menu_view st)
  = Some (None, 0, Some (true, 0), Some (false, 0)).
Proof. split; vm_compute; reflexivity. Qed.

End MenuFacts.
(** ** Constructors *)

Module ConstructorFacts.

Lemma SFltb_SFleb (a b : spec_float) : SFltb a b = true -> SFleb a b = true.
Proof. unfold SFltb, SFleb. destruct (SFcompare a b) as [[| |]|]; auto. Qed.

Lemma NewProgressBar_clamps (x y width : Z) (initialValue maxValue : spec_float) (show : bool) :
  let pb := ProgressBar.NewProgressBar x y width initialValue maxValue show in
  (SFleb maxValue ProgressBar.f0 = true -> ProgressBar.MaxValue pb = ProgressBar.f100) /\
  (SFleb maxValue ProgressBar.f0 = false -> ProgressBar.MaxValue pb = maxValue) /\
  (SFltb initialValue ProgressBar.f0 = true -> ProgressBar.Value pb = ProgressBar.f0) /\
  ProgressBar.Width pb = width.
Proof.
  cbv zeta. unfold ProgressBar.NewProgressBar. cbn.
  split; [intros ->; reflexivity|]. split; [intros ->; reflexivity|].
  split; [|reflexivity]. intros ->.
  destruct (SFleb maxValue ProgressBar.f0) eqn:E.
  - reflexivity.
  - destruct (SFltb maxValue ProgressBar.f0) eqn:E'; [|reflexivity].
    apply SFltb_SFleb in E'. congruence.
Qed.

Lemma NewScrollBar_clamps (x y height value maxValue : Z) :
  let sb := ScrollBar.NewScrollBar x y height value maxValue in
  (height < 2 -> ScrollBar.Height sb = 2) /\
  (2 <= height -> ScrollBar.Height sb = height) /\
  (maxValue < 0 -> ScrollBar.MaxValue sb = 0) /\
  (value < 0 -> ScrollBar.Value sb = 0) /\
  0 <= ScrollBar.Value sb <= ScrollBar.MaxValue sb.
Proof.
  cbv zeta. unfold ScrollBar.NewScrollBar. cbn.
  repeat split; intros; cmp.
Qed.

Lemma Container_scroll_to_size (v : Z) (c : Container.t) :
  Container.Width (Container.scroll_to v c) = Container.Width c /\
  Container.Height (Container.scroll_to v c) = Container.Height c.
Proof. split; reflexivity. Qed.

Lemma ensureHighlightVisible_size (c : Container.t) :
  Container.Width (Container.ensureHighlightVisible c) = Container.Width c /\
  Container.Height (Container.ensureHighlightVisible c) = Container.Height c.
Proof.
  unfold Container.ensureHighlightVisible.
  destruct (negb _ || _); [auto|].
  destruct (_ <? _); [apply Container_scroll_to_size|].
  destruct (_ >? _); [apply Container_scroll_to_size|auto].
Qed.

Lemma updateScrollState_size (c : Container.t) :
  Container.Width (Container.updateScrollState c) = Container.Width c /\
  Container.Height (Container.updateScrollState c) = Container.Height c.
Proof.
  unfold Container.updateScrollState. cbv zeta.
  match goal with |- context [Container.ensureHighlightVisible ?x] =>
    destruct (ensureHighlightVisible_size x) as [-> ->] end.
  cbn. destruct (_ >? _); cbn; destruct (_ >=? _); try destruct (_ >? _); cbn; auto.
Qed.

Lemma NewContainer_clamps (x y width height : Z) (content : list bytes) :
  let c := Container.NewContainer x y width height content in
  (width < 1 -> Container.Width c = 1) /\
  (1 <= width -> Container.Width c = width) /\
  (height < 1 -> Container.Height c = 1) /\
  (1 <= height -> Container.Height c = height).
Proof.
  cbv zeta. unfold Container.NewContainer. cbv zeta.
  match goal with |- context [Container.ensureHighlightVisible ?x] =>
    destruct (ensureHighlightVisible_size x) as [-> ->] end.
  match goal with |- context [Container.updateScrollState ?x] =>
    pose proof (updateScrollState_size x) as [Ew Eh] end.
  assert (forall c' : Container.t,
            Container.Width
              (if (Container.HighlightedIndex c' >=? len (Container.Content c')) &&
                  (len (Container.Content c') >? 0)
               then Container.set_HighlightedIndex (len (Container.Content c') -i 1) c'
               else if len (Container.Content c') =? 0
                    then Container.set_HighlightedIndex (-1) c' else c')
            = Container.Width c' /\
            Container.Height
              (if (Container.HighlightedIndex c' >=? len (Container.Content c')) &&
                  (len (Container.Content c') >? 0)
               then Container.set_HighlightedIndex (len (Container.Content c') -i 1) c'
               else if len (Container.Content c') =? 0
                    then Container.set_HighlightedIndex (-1) c' else c')
            = Container.Height c') as F.
  { intros c'. destruct (_ && _); [auto|]. destruct (_ =? _); auto. }
  match goal with |- context [Container.Width (if _ then _ else _)] =>
    idtac end.
  rewrite (proj1 (F _)), (proj2 (F _)), Ew, Eh. cbn.
  repeat split; intros; cmp.
Qed.

Lemma TextArea_bookkeeping_size (ta : TextArea.t) :
  let ta' := TextArea.ensureCursorVisible (TextArea.updateScrollState (TextArea.calculateCounts ta)) in
  TextArea.Width ta' = TextArea.Width ta /\ TextArea.Height ta' = TextArea.Height ta.
Proof.
  assert (S : forall v t, TextArea.Width (TextArea.scroll_to v t) = TextArea.Width t /\
                          TextArea.Height (TextArea.scroll_to v t) = TextArea.Height t).
  { intros v t. unfold TextArea.scroll_to.
    destruct (ScrollBar.SetValue v (TextArea.scrollBar t)) as [sb [[[|n] nv]|]]; auto. }
  assert (E : forall t, TextArea.Width (TextArea.ensureCursorVisible t) = TextArea.Width t /\
                        TextArea.Height (TextArea.ensureCursorVisible t) = TextArea.Height t).
  { intros t. unfold TextArea.ensureCursorVisible. cbv zeta.
    destruct (_ <? _);
      [split; [rewrite (proj1 (S _ _))|rewrite (proj2 (S _ _))]; reflexivity|].
    destruct (_ >? _); [|auto].
    split; [rewrite (proj1 (S _ _))|rewrite (proj2 (S _ _))]; reflexivity. }
  assert (U : forall t, TextArea.Width (TextArea.updateScrollState t) = TextArea.Width t /\
                        TextArea.Height (TextArea.updateScrollState t) = TextArea.Height t).
  { intros t. unfold TextArea.updateScrollState. cbv zeta.
    match goal with |- context [if ?b then _ else _] => destruct b end; cbn.
    - match goal with |- context [TextArea.scroll_to ?v ?x] =>
        destruct (S v x) as [-> ->] end. auto.
    - match goal with |- context [TextArea.scroll_to ?v ?x] =>
        destruct (S v x) as [-> ->] end. auto. }
  cbv zeta. rewrite (proj1 (E _)), (proj2 (E _)), (proj1 (U _)), (proj2 (U _)). auto.
Qed.

Lemma NewTextArea_clamps (text : bytes) (x y width height maxChars : Z) (sw sc : bool) :
  let ta := TextArea.NewTextArea text x y width height maxChars sw sc in
  (width < 3 -> TextArea.Width ta = 3) /\
  (3 <= width -> TextArea.Width ta = width) /\
  (height < 2 -> TextArea.Height ta = 2) /\
  (2 <= height -> TextArea.Height ta = height).
Proof.
  cbv zeta. unfold TextArea.NewTextArea. cbv zeta.
  match goal with |- context [TextArea.ensureCursorVisible (TextArea.updateScrollState (TextArea.calculateCounts ?x))] =>
    destruct (TextArea_bookkeeping_size x) as [-> ->] end.
  cbn. repeat split; intros; cmp.
Qed.

Lemma BoxTypes_names (style : string) :
  is_Some (Box.BoxTypes !! style) <->
  style = "single"%string \/ style = "double"%string \/
  style = "round"%string \/ style = "bold"%string.
Proof.
  unfold Box.BoxTypes. rewrite !lookup_insert_is_Some, lookup_empty, is_Some_alt.
  intuition congruence.
Qed.

Lemma NewWindow_fields (icon title : bytes) (x y width height : Z) (style : string) :
  let w := Window.NewWindow icon title x y width height style in
  (Box.BoxTypes !! style = None -> Window.BoxStyle w = "single"%string) /\
  (is_Some (Box.BoxTypes !! style) -> Window.BoxStyle w = style) /\
  is_Some (Box.BoxTypes !! Window.BoxStyle w) /\
  Window.Width w = width /\ Window.Height w = height /\
  Window.focusedIndex w = -1 /\
  Window.Elements w = [] /\ Window.focusableElements w = [].
Proof.
  cbv zeta. unfold Window.NewWindow. cbn.
  destruct (Box.BoxTypes !! style) as [b|] eqn:E; cbn.
  - split; [intros; discriminate|]. split; [reflexivity|].
    split; [rewrite E; eauto|]. repeat split; reflexivity.
  - split; [reflexivity|]. split; [intros [? ?]; discriminate|].
    split; [apply BoxTypes_names; auto|]. repeat split; reflexivity.
Qed.

(** C8, as the constructors implement it.  No constructor can fail (each
    is a total function).  [NewWindow] replaces a box style that is not
    in [BoxTypes] by "single" and stores the width and the height it is
    given; [NewProgressBar] replaces a maximum that is not positive by
    100 and a negative initial value by 0; [NewScrollBar] raises a height
    below 2 to 2 and clamps the value into [[0, maxValue]] after raising
    a negative maximum to 0; [NewContainer] raises a width or height
    below 1 to 1; [NewTextArea] raises a width below 3 to 3 and a height
    below 2 to 2. *)
Theorem constructors_clamp :
  (forall icon title x y width height style,
     let w := Window.NewWindow icon title x y width height style in
     (Box.BoxTypes !! style = None -> Window.BoxStyle w = "single"%string) /\
     (is_Some (Box.BoxTypes !! style) -> Window.BoxStyle w = style) /\
     Window.Width w = width /\ Window.Height w = height) /\
  (forall x y width initialValue maxValue percent,
     let pb := ProgressBar.NewProgressBar x y width initialValue maxValue percent in
     (SFleb maxValue ProgressBar.f0 = true -> ProgressBar.MaxValue pb = ProgressBar.f100) /\
     (SFltb initialValue ProgressBar.f0 = true -> ProgressBar.Value pb = ProgressBar.f0) /\
     ProgressBar.Width pb = width) /\
  (forall x y height value maxValue,
     let sb := ScrollBar.NewScrollBar x y height value maxValue in
     (height < 2 -> ScrollBar.Height sb = 2) /\
     (maxValue < 0 -> ScrollBar.MaxValue sb = 0) /\
     (value < 0 -> ScrollBar.Value sb = 0) /\
     0 <= ScrollBar.Value sb <= ScrollBar.MaxValue sb) /\
  (forall x y width height content,
     let c := Container.NewContainer x y width height content in
     (width < 1 -> Container.Width c = 1) /\ (height < 1 -> Container.Height c = 1)) /\
  (forall text x y width height maxChars sw sc,
     let ta := TextArea.NewTextArea text x y width height maxChars sw sc in
     (width < 3 -> TextArea.Width ta = 3) /\ (height < 2 -> TextArea.Height ta = 2)).
Proof.
  split; [|split; [|split; [|split]]].
  - intros. pose proof (NewWindow_fields icon title x y width height style) as H.
    cbv zeta in *. tauto.
  - intros. pose proof (NewProgressBar_clamps x y width initialValue maxValue percent) as H.
    cbv zeta in *. tauto.
  - intros. pose proof (NewScrollBar_clamps x y height value maxValue) as H.
    cbv zeta in *. tauto.
  - intros. pose proof (NewContainer_clamps x y width height content) as H.
    cbv zeta in *. tauto.
  - intros. pose proof (NewTextArea_clamps text x y width height maxChars sw sc) as H.
    cbv zeta in *. tauto.
Qed.

Lemma constructors_clamp_witness :
  Window.BoxStyle (Window.NewWindow [] [] 0 0 80 24 "rounded") = "single"%string /\
  ProgressBar.MaxValue (ProgressBar.NewProgressBar 0 0 10 ProgressBar.f0 ProgressBar.f0 true)
    = ProgressBar.f100 /\
  Container.Width (Container.NewContainer 0 0 0 0 []) = 1.
Proof.
  destruct constructors_clamp as (W & P & _ & C & _).
  split; [|split].
  - apply (proj1 (W [] [] 0 0 80 24 "rounded"%string)). vm_compute. reflexivity.
  - apply (proj1 (P 0 0 10 ProgressBar.f0 ProgressBar.f0 true)). reflexivity.
  - apply (proj1 (C 0 0 0 0 [])). lia.
Defined.

(** A window made with width 0 and height 0 keeps them, and a scroll bar
    made with height 0 gets height 2: a width or height below 1 does not
    become 1 in every constructor. *)
Lemma NewWindow_keeps_small_size :
  Window.Width (Window.NewWindow [] [] 0 0 0 0 "single") = 0 /\
  Window.Height (Window.NewWindow [] [] 0 0 0 0 "single") = 0 /\
  ScrollBar.Height (ScrollBar.NewScrollBar 0 0 0 0 0) = 2 /\
  ~ (forall icon title x y width height style,
       width < 1 ->
       Window.Width (Window.NewWindow icon title x y width height style) = 1).
Proof.
  repeat split; try reflexivity.
  intros H. specialize (H [] [] 0 0 0 0 "single"%string ltac:(lia)). discriminate H.
Qed.

End ConstructorFacts.
(** ** Window: removal, compositor order *)

Module WindowFacts.
Import Window.

Lemma find_ref_Some (r : Ref) (l : list Ref) (i : nat) :
  find_ref r l = Some i -> l !! i = Some r /\ (i < length l)%nat.
Proof.
  revert i. induction l as [|e l IH]; intros i H; [discriminate|].
  cbn in H. destruct (decide (e = r)) as [->|Hne].
  - rewrite bool_decide_eq_true_2 in H by reflexivity. injection H as <-.
    split; [reflexivity|simpl; lia].
  - rewrite bool_decide_eq_false_2 in H by exact Hne.
    destruct (find_ref r l) as [j|]; [|discriminate]. injection H as <-.
    destruct (IH j eq_refl). split; [assumption|simpl; lia].
Qed.

Lemma find_ref_None (r : Ref) (l : list Ref) : find_ref r l = None -> r ∉ l.
Proof.
  induction l as [|e l IH]; intros H; [apply not_elem_of_nil|].
  cbn in H. destruct (decide (e = r)) as [->|Hne].
  - rewrite bool_decide_eq_true_2 in H by reflexivity. discriminate.
  - rewrite bool_decide_eq_false_2 in H by exact Hne.
    destruct (find_ref r l); [discriminate|].
    apply not_elem_of_cons. split; [congruence|apply IH; reflexivity].
Qed.

(** What [RemoveElement] does to the focus chain and the focus index. *)
Lemma RemoveElement_chain (element : Ref) (st : State) (i : nat) :
  find_ref element (chain st) = Some i ->
  let st' := RemoveElement element st in
  chain st' = take i (chain st) ++ drop (S i) (chain st) /\
  focus st' = if focus st >=? Z.of_nat i then focus st -i 1 else focus st.
Proof.
  intros H. unfold RemoveElement, chain, focus in *. cbn.
  destruct (find_ref element (Elements (win st))); cbn; rewrite H; cbn;
    destruct (_ >=? _); cbn; auto.
Qed.

Lemma RemoveElement_absent (element : Ref) (st : State) :
  find_ref element (chain st) = None ->
  let st' := RemoveElement element st in
  chain st' = chain st /\ focus st' = focus st.
Proof.
  intros H. unfold RemoveElement, chain, focus in *. cbn.
  destruct (find_ref element (Elements (win st))); cbn; rewrite H; cbn; auto.
Qed.

(** C9, as [RemoveElement] implements it.  Removing the element at
    position [i] of the focus chain, with the focus index [f] inside the
    chain: when [i < f] the index becomes [f - 1] and points to the
    element that was focused; when [i = f] the index becomes [f - 1],
    which is inside the shortened chain when [f >= 1] and is -1, the
    window's value for "nothing focused", when [f = 0]; when [i > f] the
    index and the focused element stay. *)
Theorem RemoveElement_focus (element : Ref) (st : State) (i : nat)
    (Hfound : find_ref element (chain st) = Some i)
    (Hfocus : 0 <= focus st < len (chain st))
    (Hsize : len (chain st) <= int_max) :
  let st' := RemoveElement element st in
  let f := focus st in
  chain st' = take i (chain st) ++ drop (S i) (chain st) /\
  len (chain st') = len (chain st) - 1 /\
  (Z.of_nat i < f ->
     focus st' = f - 1 /\ 0 <= focus st' < len (chain st') /\
     chain st' !! Z.to_nat (focus st') = chain st !! Z.to_nat f) /\
  (Z.of_nat i = f ->
     focus st' = f - 1 /\
     (1 <= f -> 0 <= focus st' < len (chain st')) /\
     (f = 0 -> focus st' = -1)) /\
  (f < Z.of_nat i ->
     focus st' = f /\ 0 <= focus st' < len (chain st') /\
     chain st' !! Z.to_nat (focus st') = chain st !! Z.to_nat f).
Proof.
  cbv zeta.
  destruct (RemoveElement_chain element st i Hfound) as [Ec Ef]. cbv zeta in Ec, Ef.
  destruct (find_ref_Some _ _ _ Hfound) as [Hi Hlt].
  assert (Hlen : len (chain (RemoveElement element st)) = len (chain st) - 1).
  { rewrite Ec. unfold len. rewrite length_app, length_take, length_drop. lia. }
  split; [exact Ec|]. split; [exact Hlen|].
  rewrite Hlen, Ef. unfold len in *.
  split; [|split].
  - intros Hif. destruct (Z.geb_spec (focus st) (Z.of_nat i)); [|lia]. unwrap.
    split; [reflexivity|]. split; [lia|].
    rewrite Ec, lookup_app_r by (rewrite length_take; lia).
    rewrite length_take, lookup_drop. f_equal. lia.
  - intros Hif. destruct (Z.geb_spec (focus st) (Z.of_nat i)); [|lia]. unwrap.
    split; [reflexivity|]. split; lia.
  - intros Hif. destruct (Z.geb_spec (focus st) (Z.of_nat i)); [lia|].
    split; [reflexivity|]. split; [lia|].
    rewrite Ec, lookup_app_l by (rewrite length_take; lia).
    apply lookup_take_lt. lia.
Qed.

(** With two buttons in the chain and the first one focused, removing
    the first one leaves the focus index -1, outside the chain that is
    left. *)
Lemma RemoveElement_first_focused :
  exists st, Samples.two_buttons = Some st /\
    chain st = [Obj 0; Obj 1] /\ focus st = 0 /\
    let st' := RemoveElement (Obj 0) st in
    chain st' = [Obj 1] /\ focus st' = -1 /\
    ~ (0 <= focus st' < len (chain st')).
Proof.
  eexists. split; [vm_compute; reflexivity|].
  vm_compute. repeat split; try reflexivity.
  intros [H _]. apply H. reflexivity.
Qed.

Lemma RemoveElement_focus_witness :
  exists st, Samples.two_buttons = Some st /\
    find_ref (Obj 0) (chain st) = Some 0%nat /\
    focus (RemoveElement (Obj 0) st) = -1.
Proof.
  eexists. split; [vm_compute; reflexivity|]. split; [vm_compute; reflexivity|].
  match goal with |- focus (RemoveElement _ ?s) = _ =>
    assert (Hfound : find_ref (Obj 0) (chain s) = Some 0%nat) by (vm_compute; reflexivity);
    assert (Hfocus : 0 <= focus s < len (chain s))
      by (vm_compute; split; [discriminate|reflexivity]);
    assert (Hsize : len (chain s) <= int_max) by (vm_compute; discriminate);
    destruct (RemoveElement_focus (Obj 0) s 0%nat Hfound Hfocus Hsize)
      as (_ & _ & _ & H & _)
  end.
  cbv zeta in H. destruct H as (_ & _ & H); [vm_compute; reflexivity|].
  apply H. vm_compute. reflexivity.
Defined.

(** *** The compositor's list *)

(** [getSortedElements] is the stable sort of [getAllElements] by the
    z-index: sorted, a permutation, and order-preserving among the
    elements of one z-index. *)
Lemma getSortedElements_stable_sort (st : State) :
  StronglySorted (by_key (zIndexOf st)) (getSortedElements st) /\
  Permutation (getSortedElements st) (getAllElements st) /\
  forall z, with_key (zIndexOf st) z (getSortedElements st)
            = with_key (zIndexOf st) z (getAllElements st).
Proof.
  unfold getSortedElements. split; [apply SortFacts.SliceStable_sorted|].
  split; [apply SortFacts.SliceStable_Permutation|].
  intros z. apply SortFacts.SliceStable_stable.
Qed.

(** The z-index by kind of element: 100 for a menu bar, 150 for a
    sub-menu, and 0 for every type without a [GetZIndex] method, a
    prompt included. *)
Lemma zOf_by_kind :
  (forall mb, zOf (EMenuBar mb) = 100) /\
  (forall m, Menu.IsTopLevel m = false -> zOf (EMenu m) = 150) /\
  (forall m, Menu.IsTopLevel m = true -> zOf (EMenu m) = 100) /\
  (forall p, zOf (EPrompt p) = 0) /\
  (forall e, GetZIndex e = None -> zOf e = 0).
Proof.
  repeat split; intros; try reflexivity.
  - unfold zOf. cbn. unfold Menu.GetZIndex. rewrite H. reflexivity.
  - unfold zOf. cbn. unfold Menu.GetZIndex. rewrite H. reflexivity.
  - unfold zOf. rewrite H. reflexivity.
Qed.

(** C2, at a dialog prompt added before a label: the prompt's [zIndex]
    field is 1000, the compositor sorts it with z-index 0, and the sorted
    list keeps the prompt before the label, so the label is painted
    after (over) the prompt. *)
Theorem getSortedElements_prompt_before_label :
  exists st, Samples.prompt_state = Some st /\
    deref st (Obj 0) = Some (EPrompt (Prompt.SetActive true Samples.dialog)) /\
    Prompt.zIndex Samples.dialog = 1000 /\
    zIndexOf st (Obj 0) = 0 /\
    zIndexOf st (Obj 1) = 0 /\
    getSortedElements st = [Obj 0; Obj 1].
Proof.
  eexists. split; [vm_compute; reflexivity|].
  repeat split; vm_compute; reflexivity.
Qed.

End WindowFacts.
(** ** The focus chain *)

Module FocusFacts.
Import Window.

(** *** Activation and deactivation of one element *)

Lemma clear_selection_total (m : Menu.t) :
  exists m', Menu.clear_selection m = Some m'.
Proof.
  unfold Menu.clear_selection.
  destruct (Z.geb_spec (Menu.SelectedIdx m) 0); cbn; [|eauto].
  destruct (Z.ltb_spec (Menu.SelectedIdx m) (len (Menu.Items m))); cbn; [|eauto].
  destruct (MenuFacts.set_item_active_Some (Menu.SelectedIdx m) false m) as (m' & E & _);
    [lia|eauto].
Qed.

Lemma Deactivate_total (mb : MenuBar.t) :
  exists mb', MenuBar.Deactivate mb = Some mb' /\ MenuBar.IsActive mb' = false.
Proof.
  unfold MenuBar.Deactivate. cbn.
  destruct (clear_selection_total (MenuBar.Menu mb)) as [m' E]. rewrite E. cbn.
  eexists. split; reflexivity.
Qed.

Lemma Activate_total (mb : MenuBar.t) :
  exists mb', MenuBar.Activate mb = Some mb' /\ MenuBar.IsActive mb' = true.
Proof.
  unfold MenuBar.Activate. cbn.
  destruct (Z.ltb_spec (Menu.SelectedIdx (MenuBar.Menu mb)) 0); cbn;
    [|eexists; split; reflexivity].
  destruct (Z.gtb_spec (len (Menu.Items (MenuBar.Menu mb))) 0); cbn;
    [|eexists; split; reflexivity].
  destruct (MenuFacts.set_item_active_Some 0 true
              (Menu.set_SelectedIdx 0 (MenuBar.Menu mb))) as (m' & E & _); [cbn; lia|].
  rewrite E. cbn. eexists. split; reflexivity.
Qed.

Lemma deactivate_spec (e : Element) :
  exists e', deactivate e = Some e' /\ kind e' = kind e /\ owned_bar e' = owned_bar e /\
             (focusable e = true -> is_active e' = false).
Proof.
  destruct e; cbn; try (eexists; repeat split; reflexivity || discriminate).
  destruct (Deactivate_total (MenuBar.set_IsActive false mb)) as (mb' & E & A).
  rewrite E. cbn. eexists. repeat split. intros _. exact A.
Qed.

Lemma activate_spec (e : Element) :
  exists e', activate e = Some e' /\ kind e' = kind e /\ owned_bar e' = owned_bar e /\
             (focusable e = true -> is_active e' = true).
Proof.
  destruct e; cbn; try (eexists; repeat split; reflexivity || discriminate).
  destruct (Activate_total (MenuBar.set_IsActive true mb)) as (mb' & E & A).
  rewrite E. cbn. eexists. repeat split. intros _. exact A.
Qed.

(** *** Reads and writes through pointers *)

Lemma entry_deref (st : State) (r : Ref) :
  entry_ok st r -> exists e, deref st r = Some e /\ focusable e = true.
Proof.
  destruct r as [a|a|a p]; cbn; [auto| |contradiction].
  intros (e & -> & [sb Hsb]). destruct e; try discriminate; eexists; split; reflexivity.
Qed.

Lemma assign_win (r : Ref) (e : Element) (st : State) : win (assign r e st) = win st.
Proof.
  destruct r as [a|a|a p]; cbn; [reflexivity| |];
    destruct (heap st !! a) as [[]|]; try reflexivity; destruct e; reflexivity.
Qed.

Lemma assign_chain (r : Ref) (e : Element) (st : State) : chain (assign r e st) = chain st.
Proof. unfold chain. rewrite assign_win. reflexivity. Qed.

Lemma assign_focus (r : Ref) (e : Element) (st : State) : focus (assign r e st) = focus st.
Proof. unfold focus. rewrite assign_win. reflexivity. Qed.

(** A write of an element of the same variant that owns the same scroll
    bar is read back, keeps every entry an entry, and leaves the activity
    of every other entry as it was. *)
Lemma assign_frame (st : State) (r : Ref) (e e' : Element) :
  entry_ok st r -> deref st r = Some e ->
  kind e' = kind e -> owned_bar e' = owned_bar e ->
  let st' := assign r e' st in
  deref st' r = Some e' /\
  (forall r', entry_ok st r' -> entry_ok st' r') /\
  (forall r', r' <> r -> entry_ok st r' -> ref_active st' r' = ref_active st r').
Proof.
  intros Hok Hd Hk Hb. cbv zeta.
  destruct r as [a|a|a p]; [| |contradiction].
  - (* a pointer to an object *)
    cbn in Hd. cbn [assign]. split; [cbn; apply lookup_insert_eq|]. split.
    + intros [b|b|b q]; cbn; [| |auto].
      * intros (x & Hx & Fx). destruct (decide (a = b)) as [<-|Hne].
        -- rewrite lookup_insert_eq. exists e'. split; [reflexivity|].
           rewrite Hd in Hx. injection Hx as <-.
           destruct e, e'; try discriminate; auto.
        -- rewrite lookup_insert_ne by exact Hne. eauto.
      * intros (x & Hx & Fx). destruct (decide (a = b)) as [<-|Hne].
        -- rewrite lookup_insert_eq. exists e'. split; [reflexivity|].
           rewrite Hd in Hx. injection Hx as <-. rewrite Hb. exact Fx.
        -- rewrite lookup_insert_ne by exact Hne. eauto.
    + intros [b|b|b q] Hne; cbn; [| |contradiction]; unfold ref_active; cbn.
      * intros _. rewrite lookup_insert_ne by congruence. reflexivity.
      * intros (x & Hx & Fx). destruct (decide (a = b)) as [<-|Hab].
        -- rewrite lookup_insert_eq, Hx. rewrite Hd in Hx. injection Hx as <-.
           destruct e, e'; try discriminate; cbn in Hb; try reflexivity;
             injection Hb as ->; reflexivity.
        -- rewrite lookup_insert_ne by exact Hab. reflexivity.
  - (* a pointer to the scroll bar of a container or a text area *)
    cbn in Hok. destruct Hok as (o & Ho & [sb Hsb]). cbn in Hd. rewrite Ho in Hd.
    destruct o; try discriminate; cbn in Hd; injection Hd as <-;
      destruct e'; try discriminate; cbn [assign]; rewrite Ho.
    + split; [cbn; rewrite lookup_insert_eq; reflexivity|]. split.
      * intros [b|b|b q]; cbn; [| |auto]; intros (x & Hx & Fx);
          (destruct (decide (a = b)) as [<-|Hne];
           [rewrite lookup_insert_eq; rewrite Ho in Hx; injection Hx as <-;
            eexists; split; [reflexivity|cbn; eauto]
           |rewrite lookup_insert_ne by exact Hne; eauto]).
      * intros [b|b|b q] Hne; cbn; [| |contradiction]; unfold ref_active; cbn.
        -- intros (x & Hx & Fx). destruct (decide (a = b)) as [<-|Hab].
           ++ rewrite lookup_insert_eq, Ho. reflexivity.
           ++ rewrite lookup_insert_ne by exact Hab. reflexivity.
        -- intros _. rewrite lookup_insert_ne by congruence. reflexivity.
    + split; [cbn; rewrite lookup_insert_eq; reflexivity|]. split.
      * intros [b|b|b q]; cbn; [| |auto]; intros (x & Hx & Fx);
          (destruct (decide (a = b)) as [<-|Hne];
           [rewrite lookup_insert_eq; rewrite Ho in Hx; injection Hx as <-;
            eexists; split; [reflexivity|cbn; eauto]
           |rewrite lookup_insert_ne by exact Hne; eauto]).
      * intros [b|b|b q] Hne; cbn; [| |contradiction]; unfold ref_active; cbn.
        -- intros (x & Hx & Fx). destruct (decide (a = b)) as [<-|Hab].
           ++ rewrite lookup_insert_eq, Ho. reflexivity.
           ++ rewrite lookup_insert_ne by exact Hab. reflexivity.
        -- intros _. rewrite lookup_insert_ne by congruence. reflexivity.
Qed.

(** A method call through an entry of the chain that keeps the variant
    and the owned scroll bar. *)
Lemma modify_entry (st : State) (r : Ref) (f : Element -> option Element) (b : bool) :
  entry_ok st r ->
  (forall e, exists e', f e = Some e' /\ kind e' = kind e /\ owned_bar e' = owned_bar e /\
                        (focusable e = true -> is_active e' = b)) ->
  exists st', modify r f st = Some st' /\
    win st' = win st /\
    ref_active st' r = b /\
    (forall r', entry_ok st r' -> entry_ok st' r') /\
    (forall r', r' <> r -> entry_ok st r' -> ref_active st' r' = ref_active st r').
Proof.
  intros Hok Hf. destruct (entry_deref st r Hok) as (e & Hd & Hfoc).
  destruct (Hf e) as (e' & Ef & Hk & Hb & Ha).
  unfold modify. rewrite Hd. cbn. rewrite Ef. cbn.
  destruct (assign_frame st r e e' Hok Hd Hk Hb) as (D & O & A).
  eexists. split; [reflexivity|]. split; [apply assign_win|].
  split; [unfold ref_active; rewrite D; auto|]. split; assumption.
Qed.

Lemma chain_ok_transfer (st st' : State) :
  win st' = win st -> (forall r, entry_ok st r -> entry_ok st' r) ->
  chain_ok st -> chain_ok st'.
Proof.
  intros Hw He (Hnd & Hall & Hlen). unfold chain_ok, chain in *. rewrite Hw.
  split; [exact Hnd|]. split; [|exact Hlen].
  eapply Forall_impl; [exact Hall|exact He].
Qed.

Lemma chain_entry (st : State) (i : nat) (r : Ref) :
  chain_ok st -> chain st !! i = Some r -> entry_ok st r.
Proof.
  intros (_ & Hall & _) Hi. rewrite Forall_lookup in Hall. eapply Hall, Hi.
Qed.

(** The invariant [setFocus] establishes. *)
Lemma setFocus_spec (newIndex : Z) (st : State) :
  chain_ok st -> chain st <> [] -> quiet_except_focus st ->
  exists st', setFocus newIndex st = Some st' /\
    chain st' = chain st /\ chain_ok st' /\
    0 <= focus st' < len (chain st') /\
    focus st' = (if newIndex <? 0 then len (chain st) - 1
                 else if newIndex >=? len (chain st) then 0 else newIndex) /\
    focus_marks_active st'.
Proof.
  intros Hok Hne Hq. pose proof Hok as (Hnd & Hall & Hlen).
  assert (Hpos : 0 < len (chain st)).
  { pose proof (len_nonneg (chain st)).
    destruct (Z.eq_dec (len (chain st)) 0) as [E|E]; [apply len_nil_iff in E; contradiction|lia]. }
  unfold setFocus. destruct (Z.eqb_spec (len (chain st)) 0); [lia|].
  (* the focus leaves the old element *)
  assert (H1 : exists st1,
    (if (focus st >=? 0) && (focus st <? len (chain st))
     then r ← index (chain st) (focus st); modify r deactivate st
     else Some st) = Some st1 /\
    win st1 = win st /\ chain_ok st1 /\
    (forall i r, chain st !! i = Some r -> ref_active st1 r = false)).
  { destruct (Z.geb_spec (focus st) 0) as [Hf0|Hf0]; cbn;
      [destruct (Z.ltb_spec (focus st) (len (chain st))) as [Hf1|Hf1]; cbn|].
    - destruct (index_Some (chain st) (focus st)) as (r0 & Hi & Hl); [lia|].
      rewrite Hi. cbn.
      destruct (modify_entry st r0 deactivate false (chain_entry _ _ _ Hok Hl) deactivate_spec)
        as (st1 & E & Hw & Ha & He & Ho).
      exists st1. split; [exact E|]. split; [exact Hw|].
      split; [exact (chain_ok_transfer _ _ Hw He Hok)|].
      intros i r Hr. destruct (decide (r = r0)) as [->|Hd]; [exact Ha|].
      rewrite (Ho r Hd (chain_entry _ _ _ Hok Hr)). apply (Hq i r Hr).
      intros Hif. apply Hd. rewrite <- Hif, Nat2Z.id in Hl. congruence.
    - exists st. repeat split; try assumption. intros i r Hr. apply (Hq i r Hr).
      apply lookup_lt_Some in Hr. unfold len in Hf1. lia.
    - exists st. repeat split; try assumption. intros i r Hr. apply (Hq i r Hr). lia. }
  destruct H1 as (st1 & E1 & Hw1 & Hok1 & Hq1). rewrite E1. cbn.
  assert (Hc1 : chain st1 = chain st) by (unfold chain; rewrite Hw1; reflexivity).
  rewrite Hc1.
  (* the index is normalised *)
  set (f := if newIndex <? 0 then len (chain st) - 1
            else if newIndex >=? len (chain st) then 0 else newIndex).
  assert (Hf : 0 <= f < len (chain st)).
  { unfold f. destruct (Z.ltb_spec newIndex 0); [lia|].
    destruct (Z.geb_spec newIndex (len (chain st))); lia. }
  set (st2 := if newIndex <? 0 then set_focus (len (chain st) -i 1) st1
              else if newIndex >=? len (chain st) then set_focus 0 st1
              else set_focus newIndex st1).
  assert (E2 : st2 = set_focus f st1).
  { unfold st2, f. destruct (newIndex <? 0); [unwrap; reflexivity|].
    destruct (newIndex >=? len (chain st)); reflexivity. }
  rewrite E2.
  assert (Hc2 : chain (set_focus f st1) = chain st) by exact Hc1.
  assert (Hf2 : focus (set_focus f st1) = f) by reflexivity.
  rewrite Hc2, Hf2.
  destruct (Z.geb_spec f 0); [|lia]. destruct (Z.ltb_spec f (len (chain st))); [|lia]. cbn.
  destruct (index_Some (chain st) f Hf) as (r1 & Hi1 & Hl1). rewrite Hi1. cbn.
  assert (Hok2 : chain_ok (set_focus f st1)) by exact Hok1.
  assert (He2 : forall r, entry_ok st1 r -> entry_ok (set_focus f st1) r) by (intros r Hr; exact Hr).
  destruct (modify_entry (set_focus f st1) r1 activate true) as (st3 & E3 & Hw3 & Ha3 & He3 & Ho3).
  { apply He2. eapply chain_entry; [exact Hok1|]. rewrite Hc1. exact Hl1. }
  { exact activate_spec. }
  exists st3. split; [exact E3|].
  assert (Hc3 : chain st3 = chain st) by (unfold chain; rewrite Hw3; exact Hc1).
  assert (Hf3 : focus st3 = f) by (unfold focus; rewrite Hw3; reflexivity).
  split; [exact Hc3|]. split; [exact (chain_ok_transfer _ _ Hw3 He3 Hok2)|].
  rewrite Hc3, Hf3. split; [exact Hf|]. split; [reflexivity|].
  intros i r Hr. rewrite Hc3 in Hr. rewrite Hf3.
  destruct (decide (Z.of_nat i = f)) as [Hif|Hif].
  - rewrite bool_decide_eq_true_2 by exact Hif.
    rewrite <- Hif, Nat2Z.id in Hl1. rewrite Hr in Hl1. injection Hl1 as ->. exact Ha3.
  - rewrite bool_decide_eq_false_2 by exact Hif.
    assert (Hd : r <> r1).
    { intros ->. apply Hif. rewrite <- (NoDup_lookup _ _ _ _ Hnd Hl1 Hr). lia. }
    rewrite (Ho3 r Hd).
    + apply (Hq1 i r Hr).
    + apply He2. eapply chain_entry; [exact Hok1|]. rewrite Hc1. exact Hr.
Qed.

Lemma focus_marks_quiet (st : State) : focus_marks_active st -> quiet_except_focus st.
Proof.
  intros H i r Hr Hne. rewrite (H i r Hr). apply bool_decide_eq_false_2, Hne.
Qed.

(** A list of which exactly one position holds a property. *)
Lemma count_none {A} (f : A -> bool) (l : list A) :
  (forall i x, l !! i = Some x -> f x = false) -> List.filter f l = [].
Proof.
  induction l as [|x l IH]; intros H; [reflexivity|].
  cbn [List.filter]. rewrite (H 0%nat x eq_refl).
  apply IH. intros i y Hy. apply (H (S i) y Hy).
Qed.

Lemma count_single {A} (f : A -> bool) (l : list A) (k : nat) :
  (k < length l)%nat ->
  (forall i x, l !! i = Some x -> f x = bool_decide (i = k)) ->
  length (List.filter f l) = 1%nat.
Proof.
  revert k. induction l as [|x l IH]; intros k Hk H; [simpl in Hk; lia|].
  cbn [List.filter]. destruct k as [|k].
  - rewrite (H 0%nat x eq_refl). rewrite bool_decide_eq_true_2 by reflexivity. cbn.
    rewrite count_none; [reflexivity|].
    intros i y Hy. rewrite (H (S i) y Hy). apply bool_decide_eq_false_2. lia.
  - rewrite (H 0%nat x eq_refl). rewrite bool_decide_eq_false_2 by lia.
    apply (IH k); [simpl in Hk; lia|].
    intros i y Hy. rewrite (H (S i) y Hy).
    destruct (decide (i = k)) as [->|Hne].
    + rewrite !bool_decide_eq_true_2 by reflexivity. reflexivity.
    + rewrite !bool_decide_eq_false_2 by lia. reflexivity.
Qed.

Lemma focus_marks_one_active (st : State) :
  0 <= focus st < len (chain st) -> focus_marks_active st -> active_count st = 1%nat.
Proof.
  intros Hf H. unfold active_count.
  apply (count_single _ _ (Z.to_nat (focus st))); [unfold len in Hf; lia|].
  intros i r Hr. rewrite (H i r Hr).
  destruct (decide (Z.of_nat i = focus st)) as [E|E].
  - rewrite !bool_decide_eq_true_2; [reflexivity|lia|exact E].
  - rewrite !bool_decide_eq_false_2; [reflexivity|lia|exact E].
Qed.

Lemma setFocus_seq_spec (indices : list Z) (newIndex : Z) (st : State) :
  chain_ok st -> chain st <> [] -> quiet_except_focus st ->
  exists st', setFocus_seq (newIndex :: indices) st = Some st' /\
    chain st' = chain st /\ chain_ok st' /\
    0 <= focus st' < len (chain st') /\ focus_marks_active st'.
Proof.
  revert newIndex st. induction indices as [|n rest IH]; intros newIndex st Hok Hne Hq.
  - destruct (setFocus_spec newIndex st Hok Hne Hq) as (st' & E & Hc & Hok' & Hf & _ & Hm).
    cbn. rewrite E. cbn. eauto 10.
  - destruct (setFocus_spec newIndex st Hok Hne Hq) as (st1 & E & Hc & Hok1 & Hf & _ & Hm).
    destruct (IH n st1 Hok1) as (st' & E' & Hc' & R); [congruence|apply focus_marks_quiet, Hm|].
    exists st'. split; [|split; [congruence|exact R]].
    change (setFocus_seq (newIndex :: n :: rest) st)
      with (st ← setFocus newIndex st; setFocus_seq (n :: rest) st).
    rewrite E. exact E'.
Qed.

(** C1. In a window whose focus chain is not empty (and is a chain as
    [AddElement] builds it, with no entry active but possibly the
    focused one), every non-empty sequence of [setFocus] calls, with
    whatever integers, returns and leaves exactly one entry of the chain
    active and the focus index inside [[0, length of the chain)]. *)
Theorem setFocus_exactly_one_active (st : State) (newIndex : Z) (indices : list Z)
    (Hok : chain_ok st) (Hne : chain st <> []) (Hq : quiet_except_focus st) :
  exists st', setFocus_seq (newIndex :: indices) st = Some st' /\
    chain st' = chain st /\
    active_count st' = 1%nat /\
    0 <= focus st' < len (chain st') /\
    (forall (i : nat) (r : Ref), chain st' !! i = Some r ->
       (ref_active st' r = true <-> Z.of_nat i = focus st')).
Proof.
  destruct (setFocus_seq_spec indices newIndex st Hok Hne Hq)
    as (st' & E & Hc & Hok' & Hf & Hm).
  exists st'. split; [exact E|]. split; [exact Hc|].
  split; [apply focus_marks_one_active; assumption|]. split; [exact Hf|].
  intros i r Hr. rewrite (Hm i r Hr). apply bool_decide_eq_true.
Qed.

Lemma setFocus_exactly_one_active_witness :
  chain_ok Samples.mixed_state /\ chain Samples.mixed_state <> [] /\
  quiet_except_focus Samples.mixed_state /\
  exists st', setFocus_seq [7; -2; 1] Samples.mixed_state = Some st' /\
              active_count st' = 1%nat /\ 0 <= focus st' < len (chain st').
Proof.
  assert (Ec : chain Samples.mixed_state
               = [Obj 0; Obj 1; ScrollBarOf 1; Obj 2; Obj 3; Obj 4])
    by (vm_compute; reflexivity).
  assert (Hok : chain_ok Samples.mixed_state).
  { unfold chain_ok. rewrite Ec. split; [|split].
    - apply (bool_decide_unpack _). vm_compute. exact I.
    - repeat (apply Forall_cons_2;
              [cbn; eexists; split; [vm_compute; reflexivity|cbn; eauto]|]).
      apply Forall_nil_2.
    - vm_compute. discriminate. }
  assert (Hne : chain Samples.mixed_state <> []) by (rewrite Ec; discriminate).
  assert (Hq : quiet_except_focus Samples.mixed_state).
  { intros i r Hr Hi. rewrite Ec in Hr.
    assert (Ef : focus Samples.mixed_state = 0) by (vm_compute; reflexivity).
    rewrite Ef in Hi.
    do 6 (destruct i as [|i]; [try lia; cbn in Hr; injection Hr as <-; vm_compute; reflexivity|]).
    discriminate Hr. }
  split; [exact Hok|]. split; [exact Hne|]. split; [exact Hq|].
  destruct (setFocus_exactly_one_active Samples.mixed_state 7 [-2; 1] Hok Hne Hq)
    as (st' & E & _ & Hc & Hf & _).
  exists st'. split; [exact E|]. split; [exact Hc|exact Hf].
Defined.

(** Two buttons and a dialog are added to a window and the dialog is
    then shown with [SetActive(true)], as the demo does: the first
    button has the focus and the dialog is active too.  [setFocus(1)]
    deactivates the first button only, so the second button and the
    dialog are both active afterwards. *)
Lemma setFocus_leaves_shown_prompt_active :
  chain Samples.shown_prompt_state = [Obj 0; Obj 1; Obj 2] /\
  focus Samples.shown_prompt_state = 0 /\
  ref_active Samples.shown_prompt_state <$> chain Samples.shown_prompt_state
    = [true; false; true] /\
  exists st', setFocus_seq [1] Samples.shown_prompt_state = Some st' /\
    chain st' = [Obj 0; Obj 1; Obj 2] /\ focus st' = 1 /\
    ref_active st' <$> chain st' = [false; true; true] /\
    active_count st' = 2%nat /\
    active_count st' <> 1%nat.
Proof.
  do 3 (split; [vm_compute; reflexivity|]).
  eexists. split; [vm_compute; reflexivity|].
  do 4 (split; [vm_compute; reflexivity|]).
  vm_compute. discriminate.
Qed.

End FocusFacts.
(** ** The dispatcher *)

Module DispatchFacts.
Import Window Dispatch.

Section WithClosures.
Variable HandleKeyStroke : Callback -> list Z -> State -> State * (bool * bool * bool).
Variable call_action : Callback -> State -> State * bool.
Variable call_notify : Callback -> Z -> State -> State.
Variable MakeRaw_ok : bool.

Local Abbreviation handle_key := (handle_key HandleKeyStroke call_action call_notify MakeRaw_ok).
Local Abbreviation default_keys := (default_keys call_action call_notify MakeRaw_ok).

Lemma focusedElement_deref (st : State) (r : Ref) (e : Element) :
  focusedElement st = Some (r, e) ->
  deref st r = Some e /\ 0 <= focus st < len (chain st).
Proof.
  unfold focusedElement.
  destruct (Z.geb_spec (focus st) 0); cbn; [|discriminate].
  destruct (Z.ltb_spec (focus st) (len (chain st))); cbn; [|discriminate].
  destruct (index (chain st) (focus st)) as [r0|]; cbn; [|discriminate].
  destruct (deref st r0) as [e0|] eqn:E; cbn; [|discriminate].
  intros [= <- <-]. split; [exact E|lia].
Qed.

Lemma deref_prompt_Obj (st : State) (r : Ref) (p : Prompt.t) :
  deref st r = Some (EPrompt p) -> exists a, r = Obj a /\ heap st !! a = Some (EPrompt p).
Proof.
  destruct r as [a|a|a q]; cbn.
  - eauto.
  - destruct (heap st !! a) as [[]|]; discriminate.
  - destruct (heap st !! a) as [[]|]; try discriminate;
      match goal with |- context [Menu.get ?m ?q] => destruct (Menu.get m q) end;
      discriminate.
Qed.

Lemma deref_menubar_Obj (st : State) (r : Ref) (mb : MenuBar.t) :
  deref st r = Some (EMenuBar mb) -> exists a, r = Obj a /\ heap st !! a = Some (EMenuBar mb).
Proof.
  destruct r as [a|a|a q]; cbn.
  - eauto.
  - destruct (heap st !! a) as [[]|]; discriminate.
  - destruct (heap st !! a) as [[]|]; try discriminate;
      match goal with |- context [Menu.get ?m ?q] => destruct (Menu.get m q) end;
      discriminate.
Qed.

(** Escape, handled by the built-in branches, with a modal active prompt
    in the window. *)
Lemma default_keys_escape (st : State) (r : Ref) (p : Prompt.t) :
  deref st r = Some (EPrompt p) ->
  focused_prompt_modal st ->
  exists st' fl, default_keys [27] st = Some (st', fl) /\
    focus st' = focus st /\ chain st' = chain st /\
    deref st' r = Some (EPrompt p) /\ shouldQuit fl = false /\
    (forall q, focusedElement st = Some (r, EPrompt q) -> st' = st /\ fl = quiet).
Proof.
  intros Hp Hfm. unfold Dispatch.default_keys.
  destruct (focusedElement st) as [[r0 e0]|] eqn:Ef;
    [|exists st, quiet; repeat split; auto; discriminate].
  destruct (focusedElement_deref st r0 e0 Ef) as [Hd0 _].
  destruct e0;
    try (exists st, quiet; repeat split; auto; intros ? [=]; fail).
  - (* text box *)
    destruct (TextBox.IsActive tb);
      exists st, quiet; repeat split; auto; intros ? [=].
  - (* scroll bar *)
    destruct (ScrollBar.IsActive sb);
      exists st, quiet; repeat split; auto; intros ? [=].
  - (* container *)
    destruct (Container.IsActive c);
      exists st, quiet; repeat split; auto; intros ? [=].
  - (* text area *)
    destruct (TextArea.IsActive ta);
      exists st, quiet; repeat split; auto; intros ? [=].
  - (* menu bar: Escape deactivates it *)
    destruct (MenuBar.IsActive mb);
      [|exists st, quiet; repeat split; auto; intros ? [=]].
    destruct (deref_menubar_Obj st r0 mb Hd0) as (a0 & -> & Ha0).
    destruct (deref_prompt_Obj st r p Hp) as (a & -> & Ha).
    destruct (FocusFacts.Deactivate_total mb) as (mb' & E & _).
    unfold menubar_keys, with_flags, modify. rewrite Hd0. cbn. rewrite E. cbn.
    eexists _, _. split; [reflexivity|]. cbn.
    split; [reflexivity|]. split; [reflexivity|].
    split; [rewrite lookup_insert_ne by (intros ->; congruence); exact Ha|].
    split; [reflexivity|]. intros q' Hq'. discriminate Hq'.
  - (* prompt *)
    destruct (Prompt.IsActive p0) eqn:Ea;
      [|exists st, quiet; repeat split; auto].
    pose proof (Hfm r0 p0 Ef Ea) as Hm.
    unfold prompt_keys, Prompt.IsModal. rewrite Hm, Ea. cbn.
    exists st, quiet. repeat split; auto.
Qed.

(** C5. With a prompt in the window that is modal and active, and the
    focus on it (or on any element that is not an active non-modal
    prompt), the dispatch of Escape returns, leaves the focus index as it
    was and leaves the prompt as it was, active; when the focus is on the
    prompt, nothing at all changes and nothing is drawn. *)
Theorem modal_prompt_ignores_escape (st : State) (r : Ref) (p : Prompt.t)
    (Hp : deref st r = Some (EPrompt p))
    (Hmodal : Prompt.Modal p = true)
    (Hactive : Prompt.IsActive p = true)
    (Hfocus : focused_prompt_modal st)
    (Hhandler : handler_declines HandleKeyStroke [27] st) :
  exists st' fl, handle_key [27] st = Some (st', fl) /\
    focus st' = focus st /\
    (exists p', deref st' r = Some (EPrompt p') /\ p' = p /\
                Prompt.IsActive p' = true /\ Prompt.IsModal p' = true) /\
    shouldQuit fl = false /\
    (focusedElement st = Some (r, EPrompt p) -> st' = st /\ fl = quiet).
Proof.
  destruct (default_keys_escape st r p Hp Hfocus) as (st' & fl & E & Hf & _ & Hd & Hq & Hs).
  exists st', fl.
  assert (Ek : handle_key [27] st = Some (st', fl)).
  { unfold Dispatch.handle_key, handler_declines in *.
    destruct (KeyHandler (win st)) as [h|]; [|exact E].
    destruct Hhandler as (nr & sq & ->). exact E. }
  split; [exact Ek|]. split; [exact Hf|].
  split; [exists p; unfold Prompt.IsModal; rewrite Hmodal, Hactive; auto|].
  split; [exact Hq|]. intros H. exact (Hs p H).
Qed.

End WithClosures.

Lemma modal_prompt_ignores_escape_witness :
  let st := Samples.dialog_state in
  let p := Prompt.SetActive true Samples.dialog in
  deref st (Obj 0) = Some (EPrompt p) /\
  Prompt.Modal p = true /\ Prompt.IsActive p = true /\
  focusedElement st = Some (Obj 0, EPrompt p) /\
  exists st' fl, Samples.handle_key Samples.KEY_ESCAPE st = Some (st', fl) /\
                 focus st' = focus st /\ st' = st.
Proof.
  cbv zeta.
  assert (Hp : deref Samples.dialog_state (Obj 0)
               = Some (EPrompt (Prompt.SetActive true Samples.dialog)))
    by (vm_compute; reflexivity).
  assert (Hfe : focusedElement Samples.dialog_state
                = Some (Obj 0, EPrompt (Prompt.SetActive true Samples.dialog)))
    by (vm_compute; reflexivity).
  assert (Hfm : focused_prompt_modal Samples.dialog_state).
  { intros r q Hq _. rewrite Hfe in Hq. injection Hq as <- <-. reflexivity. }
  assert (Hh : handler_declines Samples.decline [27] Samples.dialog_state)
    by (vm_compute; exact I).
  split; [exact Hp|]. split; [reflexivity|]. split; [reflexivity|]. split; [exact Hfe|].
  destruct (modal_prompt_ignores_escape Samples.decline Samples.no_action
              Samples.no_notify true Samples.dialog_state (Obj 0)
              (Prompt.SetActive true Samples.dialog) Hp eq_refl eq_refl Hfm Hh)
    as (st' & fl & E & Hf & _ & _ & Hs).
  exists st', fl. split; [exact E|]. split; [exact Hf|]. apply (Hs Hfe).
Defined.

End DispatchFacts.
(** ** The focus chain as [AddElement] builds it *)

Module ChainFacts.
Import Window FocusFacts.

(** *** Entries and the heap *)

Lemma entry_ok_heap (st st' : State) (r : Ref) :
  heap st' = heap st -> entry_ok st r -> entry_ok st' r.
Proof. intros H. destruct r; cbn; rewrite ?H; auto. Qed.

Lemma ref_active_heap (st st' : State) (r : Ref) :
  heap st' = heap st -> ref_active st' r = ref_active st r.
Proof. intros H. unfold ref_active. destruct r; cbn; rewrite ?H; reflexivity. Qed.

Lemma chain_ok_heap (st st' : State) :
  heap st' = heap st -> chain st' = chain st -> chain_ok st -> chain_ok st'.
Proof.
  intros Hh Hc (Hnd & Hall & Hlen). unfold chain_ok. rewrite Hc.
  split; [exact Hnd|]. split; [|exact Hlen].
  eapply Forall_impl; [exact Hall|]. intros r. apply entry_ok_heap, Hh.
Qed.

(** A write to an object leaves the pointers into other objects alone. *)
Lemma assign_obj_other (st : State) (a : nat) (e' : Element) (r : Ref) :
  addr r <> a ->
  (entry_ok st r -> entry_ok (assign (Obj a) e' st) r) /\
  ref_active (assign (Obj a) e' st) r = ref_active st r.
Proof.
  intros Hne. unfold ref_active.
  destruct r as [b|b|b p]; cbn in *; rewrite lookup_insert_ne by congruence; auto.
Qed.

Lemma assign_heap_other (st : State) (r : Ref) (e : Element) (b : nat) :
  b <> addr r -> heap (assign r e st) !! b = heap st !! b.
Proof.
  intros Hne. destruct r as [a|a|a p]; cbn in *.
  - apply lookup_insert_ne. congruence.
  - destruct (heap st !! a) as [[]|]; try reflexivity; destruct e; try reflexivity;
      cbn; apply lookup_insert_ne; congruence.
  - destruct (heap st !! a) as [[]|]; try reflexivity; destruct e; try reflexivity;
      cbn; apply lookup_insert_ne; congruence.
Qed.

Lemma modify_heap_other (st st' : State) (r : Ref) (f : Element -> option Element) (b : nat) :
  modify r f st = Some st' -> b <> addr r -> heap st' !! b = heap st !! b.
Proof.
  unfold modify. intros H Hne.
  destruct (deref st r) as [e|]; [|discriminate]. cbn in H.
  destruct (f e) as [e'|]; [|discriminate]. cbn in H. injection H as <-.
  apply assign_heap_other, Hne.
Qed.

Lemma modify_Elements (st st' : State) (r : Ref) (f : Element -> option Element) :
  modify r f st = Some st' -> win st' = win st.
Proof.
  unfold modify. intros H.
  destruct (deref st r) as [e|]; [|discriminate]. cbn in H.
  destruct (f e) as [e'|]; [|discriminate]. cbn in H. injection H as <-.
  apply assign_win.
Qed.

(** *** One pointer appended to the chain *)

Lemma add_one (st : State) (r : Ref) :
  focus_inv st -> r ∉ chain st -> entry_ok st r -> ref_active st r = false ->
  len (chain st) < int_max ->
  exists st', add_focusable [r] st = Some st' /\
    focus_inv st' /\
    chain st' = chain st ++ [r] /\
    Elements (win st') = Elements (win st) /\
    (forall r', entry_ok st r' -> entry_ok st' r') /\
    (forall r', r' <> r -> entry_ok st r' -> ref_active st' r' = ref_active st r') /\
    (forall b, b <> addr r -> heap st' !! b = heap st !! b) /\
    focus st' = (if decide (chain st = []) then 0 else focus st).
Proof.
  intros (Hok & Hinv) Hnew Hent Hoff Hlen.
  pose proof Hok as (Hnd & Hall & _).
  cbn [add_focusable]. rewrite bool_decide_eq_false_2 by exact Hnew.
  set (st1 := set_win (set_focusableElements (chain st ++ [r]) (win st)) st).
  assert (Hok1 : chain_ok st1).
  { split; [|split].
    - apply NoDup_app. split; [exact Hnd|]. split; [|apply NoDup_singleton].
      intros x Hx Hx'. apply list_elem_of_singleton in Hx'. subst x. contradiction.
    - apply Forall_app. split; [exact Hall|]. apply Forall_cons_2; [exact Hent|apply Forall_nil_2].
    - change (chain st1) with (chain st ++ [r]). rewrite len_app.
      change (len [r]) with 1. lia. }
  destruct Hinv as [[He Hf]|[Hf Hm]].
  - (* the first entry of the chain takes the focus *)
    change (focus st1) with (focus st). rewrite Hf. cbn [Z.eqb Pos.eqb].
    set (st2 := set_focus 0 st1).
    assert (Hc2 : chain st2 = [r]) by (change (chain st2) with (chain st ++ [r]); rewrite He; reflexivity).
    destruct (modify_entry st2 r deactivate false Hent deactivate_spec)
      as (st3 & E3 & Hw3 & Ha3 & He3 & Ho3).
    assert (Hc3 : chain (set_focus 0 st3) = [r]).
    { unfold chain. cbn. rewrite Hw3. exact Hc2. }
    destruct (modify_entry (set_focus 0 st3) r activate true (He3 r Hent) activate_spec)
      as (st4 & E4 & Hw4 & Ha4 & He4 & Ho4).
    assert (E : setFocus 0 st2 = Some st4).
    { unfold setFocus. rewrite Hc2. change (focus st2) with 0.
      change (len [r]) with 1. change (index [r] 0) with (Some r).
      cbn [Z.eqb Z.geb Z.ltb Z.compare andb mbind option_bind].
      rewrite E3. cbn [mbind option_bind].
      change (chain st3) with (chain (set_focus 0 st3)). rewrite Hc3.
      change (len [r]) with 1. cbn [Z.eqb Z.geb Z.ltb Z.compare andb].
      change (focus (set_focus 0 st3)) with 0. rewrite Hc3.
      change (index [r] 0) with (Some r).
      cbn [Z.eqb Z.geb Z.ltb Z.compare andb mbind option_bind]. exact E4. }
    rewrite E. cbn [mbind option_bind].
    exists st4. split; [reflexivity|].
    assert (Hc4 : chain st4 = [r]) by (unfold chain; rewrite Hw4; exact Hc3).
    assert (Hf4 : focus st4 = 0) by (unfold focus; rewrite Hw4; reflexivity).
    split; [|split; [|split; [|split; [|split; [|split]]]]].
    + split.
      * unfold chain_ok. rewrite Hc4. split; [apply NoDup_singleton|].
        split; [apply Forall_cons_2; [exact (He4 r (He3 r Hent))|apply Forall_nil_2]|].
        vm_compute. discriminate.
      * right. rewrite Hc4, Hf4. split; [vm_compute; split; [discriminate|reflexivity]|].
        intros i x Hx. rewrite Hc4 in Hx. rewrite Hf4.
        destruct i as [|i]; [|destruct i; discriminate Hx].
        injection Hx as <-. rewrite Ha4. reflexivity.
    + rewrite Hc4, He. reflexivity.
    + rewrite Hw4. cbn. rewrite Hw3. reflexivity.
    + intros r' Hr'. apply He4, He3, Hr'.
    + intros r' Hne Hr'. rewrite (Ho4 r' Hne (He3 r' Hr')). apply (Ho3 r' Hne Hr').
    + intros b Hb. rewrite (modify_heap_other _ _ _ _ b E4 Hb).
      apply (modify_heap_other _ _ _ _ b E3 Hb).
    + rewrite Hf4. destruct (decide (chain st = [])); [reflexivity|contradiction].
  - (* the focus stays where it is *)
    change (focus st1) with (focus st).
    destruct (Z.eqb_spec (focus st) (-1)) as [E|_]; [lia|].
    exists st1. split; [reflexivity|].
    assert (Hne : chain st <> []).
    { intros E. apply len_nil_iff in E. lia. }
    split; [|split; [reflexivity|split; [reflexivity|split; [auto|split; [auto|split; [auto|]]]]]];
      [|destruct (decide (chain st = [])); [contradiction|reflexivity]].
    split; [exact Hok1|]. right.
    change (chain st1) with (chain st ++ [r]). change (focus st1) with (focus st).
    rewrite len_app. change (len [r]) with 1. split; [lia|].
    intros i x Hx. apply lookup_app_Some in Hx as [Hx|[Hge Hx]].
    + change (ref_active st1 x) with (ref_active st x). apply (Hm i x Hx).
    + change (ref_active st1 x) with (ref_active st x).
      destruct (i - length (chain st))%nat as [|k] eqn:Ek; [|destruct k; discriminate Hx].
      injection Hx as <-. rewrite Hoff. symmetry. apply bool_decide_eq_false_2.
      change (focus st1) with (focus st). unfold len in Hf. lia.
Qed.

(** *** [AddElement] *)

(** The type switch of [AddElement]: what it writes back and which
    pointers it adds to the chain. *)
Lemma prepare_spec (a : nat) (e : Element) :
  (kind e = 1%nat -> is_active e = false) ->
  let e' := fst (prepare (Obj a) e) in
  let toAdd := snd (prepare (Obj a) e) in
  is_active e' = false /\
  ((focusable e' = false /\ toAdd = []) \/
   (focusable e' = true /\ toAdd = [Obj a]) \/
   (focusable e' = true /\ toAdd = [Obj a; ScrollBarOf a] /\
    exists sb, owned_bar e' = Some sb /\ ScrollBar.IsActive sb = false)).
Proof.
  intros Hb. destruct e; cbn in *; (split; [auto|]);
    try (left; split; reflexivity); try (right; left; split; reflexivity).
  right; right. split; [reflexivity|]. split; [reflexivity|]. eexists. split; reflexivity.
Qed.

Lemma AddElement_inv (a : nat) (st : State) :
  focus_inv st -> addable st a -> len (chain st) + 2 <= int_max ->
  exists st', AddElement (Obj a) st = Some st' /\
    focus_inv st' /\
    Elements (win st') = Elements (win st) ++ [Obj a] /\
    (exists e toAdd, heap st !! a = Some e /\ toAdd = snd (prepare (Obj a) e) /\
                     chain st' = chain st ++ toAdd /\ (length toAdd <= 2)%nat /\
                     forall r, r ∈ toAdd -> addr r = a) /\
    (forall b, b <> a -> heap st' !! b = heap st !! b) /\
    focus st' = (if decide (chain st' = []) then -1
                 else if decide (chain st = []) then 0 else focus st).
Proof.
  intros Hinv ((e & He & Hbtn) & Hfresh) Hlen.
  unfold AddElement.
  set (st0 := set_win (set_Elements (Elements (win st) ++ [Obj a]) (win st)) st).
  change (deref st0 (Obj a)) with (heap st !! a). rewrite He.
  destruct (prepare_spec a e Hbtn) as (Hoff & Hcases).
  destruct (prepare (Obj a) e) as [e' toAdd] eqn:Ep. cbn [fst snd] in Hoff, Hcases.
  set (st1 := assign (Obj a) e' st0).
  assert (Hc1 : chain st1 = chain st) by reflexivity.
  assert (Hf1 : focus st1 = focus st) by reflexivity.
  assert (Hold : forall r, r ∈ chain st ->
            (entry_ok st r -> entry_ok st1 r) /\ ref_active st1 r = ref_active st r).
  { intros r Hr. apply (assign_obj_other st0 a e' r), Hfresh, Hr. }
  assert (Hinv1 : focus_inv st1).
  { destruct Hinv as ((Hnd & Hall & Hl) & Hd). split.
    - unfold chain_ok. rewrite Hc1. split; [exact Hnd|]. split; [|exact Hl].
      rewrite Forall_forall in Hall. apply Forall_forall. intros r Hr.
      apply (proj1 (Hold r Hr)), Hall, Hr.
    - rewrite Hc1, Hf1. destruct Hd as [Hd|[Hd Hm]]; [left; exact Hd|right].
      split; [exact Hd|]. intros i r Hr. rewrite Hc1 in Hr. rewrite Hf1.
      rewrite (proj2 (Hold r (list_elem_of_lookup_2 _ _ _ Hr))). apply (Hm i r Hr). }
  assert (Hh1 : forall b, b <> a -> heap st1 !! b = heap st !! b).
  { intros b Hb. cbn. apply lookup_insert_ne. congruence. }
  assert (Ha1 : heap st1 !! a = Some e') by (cbn; apply lookup_insert_eq).
  assert (Hnew : forall r, addr r = a -> r ∉ chain st).
  { intros r Hr Hin. exact (Hfresh r Hin Hr). }
  destruct Hcases as [[Hfoc ->]|[[Hfoc ->]|(Hfoc & -> & sb & Hsb & Hsboff)]].
  - (* an element that does not take the focus *)
    exists st1. split; [reflexivity|]. split; [exact Hinv1|]. split; [reflexivity|].
    split; [exists e, []; split; [first [exact He|reflexivity]|]; split; [rewrite Ep; reflexivity|];
            split; [rewrite app_nil_r; reflexivity|];
            split; [cbn; lia|intros r Hr; inversion Hr]|].
    split; [exact Hh1|]. rewrite Hc1, Hf1.
    destruct Hinv1 as (_ & [[Hd Hf]|[Hd _]]); rewrite Hc1 in *.
    + destruct (decide (chain st = [])); [rewrite <- Hf1; exact Hf|contradiction].
    + destruct (decide (chain st = [])) as [E|_]; [|reflexivity].
      apply len_nil_iff in E. lia.
  - (* one pointer *)
    destruct (add_one st1 (Obj a)) as (st2 & E & Hinv2 & Hc2 & He2 & _ & _ & Hh2 & Hf2).
    + exact Hinv1.
    + rewrite Hc1. apply Hnew. reflexivity.
    + cbn. exists e'. split; [exact Ha1|exact Hfoc].
    + unfold ref_active. cbn [deref]. rewrite Ha1. exact Hoff.
    + rewrite Hc1. lia.
    + exists st2. split; [exact E|]. split; [exact Hinv2|]. split; [rewrite He2; reflexivity|].
      split; [exists e, [Obj a]; split; [first [exact He|reflexivity]|]; split; [rewrite Ep; reflexivity|];
              split; [rewrite Hc2, Hc1; reflexivity|]; split; [cbn; lia|]|].
      { intros r Hr. apply list_elem_of_singleton in Hr. subst r. reflexivity. }
      split; [intros b Hb; rewrite (Hh2 b) by exact Hb; apply Hh1, Hb|].
      rewrite Hf2, Hc2, Hc1, Hf1.
      destruct (decide (chain st ++ [Obj a] = [])) as [E0|_]; [|reflexivity].
      destruct (chain st); discriminate E0.
  - (* a container and its scroll bar *)
    destruct (add_one st1 (Obj a)) as (st2 & E & Hinv2 & Hc2 & He2 & Hent2 & Hact2 & Hh2 & Hf2).
    + exact Hinv1.
    + rewrite Hc1. apply Hnew. reflexivity.
    + cbn. exists e'. split; [exact Ha1|exact Hfoc].
    + unfold ref_active. cbn [deref]. rewrite Ha1. exact Hoff.
    + rewrite Hc1. lia.
    + assert (Hbar : entry_ok st1 (ScrollBarOf a)).
      { cbn. exists e'. split; [exact Ha1|]. rewrite Hsb. eauto. }
      destruct (add_one st2 (ScrollBarOf a))
        as (st3 & E3 & Hinv3 & Hc3 & He3 & _ & _ & Hh3 & Hf3).
      * exact Hinv2.
      * rewrite Hc2, Hc1. intros Hin. apply elem_of_app in Hin as [Hin|Hin].
        -- exact (Hnew (ScrollBarOf a) eq_refl Hin).
        -- apply list_elem_of_singleton in Hin. discriminate Hin.
      * apply Hent2, Hbar.
      * rewrite (Hact2 (ScrollBarOf a) ltac:(discriminate) Hbar). unfold ref_active. cbn [deref].
        rewrite Ha1. destruct e'; try discriminate Hsb; cbn in Hsb; injection Hsb as ->;
          exact Hsboff.
      * rewrite Hc2, Hc1, len_app. change (len [Obj a]) with 1. lia.
      * exists st3. split.
        { revert E E3. cbn [add_focusable].
          destruct (bool_decide (Obj a ∈ chain st1)).
          - intros E. injection E as <-.
            destruct (bool_decide (ScrollBarOf a ∈ chain st1)); intros E3; exact E3.
          - destruct (if focus _ =? -1 then _ else _) as [s|]; [|discriminate].
            cbn [mbind option_bind]. intros E. injection E as <-.
            intros E3. exact E3. }
        split; [exact Hinv3|]. split; [rewrite He3, He2; reflexivity|].
        split; [exists e, [Obj a; ScrollBarOf a]; split; [first [exact He|reflexivity]|]; split; [rewrite Ep; reflexivity|];
                split; [rewrite Hc3, Hc2, Hc1, <- app_assoc; reflexivity|];
                split; [cbn; lia|]|].
        { intros r Hr. apply elem_of_cons in Hr as [->|Hr]; [reflexivity|].
          apply list_elem_of_singleton in Hr. subst r. reflexivity. }
        split; [intros b Hb; rewrite (Hh3 b), (Hh2 b) by exact Hb; apply Hh1, Hb|].
        rewrite Hf3, Hf2, Hc3, Hc2, Hc1, Hf1.
        destruct (decide ((chain st ++ [Obj a]) ++ [ScrollBarOf a] = [])) as [E0|_].
        { destruct (chain st); discriminate E0. }
        destruct (decide (chain st ++ [Obj a] = [])) as [E0|_].
        { destruct (chain st); discriminate E0. }
        reflexivity.
Qed.

(** *** A window filled with [AddElement] *)



(** X1. In a window that satisfies the focus invariant, [AddElement] of
    a stored object that no entry of the focus chain leads into (neither
    the object nor a scroll bar it owns) and that is not an active button
    (a button is the one focusable kind whose [IsActive] the type switch
    does not reset) returns (no panic), appends the object to
    [Elements], keeps the focus invariant, appends to the chain the
    pointers of the type switch (none, the object, or a container and
    its scroll bar), writes to no other object, and gives the focus to
    the first entry of a chain that was empty while it leaves the focus
    index of any other chain. *)
Theorem AddElement_keeps_focus_invariant (a : nat) (st : State)
    (Hinv : focus_inv st) (Hnew : addable st a) (Hsize : len (chain st) + 2 <= int_max) :
  exists st', AddElement (Obj a) st = Some st' /\
    focus_inv st' /\
    Elements (win st') = Elements (win st) ++ [Obj a] /\
    (exists e toAdd, heap st !! a = Some e /\ toAdd = snd (prepare (Obj a) e) /\
                     chain st' = chain st ++ toAdd /\ (length toAdd <= 2)%nat /\
                     forall r, r ∈ toAdd -> addr r = a) /\
    (forall b, b <> a -> heap st' !! b = heap st !! b) /\
    focus st' = (if decide (chain st' = []) then -1
                 else if decide (chain st = []) then 0 else focus st).
Proof. exact (AddElement_inv a st Hinv Hnew Hsize). Qed.

Lemma AddElement_keeps_focus_invariant_witness :
  let st := mkState Samples.mixed_heap ∅ Samples.empty_window in
  exists st', AddElement (Obj 1) st = Some st' /\ focus_inv st' /\
              Elements (win st') = [Obj 1] /\ focus st' = 0.
Proof.
  cbv zeta.
  assert (Hinv : focus_inv (mkState Samples.mixed_heap ∅ Samples.empty_window)).
  { split; [|left; split; reflexivity].
    split; [apply NoDup_nil_2|]. split; [apply Forall_nil_2|]. vm_compute. discriminate. }
  assert (Hadd : addable (mkState Samples.mixed_heap ∅ Samples.empty_window) 1).
  { split; [|intros r Hr; inversion Hr].
    eexists. split; [vm_compute; reflexivity|]. intros _. reflexivity. }
  destruct (AddElement_keeps_focus_invariant 1 _ Hinv Hadd)
    as (st' & E & Hi & He & (e & toAdd & He0 & -> & Hc & _) & _ & Hf);
    [vm_compute; discriminate|].
  exists st'. split; [exact E|]. split; [exact Hi|]. split; [exact He|].
  rewrite Hf, Hc. vm_compute in He0. injection He0 as <-. reflexivity.
Defined.

(** *** [AddElement] undone by [RemoveElement] *)

Lemma find_ref_last (r : Ref) (l tl : list Ref) :
  r ∉ l -> find_ref r (l ++ r :: tl) = Some (length l).
Proof.
  induction l as [|x l IH]; intros Hn; cbn.
  - rewrite bool_decide_eq_true_2 by reflexivity. reflexivity.
  - apply not_elem_of_cons in Hn as [Hx Hn].
    rewrite bool_decide_eq_false_2 by congruence. rewrite (IH Hn). reflexivity.
Qed.

Lemma find_ref_absent (r : Ref) (l : list Ref) : r ∉ l -> find_ref r l = None.
Proof.
  induction l as [|x l IH]; intros Hn; cbn; [reflexivity|].
  apply not_elem_of_cons in Hn as [Hx Hn].
  rewrite bool_decide_eq_false_2 by congruence. rewrite (IH Hn). reflexivity.
Qed.

Lemma RemoveElement_Elements (element : Ref) (st : State) (l : list Ref) :
  element ∉ l -> Elements (win st) = l ++ [element] ->
  Elements (win (RemoveElement element st)) = l.
Proof.
  intros Hn He. unfold RemoveElement. cbv zeta. rewrite He, find_ref_last by exact Hn.
  rewrite take_app_length, drop_ge by (rewrite length_app; cbn; lia).
  destruct (find_ref element (focusableElements _)); [|rewrite app_nil_r; reflexivity].
  destruct (_ >=? _); cbn; rewrite app_nil_r; reflexivity.
Qed.

(** X3. In a window that satisfies the focus invariant, for a stored
    object that is not among [Elements], that no entry of the focus
    chain leads into and that is not an active button (the objects X1 is
    about): [AddElement] followed by [RemoveElement] of the same object
    restores [Elements] and the focus index; the focus chain is restored
    too unless the object is a container, whose scroll bar stays in the
    chain ([RemoveElement] removes the one pointer it is given);
    [RemoveElement] writes to no element. *)
Theorem AddElement_RemoveElement (a : nat) (st : State)
    (Hinv : focus_inv st) (Hnew : addable st a) (Hout : Obj a ∉ Elements (win st))
    (Hsize : len (chain st) + 2 <= int_max) :
  exists st' e, AddElement (Obj a) st = Some st' /\ heap st !! a = Some e /\
    let st'' := RemoveElement (Obj a) st' in
    Elements (win st'') = Elements (win st) /\
    focus st'' = focus st /\
    chain st'' = chain st ++ (match e with EContainer _ => [ScrollBarOf a] | _ => [] end) /\
    heap st'' = heap st'.
Proof.
  destruct (AddElement_inv a st Hinv Hnew Hsize)
    as (st' & E & Hinv' & He & (e & toAdd & He0 & HtoAdd & Hc & _ & _) & _ & Hf).
  exists st', e. split; [exact E|]. split; [exact He0|]. cbv zeta.
  split; [apply RemoveElement_Elements; assumption|].
  assert (Hfresh : Obj a ∉ chain st).
  { intros Hin. exact (proj2 Hnew _ Hin eq_refl). }
  assert (Hfocus : chain st = [] /\ focus st = -1 \/ 0 <= focus st < len (chain st)).
  { destruct Hinv as (_ & [H|[H _]]); auto. }
  split; [|split; [|reflexivity]].
  - (* the focus index *)
    destruct toAdd as [|r0 t0].
    + rewrite app_nil_r in Hc.
      destruct (WindowFacts.RemoveElement_absent (Obj a) st') as [_ Hf'].
      { rewrite Hc. apply find_ref_absent, Hfresh. }
      cbv zeta in Hf'. rewrite Hf', Hf, Hc.
      destruct Hfocus as [[-> Hm]|Hr]; [symmetry; exact Hm|].
      destruct (decide (chain st = [])) as [E0|_]; [apply len_nil_iff in E0; lia|reflexivity].
    + assert (r0 = Obj a) as ->.
      { destruct e; cbn in HtoAdd; try discriminate HtoAdd; congruence. }
      destruct (WindowFacts.RemoveElement_chain (Obj a) st' (length (chain st))) as [_ Hf'].
      { rewrite Hc. apply find_ref_last, Hfresh. }
      cbv zeta in Hf'. rewrite Hf', Hf, Hc.
      destruct (decide (chain st ++ Obj a :: t0 = [])) as [E0|_].
      { destruct (chain st); discriminate E0. }
      destruct Hfocus as [[Hn Hm]|Hr].
      * rewrite Hn, Hm. reflexivity.
      * destruct (decide (chain st = [])) as [E0|_]; [apply len_nil_iff in E0; lia|].
        destruct (Z.geb_spec (focus st) (Z.of_nat (length (chain st))));
          [unfold len in Hr; lia|reflexivity].
  - (* the chain *)
    destruct toAdd as [|r0 t0].
    + rewrite app_nil_r in Hc.
      destruct (WindowFacts.RemoveElement_absent (Obj a) st') as [Hc' _].
      { rewrite Hc. apply find_ref_absent, Hfresh. }
      cbv zeta in Hc'. rewrite Hc', Hc.
      destruct e; cbn in HtoAdd; try discriminate HtoAdd; rewrite app_nil_r; reflexivity.
    + assert (r0 = Obj a) as ->.
      { destruct e; cbn in HtoAdd; try discriminate HtoAdd; congruence. }
      destruct (WindowFacts.RemoveElement_chain (Obj a) st' (length (chain st))) as [Hc' _].
      { rewrite Hc. apply find_ref_last, Hfresh. }
      cbv zeta in Hc'. rewrite Hc', Hc.
      rewrite take_app_length.
      change (chain st ++ Obj a :: t0) with (chain st ++ [Obj a] ++ t0).
      rewrite app_assoc, drop_app_length'; [|rewrite length_app; cbn; lia].
      destruct e; cbn in HtoAdd; try discriminate HtoAdd; injection HtoAdd as <-; reflexivity.
Qed.

Lemma AddElement_RemoveElement_witness :
  let st := mkState Samples.mixed_heap ∅ Samples.empty_window in
  exists st', AddElement (Obj 1) st = Some st' /\
    chain (RemoveElement (Obj 1) st') = [ScrollBarOf 1] /\
    focus (RemoveElement (Obj 1) st') = -1.
Proof.
  cbv zeta.
  assert (Hinv : focus_inv (mkState Samples.mixed_heap ∅ Samples.empty_window)).
  { split; [|left; split; reflexivity].
    split; [apply NoDup_nil_2|]. split; [apply Forall_nil_2|]. vm_compute. discriminate. }
  assert (Hadd : addable (mkState Samples.mixed_heap ∅ Samples.empty_window) 1).
  { split; [|intros r Hr; inversion Hr].
    eexists. split; [vm_compute; reflexivity|]. intros _. reflexivity. }
  destruct (AddElement_RemoveElement 1 _ Hinv Hadd)
    as (st' & e & E & He & _ & Hf & Hc & _);
    [intros Hin; inversion Hin|vm_compute; discriminate|].
  exists st'. split; [exact E|].
  vm_compute in He. injection He as <-. split; [exact Hc|exact Hf].
Defined.



End ChainFacts.
(** ** Prompts *)

Module PromptFacts.
Import Prompt Shape.

Lemma mark_buttons_lookup (bs : list PromptButton) (i selected : Z) (active : bool) (k : nat) :
  mark_buttons i selected active bs !! k
  = set_ButtonIsActive ((i + Z.of_nat k =? selected) && active) <$> bs !! k.
Proof.
  revert i k. induction bs as [|b bs IH]; intros i k; [reflexivity|].
  destruct k as [|k]; cbn [mark_buttons].
  - cbn. rewrite Z.add_0_r. reflexivity.
  - change ((?x :: ?l) !! S k) with (l !! k). rewrite IH.
    replace (i + 1 + Z.of_nat k) with (i + Z.of_nat (S k)) by lia. reflexivity.
Qed.

Lemma mark_buttons_length (bs : list PromptButton) (i selected : Z) (active : bool) :
  length (mark_buttons i selected active bs) = length bs.
Proof. revert i. induction bs as [|b bs IH]; intros i; cbn; [|rewrite IH]; reflexivity. Qed.

Lemma SetActive_ok (active : bool) (p : t) :
  0 <= SelectedIdx p < Z.max 1 (len (Buttons p)) -> len (Buttons p) < int_max ->
  prompt_ok (SetActive active p).
Proof.
  intros Hs Hl. unfold prompt_ok, SetActive, len. cbn.
  rewrite mark_buttons_length. split; [exact Hs|]. split; [exact Hl|].
  intros i b Hb. rewrite mark_buttons_lookup in Hb.
  destruct (Buttons p !! i) as [b0|]; [|discriminate]. cbn in Hb. injection Hb as <-.
  reflexivity.
Qed.

Lemma set_button_active_spec (i : Z) (v : bool) (p : t) :
  0 <= i < len (Buttons p) ->
  exists b, Buttons p !! Z.to_nat i = Some b /\
    set_button_active i v p
    = Some (set_Buttons (<[Z.to_nat i := set_ButtonIsActive v b]> (Buttons p)) p).
Proof.
  intros Hi. unfold set_button_active.
  destruct (index_Some (Buttons p) i Hi) as (b & E & Hb). rewrite E. cbn.
  rewrite (store_Some _ _ _ Hi). cbn. eauto.
Qed.

(** The two selection moves share everything but the new index. *)
Lemma select_spec (p : t) (next : Z) :
  prompt_ok p -> IsActive p = true -> 1 < len (Buttons p) ->
  0 <= next < len (Buttons p) ->
  exists p1 p',
    clear_selection p = Some p1 /\ len (Buttons p1) = len (Buttons p) /\
    SelectedIdx p1 = SelectedIdx p /\
    set_button_active next true (set_SelectedIdx next p1) = Some p' /\
    prompt_ok p' /\ SelectedIdx p' = next /\ IsActive p' = true /\
    Modal p' = Modal p /\ len (Buttons p') = len (Buttons p).
Proof.
  intros (Hs & Hl & Hm) Ha Hn Hnext.
  assert (Hs' : 0 <= SelectedIdx p < len (Buttons p)) by lia.
  unfold clear_selection.
  destruct (Z.geb_spec (SelectedIdx p) 0); [|lia].
  destruct (Z.ltb_spec (SelectedIdx p) (len (Buttons p))); [|lia]. cbn [andb].
  destruct (set_button_active_spec (SelectedIdx p) false p Hs') as (b & Hb & ->).
  eexists. 
  set (p1 := set_Buttons _ p).
  assert (Hl1 : len (Buttons p1) = len (Buttons p)) by (unfold p1; cbn; apply len_insert).
  destruct (set_button_active_spec next true (set_SelectedIdx next p1)) as (b' & Hb' & E');
    [change (Buttons (set_SelectedIdx next p1)) with (Buttons p1); rewrite Hl1; exact Hnext|].
  eexists. split; [reflexivity|]. split; [exact Hl1|]. split; [reflexivity|].
  split; [exact E'|].
  assert (Hlen : forall b1 b2 (i j : nat),
            len (<[i := b1]> (<[j := b2]> (Buttons p))) = len (Buttons p))
    by (intros; rewrite !len_insert; reflexivity).
  split; [|repeat split; try assumption; unfold p1; cbn [Buttons set_Buttons set_SelectedIdx]; apply Hlen].
  split; [unfold p1; cbn [Buttons set_Buttons SelectedIdx set_SelectedIdx]; rewrite Hlen; lia|].
  split; [unfold p1; cbn [Buttons set_Buttons set_SelectedIdx]; rewrite Hlen; exact Hl|].
  intros i x. cbn [Buttons set_Buttons SelectedIdx set_SelectedIdx IsActive].
  change (IsActive p1) with (IsActive p). rewrite Ha, andb_true_r.
  intros Hx. apply list_lookup_insert_Some in Hx as [(Hi & <- & _)|(Hi & Hx)].
  - cbn. symmetry. apply Z.eqb_eq. lia.
  - unfold p1 in Hx. cbn in Hx.
    apply list_lookup_insert_Some in Hx as [(Hj & <- & _)|(Hj & Hx)].
    + cbn. symmetry. apply Z.eqb_neq. lia.
    + rewrite (Hm i x Hx), Ha, andb_true_r.
      transitivity false; [apply Z.eqb_neq; lia|symmetry; apply Z.eqb_neq; lia].
Qed.

Lemma Prompt_selection_next (p : t) :
  prompt_ok p ->
  exists p', SelectNext p = Some p' /\ prompt_ok p' /\
    IsActive p' = IsActive p /\ Modal p' = Modal p /\ len (Buttons p') = len (Buttons p) /\
    SelectedIdx p' = if IsActive p && (1 <? len (Buttons p))
                     then (SelectedIdx p + 1) mod len (Buttons p) else SelectedIdx p.
Proof.
  intros Hok. pose proof Hok as (Hs & Hl & Hm).
  unfold SelectNext. destruct (IsActive p) eqn:Ha; cbn [negb orb andb];
    [|exists p; cbn; split; [reflexivity|]; split; [exact Hok|]; repeat split;
      first [exact Ha|reflexivity]].
  destruct (Z.leb_spec (len (Buttons p)) 1) as [Hn|Hn].
  { destruct (Z.ltb_spec 1 (len (Buttons p))); [lia|].
    exists p; cbn; split; [reflexivity|]; split; [exact Hok|]; repeat split;
      first [exact Ha|reflexivity]. }
  destruct (Z.ltb_spec 1 (len (Buttons p))); [|lia].
  set (next := (SelectedIdx p + 1) mod len (Buttons p)).
  assert (Hnext : 0 <= next < len (Buttons p)) by (apply Z.mod_pos_bound; lia).
  destruct (select_spec p next Hok Ha Hn Hnext)
    as (p1 & p' & E1 & Hl1 & Hs1 & E' & Hok' & Hs' & Ha' & Hmo & Hl').
  rewrite E1. cbn [mbind option_bind]. rewrite Hs1, Hl1.
  unfold int_max in Hl. unwrap. rewrite Z.rem_mod_nonneg by lia.
  exists p'. split; [exact E'|]. repeat split; try assumption; apply Hok'.
Qed.

(** X7. On a prompt whose selected button is the one marked,
    [SelectNext] and [SelectPrevious] return (no index panic), move the
    selection one button on or back, around the ends, when the prompt is
    active and has more than one button, and leave it otherwise; the
    selected button stays the one marked.  [SetActive] marks the
    selected button of an active prompt and no button of an inactive
    one. *)
Theorem Prompt_selection_cycles (p : t) (Hok : prompt_ok p) :
  let n := len (Buttons p) in
  let moves := IsActive p && (1 <? n) in
  (exists p', SelectNext p = Some p' /\ prompt_ok p' /\
     IsActive p' = IsActive p /\ Modal p' = Modal p /\ len (Buttons p') = n /\
     SelectedIdx p' = if moves then (SelectedIdx p + 1) mod n else SelectedIdx p) /\
  (exists p', SelectPrevious p = Some p' /\ prompt_ok p' /\
     IsActive p' = IsActive p /\ Modal p' = Modal p /\ len (Buttons p') = n /\
     SelectedIdx p' = if moves then (SelectedIdx p - 1) mod n else SelectedIdx p) /\
  (forall active, prompt_ok (SetActive active p) /\
     IsActive (SetActive active p) = active /\
     SelectedIdx (SetActive active p) = SelectedIdx p).
Proof.
  cbv zeta. pose proof Hok as (Hs & Hl & Hm).
  split; [|split].
  - apply Prompt_selection_next, Hok.
  - unfold SelectPrevious. destruct (IsActive p) eqn:Ha; cbn [negb orb andb];
      [|exists p; cbn; split; [reflexivity|]; split; [exact Hok|]; repeat split; first [exact Ha|reflexivity]].
    destruct (Z.leb_spec (len (Buttons p)) 1) as [Hn|Hn].
    { destruct (Z.ltb_spec 1 (len (Buttons p))); [lia|].
      exists p; cbn; split; [reflexivity|]; split; [exact Hok|]; repeat split; first [exact Ha|reflexivity]. }
    destruct (Z.ltb_spec 1 (len (Buttons p))); [|lia].
    set (next := (SelectedIdx p - 1) mod len (Buttons p)).
    assert (Hnext : 0 <= next < len (Buttons p)) by (apply Z.mod_pos_bound; lia).
    destruct (select_spec p next Hok Ha Hn Hnext)
      as (p1 & p' & E1 & Hl1 & Hs1 & E' & Hok' & Hs' & Ha' & Hmo & Hl').
    rewrite E1. cbn [mbind option_bind].
    unfold int_max in Hl.
    assert (Enext : (if SelectedIdx (set_SelectedIdx (SelectedIdx p1 -i 1) p1) <? 0
                     then set_SelectedIdx (len (Buttons (set_SelectedIdx (SelectedIdx p1 -i 1) p1)) -i 1)
                            (set_SelectedIdx (SelectedIdx p1 -i 1) p1)
                     else set_SelectedIdx (SelectedIdx p1 -i 1) p1)
                    = set_SelectedIdx next p1).
    { cbn. rewrite Hs1, Hl1. unwrap. unfold next.
      destruct (Z.ltb_spec (SelectedIdx p - 1) 0).
      - unwrap. replace (SelectedIdx p - 1) with (-1 * len (Buttons p) + (len (Buttons p) - 1)) by lia.
        rewrite Z.add_comm, Z.mod_add, Z.mod_small by lia. reflexivity.
      - rewrite Z.mod_small by lia. reflexivity. }
    cbv zeta. rewrite Enext. cbn [SelectedIdx set_SelectedIdx].
    exists p'. split; [exact E'|]. repeat split; try assumption; apply Hok'.
  - intros active. split; [apply SetActive_ok; assumption|]. split; reflexivity.
Qed.

Lemma Prompt_selection_cycles_witness :
  exists p', SelectNext (SetActive true Samples.two_button_dialog) = Some p' /\
             SelectedIdx p' = 1.
Proof.
  assert (Hok : prompt_ok (SetActive true Samples.two_button_dialog)).
  { apply SetActive_ok; vm_compute; [split; [discriminate|reflexivity]|reflexivity]. }
  destruct (Prompt_selection_cycles _ Hok) as ((p' & E & _ & _ & _ & _ & Hs) & _).
  exists p'. split; [exact E|]. rewrite Hs. vm_compute. reflexivity.
Defined.

(** X8. [NewDialogPrompt] gives the dialog the height of its message
    lines plus five rows: with [charsPerLine = max(1, width - 4)] the
    message lines are the message length divided by [charsPerLine],
    rounded up, and at least one, so that the lines hold the whole
    message; the dialog is modal and inactive, and its first button is
    the selected one. *)
Theorem NewDialogPrompt_height (title message : bytes) (x y width : Z)
    (buttons : list PromptButton)
    (Hw : int_min + 4 <= width) (Hm : len message + Z.max 1 width + 5 <= int_max) :
  let p := NewDialogPrompt title message x y width buttons in
  let charsPerLine := Z.max 1 (width - 4) in
  let lines := Z.max 1 ((len message + charsPerLine - 1) / charsPerLine) in
  Height p = lines + 5 /\
  len message <= lines * charsPerLine /\
  (lines - 1) * charsPerLine < Z.max 1 (len message) /\
  Modal p = true /\ IsActive p = false /\ SelectedIdx p = 0 /\ zIndex p = 1000.
Proof.
  cbv zeta. pose proof (len_nonneg message) as Hl0.
  unfold NewDialogPrompt. cbv zeta. cbn [Height Modal IsActive SelectedIdx zIndex].
  unfold int_min, int_max in *.
  set (c := Z.max 1 (width - 4)).
  assert (Ec : (if width -i 4 <? 1 then 1 else width -i 4) = c).
  { unfold c. unwrap. destruct (Z.ltb_spec (width - 4) 1); lia. }
  rewrite Ec.
  assert (Hc : 1 <= c) by (unfold c; lia).
  assert (Hcw : c <= Z.max 1 width) by (unfold c; lia).
  assert (Hq : 0 <= (len message + c - 1) / c <= len message + c - 1).
  { split; [apply Z.div_pos; lia|]. apply Z.div_le_upper_bound; [lia|]. nia. }
  rewrite !(add_id (len message) c), !(sub_id (len message + c) 1)
    by (unfold in_int, int_min, int_max; lia).
  rewrite Z.quot_div_nonneg by lia.
  set (q := (len message + c - 1) / c) in *.
  assert (Eq : (if q <? 1 then 1 else q) = Z.max 1 q) by (destruct (Z.ltb_spec q 1); lia).
  rewrite Eq. rewrite add_id by (unfold in_int, int_min, int_max; lia).
  split; [reflexivity|].
  pose proof (Z.div_mod (len message + c - 1) c ltac:(lia)) as Hdm.
  pose proof (Z.mod_pos_bound (len message + c - 1) c ltac:(lia)) as Hmb.
  fold q in Hdm.
  split; [|split; [|repeat split]].
  - destruct (Z.max_spec 1 q) as [[? ->]|[? ->]]; nia.
  - destruct (Z.max_spec 1 q) as [[? ->]|[? ->]]; nia.
Qed.

Lemma NewDialogPrompt_height_witness :
  Height (NewDialogPrompt [] (replicate 30 "m"%char) 0 0 14 []) = 8.
Proof.
  destruct (NewDialogPrompt_height [] (replicate 30 "m"%char) 0 0 14 []) as (H & _).
  - vm_compute. discriminate.
  - vm_compute. discriminate.
  - rewrite H. vm_compute. reflexivity.
Defined.

End PromptFacts.
(** ** Keys that move the focus or end the loop *)

Module KeyFacts.
Import Window Dispatch FocusFacts.

(** *** Tab and Shift-Tab *)

Lemma focus_inv_parts (st : State) :
  focus_inv st -> chain st <> [] ->
  chain_ok st /\ 0 <= focus st < len (chain st) /\ focus_marks_active st /\
  len (chain st) <= int_max.
Proof.
  intros (Hok & Hd) Hne. destruct Hd as [[Hc _]|[Hf Hm]]; [contradiction|].
  split; [exact Hok|]. split; [exact Hf|]. split; [exact Hm|]. apply Hok.
Qed.

Lemma focus_next_spec (st : State) :
  chain_ok st -> 0 <= focus st < len (chain st) -> quiet_except_focus st ->
  exists st', focus_next st = Some st' /\ focus_inv st' /\ chain st' = chain st /\
    focus st' = (focus st + 1) mod len (chain st).
Proof.
  intros Hok Hf Hq. pose proof Hok as (_ & _ & Hlen).
  assert (Hne : chain st <> []) by (intros E; apply len_nil_iff in E; lia).
  unfold focus_next.
  destruct (setFocus_spec (focus st +i 1) st Hok Hne Hq) as (st' & E & Hc & Hok' & Hr & Hf' & Hm).
  exists st'. split; [exact E|]. split; [split; [exact Hok'|right; split; assumption]|].
  split; [exact Hc|]. rewrite Hf'. unfold int_max in Hlen. unwrap.
  destruct (Z.ltb_spec (focus st + 1) 0); [lia|].
  destruct (Z.geb_spec (focus st + 1) (len (chain st))).
  - replace (focus st + 1) with (len (chain st)) by lia. rewrite Z.mod_same by lia. reflexivity.
  - rewrite Z.mod_small by lia. reflexivity.
Qed.

Lemma focus_previous_spec (st : State) :
  chain_ok st -> 0 <= focus st < len (chain st) -> quiet_except_focus st ->
  exists st', focus_previous st = Some st' /\ focus_inv st' /\ chain st' = chain st /\
    focus st' = (focus st - 1) mod len (chain st).
Proof.
  intros Hok Hf Hq. pose proof Hok as (_ & _ & Hlen).
  assert (Hne : chain st <> []) by (intros E; apply len_nil_iff in E; lia).
  unfold focus_previous.
  destruct (setFocus_spec (focus st -i 1) st Hok Hne Hq) as (st' & E & Hc & Hok' & Hr & Hf' & Hm).
  exists st'. split; [exact E|]. split; [split; [exact Hok'|right; split; assumption]|].
  split; [exact Hc|]. rewrite Hf'. unfold int_max in Hlen. unwrap.
  destruct (Z.ltb_spec (focus st - 1) 0).
  - replace (focus st - 1) with (-1 * len (chain st) + (len (chain st) - 1)) by lia.
    rewrite Z.add_comm, Z.mod_add, Z.mod_small by lia. reflexivity.
  - destruct (Z.geb_spec (focus st - 1) (len (chain st))); [lia|].
    rewrite Z.mod_small by lia. reflexivity.
Qed.

(** X4. In a window whose focus chain is not empty, [setFocus] with the
    next index (Tab) moves the focus one entry on and from the last
    entry to the first, [setFocus] with the previous index (Shift-Tab)
    moves it one entry back and from the first to the last; both keep
    the chain and the focus invariant, and Shift-Tab after Tab gives the
    focus and the active flags of the chain back as they were. *)
Theorem focus_next_previous (st : State) (Hinv : focus_inv st) (Hne : chain st <> []) :
  let n := len (chain st) in
  (exists st1, focus_next st = Some st1 /\ focus_inv st1 /\ chain st1 = chain st /\
     focus st1 = (focus st + 1) mod n /\
     exists st2, focus_previous st1 = Some st2 /\ focus_inv st2 /\ chain st2 = chain st /\
       focus st2 = focus st /\
       forall r, r ∈ chain st -> ref_active st2 r = ref_active st r) /\
  (exists st1, focus_previous st = Some st1 /\ focus_inv st1 /\ chain st1 = chain st /\
     focus st1 = (focus st - 1) mod n).
Proof.
  cbv zeta. destruct (focus_inv_parts st Hinv Hne) as (Hok & Hf & Hm & Hlen).
  split; [|apply focus_previous_spec; [assumption|assumption|apply focus_marks_quiet, Hm]].
  destruct (focus_next_spec st Hok Hf (focus_marks_quiet st Hm))
    as (st1 & E1 & Hinv1 & Hc1 & Hf1).
  exists st1. split; [exact E1|]. split; [exact Hinv1|]. split; [exact Hc1|].
  split; [exact Hf1|].
  assert (Hne1 : chain st1 <> []) by congruence.
  destruct (focus_inv_parts st1 Hinv1 Hne1) as (Hok1 & Hr1 & Hm1 & _).
  destruct (focus_previous_spec st1 Hok1 Hr1 (focus_marks_quiet st1 Hm1))
    as (st2 & E2 & Hinv2 & Hc2 & Hf2).
  exists st2. split; [exact E2|]. split; [exact Hinv2|]. split; [congruence|].
  assert (Hback : focus st2 = focus st).
  { rewrite Hf2, Hf1, Hc1. rewrite Zminus_mod_idemp_l.
    replace (focus st + 1 - 1) with (focus st) by lia. apply Z.mod_small, Hf. }
  split; [exact Hback|].
  intros r Hr. apply list_elem_of_lookup in Hr as [i Hi].
  assert (Hne2 : chain st2 <> []) by congruence.
  destruct (focus_inv_parts st2 Hinv2 Hne2) as (_ & _ & Hm2 & _).
  rewrite (Hm i r Hi). rewrite <- Hback. apply Hm2. congruence.
Qed.

Lemma mixed_state_inv : focus_inv Samples.mixed_state.
Proof.
  split; [|right; split; [vm_compute; split; [discriminate|reflexivity]|]].
  - split; [apply (bool_decide_unpack _); vm_compute; exact I|].
    split; [|vm_compute; discriminate].
    assert (Ec : chain Samples.mixed_state
                 = [Obj 0; Obj 1; ScrollBarOf 1; Obj 2; Obj 3; Obj 4])
      by (vm_compute; reflexivity).
    rewrite Ec.
    repeat (apply Forall_cons_2;
            [cbn; eexists; split; [vm_compute; reflexivity|cbn; eauto]|]).
    apply Forall_nil_2.
  - intros i r Hr.
    assert (Ec : chain Samples.mixed_state
                 = [Obj 0; Obj 1; ScrollBarOf 1; Obj 2; Obj 3; Obj 4])
      by (vm_compute; reflexivity).
    rewrite Ec in Hr.
    do 6 (destruct i as [|i]; [cbn in Hr; injection Hr as <-; vm_compute; reflexivity|]).
    discriminate Hr.
Qed.

Lemma focus_next_previous_witness :
  exists st1, focus_next Samples.mixed_state = Some st1 /\ focus st1 = 1.
Proof.
  assert (Hne : chain Samples.mixed_state <> []) by (vm_compute; discriminate).
  destruct (focus_next_previous Samples.mixed_state mixed_state_inv Hne)
    as ((st1 & E1 & _ & _ & Hf1 & _) & _).
  exists st1. split; [exact E1|]. rewrite Hf1. vm_compute. reflexivity.
Defined.

Section WithClosures.
Variable HandleKeyStroke : Callback -> list Z -> State -> State * (bool * bool * bool).
Variable call_action : Callback -> State -> State * bool.
Variable call_notify : Callback -> Z -> State -> State.
Variable MakeRaw_ok : bool.

Local Abbreviation handle_key := (handle_key HandleKeyStroke call_action call_notify MakeRaw_ok).
Local Abbreviation default_keys := (default_keys call_action call_notify MakeRaw_ok).

Lemma handle_key_declined (key : list Z) (st : State) :
  handler_declines HandleKeyStroke key st -> handle_key key st = default_keys key st.
Proof.
  unfold Dispatch.handle_key, handler_declines.
  destruct (KeyHandler (win st)) as [h|]; [|reflexivity].
  intros (nr & sq & ->). reflexivity.
Qed.

(** X5. Ctrl-C (the byte 3) that the key handler declines ends the loop
    whatever has the focus: the quit flag is set, nothing is drawn and
    the state is left as it is. *)
Theorem ctrl_c_quits (st : State) (Hh : handler_declines HandleKeyStroke [3] st) :
  handle_key [3] st = Some (st, quit).
Proof.
  rewrite (handle_key_declined _ _ Hh). unfold Dispatch.default_keys.
  destruct (focusedElement st) as [[r e]|]; [|reflexivity].
  destruct e; try reflexivity.
  - destruct (TextBox.IsActive tb); reflexivity.
  - destruct (ScrollBar.IsActive sb); reflexivity.
  - destruct (Container.IsActive c); reflexivity.
  - destruct (TextArea.IsActive ta); reflexivity.
  - destruct (MenuBar.IsActive mb); reflexivity.
  - destruct (Prompt.IsActive p); reflexivity.
Qed.

(** X6. Tab (the byte 9) that the key handler declines, in a window with
    a focus chain, moves the focus to the next entry of the chain (from
    the last to the first) and asks for a redraw, whatever kind of
    element has the focus, unless that is an active modal prompt. *)
Theorem tab_moves_focus (st : State)
    (Hinv : focus_inv st) (Hne : chain st <> [])
    (Hh : handler_declines HandleKeyStroke [9] st)
    (Hnm : forall r p, focusedElement st = Some (r, EPrompt p) -> Prompt.IsModal p = false) :
  exists st', handle_key [9] st = Some (st', render) /\
    focus_inv st' /\ chain st' = chain st /\
    focus st' = (focus st + 1) mod len (chain st).
Proof.
  destruct (focus_inv_parts st Hinv Hne) as (Hok & Hf & Hm & Hlen).
  destruct (focus_next_spec st Hok Hf (focus_marks_quiet st Hm))
    as (st' & E & Hinv' & Hc & Hf').
  exists st'. split; [|split; [exact Hinv'|split; [exact Hc|exact Hf']]].
  rewrite (handle_key_declined _ _ Hh). unfold Dispatch.default_keys.
  assert (Hpos : (len (chain st) >? 0) = true) by (apply Z.gtb_lt; lia).
  assert (Eo : forall f, other_keys call_action MakeRaw_ok f [9] st
                         = Some (st', render)).
  { intros f. unfold other_keys. rewrite Hpos, E. reflexivity. }
  destruct (focusedElement st) as [[r e]|] eqn:Ef; [|apply Eo].
  destruct e; try apply Eo.
  - destruct (TextBox.IsActive tb); [|apply Eo]. cbn. rewrite E. reflexivity.
  - destruct (ScrollBar.IsActive sb); [|apply Eo]. cbn. rewrite E. reflexivity.
  - destruct (Container.IsActive c); [|apply Eo]. cbn. rewrite E. reflexivity.
  - destruct (TextArea.IsActive ta); [|apply Eo]. cbn. rewrite E. reflexivity.
  - destruct (MenuBar.IsActive mb); [|apply Eo]. cbn. rewrite E. reflexivity.
  - destruct (Prompt.IsActive p); [|apply Eo]. cbn.
    rewrite (Hnm r p eq_refl). rewrite E. reflexivity.
Qed.


(** *** Keys on a focused prompt *)

Lemma focusedElement_inv (st : State) (r : Ref) (e : Element) :
  focusedElement st = Some (r, e) ->
  0 <= focus st < len (chain st) /\ chain st !! Z.to_nat (focus st) = Some r /\
  deref st r = Some e.
Proof.
  unfold focusedElement.
  destruct (Z.geb_spec (focus st) 0); cbn; [|discriminate].
  destruct (Z.ltb_spec (focus st) (len (chain st))); cbn; [|discriminate].
  destruct (index (chain st) (focus st)) as [r0|] eqn:Ei; cbn; [|discriminate].
  destruct (deref st r0) as [e0|] eqn:E; cbn; [|discriminate].
  intros [= <- <-]. apply index_inv in Ei as [_ Ei]. split; [lia|]. split; assumption.
Qed.

(** X9. Escape that the key handler declines, with the focus on an
    active prompt that is not modal: the prompt is deactivated and the
    focus moves to the next entry of the chain, which is activated (the
    prompt itself again when it is the only entry). *)
Theorem escape_closes_plain_prompt (st : State) (r : Ref) (p : Prompt.t)
    (Hinv : focus_inv st)
    (Hfoc : focusedElement st = Some (r, EPrompt p))
    (Hact : Prompt.IsActive p = true) (Hplain : Prompt.Modal p = false)
    (Hh : handler_declines HandleKeyStroke [27] st) :
  exists st', handle_key [27] st = Some (st', render) /\
    focus_inv st' /\ chain st' = chain st /\
    focus st' = (focus st + 1) mod len (chain st) /\
    ref_active st' r = bool_decide (len (chain st) = 1).
Proof.
  destruct (focusedElement_inv st r (EPrompt p) Hfoc) as (Hf & Hr & Hd).
  assert (Hne : chain st <> []) by (intros E; apply len_nil_iff in E; lia).
  destruct (focus_inv_parts st Hinv Hne) as (Hok & _ & Hm & Hlen).
  pose proof Hok as (Hnd & _ & _).
  assert (Hent : entry_ok st r) by (eapply chain_entry; eassumption).
  destruct (assign_frame st r (EPrompt p) (EPrompt (Prompt.SetActive false p)) Hent Hd
              eq_refl eq_refl) as (Hd1 & He1 & Ho1).
  set (st1 := assign r (EPrompt (Prompt.SetActive false p)) st) in *.
  assert (Hw1 : win st1 = win st) by apply assign_win.
  assert (Hok1 : chain_ok st1) by (exact (chain_ok_transfer _ _ Hw1 He1 Hok)).
  assert (Hc1 : chain st1 = chain st) by (unfold chain; rewrite Hw1; reflexivity).
  assert (Hf1 : focus st1 = focus st) by (unfold focus; rewrite Hw1; reflexivity).
  assert (Hq1 : quiet_except_focus st1).
  { intros i x Hx Hi. rewrite Hc1 in Hx. rewrite Hf1 in Hi.
    assert (Hxr : x <> r).
    { intros ->. apply Hi. rewrite <- (NoDup_lookup _ _ _ _ Hnd Hr Hx). lia. }
    rewrite (Ho1 x Hxr (chain_entry _ _ _ Hok Hx)), (Hm i x Hx).
    apply bool_decide_eq_false_2, Hi. }
  destruct (focus_next_spec st1 Hok1 ltac:(rewrite Hf1, Hc1; exact Hf) Hq1)
    as (st' & E & Hinv' & Hc' & Hf').
  exists st'. split.
  - rewrite (handle_key_declined _ _ Hh). unfold Dispatch.default_keys. rewrite Hfoc, Hact.
    unfold prompt_keys, Prompt.IsModal. rewrite Hplain. cbn [andb negb].
    unfold modify. rewrite Hd. cbn [mbind option_bind fmap option_fmap option_map].
    fold st1. rewrite E. reflexivity.
  - split; [exact Hinv'|]. split; [congruence|]. rewrite Hf1, Hc1 in Hf'.
    split; [exact Hf'|].
    assert (Hne' : chain st' <> []) by congruence.
    destruct (focus_inv_parts st' Hinv' Hne') as (_ & _ & Hm' & _).
    rewrite (Hm' (Z.to_nat (focus st)) r) by (rewrite Hc', Hc1; exact Hr).
    rewrite Hf', Z2Nat.id by lia.
    destruct (decide (len (chain st) = 1)) as [E1|E1].
    + rewrite !bool_decide_eq_true_2; [reflexivity|exact E1|].
      rewrite E1, Z.mod_1_r. lia.
    + rewrite !bool_decide_eq_false_2; [reflexivity|exact E1|].
      destruct (Z.eq_dec (focus st + 1) (len (chain st))) as [E2|E2].
      * rewrite E2, Z.mod_same by lia. lia.
      * rewrite Z.mod_small by lia. lia.
Qed.

(** X10. Tab that the key handler declines, with the focus on an
    active modal prompt, is the prompt's [SelectNext]: the selection
    moves to the next button (around the end), the focus index and every
    other element stay as they are, and a redraw is asked for. *)
Theorem tab_in_modal_prompt (st : State) (r : Ref) (p : Prompt.t)
    (Hfoc : focusedElement st = Some (r, EPrompt p))
    (Hact : Prompt.IsActive p = true) (Hmodal : Prompt.Modal p = true)
    (Hok : Shape.prompt_ok p)
    (Hh : handler_declines HandleKeyStroke [9] st) :
  exists p', Prompt.SelectNext p = Some p' /\
    handle_key [9] st = Some (assign r (EPrompt p') st, render) /\
    focus (assign r (EPrompt p') st) = focus st /\
    chain (assign r (EPrompt p') st) = chain st /\
    (forall b, b <> addr r -> heap (assign r (EPrompt p') st) !! b = heap st !! b) /\
    Shape.prompt_ok p' /\ Prompt.IsActive p' = true /\ Prompt.Modal p' = true /\
    Prompt.SelectedIdx p' =
      (if 1 <? len (Prompt.Buttons p)
       then (Prompt.SelectedIdx p + 1) mod len (Prompt.Buttons p)
       else Prompt.SelectedIdx p).
Proof.
  destruct (focusedElement_inv st r (EPrompt p) Hfoc) as (Hf & Hr & Hd).
  destruct (PromptFacts.Prompt_selection_next p Hok) as (p' & E & Hok' & Ha' & Hm' & _ & Hs').
  exists p'. split; [exact E|]. split.
  - rewrite (handle_key_declined _ _ Hh). unfold Dispatch.default_keys. rewrite Hfoc, Hact.
    unfold prompt_keys, Prompt.IsModal. rewrite Hmodal, Hact. cbn [andb].
    unfold modify. rewrite Hd. cbn [mbind option_bind]. rewrite E. reflexivity.
  - split; [apply assign_focus|]. split; [apply assign_chain|].
    split; [intros b Hb; apply ChainFacts.assign_heap_other, Hb|].
    split; [exact Hok'|]. split; [congruence|]. split; [congruence|].
    rewrite Hs', Hact. reflexivity.
Qed.


(** *** Enter on a check box or a radio button *)

Lemma deref_checkbox_Obj (st : State) (r : Ref) (cb : CheckBox.t) :
  deref st r = Some (ECheckBox cb) -> exists a, r = Obj a /\ heap st !! a = Some (ECheckBox cb).
Proof.
  destruct r as [a|a|a q]; cbn.
  - eauto.
  - destruct (heap st !! a) as [[]|]; discriminate.
  - destruct (heap st !! a) as [[]|]; try discriminate;
      match goal with |- context [Menu.get ?m ?q] => destruct (Menu.get m q) end;
      discriminate.
Qed.

Lemma focusedElement_assign_Obj (st : State) (a : nat) (e e' : Element) :
  focusedElement st = Some (Obj a, e) ->
  focusedElement (assign (Obj a) e' st) = Some (Obj a, e').
Proof.
  intros H. destruct (focusedElement_inv st _ _ H) as (Hf & Hr & _).
  unfold focusedElement. rewrite assign_focus, assign_chain.
  destruct (Z.geb_spec (focus st) 0); [|lia].
  destruct (Z.ltb_spec (focus st) (len (chain st))); [|lia]. cbn [andb].
  destruct (index_Some (chain st) (focus st) Hf) as (x & -> & Hx).
  rewrite Hr in Hx. injection Hx as <-. cbn. rewrite lookup_insert_eq. reflexivity.
Qed.

(** X11. Enter that the key handler declines, with the focus on an
    active check box, toggles [Checked] and changes nothing else; a
    second Enter gives the state back as it was. *)
Theorem enter_toggles_checkbox (st : State) (r : Ref) (cb : CheckBox.t)
    (Hfoc : focusedElement st = Some (r, ECheckBox cb))
    (Hact : CheckBox.IsActive cb = true)
    (Hh : handler_declines HandleKeyStroke [13] st) :
  let cb' := CheckBox.set_Checked (negb (CheckBox.Checked cb)) cb in
  let st' := assign r (ECheckBox cb') st in
  handle_key [13] st = Some (st', render) /\
  deref st' r = Some (ECheckBox cb') /\
  win st' = win st /\
  (forall b, b <> addr r -> heap st' !! b = heap st !! b) /\
  (handler_declines HandleKeyStroke [13] st' -> handle_key [13] st' = Some (st, render)).
Proof.
  cbv zeta. destruct (focusedElement_inv st r _ Hfoc) as (Hf & Hr & Hd).
  destruct (deref_checkbox_Obj st r cb Hd) as (a & -> & Ha).
  assert (E : forall s c, focusedElement s = Some (Obj a, ECheckBox c) ->
              CheckBox.IsActive c = true -> handler_declines HandleKeyStroke [13] s ->
              handle_key [13] s
              = Some (assign (Obj a) (ECheckBox (CheckBox.set_Checked (negb (CheckBox.Checked c)) c)) s,
                      render)).
  { intros s c Hs Hc Hd'. rewrite (handle_key_declined _ _ Hd').
    unfold Dispatch.default_keys. rewrite Hs. cbn. rewrite Hc. reflexivity. }
  split; [apply E; assumption|]. split; [cbn; apply lookup_insert_eq|].
  split; [reflexivity|]. split; [intros b Hb; cbn; apply lookup_insert_ne; cbn in Hb; congruence|].
  intros Hh'.
  rewrite (E _ (CheckBox.set_Checked (negb (CheckBox.Checked cb)) cb)
             (focusedElement_assign_Obj st a (ECheckBox cb) _ Hfoc) Hact Hh').
  f_equal. f_equal. destruct st as [h g w]. cbn in *. unfold set_heap. cbn.
  rewrite insert_insert_eq. destruct cb as [l c x y act]. cbn.
  rewrite negb_involutive. rewrite insert_id by exact Ha. reflexivity.
Qed.

Lemma select_buttons_spec (buttons : list nat) (i selectedIndex : Z) (h : gmap nat Element) :
  NoDup buttons ->
  (forall a, a ∈ buttons -> exists rb, h !! a = Some (ERadioButton rb)) ->
  (forall (k : nat) a, buttons !! k = Some a ->
     exists rb, h !! a = Some (ERadioButton rb) /\
       select_buttons i selectedIndex buttons h !! a
       = Some (ERadioButton
                 (RadioButton.set_IsSelected (i + Z.of_nat k =? selectedIndex) rb))) /\
  (forall b, b ∉ buttons -> select_buttons i selectedIndex buttons h !! b = h !! b).
Proof.
  revert i h. induction buttons as [|a rest IH]; intros i h Hnd Hall.
  - split; [intros k a Hk; discriminate Hk|reflexivity].
  - apply NoDup_cons in Hnd as [Ha Hnd].
    destruct (Hall a (list_elem_of_here _ _)) as [rb Hrb].
    cbn [select_buttons]. rewrite Hrb.
    set (h1 := <[a := ERadioButton (RadioButton.set_IsSelected (i =? selectedIndex) rb)]> h).
    destruct (IH (i + 1) h1 Hnd) as [Hin Hout].
    { intros b Hb. destruct (Hall b (list_elem_of_further _ _ _ Hb)) as [rb' Hb'].
      exists rb'. unfold h1. rewrite lookup_insert_ne by (intros ->; contradiction). exact Hb'. }
    split.
    + intros [|k] b Hk.
      * injection Hk as <-. exists rb. split; [exact Hrb|].
        rewrite (Hout a Ha). unfold h1. rewrite lookup_insert_eq, Z.add_0_r. reflexivity.
      * cbn in Hk. destruct (Hin k b Hk) as (rb' & Hb1 & Hb2).
        assert (Hba : b <> a).
        { intros ->. apply Ha. eapply list_elem_of_lookup_2, Hk. }
        unfold h1 in Hb1. rewrite lookup_insert_ne in Hb1 by congruence.
        exists rb'. split; [exact Hb1|]. rewrite Hb2.
        replace (i + 1 + Z.of_nat k) with (i + Z.of_nat (S k)) by lia. reflexivity.
    + intros b Hb. apply not_elem_of_cons in Hb as [Hba Hb].
      rewrite (Hout b Hb). unfold h1. apply lookup_insert_ne. congruence.
Qed.

Lemma position_spec (a : nat) (buttons : list nat) (i : Z) :
  a ∈ buttons ->
  exists k : nat, buttons !! k = Some a /\ position a buttons i = i + Z.of_nat k.
Proof.
  revert i. induction buttons as [|b rest IH]; intros i Hin; [inversion Hin|].
  cbn [position]. destruct (decide (b = a)) as [->|Hne].
  - rewrite bool_decide_eq_true_2 by reflexivity. exists 0%nat. split; [reflexivity|lia].
  - rewrite bool_decide_eq_false_2 by exact Hne.
    apply elem_of_cons in Hin as [->|Hin]; [contradiction|].
    destruct (IH (i + 1) Hin) as (k & Hk & Hp). exists (S k). split; [exact Hk|lia].
Qed.

(** X12. Enter that the key handler declines, with the focus on an
    active radio button of a group of distinct radio buttons: the button
    becomes the selected one of its group and every other button of the
    group is unselected, the group records the button's position and
    value, and nothing outside the group changes. *)
Theorem enter_selects_radio_button (st : State) (a : nat) (rb : RadioButton.t)
    (rg : RadioGroup.t)
    (Hfoc : focusedElement st = Some (Obj a, ERadioButton rb))
    (Hact : RadioButton.IsActive rb = true)
    (Hg : groups st !! RadioButton.Group rb = Some rg)
    (Hnd : NoDup (RadioGroup.Buttons rg))
    (Hall : forall b, b ∈ RadioGroup.Buttons rg ->
              exists rb', heap st !! b = Some (ERadioButton rb'))
    (Hin : a ∈ RadioGroup.Buttons rg)
    (Hh : handler_declines HandleKeyStroke [13] st) :
  exists st' (k : nat),
    handle_key [13] st = Some (st', render) /\
    win st' = win st /\
    RadioGroup.Buttons rg !! k = Some a /\
    groups st' = <[RadioButton.Group rb :=
                     RadioGroup.mk (RadioGroup.Buttons rg) (Z.of_nat k) (RadioButton.Value rb)]>
                   (groups st) /\
    (forall b, b ∈ RadioGroup.Buttons rg ->
       exists rb', heap st !! b = Some (ERadioButton rb') /\
         heap st' !! b
         = Some (ERadioButton (RadioButton.set_IsSelected (bool_decide (b = a)) rb'))) /\
    (forall b, b ∉ RadioGroup.Buttons rg -> heap st' !! b = heap st !! b).
Proof.
  destruct (focusedElement_inv st _ _ Hfoc) as (Hf & Hr & Hd). cbn in Hd.
  destruct (position_spec a (RadioGroup.Buttons rg) 0 Hin) as (k & Hk & Hp).
  rewrite Z.add_0_l in Hp.
  assert (Hkl : 0 <= Z.of_nat k < len (RadioGroup.Buttons rg)).
  { apply lookup_lt_Some in Hk. unfold len. lia. }
  destruct (select_buttons_spec (RadioGroup.Buttons rg) 0 (Z.of_nat k) (heap st) Hnd Hall)
    as [Hsel Hout].
  eexists. exists k. split.
  - rewrite (handle_key_declined _ _ Hh). unfold Dispatch.default_keys. rewrite Hfoc.
    cbn [other_keys]. rewrite Hact, Hg. cbn [mbind option_bind]. rewrite Hp.
    destruct (Z.eqb_spec (Z.of_nat k) (-1)); [lia|]. cbn [negb].
    unfold RadioGroup_Select. rewrite Hg. cbn [mbind option_bind].
    destruct (Z.ltb_spec (Z.of_nat k) 0); [lia|].
    destruct (Z.geb_spec (Z.of_nat k) (len (RadioGroup.Buttons rg))); [lia|]. cbn [orb].
    destruct (index_Some (RadioGroup.Buttons rg) (Z.of_nat k) Hkl) as (x & -> & Hx).
    rewrite Nat2Z.id, Hk in Hx. injection Hx as <-. cbn [mbind option_bind].
    rewrite Hd. cbn [mbind option_bind with_flags]. reflexivity.
  - cbn. split; [reflexivity|]. split; [exact Hk|]. split; [reflexivity|].
    split; [|exact Hout].
    intros b Hb. apply list_elem_of_lookup in Hb as [j Hj].
    destruct (Hsel j b Hj) as (rb' & Hb1 & Hb2). exists rb'. split; [exact Hb1|].
    rewrite Hb2. do 3 f_equal. rewrite Z.add_0_l.
    destruct (decide (b = a)) as [->|Hne].
    + rewrite bool_decide_eq_true_2 by reflexivity. apply Z.eqb_eq.
      rewrite (NoDup_lookup _ _ _ _ Hnd Hj Hk). reflexivity.
    + rewrite bool_decide_eq_false_2 by exact Hne. apply Z.eqb_neq.
      intros E. apply Nat2Z.inj in E. subst j. congruence.
Qed.


(** *** Keys on a text box *)

Lemma deref_textbox_Obj (st : State) (r : Ref) (tb : TextBox.t) :
  deref st r = Some (ETextBox tb) -> exists a, r = Obj a /\ heap st !! a = Some (ETextBox tb).
Proof.
  destruct r as [a|a|a q]; cbn.
  - eauto.
  - destruct (heap st !! a) as [[]|]; discriminate.
  - destruct (heap st !! a) as [[]|]; try discriminate;
      match goal with |- context [Menu.get ?m ?q] => destruct (Menu.get m q) end;
      discriminate.
Qed.

Lemma textbox_keys_printable (r : Ref) (tb : TextBox.t) (k : Z) (st : State) :
  (k >=? 32) && (k <? 127) = true ->
  textbox_keys r tb [k] st
  = (let tb :=
       if TextBox.IsPristine tb
       then TextBox.set_IsPristine false (TextBox.set_CursorPos 0 (TextBox.set_Text [] tb))
       else tb in
     before ← slice_to (TextBox.Text tb) (TextBox.CursorPos tb);
     after ← slice_from (TextBox.Text tb) (TextBox.CursorPos tb);
     let tb := TextBox.set_Text (before ++ [Utf8.byte k] ++ after) tb in
     Some (assign r (ETextBox (TextBox.set_CursorPos (TextBox.CursorPos tb +i 1) tb)) st,
           render)).
Proof.
  intros H. unfold textbox_keys.
  destruct k as [|p|p]; try (rewrite H; reflexivity).
  do 5 (destruct p as [p|p|]; try (rewrite H; reflexivity)).
Qed.

(** X13. A printable key (a byte from 32 to 126) that the key handler
    declines, with the focus on an active text box whose cursor is a
    position of its text: the byte is inserted at the cursor (into the
    emptied box when the box still shows its initial text) and the
    cursor moves behind it; Backspace after it removes the byte again
    and puts the cursor back.  No slice goes out of range. *)
Theorem textbox_type_then_backspace (st : State) (r : Ref) (tb : TextBox.t) (k : Z)
    (Hfoc : focusedElement st = Some (r, ETextBox tb))
    (Hact : TextBox.IsActive tb = true)
    (Hok : Shape.textbox_ok tb)
    (Hk : 32 <= k < 127)
    (Hh : handler_declines HandleKeyStroke [k] st) :
  let c := if TextBox.IsPristine tb then 0 else TextBox.CursorPos tb in
  let t := if TextBox.IsPristine tb then [] else TextBox.Text tb in
  let typed :=
    TextBox.mk (take (Z.to_nat c) t ++ [Utf8.byte k] ++ drop (Z.to_nat c) t)
               (TextBox.X tb) (TextBox.Y tb) (TextBox.Width tb) true (c + 1) false in
  let erased :=
    TextBox.mk t (TextBox.X tb) (TextBox.Y tb) (TextBox.Width tb) true c false in
  let st1 := assign r (ETextBox typed) st in
  handle_key [k] st = Some (st1, render) /\
  win st1 = win st /\
  (handler_declines HandleKeyStroke [127] st1 ->
   handle_key [127] st1 = Some (assign r (ETextBox erased) st, render)).
Proof.
  cbv zeta. destruct (focusedElement_inv st r _ Hfoc) as (Hf & Hr & Hd).
  destruct (deref_textbox_Obj st r tb Hd) as (a & -> & Ha).
  destruct Hok as (Hc & Hl). pose proof (len_nonneg (TextBox.Text tb)) as Hl0.
  set (c := if TextBox.IsPristine tb then 0 else TextBox.CursorPos tb).
  set (t := if TextBox.IsPristine tb then [] else TextBox.Text tb).
  assert (Hct : 0 <= c <= len t /\ len t < int_max).
  { unfold c, t, int_max in *. destruct (TextBox.IsPristine tb); [|lia].
    change (len (@nil ascii)) with 0. lia. }
  assert (Hkp : (k >=? 32) && (k <? 127) = true).
  { destruct (Z.geb_spec k 32); [|lia]. destruct (Z.ltb_spec k 127); [reflexivity|lia]. }
  set (typed := TextBox.mk (take (Z.to_nat c) t ++ [Utf8.byte k] ++ drop (Z.to_nat c) t)
                  (TextBox.X tb) (TextBox.Y tb) (TextBox.Width tb) true (c + 1) false).
  assert (E1 : handle_key [k] st = Some (assign (Obj a) (ETextBox typed) st, render)).
  { rewrite (handle_key_declined _ _ Hh). unfold Dispatch.default_keys. rewrite Hfoc, Hact.
    rewrite (textbox_keys_printable _ _ _ _ Hkp).
    cbv zeta beta. unfold typed, c, t in *. clear typed c t.
    destruct (TextBox.IsPristine tb) eqn:Ep.
    - cbn [TextBox.Text TextBox.CursorPos TextBox.set_Text TextBox.set_CursorPos
           TextBox.set_IsPristine TextBox.X TextBox.Y TextBox.Width TextBox.IsActive
           TextBox.IsPristine].
      rewrite slice_to_Some, slice_from_Some by (change (len (@nil ascii)) with 0; lia).
      cbn [mbind option_bind].
      unfold TextBox.set_CursorPos, TextBox.set_Text, TextBox.set_IsPristine.
      cbn [TextBox.Text TextBox.CursorPos TextBox.X TextBox.Y TextBox.Width TextBox.IsActive
           TextBox.IsPristine].
      rewrite Hact. unwrap. reflexivity.
    - rewrite slice_to_Some, slice_from_Some by lia. cbn [mbind option_bind].
      cbn [TextBox.Text TextBox.CursorPos TextBox.set_Text TextBox.set_CursorPos
           TextBox.set_IsPristine TextBox.X TextBox.Y TextBox.Width TextBox.IsActive
           TextBox.IsPristine].
      unfold TextBox.set_CursorPos, TextBox.set_Text, TextBox.set_IsPristine.
      cbn [TextBox.Text TextBox.CursorPos TextBox.X TextBox.Y TextBox.Width TextBox.IsActive
           TextBox.IsPristine].
      rewrite Hact, Ep. unfold int_max in *. unwrap. reflexivity. }
  split; [exact E1|]. split; [reflexivity|].
  intros Hh'. rewrite (handle_key_declined _ _ Hh'). unfold Dispatch.default_keys.
  rewrite (focusedElement_assign_Obj st a _ (ETextBox typed) Hfoc).
  cbn [TextBox.IsActive typed]. unfold textbox_keys.
  change ((127 >=? 32) && (127 <? 127)) with false.
  change ((127 =? 127) || (127 =? 8)) with true. cbv iota.
  cbn [TextBox.CursorPos TextBox.Text typed].
  destruct (Z.gtb_spec (c + 1) 0); [|lia].
  assert (Hlen : len (take (Z.to_nat c) t ++ [Utf8.byte k] ++ drop (Z.to_nat c) t) = len t + 1).
  { rewrite !len_app, len_take, len_drop by lia. change (len [Utf8.byte k]) with 1. lia. }
  unfold int_max in *. unwrap.
  rewrite slice_to_Some, slice_from_Some by (rewrite Hlen; lia). cbn [mbind option_bind].
  replace (c + 1 - 1) with c by lia.
  assert (Hlt : length (take (Z.to_nat c) t) = Z.to_nat c).
  { rewrite length_take. unfold len in Hct. lia. }
  rewrite take_app_length' by (symmetry; exact Hlt).
  replace (Z.to_nat (c + 1)) with (length (take (Z.to_nat c) t ++ [Utf8.byte k]))
    by (rewrite length_app, Hlt; cbn; lia).
  rewrite (app_assoc (take (Z.to_nat c) t) [Utf8.byte k]), drop_app_length.
  rewrite take_drop. cbn. unfold set_heap. cbn. rewrite insert_insert_eq.
  unwrap. replace (c + 1 - 1) with c by lia. reflexivity.
Qed.

(** *** Keys on the scroll bar of a container *)

(** X14. Arrow Down and Arrow Up that the key handler declines, with the
    focus on the active, visible scroll bar of a container (no
    [OnScroll] closure installed): the container's scroll offset moves
    one row down or up and stays inside [[0, MaxValue]]; the rows, the
    highlight and every other object are left as they are. *)
Theorem scrollbar_keys_scroll_container (st : State) (a : nat) (c : Container.t)
    (up : bool)
    (Hfoc : focusedElement st = Some (ScrollBarOf a, EScrollBar (Container.scrollBar c)))
    (Hc : heap st !! a = Some (EContainer c))
    (Hact : ScrollBar.IsActive (Container.scrollBar c) = true)
    (Hvis : ScrollBar.Visible (Container.scrollBar c) = true)
    (Hcb : ScrollBar.OnScroll (Container.scrollBar c) = None)
    (Hrange : 0 <= Container.GetScrollOffset c <= ScrollBar.MaxValue (Container.scrollBar c))
    (Hmax : ScrollBar.MaxValue (Container.scrollBar c) < int_max)
    (Hh : handler_declines HandleKeyStroke [27; 91; if up then 65 else 66] st) :
  exists st' c',
    handle_key [27; 91; if up then 65 else 66] st = Some (st', render) /\
    win st' = win st /\
    heap st' = <[a := EContainer c']> (heap st) /\
    Container.GetScrollOffset c' =
      (if up then Z.max 0 (Container.GetScrollOffset c - 1)
       else Z.min (ScrollBar.MaxValue (Container.scrollBar c))
                  (Container.GetScrollOffset c + 1)) /\
    Container.Content c' = Container.Content c /\
    Container.HighlightedIndex c' = Container.HighlightedIndex c /\
    Container.SelectedIndex c' = Container.SelectedIndex c /\
    Container.IsActive c' = Container.IsActive c.
Proof.
  unfold Container.GetScrollOffset in *.
  set (sb := Container.scrollBar c) in *.
  set (v := if up then ScrollBar.Value sb -i 1 else ScrollBar.Value sb +i 1).
  assert (Ek : handle_key [27; 91; if up then 65 else 66] st
               = with_flags render (ScrollBar_SetValue call_notify (ScrollBarOf a) v st)).
  { rewrite (handle_key_declined _ _ Hh). unfold Dispatch.default_keys. rewrite Hfoc.
    fold sb. rewrite Hact. unfold scrollbar_keys, v. destruct up; rewrite Hvis; reflexivity. }
  assert (Hd : deref st (ScrollBarOf a) = Some (EScrollBar sb)) by (cbn; rewrite Hc; reflexivity).
  assert (Es : ScrollBar_SetValue call_notify (ScrollBarOf a) v st
               = Some (set_heap (<[a := EContainer
                                     (Container.set_scrollBar (fst (ScrollBar.SetValue v sb)) c)]>
                                   (heap st)) st)).
  { unfold ScrollBar_SetValue. rewrite Hd. cbn [mbind option_bind].
    unfold ScrollBar.SetValue. destruct (negb (_ =? _)).
    - cbn [ScrollBar.OnScroll ScrollBar.set_Value]. rewrite Hcb. cbn [assign]. rewrite Hc.
      reflexivity.
    - cbn [assign]. rewrite Hc. reflexivity. }
  rewrite Ek, Es. cbn [with_flags mbind option_bind].
  eexists. eexists. split; [reflexivity|]. split; [reflexivity|]. split; [reflexivity|].
  split; [|repeat split].
  cbn [Container.scrollBar Container.set_scrollBar].
  rewrite ScrollBarFacts.SetValue_Value. unfold ScrollBar.clamped, v. fold sb.
  unfold int_max in *. destruct up; unwrap; cmp.
Qed.

End WithClosures.

(** *** The statements at work on the sample windows *)

Ltac concrete_focus_inv :=
  match goal with
  | |- focus_inv ?st =>
      let c := eval vm_compute in (chain st) in
      assert (Ec : chain st = c) by (vm_compute; reflexivity);
      split;
      [split; [rewrite Ec; apply (bool_decide_unpack _); vm_compute; exact I|];
       split; [rewrite Ec;
               repeat (apply Forall_cons_2;
                       [cbn; eexists; split; [vm_compute; reflexivity|cbn; eauto]|]);
               apply Forall_nil_2
              |vm_compute; discriminate]
      |right; split; [vm_compute; split; [discriminate|reflexivity]|];
       intros i r Hr; rewrite Ec in Hr;
       repeat (destruct i as [|i];
               [cbn in Hr; injection Hr as <-; vm_compute; reflexivity|]);
       discriminate Hr]
  end.

Lemma ctrl_c_quits_witness :
  Samples.handle_key [3] Samples.mixed_state = Some (Samples.mixed_state, quit).
Proof.
  apply (ctrl_c_quits Samples.decline Samples.no_action Samples.no_notify true).
  vm_compute. exact I.
Defined.

Lemma tab_moves_focus_witness :
  exists st', Samples.handle_key [9] Samples.mixed_state = Some (st', render) /\ focus st' = 1.
Proof.
  destruct (tab_moves_focus Samples.decline Samples.no_action Samples.no_notify true
              Samples.mixed_state mixed_state_inv) as (st' & E & _ & _ & Hf).
  - vm_compute. discriminate.
  - vm_compute. exact I.
  - intros r p H. vm_compute in H. discriminate H.
  - exists st'. split; [exact E|]. rewrite Hf. vm_compute. reflexivity.
Defined.

Lemma escape_closes_plain_prompt_witness :
  exists st', Samples.handle_key [27] Samples.line_prompt_state = Some (st', render) /\
    focus st' = 1 /\ ref_active st' (Obj 0) = false.
Proof.
  assert (Hinv : focus_inv Samples.line_prompt_state) by concrete_focus_inv.
  destruct (escape_closes_plain_prompt Samples.decline Samples.no_action Samples.no_notify true
              Samples.line_prompt_state (Obj 0)
              (Prompt.SetActive true
                 (Prompt.NewSingleLinePrompt ["T"%char] ["m"%char] 0 0 30
                    [Prompt.NewPromptButton ["O"%char] None])) Hinv)
    as (st' & E & _ & _ & Hf & Ha).
  - vm_compute. reflexivity.
  - reflexivity.
  - reflexivity.
  - vm_compute. exact I.
  - exists st'. split; [exact E|]. split; [rewrite Hf; vm_compute; reflexivity|].
    rewrite Ha. vm_compute. reflexivity.
Defined.

Lemma tab_in_modal_prompt_witness :
  exists st', Samples.handle_key [9] Samples.dialog_state = Some (st', render) /\
    focus st' = focus Samples.dialog_state.
Proof.
  destruct (tab_in_modal_prompt Samples.decline Samples.no_action Samples.no_notify true
              Samples.dialog_state (Obj 0) (Prompt.SetActive true Samples.dialog))
    as (p' & _ & E & Hf & _).
  - vm_compute. reflexivity.
  - reflexivity.
  - reflexivity.
  - apply PromptFacts.SetActive_ok; vm_compute; [split; [discriminate|reflexivity]|reflexivity].
  - vm_compute. exact I.
  - eexists. split; [exact E|exact Hf].
Defined.

Lemma enter_toggles_checkbox_witness :
  exists st', Samples.handle_key [13] Samples.form_state = Some (st', render) /\
    deref st' (Obj 0)
    = Some (ECheckBox (CheckBox.mk ["c"%char] true 0 0 true)).
Proof.
  destruct (enter_toggles_checkbox Samples.decline Samples.no_action Samples.no_notify true
              Samples.form_state (Obj 0) (CheckBox.mk ["c"%char] false 0 0 true))
    as (E & Hd & _).
  - vm_compute. reflexivity.
  - reflexivity.
  - vm_compute. exact I.
  - eexists. split; [exact E|exact Hd].
Defined.

Lemma enter_selects_radio_button_witness :
  exists st', Samples.handle_key [13] (Samples.form_focus 1) = Some (st', render) /\
    groups st' !! 0%nat = Some (RadioGroup.mk [1; 2]%nat 0 ["A"%char]).
Proof.
  destruct (enter_selects_radio_button Samples.decline Samples.no_action Samples.no_notify true
              (Samples.form_focus 1) 1
              (RadioButton.mk ["a"%char] ["A"%char] 0 1 true false 0)
              (RadioGroup.mk [1; 2]%nat (-1) []))
    as (st' & k & E & _ & Hk & Hg & _).
  - vm_compute. reflexivity.
  - reflexivity.
  - vm_compute. reflexivity.
  - apply (bool_decide_unpack _). vm_compute. exact I.
  - intros b Hb. cbn in Hb.
    repeat (apply elem_of_cons in Hb as [->|Hb]; [eexists; vm_compute; reflexivity|]).
    inversion Hb.
  - cbn. apply list_elem_of_here.
  - vm_compute. exact I.
  - exists st'. split; [exact E|]. rewrite Hg. cbn [RadioButton.Group RadioButton.Value].
    rewrite lookup_insert_eq. cbn in Hk.
    destruct k as [|[|k]]; [reflexivity|discriminate Hk|discriminate Hk].
Defined.

Lemma textbox_type_then_backspace_witness :
  exists st1, Samples.handle_key [97] (Samples.form_focus 3) = Some (st1, render) /\
    deref st1 (Obj 3) = Some (ETextBox (TextBox.mk ["a"%char] 0 3 10 true 1 false)).
Proof.
  destruct (textbox_type_then_backspace Samples.decline Samples.no_action Samples.no_notify true
              (Samples.form_focus 3) (Obj 3)
              (TextBox.mk ["h"%char; "i"%char] 0 3 10 true 2 true) 97)
    as (E & _ & _).
  - vm_compute. reflexivity.
  - reflexivity.
  - vm_compute. split; [split|]; first [discriminate|reflexivity].
  - lia.
  - vm_compute. exact I.
  - eexists. split; [exact E|]. cbn. rewrite lookup_insert_eq. reflexivity.
Defined.

Lemma scrollbar_keys_scroll_container_witness :
  exists st' c', Samples.handle_key [27; 91; 66] (Samples.form_focus 5) = Some (st', render) /\
    heap st' !! 4%nat = Some (EContainer c') /\ Container.GetScrollOffset c' = 1.
Proof.
  assert (H : exists c, heap (Samples.form_focus 5) !! 4%nat = Some (EContainer c) /\
                focusedElement (Samples.form_focus 5)
                = Some (ScrollBarOf 4, EScrollBar (Container.scrollBar c)) /\
                ScrollBar.IsActive (Container.scrollBar c) = true /\
                ScrollBar.Visible (Container.scrollBar c) = true /\
                ScrollBar.OnScroll (Container.scrollBar c) = None /\
                Container.GetScrollOffset c = 0 /\
                ScrollBar.MaxValue (Container.scrollBar c) = 15).
  { eexists. split; [vm_compute; reflexivity|]. vm_compute. repeat split. }
  destruct H as (c & Hc & Hfoc & Hact & Hvis & Hcb & Hoff & Hmax).
  destruct (scrollbar_keys_scroll_container Samples.decline Samples.no_action Samples.no_notify
              true (Samples.form_focus 5) 4 c false Hfoc Hc Hact Hvis Hcb)
    as (st' & c' & E & _ & Hh & Hv & _).
  - rewrite Hoff, Hmax. lia.
  - rewrite Hmax. vm_compute. reflexivity.
  - vm_compute. exact I.
  - exists st', c'. split; [exact E|]. split; [rewrite Hh; apply lookup_insert_eq|].
    rewrite Hv, Hoff, Hmax. reflexivity.
Defined.

End KeyFacts.
(** ** More on containers *)

Module ContainerMore.
Import Container ContainerFacts.

Lemma ensureHighlightVisible_in_view (c : t) :
  wf c -> in_view (ensureHighlightVisible c).
Proof.
  intros Hwf Hhi. rewrite ensureHighlightVisible_highlight in *.
  destruct (ensureHighlightVisible_spec c Hwf Hhi) as (S1 & S2 & S3 & _).
  assert (HH : Height (ensureHighlightVisible c) = Height c).
  { unfold ensureHighlightVisible. destruct (negb _ || _); [reflexivity|].
    destruct (_ <? _); [apply scroll_to_frame|].
    destruct (_ >? _); [apply scroll_to_frame|reflexivity]. }
  rewrite HH. pose proof Hwf as (Hh & _).
  destruct (Z.lt_ge_cases (HighlightedIndex c) (GetScrollOffset c)); [rewrite S1; lia|].
  destruct (Z.le_gt_cases (HighlightedIndex c) (GetScrollOffset c + Height c - 1));
    [rewrite S3; lia|rewrite S2; lia].
Qed.

(** [SetValue] puts the offset into the range: a state that is well
    formed but for its offset is well formed after it. *)
Lemma scroll_to_establishes (x : t) (v : Z) :
  1 <= Height x <= int_max -> len (Content x) <= int_max ->
  totalContentHeight x = len (Content x) ->
  needsScroll x = (len (Content x) >? Height x) ->
  ScrollBar.Visible (scrollBar x) = (len (Content x) >? Height x) ->
  ScrollBar.MaxValue (scrollBar x) = maxOffset x ->
  -1 <= HighlightedIndex x < Z.max 1 (len (Content x)) ->
  (len (Content x) = 0 -> HighlightedIndex x = -1) ->
  wf (scroll_to v x).
Proof.
  intros HH HL HT HN HV HM HI HE.
  pose proof (scroll_to_frame x v) as F. cbv zeta in F.
  destruct F as (F1 & F2 & F3 & F4 & F5 & F6 & F7).
  pose proof (ScrollBarFacts.clamped_range (scrollBar x) v) as R.
  unfold wf, maxOffset in *. rewrite scroll_to_offset, F1, F2, F3, F4, F5, F6, F7.
  specialize (R ltac:(lia)). rewrite HM in R.
  repeat split; try assumption; try lia.
Qed.

(** The fields [SetValue] and [ensureHighlightVisible] leave alone. *)
Lemma scroll_to_rest (x : t) (v : Z) :
  Content (scroll_to v x) = Content x /\ Height (scroll_to v x) = Height x /\
  HighlightedIndex (scroll_to v x) = HighlightedIndex x /\
  SelectedIndex (scroll_to v x) = SelectedIndex x /\
  lastConfirmedIndex (scroll_to v x) = lastConfirmedIndex x /\
  hasConfirmedSelection (scroll_to v x) = hasConfirmedSelection x /\
  OnItemSelected (scroll_to v x) = OnItemSelected x /\
  IsActive (scroll_to v x) = IsActive x.
Proof. unfold scroll_to. cbn. repeat split. Qed.

Lemma ensureHighlightVisible_rest (x : t) :
  Content (ensureHighlightVisible x) = Content x /\
  Height (ensureHighlightVisible x) = Height x /\
  HighlightedIndex (ensureHighlightVisible x) = HighlightedIndex x /\
  SelectedIndex (ensureHighlightVisible x) = SelectedIndex x /\
  lastConfirmedIndex (ensureHighlightVisible x) = lastConfirmedIndex x /\
  hasConfirmedSelection (ensureHighlightVisible x) = hasConfirmedSelection x /\
  OnItemSelected (ensureHighlightVisible x) = OnItemSelected x /\
  IsActive (ensureHighlightVisible x) = IsActive x.
Proof.
  unfold ensureHighlightVisible. destruct (negb _ || _); [repeat split|].
  destruct (_ <? _); [apply scroll_to_rest|].
  destruct (_ >? _); [apply scroll_to_rest|repeat split].
Qed.

Lemma updateScrollState_wf (c : t) :
  1 <= Height c <= int_max -> len (Content c) <= int_max -> -1 <= HighlightedIndex c ->
  wf (updateScrollState c) /\ in_view (updateScrollState c) /\
  Content (updateScrollState c) = Content c /\ Height (updateScrollState c) = Height c /\
  SelectedIndex (updateScrollState c) = SelectedIndex c /\
  lastConfirmedIndex (updateScrollState c) = lastConfirmedIndex c /\
  hasConfirmedSelection (updateScrollState c) = hasConfirmedSelection c /\
  HighlightedIndex (updateScrollState c)
  = (if HighlightedIndex c >=? len (Content c)
     then len (Content c) - 1 else HighlightedIndex c).
Proof.
  intros HH HL HI. pose proof (len_nonneg (Content c)) as Hl0.
  unfold updateScrollState. cbv zeta.
  set (c1 := set_needsScroll _ (set_totalContentHeight _ c)).
  set (c2 := if HighlightedIndex c1 >=? totalContentHeight c1 then _ else c1).
  assert (H2 : Height c2 = Height c /\ Content c2 = Content c /\
               totalContentHeight c2 = len (Content c) /\
               needsScroll c2 = (len (Content c) >? Height c) /\
               SelectedIndex c2 = SelectedIndex c /\
               lastConfirmedIndex c2 = lastConfirmedIndex c /\
               hasConfirmedSelection c2 = hasConfirmedSelection c /\
               HighlightedIndex c2
               = (if HighlightedIndex c >=? len (Content c)
                  then len (Content c) - 1 else HighlightedIndex c)).
  { unfold c2, c1. cbn [HighlightedIndex totalContentHeight set_needsScroll
                         set_totalContentHeight].
    destruct (Z.geb_spec (HighlightedIndex c) (len (Content c))).
    - destruct (Z.gtb_spec (len (Content c)) 0); cbn; unfold int_max in *; unwrap;
        repeat split; lia.
    - cbn. repeat split; lia. }
  destruct H2 as (E1 & E2 & E3 & E4 & E5 & E6 & E7 & E8).
  assert (E9 : -1 <= HighlightedIndex c2 < Z.max 1 (len (Content c)) /\
               (len (Content c) = 0 -> HighlightedIndex c2 = -1)).
  { rewrite E8. destruct (Z.geb_spec (HighlightedIndex c) (len (Content c))); lia. }
  cbn [needsScroll set_scrollBar]. rewrite E4.
  match goal with |- wf (ensureHighlightVisible ?y) /\ _ => set (c4 := y) end.
  assert (Hwf4 : wf c4).
  { unfold c4. destruct (Z.gtb_spec (len (Content c)) (Height c)) as [Hn|Hn];
      apply scroll_to_establishes;
      cbn [Height Content totalContentHeight needsScroll HighlightedIndex scrollBar
           set_scrollBar ScrollBar.Visible ScrollBar.MaxValue ScrollBar.set_MaxValue
           ScrollBar.set_Visible];
      unfold maxOffset;
      cbn [Height Content totalContentHeight needsScroll HighlightedIndex scrollBar
           set_scrollBar];
      rewrite ?E1, ?E2, ?E3, ?E4; try assumption; try apply E9;
      unfold int_max in *; unwrap;
      repeat match goal with
             | |- context [?a >? ?b] => destruct (Z.gtb_spec a b); try lia
             | |- context [?a <? ?b] => destruct (Z.ltb_spec a b); try lia
             end; try reflexivity; try lia. }
  assert (Hr4 : Content c4 = Content c /\ Height c4 = Height c /\
                HighlightedIndex c4 = HighlightedIndex c2 /\
                SelectedIndex c4 = SelectedIndex c /\
                lastConfirmedIndex c4 = lastConfirmedIndex c /\
                hasConfirmedSelection c4 = hasConfirmedSelection c).
  { unfold c4. destruct (len (Content c) >? Height c);
      match goal with |- context [scroll_to ?v ?x] =>
        destruct (scroll_to_rest x v) as (R1 & R2 & R3 & R4 & R5 & R6 & _)
      end; rewrite R1, R2, R3, R4, R5, R6; cbn; repeat split; assumption. }
  destruct Hr4 as (R1 & R2 & R3 & R4 & R5 & R6).
  split; [apply ensureHighlightVisible_wf, Hwf4|].
  split; [apply ensureHighlightVisible_in_view, Hwf4|].
  destruct (ensureHighlightVisible_rest c4) as (-> & -> & -> & -> & -> & -> & _).
  rewrite R3, E8. repeat split; assumption.
Qed.

(** X15. [NewContainer] and [SetContent] leave the container well
    formed (the scroll bar shown exactly when the rows do not fit, its
    range the number of rows that do not fit, the offset inside it, the
    highlight a row or -1) with the highlighted row inside the viewport;
    [HighlightNext] and [HighlightPrevious] keep it so. *)
Theorem container_viewport_invariant :
  (forall x y width height content,
     height <= int_max -> len content <= int_max ->
     let c := NewContainer x y width height content in
     wf c /\ in_view c /\ Content c = content /\
     HighlightedIndex c = (if len content =? 0 then -1 else 0)) /\
  (forall content c,
     wf c -> len content <= int_max ->
     let c' := SetContent content c in
     wf c' /\ in_view c' /\ Content c' = content /\
     HighlightedIndex c' = Z.min (HighlightedIndex c) (len content - 1)) /\
  (forall c, wf c ->
     wf (HighlightNext c) /\ wf (HighlightPrevious c) /\
     (in_view c -> in_view (HighlightNext c) /\ in_view (HighlightPrevious c))).
Proof.
  split; [|split].
  - intros x y width height content Hh Hl. cbv zeta.
    pose proof (len_nonneg content) as Hl0.
    unfold NewContainer. cbv zeta.
    set (h := if height <? 1 then 1 else height).
    assert (Hh' : 1 <= h <= int_max).
    { unfold h, int_max in *. destruct (Z.ltb_spec height 1); lia. }
    match goal with |- context [updateScrollState ?c0] => set (c := c0) end.
    destruct (updateScrollState_wf c) as (W & V & EC & EH & _ & _ & _ & EI);
      [exact Hh'|exact Hl|cbn; lia|].
    cbn [Content HighlightedIndex c] in EC, EI.
    set (u := updateScrollState c) in *.
    assert (Eu : (if (HighlightedIndex u >=? len (Content u)) && (len (Content u) >? 0)
                  then set_HighlightedIndex (len (Content u) -i 1) u
                  else if len (Content u) =? 0 then set_HighlightedIndex (-1) u else u)
                 = set_HighlightedIndex (HighlightedIndex u) u /\
                 HighlightedIndex u = (if len content =? 0 then -1 else 0)).
    { rewrite EC. unfold int_max in *.
      destruct (Z.eqb_spec (len content) 0) as [E0|E0].
      - destruct (Z.gtb_spec (len content) 0); [lia|]. rewrite andb_false_r.
        assert (Ei : HighlightedIndex u = -1).
        { rewrite EI. destruct (Z.geb_spec 0 (len content)); lia. }
        rewrite Ei. split; reflexivity.
      - assert (Ei : HighlightedIndex u = 0).
        { rewrite EI. destruct (Z.geb_spec 0 (len content)); lia. }
        rewrite Ei. destruct (Z.geb_spec 0 (len content)); [lia|]. cbn [andb].
        split; [|reflexivity]. destruct u; cbn in *. subst. reflexivity. }
    destruct Eu as [Eu Ei]. rewrite Eu.
    assert (Es : set_HighlightedIndex (HighlightedIndex u) u = u) by (destruct u; reflexivity).
    rewrite Es.
    split; [apply ensureHighlightVisible_wf, W|].
    split; [apply ensureHighlightVisible_in_view, W|].
    destruct (ensureHighlightVisible_rest u) as (-> & _ & -> & _). split; assumption.
  - intros content c Hwf Hl. cbv zeta.
    pose proof Hwf as (HH & HL & HT & HN & HV & HM & HO & HI & HE).
    unfold SetContent. cbv zeta.
    match goal with |- context [updateScrollState ?c0] => set (c1 := c0) end.
    assert (Hc1 : Height c1 = Height c /\ Content c1 = content /\
                  HighlightedIndex c1 = HighlightedIndex c).
    { unfold c1. destruct (hasConfirmedSelection c && _); cbn; repeat split. }
    destruct Hc1 as (H1 & H2 & H3).
    destruct (updateScrollState_wf c1) as (W & V & EC & EH & _ & _ & _ & EI);
      [rewrite H1; exact HH|rewrite H2; exact Hl|rewrite H3; lia|].
    split; [exact W|]. split; [exact V|]. rewrite EC, EI, H2, H3. split; [reflexivity|].
    destruct (Z.geb_spec (HighlightedIndex c) (len content)); lia.
  - intros c Hwf. split; [apply HighlightNext_wf, Hwf|].
    split; [apply HighlightPrevious_wf, Hwf|]. intros Hv.
    pose proof Hwf as (HH & HL & HT & HN & HV & HM & HO & HI & HE).
    pose proof (len_nonneg (Content c)) as Hl0.
    split.
    + unfold HighlightNext. destruct (_ <? _) eqn:E; [|exact Hv].
      apply ensureHighlightVisible_in_view, set_HighlightedIndex_wf; [exact Hwf| |].
      * rewrite HT in E. unfold int_max in *. revert E. unwrap. intros E.
        apply Z.ltb_lt in E. lia.
      * rewrite HT in E. unfold int_max in *. revert E. unwrap. intros E.
        apply Z.ltb_lt in E. lia.
    + unfold HighlightPrevious. destruct (Z.gtb_spec (HighlightedIndex c) 0); [|exact Hv].
      apply ensureHighlightVisible_in_view, set_HighlightedIndex_wf; [exact Hwf| |];
        unfold int_max in *; unwrap; lia.
Qed.



(** X17. [SelectHighlightedItem] on a well-formed container with a
    highlighted row makes that row the selected and the confirmed one
    and calls [OnItemSelected], if installed, with its index;
    [GetLastConfirmedItem] then returns the index and the row.  Without
    a highlighted row it does nothing; after [ClearConfirmedSelection],
    or after [SetContent] with fewer rows than the confirmed index,
    [GetLastConfirmedItem] reports no selection. *)
Theorem confirmed_selection (c : t) (Hwf : wf c) :
  let c' := fst (SelectHighlightedItem c) in
  (0 <= HighlightedIndex c ->
     exists row, Content c !! Z.to_nat (HighlightedIndex c) = Some row /\
       SelectedIndex c' = HighlightedIndex c /\
       GetLastConfirmedItem c' = Some (HighlightedIndex c, row, true) /\
       snd (SelectHighlightedItem c)
       = (fun cb => (cb, HighlightedIndex c)) <$> OnItemSelected c /\
       (forall content, len content <= HighlightedIndex c -> len content <= int_max ->
          GetLastConfirmedItem (SetContent content c') = Some (-1, [], false) /\
          SelectedIndex (SetContent content c') = -1)) /\
  (HighlightedIndex c < 0 -> SelectHighlightedItem c = (c, None)) /\
  GetLastConfirmedItem (ClearConfirmedSelection c') = Some (-1, [], false) /\
  (exists r, GetLastConfirmedItem c = Some r).
Proof.
  cbv zeta. pose proof Hwf as (HH & HL & HT & HN & HV & HM & HO & HI & HE).
  pose proof (len_nonneg (Content c)) as Hl0.
  split; [|split; [|split]].
  - intros Hhi. assert (Hr : 0 <= HighlightedIndex c < len (Content c)) by lia.
    destruct (index_Some (Content c) (HighlightedIndex c) Hr) as (row & Ei & Hrow).
    exists row. split; [exact Hrow|].
    unfold SelectHighlightedItem.
    destruct (Z.geb_spec (HighlightedIndex c) 0); [|lia].
    destruct (Z.ltb_spec (HighlightedIndex c) (len (Content c))); [|lia]. cbn [andb].
    cbn [OnItemSelected set_hasConfirmedSelection set_lastConfirmedIndex set_SelectedIndex].
    assert (Eg : forall x, Content x = Content c -> hasConfirmedSelection x = true ->
                 lastConfirmedIndex x = HighlightedIndex c ->
                 GetLastConfirmedItem x = Some (HighlightedIndex c, row, true)).
    { intros x E1 E2 E3. unfold GetLastConfirmedItem. rewrite E1, E2, E3. cbn [negb].
      destruct (Z.geb_spec (HighlightedIndex c) 0); [|lia].
      destruct (Z.ltb_spec (HighlightedIndex c) (len (Content c))); [|lia]. cbn [andb].
      rewrite Ei. reflexivity. }
    assert (Es : forall x content, hasConfirmedSelection x = true ->
                 lastConfirmedIndex x = HighlightedIndex c -> wf x ->
                 len content <= HighlightedIndex c -> len content <= int_max ->
                 GetLastConfirmedItem (SetContent content x) = Some (-1, [], false) /\
                 SelectedIndex (SetContent content x) = -1).
    { intros x content E2 E3 Wx Hc Hci.
      pose proof Wx as (XH & _ & _ & _ & _ & _ & _ & XI & _).
      unfold SetContent. rewrite E2, E3. cbn [andb].
      destruct (Z.ltb_spec (HighlightedIndex c) 0); [lia|].
      destruct (Z.geb_spec (HighlightedIndex c) (len content)); [|lia]. cbn [orb].
      match goal with |- context [updateScrollState ?y] =>
        destruct (updateScrollState_wf y) as (_ & _ & _ & _ & Q1 & Q2 & Q3 & _);
          [cbn; exact XH|cbn; exact Hci|cbn; lia|]
      end.
      unfold GetLastConfirmedItem. rewrite Q1, Q3. cbn. auto. }
    destruct (OnItemSelected c) as [cb|]; cbn [fst snd fmap option_fmap option_map];
      (split; [reflexivity|]; split; [apply Eg; reflexivity|]; split; [reflexivity|];
       intros content Hc Hci; apply Es; try reflexivity; try assumption;
       unfold wf, maxOffset, GetScrollOffset in *; cbn; repeat split; assumption).
  - intros Hneg. unfold SelectHighlightedItem.
    destruct (Z.geb_spec (HighlightedIndex c) 0); [lia|reflexivity].
  - reflexivity.
  - unfold GetLastConfirmedItem. destruct (hasConfirmedSelection c); cbn [negb]; [|eauto].
    destruct (Z.geb_spec (lastConfirmedIndex c) 0); cbn [andb]; [|eauto].
    destruct (Z.ltb_spec (lastConfirmedIndex c) (len (Content c))); [|eauto].
    destruct (index_Some (Content c) (lastConfirmedIndex c)) as (row & -> & _); [lia|].
    cbn. eauto.
Qed.

Lemma confirmed_selection_witness :
  GetLastConfirmedItem (fst (SelectHighlightedItem Samples.sample_container))
  = Some (12, [], true).
Proof.
  assert (Hwf : wf Samples.sample_container).
  { unfold Samples.sample_container.
    do 12 (cbn [Nat.iter]; apply HighlightNext_wf).
    destruct container_viewport_invariant as (H & _).
    apply (H 0 0 20 10 Samples.rows25); vm_compute; discriminate. }
  destruct (confirmed_selection Samples.sample_container Hwf) as (H & _).
  destruct H as (row & Hrow & _ & Hg & _); [vm_compute; discriminate|].
  rewrite Hg. vm_compute in Hrow. injection Hrow as <-. vm_compute. reflexivity.
Defined.

End ContainerMore.

(** ** TextArea: the view, the counters and the cursor moves *)

Module TextAreaMore.
Import Utf8 TextArea TextAreaFacts.

(** *** What an edit leaves alone *)

Lemma edited_refl (ta : t) : edited ta ta.
Proof. unfold edited. destruct ta; reflexivity. Qed.

Lemma edited_trans (a b c : t) : edited a b -> edited b c -> edited a c.
Proof.
  unfold edited. destruct a, b, c. cbn. intros [= -> -> -> -> -> -> -> -> -> -> -> ->].
  intros [= -> -> -> -> -> -> -> -> -> -> -> ->]. reflexivity.
Qed.

Lemma edited_frame (ta x : t) :
  edited ta x ->
  Height x = Height ta /\ scrollBar x = scrollBar ta /\ needsScroll x = needsScroll ta /\
  IsActive x = IsActive ta /\ maxChars x = maxChars ta /\
  wordCount x = wordCount ta /\ charCount x = charCount ta.
Proof. unfold edited. intros E. rewrite E. cbn. repeat split. Qed.

Lemma clampCursorCol_edited (ta ta' : t) :
  clampCursorCol ta = Some ta' -> edited ta ta' /\ viewTopLine ta' = viewTopLine ta.
Proof.
  unfold clampCursorCol.
  set (ta1 := if cursorLine ta <? 0 then set_cursorLine 0 ta else ta).
  assert (E1 : edited ta ta1 /\ viewTopLine ta1 = viewTopLine ta).
  { unfold ta1. destruct (_ <? _); (split; [|reflexivity]);
      [unfold edited; destruct ta; reflexivity|apply edited_refl]. }
  set (ta2 := if cursorLine ta1 >=? len (Lines ta1)
              then if len (Lines ta1) >? 0 then set_cursorLine (len (Lines ta1) -i 1) ta1
                   else set_cursorLine 0 (set_Lines [[]] ta1)
              else ta1).
  assert (E2 : edited ta1 ta2 /\ viewTopLine ta2 = viewTopLine ta1).
  { unfold ta2. destruct (_ >=? _); [destruct (_ >? _)|]; (split; [|reflexivity]);
      try apply edited_refl; unfold edited; destruct ta1; reflexivity. }
  assert (E : edited ta ta2 /\ viewTopLine ta2 = viewTopLine ta).
  { split; [exact (edited_trans _ _ _ (proj1 E1) (proj1 E2))|].
    rewrite (proj2 E2). exact (proj2 E1). }
  clearbody ta2. clear E1 E2 ta1. destruct E as [E Ev].
  assert (S : forall y, edited ta2 y -> viewTopLine y = viewTopLine ta2 ->
                edited ta y /\ viewTopLine y = viewTopLine ta).
  { intros y Hy Hv. split; [exact (edited_trans _ _ _ E Hy)|congruence]. }
  destruct (len (Lines ta2) =? 0).
  - intros [= <-]. apply S; [unfold edited; destruct ta2; reflexivity|reflexivity].
  - destruct (index (Lines ta2) (cursorLine ta2)) as [line|]; [|discriminate].
    cbn [mbind option_bind]. intros [= <-].
    destruct (_ <? _); [|destruct (_ >? _)]; apply S; try reflexivity;
      try apply edited_refl; unfold edited; destruct ta2; reflexivity.
Qed.

(** On a valid cursor [clampCursorCol] changes nothing. *)
Lemma clampCursorCol_id (ta : t) : cursor_ok ta -> clampCursorCol ta = Some ta.
Proof.
  intros (Hne & Hcl & line & Hline & Hcol). unfold clampCursorCol.
  destruct (Z.ltb_spec (cursorLine ta) 0); [lia|].
  destruct (Z.geb_spec (cursorLine ta) (len (Lines ta))); [lia|].
  destruct (Z.eqb_spec (len (Lines ta)) 0); [lia|].
  rewrite Hline. cbn [mbind option_bind].
  destruct (Z.ltb_spec (cursorCol ta) 0); [lia|].
  destruct (Z.gtb_spec (cursorCol ta) (RuneLen line)); [lia|]. reflexivity.
Qed.

(** *** The view *)

Lemma visibleHeight_range (ta : t) :
  1 <= Height ta <= int_max -> 1 <= visibleHeight ta <= int_max.
Proof.
  intros H. unfold visibleHeight. cbv zeta. unfold int_max in *. unwrap.
  destruct (Z.ltb_spec (Height ta - 1) 1); lia.
Qed.

Lemma visibleHeight_Height (ta x : t) : Height x = Height ta -> visibleHeight x = visibleHeight ta.
Proof. unfold visibleHeight. intros ->. reflexivity. Qed.

Ltac fields_in H :=
  cbn [scrollBar set_scrollBar set_needsScroll set_viewTopLine set_cursorLine set_cursorCol
       set_Lines set_counts calculateCounts
       ScrollBar.MaxValue ScrollBar.set_MaxValue ScrollBar.set_Height
       ScrollBar.set_Visible ScrollBar.OnScroll ScrollBar.Value
       viewTopLine Height Lines cursorLine cursorCol needsScroll wordCount charCount] in H.

Ltac fields :=
  cbn [scrollBar set_scrollBar set_needsScroll set_viewTopLine set_cursorLine set_cursorCol
       set_Lines set_counts calculateCounts
       ScrollBar.MaxValue ScrollBar.set_MaxValue ScrollBar.set_Height
       ScrollBar.set_Visible ScrollBar.OnScroll ScrollBar.Value
       viewTopLine Height Lines cursorLine cursorCol needsScroll wordCount charCount].

(** [scroll_to] with the closure of [NewTextArea] installed. *)
Lemma scroll_to_spec (v : Z) (y : t) :
  ScrollBar.OnScroll (scrollBar y) = Some SyncViewTopLine ->
  let z := scroll_to v y in
  ScrollBar.Value (scrollBar z) = ScrollBar.clamped (scrollBar y) v /\
  viewTopLine z = (if ScrollBar.clamped (scrollBar y) v =? ScrollBar.Value (scrollBar y)
                   then viewTopLine y else ScrollBar.clamped (scrollBar y) v) /\
  ScrollBar.MaxValue (scrollBar z) = ScrollBar.MaxValue (scrollBar y) /\
  ScrollBar.OnScroll (scrollBar z) = ScrollBar.OnScroll (scrollBar y) /\
  Height z = Height y /\ Lines z = Lines y /\ cursorLine z = cursorLine y /\
  needsScroll z = needsScroll y /\ wordCount z = wordCount y /\ charCount z = charCount y.
Proof.
  intros Hcb. cbv zeta. unfold scroll_to, ScrollBar.SetValue.
  destruct (Z.eqb_spec (ScrollBar.clamped (scrollBar y) v) (ScrollBar.Value (scrollBar y)))
    as [E|E]; cbn [negb].
  - cbn. rewrite E. repeat split.
  - cbn [ScrollBar.OnScroll ScrollBar.set_Value]. rewrite Hcb. cbn. repeat split; exact Hcb.
Qed.

(** The part of [view_ok] that [updateScrollState] establishes. *)
Lemma updateScrollState_view (x : t) :
  1 <= Height x <= int_max -> len (Lines x) <= int_max ->
  ScrollBar.OnScroll (scrollBar x) = Some SyncViewTopLine ->
  let y := updateScrollState x in
  ScrollBar.OnScroll (scrollBar y) = Some SyncViewTopLine /\
  Height y = Height x /\ Lines y = Lines x /\ cursorLine y = cursorLine x /\
  wordCount y = wordCount x /\ charCount y = charCount x /\
  needsScroll y = (len (Lines x) >? visibleHeight x) /\
  ScrollBar.MaxValue (scrollBar y) = Z.max 0 (len (Lines x) - visibleHeight x) /\
  0 <= viewTopLine y <= ScrollBar.MaxValue (scrollBar y) /\
  ScrollBar.Value (scrollBar y) = viewTopLine y.
Proof.
  intros Hh Hl Hcb. pose proof (visibleHeight_range x Hh) as Hv.
  pose proof (len_nonneg (Lines x)) as Hn.
  cbv zeta. unfold updateScrollState. cbv zeta.
  cbn [needsScroll set_needsScroll set_scrollBar].
  destruct (Z.gtb_spec (len (Lines x)) (visibleHeight x)) as [Hgt|Hle].
  - unfold int_max in *. unwrap.
    destruct (Z.ltb_spec (len (Lines x) - visibleHeight x) 0); [lia|].
    match goal with |- context [scroll_to ?v ?y] =>
      destruct (scroll_to_spec v y) as (S1 & S2 & S3 & S4 & S5 & S6 & S7 & S8 & S9 & S10);
      [exact Hcb|];
      pose proof (ScrollBarFacts.clamped_range (scrollBar y) v) as R;
      set (z := scroll_to v y) in *; clearbody z
    end.
    fields_in S1; fields_in S3; fields_in S4; fields_in S5; fields_in S6; fields_in S7;
      fields_in S8; fields_in S9; fields_in S10; fields_in R. fields.
    rewrite S3, S4, S5, S6, S7, S8, S9, S10, S1.
    repeat split; try assumption; try reflexivity; try lia.
  - match goal with |- context [scroll_to ?v ?y] =>
      destruct (scroll_to_spec v y) as (S1 & S2 & S3 & S4 & S5 & S6 & S7 & S8 & S9 & S10);
      [exact Hcb|];
      set (z := scroll_to v y) in *; clearbody z
    end.
    unfold ScrollBar.clamped in S1.
    fields_in S1; fields_in S3; fields_in S4; fields_in S5; fields_in S6; fields_in S7;
      fields_in S8; fields_in S9; fields_in S10. fields.
    change (0 <? 0) with false in S1. change (0 >? 0) with false in S1. cbv iota in S1.
    rewrite S3, S4, S5, S6, S7, S8, S9, S10, S1.
    repeat split; try assumption; try reflexivity; try lia.
Qed.

(** [ensureCursorVisible] completes it. *)
Lemma ensureCursorVisible_view (x : t) :
  ScrollBar.OnScroll (scrollBar x) = Some SyncViewTopLine ->
  1 <= Height x <= int_max -> len (Lines x) <= int_max ->
  needsScroll x = (len (Lines x) >? visibleHeight x) ->
  ScrollBar.MaxValue (scrollBar x) = Z.max 0 (len (Lines x) - visibleHeight x) ->
  0 <= viewTopLine x <= ScrollBar.MaxValue (scrollBar x) ->
  ScrollBar.Value (scrollBar x) = viewTopLine x ->
  0 <= cursorLine x < len (Lines x) ->
  view_ok (ensureCursorVisible x).
Proof.
  intros Hcb Hh Hl Hns Hmax Htop Hval Hcl.
  pose proof (visibleHeight_range x Hh) as Hv.
  unfold ensureCursorVisible. cbv zeta.
  unfold int_max in *. unwrap.
  assert (G : forall v, 0 <= v <= ScrollBar.MaxValue (scrollBar x) ->
                v <= cursorLine x <= v + visibleHeight x - 1 ->
                view_ok (scroll_to v (set_viewTopLine v x))).
  { intros v Hr Hc.
    destruct (scroll_to_spec v (set_viewTopLine v x))
      as (S1 & S2 & S3 & S4 & S5 & S6 & S7 & S8 & _); [exact Hcb|].
    set (z := scroll_to v (set_viewTopLine v x)) in *. clearbody z.
    fields_in S1; fields_in S2; fields_in S3; fields_in S4; fields_in S5; fields_in S6;
      fields_in S7; fields_in S8.
    rewrite (ScrollBarFacts.clamped_in_range (scrollBar x) v Hr) in S1, S2.
    assert (T : viewTopLine z = v) by (rewrite S2; destruct (_ =? _); reflexivity).
    unfold view_ok.
    rewrite (visibleHeight_Height x z S5), S1, T, S3, S4, S5, S6, S7, S8.
    unfold int_max. repeat split; try assumption; try reflexivity; lia. }
  destruct (Z.ltb_spec (cursorLine x) (viewTopLine x)) as [Hb|Hb].
  - apply G; lia.
  - destruct (Z.gtb_spec (cursorLine x) (viewTopLine x + visibleHeight x - 1)) as [Ha|Ha].
    + apply G; lia.
    + unfold view_ok, int_max. repeat split; try assumption; try lia.
Qed.

Lemma bookkeeping_view (x : t) :
  ScrollBar.OnScroll (scrollBar x) = Some SyncViewTopLine ->
  1 <= Height x <= int_max -> len (Lines x) <= int_max ->
  0 <= cursorLine x < len (Lines x) ->
  view_ok (ensureCursorVisible (updateScrollState (calculateCounts x))).
Proof.
  intros Hcb Hh Hl Hcl.
  destruct (updateScrollState_view (calculateCounts x) Hh Hl Hcb)
    as (Y1 & Y2 & Y3 & Y4 & _ & _ & Y5 & Y6 & Y7 & Y8).
  apply ensureCursorVisible_view; rewrite ?Y2, ?Y3, ?Y4,
    ?(visibleHeight_Height (calculateCounts x) _ Y2); try assumption.
Qed.

Lemma bookkeeping_counts (x : t) :
  Shape.counts_ok (ensureCursorVisible (updateScrollState (calculateCounts x))).
Proof.
  pose proof (bookkeeping_same x) as (SL & _).
  unfold Shape.counts_ok. rewrite SL.
  assert (F : forall v y, wordCount (scroll_to v y) = wordCount y /\
                          charCount (scroll_to v y) = charCount y).
  { intros v y. unfold scroll_to. destruct (ScrollBar.SetValue v (scrollBar y)) as [sb fired].
    destruct fired as [[[|name] nv]|]; split; reflexivity. }
  assert (U : forall y, wordCount (updateScrollState y) = wordCount y /\
                        charCount (updateScrollState y) = charCount y).
  { intros y. unfold updateScrollState. cbv zeta.
    match goal with |- context [if ?b then _ else _] => destruct b end;
      cbn [wordCount charCount set_viewTopLine];
      match goal with |- wordCount (scroll_to ?v ?z) = _ /\ _ =>
        destruct (F v z) as [-> ->] end; split; reflexivity. }
  assert (V : forall y, wordCount (ensureCursorVisible y) = wordCount y /\
                        charCount (ensureCursorVisible y) = charCount y).
  { intros y. unfold ensureCursorVisible. cbv zeta.
    destruct (_ <? _); [|destruct (_ >? _)]; try (split; reflexivity);
      match goal with |- wordCount (scroll_to ?v ?z) = _ /\ _ =>
        destruct (F v z) as [-> ->] end; split; reflexivity. }
  destruct (V (updateScrollState (calculateCounts x))) as [-> ->].
  destruct (U (calculateCounts x)) as [-> ->]. split; reflexivity.
Qed.

Lemma ensureCursorVisible_counts (x : t) :
  wordCount (ensureCursorVisible x) = wordCount x /\
  charCount (ensureCursorVisible x) = charCount x.
Proof.
  assert (F : forall v y, wordCount (scroll_to v y) = wordCount y /\
                          charCount (scroll_to v y) = charCount y).
  { intros v y. unfold scroll_to. destruct (ScrollBar.SetValue v (scrollBar y)) as [sb fired].
    destruct fired as [[[|name] nv]|]; split; reflexivity. }
  unfold ensureCursorVisible. cbv zeta.
  destruct (_ <? _); [|destruct (_ >? _)]; try (split; reflexivity);
    match goal with |- wordCount (scroll_to ?v ?z) = _ /\ _ =>
      destruct (F v z) as [-> ->] end; split; reflexivity.
Qed.

(** *** What the outcomes keep *)

Lemma outcome_view (ta ta' : t) :
  outcome ta ta' -> view_ok ta -> len (Lines ta) <= int_max -> view_ok ta'.
Proof.
  intros [->|x Hx Hne Hlen Hr|x Hx HL HV Hok ->] Hview Hfit; [exact Hview| |].
  - destruct Hview as (V1 & V2 & _).
    destruct (edited_frame _ _ Hx) as (F1 & F2 & _).
    unfold refresh in Hr.
    destruct (clampCursorCol_ok x Hlen) as (x1 & E & Hok1 & HL1 & _).
    rewrite E in Hr. cbn [mbind option_bind] in Hr. injection Hr as <-.
    destruct (clampCursorCol_edited _ _ E) as [Hx1 _].
    destruct (edited_frame _ _ Hx1) as (G1 & G2 & _).
    apply bookkeeping_view.
    + rewrite G2, F2. exact V1.
    + rewrite G1, F1. exact V2.
    + rewrite (HL1 Hne). exact Hlen.
    + apply Hok1.
  - destruct Hview as (V1 & V2 & V3 & V4 & V5 & V6 & _).
    destruct (edited_frame _ _ Hx) as (F1 & F2 & F3 & _).
    apply ensureCursorVisible_view;
      rewrite ?F2, ?F3, ?HL, ?HV, ?(visibleHeight_Height ta x F1), ?F1; try assumption.
    destruct Hok as (_ & Hcl & _). rewrite HL in Hcl. exact Hcl.
Qed.

Lemma outcome_counts (ta ta' : t) :
  outcome ta ta' -> Shape.counts_ok ta -> Shape.counts_ok ta'.
Proof.
  intros [->|x Hx Hne Hlen Hr|x Hx HL HV Hok ->] Hc; [exact Hc| |].
  - unfold refresh in Hr. destruct (clampCursorCol x); [|discriminate].
    cbn [mbind option_bind] in Hr. injection Hr as <-. apply bookkeeping_counts.
  - destruct (edited_frame _ _ Hx) as (_ & _ & _ & _ & _ & F6 & F7).
    destruct (ensureCursorVisible_counts x) as [Ew Ec].
    pose proof (ensureCursorVisible_same x) as (SL & _).
    unfold Shape.counts_ok in *. rewrite SL, Ew, Ec, F6, F7, HL. exact Hc.
Qed.

(** *** Every operation ends in one of the three ways *)

Ltac finish_outcome ta :=
  match goal with |- exists ta', refresh ?x = _ /\ _ =>
    let Hl := fresh "Hl" in let Hn := fresh "Hn" in
    let ta' := fresh "ta'" in let E := fresh "E" in
    assert (Hl : len (Lines x) <= int_max);
    [ | assert (Hn : Lines x <> []);
        [ | destruct (refresh_ok x Hl Hn) as (ta' & E & _);
            exists ta'; split; [exact E|];
            apply (refreshed ta ta' x); [reflexivity|exact Hn|exact Hl|exact E] ] ]
  end.

Lemma rune_bound (ta : t) (i : Z) (line : bytes) :
  fits ta -> index (Lines ta) i = Some line -> len (Runes line) < int_max.
Proof.
  intros [_ Hrunes] Hline. apply index_inv in Hline as [_ Hl].
  rewrite Forall_lookup in Hrunes. apply (Hrunes _ _ Hl).
Qed.

Lemma InsertChar_outcome (r : Z) (ta : t) :
  cursor_ok ta -> fits ta -> exists ta', InsertChar r ta = Some ta' /\ outcome ta ta'.
Proof.
  intros Hok Hfit. pose proof Hok as (Hne & Hcl & line & Hline & Hcol).
  pose proof (rune_bound ta _ _ Hfit Hline) as Hrl. destruct Hfit as [Hlen Hrunes].
  unfold InsertChar.
  destruct (IsActive ta); [|exists ta; split; [reflexivity|apply unchanged; reflexivity]].
  destruct (_ && _ && _); [exists ta; split; [reflexivity|apply unchanged; reflexivity]|].
  rewrite clamp_if_outside_id by exact Hcl. option_step.
  rewrite Hline. option_step.
  unfold RuneLen in Hcol.
  destruct (r =? NL).
  - rewrite (slice_from_Some (Runes line) (cursorCol ta)) by lia. option_step.
    rewrite (slice_to_Some (Runes line) (cursorCol ta)) by lia. option_step.
    rewrite (store_Some (Lines ta) (cursorLine ta)) by lia. option_step. simpl. unwrap.
    rewrite slice_to_Some by (rewrite len_insert; lia). option_step.
    rewrite slice_from_Some by (rewrite len_insert; lia). option_step.
    finish_outcome ta.
    + simpl. rewrite len_app, len_cons, len_take, len_drop
        by (rewrite len_insert; lia). rewrite len_insert. lia.
    + simpl. intros H. apply app_eq_nil in H as [_ H]. discriminate.
  - rewrite (slice_to_Some (Runes line) (cursorCol ta)) by lia. option_step.
    rewrite (slice_from_Some (Runes line) (cursorCol ta)) by lia. option_step.
    rewrite (store_Some (Lines ta) (cursorLine ta)) by lia. option_step.
    finish_outcome ta.
    + simpl. rewrite len_insert. lia.
    + simpl. apply nonempty_len. rewrite len_insert. lia.
Qed.

Lemma DeleteChar_outcome (ta : t) :
  cursor_ok ta -> fits ta -> exists ta', DeleteChar ta = Some ta' /\ outcome ta ta'.
Proof.
  intros Hok Hfit. pose proof Hok as (Hne & Hcl & line & Hline & Hcol).
  pose proof (rune_bound ta _ _ Hfit Hline) as Hrl. destruct Hfit as [Hlen Hrunes].
  unfold DeleteChar.
  destruct (IsActive ta); [|exists ta; split; [reflexivity|apply unchanged; reflexivity]].
  unfold RuneLen in Hcol.
  destruct (Z.eqb_spec (cursorLine ta) 0) as [Ec|Ec];
    destruct (Z.eqb_spec (cursorCol ta) 0) as [Eo|Eo]; cbn [andb];
    try (exists ta; split; [reflexivity|apply unchanged; reflexivity]);
    rewrite clamp_if_outside_id by exact Hcl; option_step.
  - destruct (Z.gtb_spec (cursorCol ta) 0); [|lia].
    rewrite Hline. option_step. unwrap.
    rewrite slice_to_Some by lia. option_step.
    rewrite slice_from_Some by lia. option_step.
    rewrite store_Some by lia. option_step.
    finish_outcome ta; simpl; rewrite ?len_insert; [lia|].
    apply nonempty_len. rewrite len_insert. lia.
  - destruct (Z.gtb_spec (cursorCol ta) 0); [lia|]. unwrap.
    destruct (index_Some (Lines ta) (cursorLine ta - 1)) as (prev & Hprev & _); [lia|].
    rewrite Hprev. option_step. rewrite Hline. option_step.
    rewrite store_Some by lia. option_step. simpl. unwrap.
    rewrite slice_to_Some by (rewrite len_insert; lia). option_step.
    rewrite slice_from_Some by (rewrite len_insert; lia). option_step.
    finish_outcome ta; simpl;
      rewrite ?len_app, ?len_take, ?len_drop, ?len_insert by (rewrite ?len_insert; lia);
      [lia|].
    apply nonempty_len.
    rewrite len_app, len_take, len_drop, len_insert by (rewrite ?len_insert; lia). lia.
  - destruct (Z.gtb_spec (cursorCol ta) 0); [|lia].
    rewrite Hline. option_step. unwrap.
    rewrite slice_to_Some by lia. option_step.
    rewrite slice_from_Some by lia. option_step.
    rewrite store_Some by lia. option_step.
    finish_outcome ta; simpl; rewrite ?len_insert; [lia|].
    apply nonempty_len. rewrite len_insert. lia.
Qed.

Lemma DeleteForward_outcome (ta : t) :
  cursor_ok ta -> fits ta -> exists ta', DeleteForward ta = Some ta' /\ outcome ta ta'.
Proof.
  intros Hok Hfit. pose proof Hok as (Hne & Hcl & line & Hline & Hcol).
  pose proof (rune_bound ta _ _ Hfit Hline) as Hrl. destruct Hfit as [Hlen Hrunes].
  unfold DeleteForward.
  destruct (IsActive ta); [|exists ta; split; [reflexivity|apply unchanged; reflexivity]].
  rewrite clamp_if_outside_id by exact Hcl. option_step.
  destruct (Z.ltb_spec (cursorLine ta) 0); [lia|].
  destruct (Z.geb_spec (cursorLine ta) (len (Lines ta))); [lia|]. cbn [orb].
  rewrite Hline. option_step. unfold RuneLen in Hcol.
  destruct (Z.ltb_spec (cursorCol ta) (len (Runes line))).
  - rewrite slice_to_Some by lia. option_step. unwrap.
    rewrite slice_from_Some by lia. option_step.
    rewrite store_Some by lia. option_step.
    finish_outcome ta; simpl; rewrite ?len_insert; [lia|].
    apply nonempty_len. rewrite len_insert. lia.
  - unwrap. destruct (Z.ltb_spec (cursorLine ta) (len (Lines ta) - 1));
      [|exists ta; split; [reflexivity|apply unchanged; reflexivity]].
    destruct (index_Some (Lines ta) (cursorLine ta + 1)) as (next & Hnext & _); [lia|].
    rewrite Hnext. option_step.
    rewrite store_Some by lia. option_step. simpl. unwrap.
    rewrite slice_to_Some by (rewrite len_insert; lia). option_step.
    rewrite slice_from_Some by (rewrite len_insert; lia). option_step.
    finish_outcome ta; simpl;
      rewrite ?len_app, ?len_take, ?len_drop, ?len_insert by (rewrite ?len_insert; lia);
      [lia|].
    apply nonempty_len.
    rewrite len_app, len_take, len_drop, len_insert by (rewrite ?len_insert; lia). lia.
Qed.

Lemma MoveCursorLeft_outcome (ta : t) :
  cursor_ok ta -> fits ta -> exists ta', MoveCursorLeft ta = Some ta' /\ outcome ta ta'.
Proof.
  intros Hok Hfit. pose proof Hok as (Hne & Hcl & line & Hline & Hcol).
  pose proof (rune_bound ta _ _ Hfit Hline) as Hrl. destruct Hfit as [Hlen Hrunes].
  unfold MoveCursorLeft. eexists. split; [reflexivity|].
  pose proof (RuneLen_nonneg line). unfold RuneLen in *.
  destruct (Z.gtb_spec (cursorCol ta) 0).
  - eapply moved; [| | | |reflexivity]; try reflexivity.
    unfold cursor_ok. simpl. unwrap. repeat split; try tauto; try lia.
    exists line. split; [exact Hline|unfold RuneLen; lia].
  - destruct (Z.gtb_spec (cursorLine ta) 0).
    + simpl. unwrap.
      destruct (Z.geb_spec (cursorLine ta - 1) 0); [|lia].
      destruct (Z.ltb_spec (cursorLine ta - 1) (len (Lines ta))); [|lia]. simpl.
      destruct (index_Some (Lines ta) (cursorLine ta - 1)) as (prev & Hprev & _); [lia|].
      rewrite Hprev.
      eapply moved; [| | | |reflexivity]; try reflexivity.
      unfold cursor_ok. simpl. repeat split; try tauto; try lia.
      exists prev. split; [exact Hprev|]. pose proof (RuneLen_nonneg prev). unfold RuneLen in *. lia.
    + eapply moved; [apply edited_refl| | | |reflexivity]; try reflexivity. exact Hok.
Qed.

Lemma MoveCursorRight_outcome (ta : t) :
  cursor_ok ta -> fits ta -> exists ta', MoveCursorRight ta = Some ta' /\ outcome ta ta'.
Proof.
  intros Hok Hfit. pose proof Hok as (Hne & Hcl & line & Hline & Hcol).
  pose proof (rune_bound ta _ _ Hfit Hline) as Hrl. destruct Hfit as [Hlen Hrunes].
  unfold MoveCursorRight.
  rewrite clamp_if_outside_id by exact Hcl. option_step.
  destruct (Z.ltb_spec (cursorLine ta) 0); [lia|].
  destruct (Z.geb_spec (cursorLine ta) (len (Lines ta))); [lia|]. cbn [orb].
  rewrite Hline. option_step. eexists. split; [reflexivity|].
  unfold RuneLen in *.
  destruct (Z.ltb_spec (cursorCol ta) (len (Runes line))).
  - eapply moved; [| | | |reflexivity]; try reflexivity.
    unfold cursor_ok. simpl. unwrap. repeat split; try tauto; try lia.
    exists line. split; [exact Hline|unfold RuneLen; lia].
  - unwrap. destruct (Z.ltb_spec (cursorLine ta) (len (Lines ta) - 1)).
    + destruct (index_Some (Lines ta) (cursorLine ta + 1)) as (next & Hnext & _); [lia|].
      eapply moved; [| | | |reflexivity]; try reflexivity.
      unfold cursor_ok. simpl. repeat split; try tauto; try lia.
      exists next. split; [exact Hnext|]. pose proof (RuneLen_nonneg next). unfold RuneLen in *. lia.
    + eapply moved; [apply edited_refl| | | |reflexivity]; try reflexivity. exact Hok.
Qed.

(** A vertical move: the cursor line is set and the column clamped. *)
Lemma vertical_outcome (ta : t) (l : Z) :
  cursor_ok ta -> fits ta ->
  exists ta1, clampCursorCol (set_cursorLine l ta) = Some ta1 /\
              outcome ta (ensureCursorVisible ta1).
Proof.
  intros Hok [Hlen Hrunes]. pose proof Hok as (Hne & _).
  destruct (clampCursorCol_ok (set_cursorLine l ta)) as (ta1 & E & Hok1 & HL & _);
    [simpl; lia|].
  exists ta1. split; [exact E|].
  destruct (clampCursorCol_edited _ _ E) as [He Hv].
  apply (moved ta _ ta1).
  - eapply edited_trans; [|exact He]. reflexivity.
  - rewrite (HL Hne). reflexivity.
  - rewrite Hv. reflexivity.
  - exact Hok1.
  - reflexivity.
Qed.

Lemma MoveCursorUp_outcome (ta : t) :
  cursor_ok ta -> fits ta -> exists ta', MoveCursorUp ta = Some ta' /\ outcome ta ta'.
Proof.
  intros Hok Hfit. unfold MoveCursorUp.
  destruct (_ >? _); [|exists ta; split; [reflexivity|apply unchanged; reflexivity]].
  destruct (vertical_outcome ta (cursorLine ta -i 1) Hok Hfit) as (ta1 & E & Ho).
  rewrite E. option_step. eexists. split; [reflexivity|exact Ho].
Qed.

Lemma MoveCursorDown_outcome (ta : t) :
  cursor_ok ta -> fits ta -> exists ta', MoveCursorDown ta = Some ta' /\ outcome ta ta'.
Proof.
  intros Hok Hfit. unfold MoveCursorDown.
  destruct (_ <? _); [|exists ta; split; [reflexivity|apply unchanged; reflexivity]].
  destruct (vertical_outcome ta (cursorLine ta +i 1) Hok Hfit) as (ta1 & E & Ho).
  rewrite E. option_step. eexists. split; [reflexivity|exact Ho].
Qed.

(** *** The size of a text that is split into lines *)

Lemma count_loop_le (fuel : nat) (s sub : bytes) : (count_loop fuel s sub <= fuel)%nat.
Proof.
  revert s. induction fuel as [|fuel IH]; intros s; simpl; [lia|].
  destruct (Index s sub); [|lia]. specialize (IH (drop (n + length sub) s)). lia.
Qed.

Lemma split_loop_length (n : nat) (s sep : bytes) : (length (split_loop n s sep) <= S n)%nat.
Proof.
  revert s. induction n as [|n IH]; intros s; simpl; [lia|].
  destruct (Index s sep); simpl; [|lia]. specialize (IH (drop (n0 + length sep) s)). lia.
Qed.

Lemma Split_len (s sep : bytes) : len (Split s sep) <= len s + 1.
Proof.
  unfold Split, len, Count.
  pose proof (split_loop_length (count_loop (length s) s sep) s sep).
  pose proof (count_loop_le (length s) s sep). lia.
Qed.

Lemma normalize_crlf_length (s : bytes) : (length (normalize_crlf s) <= length s)%nat.
Proof.
  assert (H : forall n s, (length s <= n)%nat -> (length (normalize_crlf s) <= length s)%nat).
  { induction n as [|n IH]; intros [|c [|d rest]] Hn; simpl in *; try lia.
    destruct (byte_eqb c CR && byte_eqb d LF); simpl.
    - specialize (IH rest ltac:(lia)). lia.
    - specialize (IH (d :: rest) ltac:(simpl; lia)). simpl in IH. lia. }
  apply (H (length s)). lia.
Qed.

Lemma lines_of_text_len (text : bytes) :
  len text < int_max -> len (Split (ReplaceAll text [CR; LF] [LF]) [LF]) <= int_max.
Proof.
  intros H. pose proof (Split_len (ReplaceAll text [CR; LF] [LF]) [LF]) as S.
  rewrite GoStringsFacts.ReplaceAll_CRLF in *.
  pose proof (normalize_crlf_length text). unfold len in *. lia.
Qed.

Lemma SetText_outcome (text : bytes) (ta : t) :
  len text < int_max -> outcome ta (SetText text ta).
Proof.
  intros Hlen. pose proof (lines_of_text_len text Hlen) as Hl.
  pose proof (GoStringsFacts.Split_nonempty (ReplaceAll text [CR; LF] [LF]) [LF]) as Hn.
  set (lines := Split (ReplaceAll text [CR; LF] [LF]) [LF]) in *.
  set (x := set_viewTopLine 0 (set_cursorCol 0 (set_cursorLine 0 (set_Lines lines ta)))).
  assert (Ex : SetText text ta = ensureCursorVisible (updateScrollState (calculateCounts x))).
  { unfold SetText. cbv zeta. fold lines. cbn [Lines set_Lines].
    destruct (Z.eqb_spec (len lines) 0) as [E|E]; [|reflexivity].
    apply len_nil_iff in E. contradiction. }
  assert (Hok : cursor_ok x) by (apply lines_cursor_origin; [exact Hn|reflexivity|reflexivity]).
  apply (refreshed ta _ x); [reflexivity|exact Hn|exact Hl|].
  unfold refresh. rewrite (clampCursorCol_id x Hok). option_step. rewrite Ex. reflexivity.
Qed.

Lemma run_outcome (o : op) (ta : t) :
  cursor_ok ta -> fits ta -> op_fits o ->
  exists ta', run o ta = Some ta' /\ outcome ta ta'.
Proof.
  intros Hok Hfit Ho. destruct o; cbn [run].
  - apply InsertChar_outcome; assumption.
  - apply DeleteChar_outcome; assumption.
  - apply DeleteForward_outcome; assumption.
  - apply MoveCursorLeft_outcome; assumption.
  - apply MoveCursorRight_outcome; assumption.
  - apply MoveCursorUp_outcome; assumption.
  - apply MoveCursorDown_outcome; assumption.
  - eexists. split; [reflexivity|]. apply SetText_outcome. exact Ho.
Qed.

(** *** The cursor moves *)

Lemma fits_Lines (ta x : t) : Lines x = Lines ta -> fits ta -> fits x.
Proof. unfold fits. intros ->. auto. Qed.

Lemma MoveCursorLeft_spec (ta : t) :
  cursor_ok ta -> fits ta ->
  exists ta', MoveCursorLeft ta = Some ta' /\ cursor_ok ta' /\ Lines ta' = Lines ta /\
    ((0 < cursorCol ta /\ cursorLine ta' = cursorLine ta /\ cursorCol ta' = cursorCol ta - 1) \/
     (cursorCol ta = 0 /\ 0 < cursorLine ta /\ cursorLine ta' = cursorLine ta - 1 /\
      exists prev, index (Lines ta) (cursorLine ta - 1) = Some prev /\
                   cursorCol ta' = RuneLen prev) \/
     (cursorCol ta = 0 /\ cursorLine ta = 0 /\ cursorLine ta' = 0 /\ cursorCol ta' = 0)).
Proof.
  intros Hok Hfit.
  destruct (MoveCursorLeft_ok ta Hok Hfit) as (ta' & E & Hok').
  exists ta'. split; [exact E|]. split; [exact Hok'|].
  pose proof Hok as (Hne & Hcl & line & Hline & Hcol).
  pose proof (rune_bound ta _ _ Hfit Hline) as Hrl. destruct Hfit as [Hlen Hrunes].
  unfold MoveCursorLeft in E. injection E as <-.
  match goal with |- context [ensureCursorVisible ?x] =>
    destruct (ensureCursorVisible_same x) as (-> & -> & -> & _) end.
  unfold RuneLen in Hcol.
  destruct (Z.gtb_spec (cursorCol ta) 0).
  - split; [reflexivity|]. left. cbn. unwrap. lia.
  - destruct (Z.gtb_spec (cursorLine ta) 0).
    + cbn [cursorLine set_cursorLine Lines]. unwrap.
      destruct (Z.geb_spec (cursorLine ta - 1) 0); [|lia].
      destruct (Z.ltb_spec (cursorLine ta - 1) (len (Lines ta))); [|lia]. cbn [andb].
      destruct (index_Some (Lines ta) (cursorLine ta - 1)) as (prev & Hprev & _); [lia|].
      rewrite Hprev. split; [reflexivity|]. right. left.
      cbn. repeat split; try lia. exists prev. split; reflexivity.
    + split; [reflexivity|]. right. right. lia.
Qed.

Lemma MoveCursorRight_spec (ta : t) (line : bytes) :
  cursor_ok ta -> fits ta -> index (Lines ta) (cursorLine ta) = Some line ->
  exists ta', MoveCursorRight ta = Some ta' /\ cursor_ok ta' /\ Lines ta' = Lines ta /\
    ((cursorCol ta < RuneLen line /\ cursorLine ta' = cursorLine ta /\
      cursorCol ta' = cursorCol ta + 1) \/
     (cursorCol ta = RuneLen line /\ cursorLine ta < len (Lines ta) - 1 /\
      cursorLine ta' = cursorLine ta + 1 /\ cursorCol ta' = 0) \/
     (cursorCol ta = RuneLen line /\ cursorLine ta = len (Lines ta) - 1 /\
      cursorLine ta' = cursorLine ta /\ cursorCol ta' = cursorCol ta)).
Proof.
  intros Hok Hfit Hline.
  destruct (MoveCursorRight_ok ta Hok Hfit) as (ta' & E & Hok').
  exists ta'. split; [exact E|]. split; [exact Hok'|].
  pose proof Hok as (Hne & Hcl & line' & Hline' & Hcol).
  rewrite Hline in Hline'. injection Hline' as <-.
  pose proof (rune_bound ta _ _ Hfit Hline) as Hrl. destruct Hfit as [Hlen Hrunes].
  unfold MoveCursorRight in E.
  rewrite clamp_if_outside_id in E by exact Hcl. cbn [mbind option_bind] in E.
  destruct (Z.ltb_spec (cursorLine ta) 0); [lia|].
  destruct (Z.geb_spec (cursorLine ta) (len (Lines ta))); [lia|]. cbn [orb] in E.
  rewrite Hline in E. cbn [mbind option_bind] in E. injection E as <-.
  match goal with |- context [ensureCursorVisible ?x] =>
    destruct (ensureCursorVisible_same x) as (-> & -> & -> & _) end.
  unfold RuneLen in *.
  destruct (Z.ltb_spec (cursorCol ta) (len (Runes line))).
  - split; [reflexivity|]. left. cbn. unwrap. lia.
  - unwrap. destruct (Z.ltb_spec (cursorLine ta) (len (Lines ta) - 1)).
    + split; [reflexivity|]. right. left. cbn. lia.
    + split; [reflexivity|]. right. right. lia.
Qed.

(** A vertical move to a line of the text: the column stays where the
    new line is long enough and is the end of the line otherwise. *)
Lemma vertical_spec (ta : t) (l : Z) (line : bytes) :
  cursor_ok ta -> index (Lines ta) l = Some line ->
  exists ta1, clampCursorCol (set_cursorLine l ta) = Some ta1 /\
    let ta' := ensureCursorVisible ta1 in
    Lines ta' = Lines ta /\ cursorLine ta' = l /\
    cursorCol ta' = Z.min (cursorCol ta) (RuneLen line).
Proof.
  intros (Hne & Hcl & line0 & Hline0 & Hcol) Hline.
  pose proof (index_inv _ _ _ Hline) as [Hl _].
  unfold clampCursorCol. cbn [cursorLine set_cursorLine Lines].
  destruct (Z.ltb_spec l 0); [lia|]. cbn [cursorLine set_cursorLine Lines].
  destruct (Z.geb_spec l (len (Lines ta))); [lia|]. cbn [cursorLine set_cursorLine Lines].
  destruct (Z.eqb_spec (len (Lines ta)) 0); [lia|].
  rewrite Hline. cbn [mbind option_bind cursorCol set_cursorLine].
  destruct (Z.ltb_spec (cursorCol ta) 0); [lia|].
  eexists. split; [reflexivity|]. cbv zeta.
  match goal with |- context [ensureCursorVisible ?x] =>
    destruct (ensureCursorVisible_same x) as (-> & -> & -> & _) end.
  destruct (Z.gtb_spec (cursorCol ta) (RuneLen line)); cbn; repeat split; lia.
Qed.

(** *** The counters *)

Lemma text_size_cons (line : bytes) (rest : list bytes) :
  text_size (line :: rest) = RuneLen line + 1 + text_size rest.
Proof. unfold text_size. cbn [foldr]. rewrite len_cons. lia. Qed.

Lemma text_size_bound (lines : list bytes) : -1 <= text_size lines.
Proof.
  induction lines as [|line rest IH]; [vm_compute; discriminate|].
  rewrite text_size_cons. pose proof (RuneLen_nonneg line). lia.
Qed.

Lemma count_chars_sum (lines : list bytes) (acc : Z) :
  lines <> [] -> 0 <= acc -> acc + text_size lines <= int_max ->
  count_chars acc lines = acc + text_size lines.
Proof.
  revert acc. induction lines as [|line rest IH]; intros acc Hne Hacc Hfit; [contradiction|].
  rewrite text_size_cons in *. pose proof (RuneLen_nonneg line) as Hr.
  pose proof (text_size_bound rest) as Hb.
  destruct rest as [|line2 rest].
  - change (text_size []) with (-1) in *. cbn [count_chars].
    unfold int_max in *. unwrap. lia.
  - change (count_chars acc (line :: line2 :: rest))
      with (count_chars (acc +i RuneLen line +i 1) (line2 :: rest)).
    pose proof (text_size_cons line2 rest) as Hc. pose proof (text_size_bound rest) as Hb2.
    pose proof (RuneLen_nonneg line2) as Hr2.
    unfold int_max in *. unwrap.
    rewrite IH; [lia|discriminate|lia|lia].
Qed.

(** *** The properties *)

(** X18. The view of a text area follows its cursor: in a text area
    whose scroll bar value is the top line of the view, in
    [[0, max 0 (lines - visible height)]], and whose cursor line is one
    of the visible lines, every operation ([SetText] with a text
    shorter than the largest [int]) returns and leaves such a state
    again. *)
Theorem view_follows_cursor (ta : t) (o : op)
    (Hok : cursor_ok ta) (Hfit : fits ta) (Ho : op_fits o) (Hview : view_ok ta) :
  exists ta', run o ta = Some ta' /\ view_ok ta' /\
    ScrollBar.Value (scrollBar ta') = viewTopLine ta' /\
    0 <= viewTopLine ta' <= Z.max 0 (len (Lines ta') - visibleHeight ta') /\
    viewTopLine ta' <= cursorLine ta' <= viewTopLine ta' + visibleHeight ta' - 1.
Proof.
  destruct (run_outcome o ta Hok Hfit Ho) as (ta' & E & Hout).
  exists ta'. split; [exact E|].
  assert (V : view_ok ta').
  { apply (outcome_view ta ta' Hout Hview). destruct Hfit. lia. }
  split; [exact V|]. destruct V as (_ & _ & _ & V4 & V5 & V6 & V7).
  rewrite <- V4. auto.
Qed.

Lemma tall_text_area_ok :
  cursor_ok Samples.tall_text_area /\ fits Samples.tall_text_area /\
  view_ok Samples.tall_text_area /\ Shape.counts_ok Samples.tall_text_area.
Proof.
  assert (E : Lines Samples.tall_text_area = [["a"]; ["b"]; ["c"]]%char)
    by (vm_compute; reflexivity).
  split; [|split; [|split]].
  - unfold cursor_ok. split; [vm_compute; discriminate|].
    split; [vm_compute; split; [discriminate|reflexivity]|].
    eexists. split; [vm_compute; reflexivity|]. vm_compute. split; discriminate.
  - unfold fits. split; [vm_compute; reflexivity|]. rewrite E.
    repeat (apply Forall_cons_2; [vm_compute; reflexivity|]). apply Forall_nil_2.
  - unfold view_ok. repeat split; try (vm_compute; reflexivity); vm_compute; discriminate.
  - unfold Shape.counts_ok. split; vm_compute; reflexivity.
Qed.

Lemma view_follows_cursor_witness :
  exists ta', run OpMoveCursorDown Samples.tall_text_area = Some ta' /\ view_ok ta' /\
    ScrollBar.Value (scrollBar ta') = viewTopLine ta' /\
    0 <= viewTopLine ta' <= Z.max 0 (len (Lines ta') - visibleHeight ta') /\
    viewTopLine ta' <= cursorLine ta' <= viewTopLine ta' + visibleHeight ta' - 1.
Proof.
  apply (view_follows_cursor Samples.tall_text_area OpMoveCursorDown).
  - apply tall_text_area_ok.
  - apply tall_text_area_ok.
  - exact I.
  - apply tall_text_area_ok.
Defined.

(** X19. [NewTextArea] starts with the first line at the top of the
    view and the cursor at the origin, the scroll bar in step with the
    view, and the counters agreeing with the text. *)
Theorem NewTextArea_view (text : bytes) (x y width height maxChars : Z)
    (showWords showChars : bool)
    (Htext : len text < int_max) (Hheight : height <= int_max) :
  let ta := NewTextArea text x y width height maxChars showWords showChars in
  view_ok ta /\ Shape.counts_ok ta /\
  viewTopLine ta = 0 /\ cursorLine ta = 0 /\ cursorCol ta = 0 /\
  needsScroll ta = (len (Lines ta) >? visibleHeight ta) /\
  Lines ta = Split (ReplaceAll text [CR; LF] [LF]) [LF].
Proof.
  cbv zeta. unfold NewTextArea. cbv zeta.
  pose proof (lines_of_text_len text Htext) as Hl.
  pose proof (GoStringsFacts.Split_nonempty (ReplaceAll text [CR; LF] [LF]) [LF]) as Hn.
  set (lines := Split (ReplaceAll text [CR; LF] [LF]) [LF]) in *.
  destruct (Z.eqb_spec (len lines) 0) as [E0|E0]; [apply len_nil_iff in E0; contradiction|].
  match goal with |- view_ok (ensureCursorVisible (updateScrollState (calculateCounts ?x0))) /\ _ =>
    set (x1 := x0) end.
  assert (V : view_ok (ensureCursorVisible (updateScrollState (calculateCounts x1)))).
  { apply bookkeeping_view.
    - reflexivity.
    - cbn. unfold int_max in *. destruct (Z.ltb_spec height 2); lia.
    - exact Hl.
    - cbn. pose proof (len_nonneg lines).
      assert (len lines <> 0) by exact E0. lia. }
  pose proof (bookkeeping_same x1) as (SL & Sl & Sc & _).
  split; [exact V|]. split; [apply bookkeeping_counts|].
  destruct V as (_ & _ & V3 & _ & V5 & _ & V7).
  rewrite Sl in V7. change (cursorLine x1) with 0 in V7.
  split; [lia|]. split; [rewrite Sl; reflexivity|]. split; [rewrite Sc; reflexivity|].
  split; [exact V3|]. rewrite SL. reflexivity.
Qed.

Lemma NewTextArea_view_witness :
  let ta := NewTextArea ["a"; LF; "b"; LF; "c"]%char 0 0 20 3 0 true true in
  view_ok ta /\ Shape.counts_ok ta /\
  viewTopLine ta = 0 /\ cursorLine ta = 0 /\ cursorCol ta = 0 /\
  needsScroll ta = (len (Lines ta) >? visibleHeight ta) /\
  Lines ta = Split (ReplaceAll ["a"; LF; "b"; LF; "c"]%char [CR; LF] [LF]) [LF].
Proof.
  apply (NewTextArea_view ["a"; LF; "b"; LF; "c"]%char 0 0 20 3 0 true true);
    vm_compute; first [reflexivity|discriminate].
Defined.

(** X20. The counters of a text area agree with its text after every
    operation: [wordCount] is the number of fields of the lines joined
    by a space, and [charCount] the number of runes of the lines plus
    one for each line break (when that number is an [int]). *)
Theorem counters_follow_text (ta : t) (o : op)
    (Hok : cursor_ok ta) (Hfit : fits ta) (Ho : op_fits o) (Hc : Shape.counts_ok ta) :
  exists ta', run o ta = Some ta' /\
    wordCount ta' = FieldsCount (Join (Lines ta') [" "%char]) /\
    charCount ta' = count_chars 0 (Lines ta') /\
    (text_size (Lines ta') <= int_max -> charCount ta' = text_size (Lines ta')).
Proof.
  destruct (run_outcome o ta Hok Hfit Ho) as (ta' & E & Hout).
  exists ta'. split; [exact E|].
  destruct (outcome_counts ta ta' Hout Hc) as [C1 C2].
  split; [exact C2|]. split; [exact C1|]. intros Hs.
  assert (Hne : Lines ta' <> []).
  { destruct (cursor_invariant ta o Hok Hfit) as [(ta2 & E2 & Hne & _) _].
    rewrite E in E2. injection E2 as <-. exact Hne. }
  rewrite C1, count_chars_sum by (try assumption; lia). lia.
Qed.

Lemma counters_follow_text_witness :
  exists ta', run (OpInsertChar 120) Samples.tall_text_area = Some ta' /\
    wordCount ta' = FieldsCount (Join (Lines ta') [" "%char]) /\
    charCount ta' = count_chars 0 (Lines ta') /\
    (text_size (Lines ta') <= int_max -> charCount ta' = text_size (Lines ta')).
Proof.
  apply (counters_follow_text Samples.tall_text_area (OpInsertChar 120)).
  - apply tall_text_area_ok.
  - apply tall_text_area_ok.
  - exact I.
  - apply tall_text_area_ok.
Defined.

(** X21. The cursor moves never change the text.  [MoveCursorLeft] and
    [MoveCursorRight] undo each other: after a step to the left (from
    anywhere but the start of the text) a step to the right puts the
    cursor back, and after a step to the right (from anywhere but the
    end of the text) a step to the left does.  [MoveCursorUp] and
    [MoveCursorDown] go to the line above or below, if there is one, and
    keep the column where that line is long enough, else they put the
    cursor at its end. *)
Theorem cursor_moves (ta : t) (Hok : cursor_ok ta) (Hfit : fits ta) :
  (0 < cursorLine ta \/ 0 < cursorCol ta ->
   exists ta1 ta2, MoveCursorLeft ta = Some ta1 /\ MoveCursorRight ta1 = Some ta2 /\
     Lines ta1 = Lines ta /\ Lines ta2 = Lines ta /\
     (cursorLine ta1, cursorCol ta1) <> (cursorLine ta, cursorCol ta) /\
     cursorLine ta2 = cursorLine ta /\ cursorCol ta2 = cursorCol ta) /\
  (forall line, index (Lines ta) (cursorLine ta) = Some line ->
   cursorCol ta < RuneLen line \/ cursorLine ta < len (Lines ta) - 1 ->
   exists ta1 ta2, MoveCursorRight ta = Some ta1 /\ MoveCursorLeft ta1 = Some ta2 /\
     Lines ta1 = Lines ta /\ Lines ta2 = Lines ta /\
     (cursorLine ta1, cursorCol ta1) <> (cursorLine ta, cursorCol ta) /\
     cursorLine ta2 = cursorLine ta /\ cursorCol ta2 = cursorCol ta) /\
  (exists ta', MoveCursorUp ta = Some ta' /\ Lines ta' = Lines ta /\
     if cursorLine ta >? 0 then
       cursorLine ta' = cursorLine ta - 1 /\
       exists above, index (Lines ta) (cursorLine ta - 1) = Some above /\
         cursorCol ta' = Z.min (cursorCol ta) (RuneLen above)
     else ta' = ta) /\
  (exists ta', MoveCursorDown ta = Some ta' /\ Lines ta' = Lines ta /\
     if cursorLine ta <? len (Lines ta) - 1 then
       cursorLine ta' = cursorLine ta + 1 /\
       exists below, index (Lines ta) (cursorLine ta + 1) = Some below /\
         cursorCol ta' = Z.min (cursorCol ta) (RuneLen below)
     else ta' = ta).
Proof.
  pose proof Hok as (Hne & Hcl & line0 & Hline0 & Hcol0).
  split; [|split; [|split]].
  - intros Hpos.
    destruct (MoveCursorLeft_spec ta Hok Hfit) as (ta1 & E1 & Hok1 & L1 & C1).
    pose proof (fits_Lines ta ta1 L1 Hfit) as Hfit1.
    pose proof Hok1 as (_ & Hcl1 & line1 & Hline1 & Hcol1).
    destruct (MoveCursorRight_spec ta1 line1 Hok1 Hfit1 Hline1) as (ta2 & E2 & _ & L2 & C2).
    exists ta1, ta2. rewrite L2, L1 in *.
    split; [exact E1|]. split; [exact E2|]. split; [reflexivity|]. split; [reflexivity|].
    destruct C1 as [(P & Q1 & Q2)|[(P & P' & Q1 & prev & Hprev & Q2)|(P & P' & _)]];
      [| |lia].
    + rewrite Q1 in Hline1. rewrite Hline0 in Hline1. injection Hline1 as <-.
      split; [intros [= _ H]; lia|].
      destruct C2 as [(R & R1 & R2)|[(R & _)|(R & _)]]; lia.
    + rewrite Q1, Hprev in Hline1. injection Hline1 as <-.
      split; [intros [= H _]; lia|].
      destruct C2 as [(R & _)|[(R & R' & R1 & R2)|(R & R' & _)]]; lia.
  - intros line Hline Hend.
    rewrite Hline in Hline0. injection Hline0 as <-.
    destruct (MoveCursorRight_spec ta line Hok Hfit Hline) as (ta1 & E1 & Hok1 & L1 & C1).
    pose proof (fits_Lines ta ta1 L1 Hfit) as Hfit1.
    destruct (MoveCursorLeft_spec ta1 Hok1 Hfit1) as (ta2 & E2 & _ & L2 & C2).
    exists ta1, ta2. rewrite L2, L1 in *.
    split; [exact E1|]. split; [exact E2|]. split; [reflexivity|]. split; [reflexivity|].
    destruct C1 as [(P & Q1 & Q2)|[(P & P' & Q1 & Q2)|(P & P' & _)]]; [| |lia].
    + split; [intros [= _ H]; lia|].
      destruct C2 as [(R & R1 & R2)|[(R & _)|(R & _)]]; lia.
    + split; [intros [= H _]; lia|].
      destruct C2 as [(R & _)|[(R & R' & R1 & prev & Hprev & R2)|(R & R' & _)]]; try lia.
      rewrite Q1 in Hprev. replace (cursorLine ta + 1 - 1) with (cursorLine ta) in Hprev by lia.
      rewrite Hline in Hprev. injection Hprev as <-. lia.
  - destruct Hfit as [Hlen _]. unfold MoveCursorUp.
    destruct (Z.gtb_spec (cursorLine ta) 0) as [Hup|Hup];
      [|exists ta; split; [reflexivity|split; reflexivity]].
    unfold int_max in *. unwrap.
    destruct (index_Some (Lines ta) (cursorLine ta - 1)) as (above & Habove & _); [lia|].
    destruct (vertical_spec ta (cursorLine ta - 1) above Hok Habove) as (ta1 & E & V).
    cbv zeta in V. destruct V as (V1 & V2 & V3).
    rewrite E. option_step. eexists. split; [reflexivity|]. split; [exact V1|].
    split; [exact V2|]. exists above. split; [exact Habove|exact V3].
  - destruct Hfit as [Hlen _]. unfold MoveCursorDown.
    unfold int_max in *. unwrap.
    destruct (Z.ltb_spec (cursorLine ta) (len (Lines ta) - 1)) as [Hdn|Hdn];
      [|exists ta; split; [reflexivity|split; reflexivity]].
    destruct (index_Some (Lines ta) (cursorLine ta + 1)) as (below & Hbelow & _); [lia|].
    destruct (vertical_spec ta (cursorLine ta + 1) below Hok Hbelow) as (ta1 & E & V).
    cbv zeta in V. destruct V as (V1 & V2 & V3).
    rewrite E. option_step. eexists. split; [reflexivity|]. split; [exact V1|].
    split; [exact V2|]. exists below. split; [exact Hbelow|exact V3].
Qed.

Lemma cursor_moves_witness :
  (0 < cursorLine Samples.tall_text_area \/ 0 < cursorCol Samples.tall_text_area ->
   exists ta1 ta2, MoveCursorLeft Samples.tall_text_area = Some ta1 /\
     MoveCursorRight ta1 = Some ta2 /\
     Lines ta1 = Lines Samples.tall_text_area /\ Lines ta2 = Lines Samples.tall_text_area /\
     (cursorLine ta1, cursorCol ta1)
       <> (cursorLine Samples.tall_text_area, cursorCol Samples.tall_text_area) /\
     cursorLine ta2 = cursorLine Samples.tall_text_area /\
     cursorCol ta2 = cursorCol Samples.tall_text_area) /\
  (0 < cursorLine Samples.tall_text_area \/ 0 < cursorCol Samples.tall_text_area).
Proof.
  split.
  - exact (proj1 (cursor_moves Samples.tall_text_area
                    (proj1 tall_text_area_ok) (proj1 (proj2 tall_text_area_ok)))).
  - left. vm_compute. reflexivity.
Defined.

(** *** Typing and deleting *)

Lemma EncodeRune_sanitize (r : Z) : EncodeRune (sanitize r) = EncodeRune r.
Proof.
  pose proof (Utf8Facts.sanitize_valid r) as [V1 V2]. cbv zeta in V1, V2.
  assert (I : sanitize (sanitize r) = sanitize r) by (apply Utf8Facts.sanitize_id; assumption).
  unfold EncodeRune. rewrite I.
  unfold sanitize in *. unfold MaxRune, RuneError in *.
  destruct (Z.ltb_spec r 0); cbn [orb].
  { destruct (Z.leb_spec 0 r); [lia|]. reflexivity. }
  destruct (Z.gtb_spec r 1114111); cbn [orb].
  { destruct (Z.leb_spec 0 r); [|lia]. cbn [andb].
    destruct (Z.leb_spec r 127); [lia|]. destruct (Z.leb_spec r 2047); [lia|]. reflexivity. }
  destruct (Z.leb_spec 55296 r); cbn [andb]; [|reflexivity].
  destruct (Z.leb_spec r 57343); [|reflexivity].
  destruct (Z.leb_spec 0 r); [|lia]. cbn [andb].
  destruct (Z.leb_spec r 127); [lia|]. destruct (Z.leb_spec r 2047); [lia|]. reflexivity.
Qed.

Lemma String_sanitize (rs : list Z) : String (map sanitize rs) = String rs.
Proof.
  unfold String. induction rs as [|r rs IH]; [reflexivity|].
  cbn [map flat_map]. rewrite EncodeRune_sanitize, IH. reflexivity.
Qed.

Lemma String_Runes_String (rs : list Z) : String (Runes (String rs)) = String rs.
Proof. rewrite Utf8Facts.Runes_String. apply String_sanitize. Qed.

(** [refresh] on a valid cursor keeps the lines and the cursor. *)
Lemma refresh_at (x : t) :
  cursor_ok x ->
  exists ta', refresh x = Some ta' /\ Lines ta' = Lines x /\ cursorLine ta' = cursorLine x /\
              cursorCol ta' = cursorCol x /\ IsActive ta' = IsActive x.
Proof.
  intros Hok. unfold refresh. rewrite (clampCursorCol_id x Hok). option_step.
  eexists. split; [reflexivity|]. apply bookkeeping_same.
Qed.

Lemma split_line {A} (n : nat) (L : list A) (x y : A) :
  (n < length L)%nat ->
  take (S n) (<[n := x]> L) ++ [y] ++ drop (S n) (<[n := x]> L)
  = take n L ++ [x; y] ++ drop (S n) L.
Proof.
  revert L. induction n as [|n IH]; intros [|a L] Hn; simpl in *; try lia.
  - rewrite drop_0. reflexivity.
  - f_equal. apply IH. lia.
Qed.

Lemma join_lines {A} (n : nat) (L : list A) (x y m : A) :
  (n < length L)%nat ->
  let M := <[n := m]> (take n L ++ [x; y] ++ drop (S n) L) in
  take (S n) M ++ drop (S (S n)) M = <[n := m]> L.
Proof.
  revert L. induction n as [|n IH]; intros [|a L] Hn; simpl in *; try lia.
  - rewrite drop_0. reflexivity.
  - f_equal. apply IH. lia.
Qed.

Lemma lookup_split {A} (n : nat) (L : list A) (x y : A) :
  (n < length L)%nat ->
  (take n L ++ [x; y] ++ drop (S n) L) !! n = Some x /\
  (take n L ++ [x; y] ++ drop (S n) L) !! S n = Some y /\
  length (take n L ++ [x; y] ++ drop (S n) L) = S (length L).
Proof.
  revert L. induction n as [|n IH]; intros [|a L] Hn; simpl in *; try lia.
  - rewrite drop_0. auto.
  - destruct (IH L ltac:(lia)) as (I1 & I2 & I3). rewrite I3. auto.
Qed.

Lemma index_at {A} (L : list A) (i : Z) (x : A) :
  0 <= i -> L !! Z.to_nat i = Some x -> index L i = Some x.
Proof.
  intros Hi Hx. unfold index. pose proof (lookup_lt_Some _ _ _ Hx) as Hl.
  destruct (Z.leb_spec 0 i); [|lia].
  destruct (Z.ltb_spec i (len L)); [|unfold len in *; lia]. exact Hx.
Qed.

(** What [InsertChar] does in an active text area with room left: a
    rune goes into the line at the cursor, a line break cuts the line. *)
Lemma InsertChar_spec (ta : t) (r : Z) (line : bytes) :
  cursor_ok ta -> fits ta -> IsActive ta = true ->
  (maxChars ta >? 0) && (charCount ta >=? maxChars ta) && negb (r =? NL) = false ->
  index (Lines ta) (cursorLine ta) = Some line ->
  let l := Z.to_nat (cursorLine ta) in
  let before := take (Z.to_nat (cursorCol ta)) (Runes line) in
  let after := drop (Z.to_nat (cursorCol ta)) (Runes line) in
  exists ta1, InsertChar r ta = Some ta1 /\ IsActive ta1 = true /\ cursor_ok ta1 /\
    ((r <> NL /\ Lines ta1 = <[l := String (before ++ r :: after)]> (Lines ta) /\
      cursorLine ta1 = cursorLine ta /\ cursorCol ta1 = cursorCol ta + 1) \/
     (r = NL /\
      Lines ta1 = take l (Lines ta) ++ [String before; String after] ++ drop (S l) (Lines ta) /\
      cursorLine ta1 = cursorLine ta + 1 /\ cursorCol ta1 = 0)).
Proof.
  intros Hok Hfit Hact Hroom Hline. cbv zeta.
  pose proof Hok as (Hne & Hcl & line' & Hline' & Hcol).
  rewrite Hline in Hline'. injection Hline' as <-.
  pose proof (rune_bound ta _ _ Hfit Hline) as Hrl. destruct Hfit as [Hlen Hrunes].
  pose proof (index_inv _ _ _ Hline) as [_ Hlk].
  pose proof (lookup_lt_Some _ _ _ Hlk) as Hlt.
  unfold InsertChar. rewrite Hact, Hroom.
  rewrite clamp_if_outside_id by exact Hcl. option_step.
  rewrite Hline. option_step. unfold RuneLen in Hcol.
  destruct (Z.eqb_spec r NL) as [Er|Er].
  - rewrite (slice_from_Some (Runes line) (cursorCol ta)) by lia. option_step.
    rewrite (slice_to_Some (Runes line) (cursorCol ta)) by lia. option_step.
    rewrite (store_Some (Lines ta) (cursorLine ta)) by lia. option_step.
    cbn [Lines set_Lines cursorLine]. unwrap.
    rewrite slice_to_Some by (rewrite len_insert; lia). option_step.
    rewrite slice_from_Some by (rewrite len_insert; lia). option_step.
    replace (Z.to_nat (cursorLine ta + 1)) with (S (Z.to_nat (cursorLine ta))) by lia.
    rewrite split_line by exact Hlt.
    destruct (lookup_split (Z.to_nat (cursorLine ta)) (Lines ta)
                (String (take (Z.to_nat (cursorCol ta)) (Runes line)))
                (String (drop (Z.to_nat (cursorCol ta)) (Runes line))) Hlt) as (K1 & K2 & K3).
    match goal with |- exists ta1, refresh ?x = _ /\ _ =>
      destruct (refresh_at x) as (ta1 & E & R1 & R2 & R3 & R4) end.
    { unfold cursor_ok. cbn [Lines set_Lines set_cursorLine set_cursorCol cursorLine cursorCol].
      split; [intros H; apply (f_equal length) in H; rewrite K3 in H; discriminate|].
      split; [unfold len; rewrite K3; unfold len in Hcl; lia|].
      eexists. split.
      - apply index_at; [lia|].
        replace (Z.to_nat (cursorLine ta + 1)) with (S (Z.to_nat (cursorLine ta))) by lia.
        exact K2.
      - pose proof (RuneLen_nonneg (String (drop (Z.to_nat (cursorCol ta)) (Runes line)))). lia. }
    exists ta1. split; [exact E|]. split; [rewrite R4; exact Hact|].
    split.
    { destruct (refresh_ok (set_cursorCol 0 (set_cursorLine (cursorLine ta + 1)
        (set_Lines (take (Z.to_nat (cursorLine ta)) (Lines ta) ++
          [String (take (Z.to_nat (cursorCol ta)) (Runes line));
           String (drop (Z.to_nat (cursorCol ta)) (Runes line))] ++
          drop (S (Z.to_nat (cursorLine ta))) (Lines ta))
          (set_Lines (<[Z.to_nat (cursorLine ta) :=
             String (take (Z.to_nat (cursorCol ta)) (Runes line))]> (Lines ta)) ta)))))
        as (ta1' & E' & Hok' & _).
      - cbn [Lines set_Lines set_cursorLine set_cursorCol]. unfold len. rewrite K3.
        unfold len in Hlen. lia.
      - cbn [Lines set_Lines set_cursorLine set_cursorCol].
        intros H; apply (f_equal length) in H; rewrite K3 in H; discriminate.
      - rewrite E in E'. injection E' as <-. exact Hok'. }
    right. rewrite R1, R2, R3. cbn. auto.
  - rewrite (slice_to_Some (Runes line) (cursorCol ta)) by lia. option_step.
    rewrite (slice_from_Some (Runes line) (cursorCol ta)) by lia. option_step.
    rewrite (store_Some (Lines ta) (cursorLine ta)) by lia. option_step.
    cbn [Lines set_Lines cursorLine cursorCol]. unwrap.
    assert (Es : String (take (Z.to_nat (cursorCol ta)) (Runes line)) ++ String [r] ++
                 String (drop (Z.to_nat (cursorCol ta)) (Runes line))
                 = String (take (Z.to_nat (cursorCol ta)) (Runes line) ++
                           r :: drop (Z.to_nat (cursorCol ta)) (Runes line))).
    { rewrite <- !Utf8Facts.String_app. reflexivity. }
    rewrite Es.
    match goal with |- exists ta1, refresh ?x = _ /\ _ =>
      assert (Hx : cursor_ok x); [|destruct (refresh_at x Hx) as (ta1 & E & R1 & R2 & R3 & R4)] end.
    { unfold cursor_ok. cbn [Lines set_Lines set_cursorLine set_cursorCol cursorLine cursorCol].
      split; [apply nonempty_len; rewrite len_insert; lia|].
      split; [rewrite len_insert; lia|].
      eexists. split.
      - apply index_at; [lia|]. apply list_lookup_insert_eq. exact Hlt.
      - rewrite Utf8Facts.RuneLen_String, len_app, len_cons, len_take, len_drop by lia. lia. }
    exists ta1. split; [exact E|]. split; [rewrite R4; exact Hact|].
    split.
    { unfold cursor_ok. rewrite R1, R2, R3. exact Hx. }
    left. rewrite R1, R2, R3. cbn. auto.
Qed.

(** What [DeleteChar] does in an active text area: inside a line the
    rune before the cursor goes, at the start of a line the line is
    joined to the one above, at the start of the text nothing happens. *)
Lemma DeleteChar_spec (ta : t) (line : bytes) :
  cursor_ok ta -> len (Lines ta) <= int_max -> cursorCol ta <= int_max ->
  IsActive ta = true ->
  index (Lines ta) (cursorLine ta) = Some line ->
  let l := Z.to_nat (cursorLine ta) in
  exists ta', DeleteChar ta = Some ta' /\
    ((0 < cursorCol ta /\
      Lines ta' = <[l := String (take (Z.to_nat (cursorCol ta - 1)) (Runes line)) ++
                         String (drop (Z.to_nat (cursorCol ta)) (Runes line))]> (Lines ta) /\
      cursorLine ta' = cursorLine ta /\ cursorCol ta' = cursorCol ta - 1) \/
     (cursorCol ta = 0 /\ 0 < cursorLine ta /\
      exists prev, index (Lines ta) (cursorLine ta - 1) = Some prev /\
        let M := <[Z.to_nat (cursorLine ta - 1) :=
                   String (Runes prev) ++ String (Runes line)]> (Lines ta) in
        Lines ta' = take l M ++ drop (S l) M /\
        cursorLine ta' = cursorLine ta - 1 /\ cursorCol ta' = RuneLen prev) \/
     (cursorCol ta = 0 /\ cursorLine ta = 0 /\ ta' = ta)).
Proof.
  intros Hok Hlen Hcmax Hact Hline. cbv zeta.
  pose proof Hok as (Hne & Hcl & line' & Hline' & Hcol).
  rewrite Hline in Hline'. injection Hline' as <-.
  pose proof (index_inv _ _ _ Hline) as [_ Hlk].
  pose proof (lookup_lt_Some _ _ _ Hlk) as Hlt.
  unfold DeleteChar. rewrite Hact. unfold RuneLen in Hcol.
  destruct (Z.gtb_spec (cursorCol ta) 0) as [Hc|Hc].
  - destruct (Z.eqb_spec (cursorCol ta) 0); [lia|]. rewrite andb_false_r.
    rewrite clamp_if_outside_id by exact Hcl. option_step.
    destruct (Z.gtb_spec (cursorCol ta) 0); [|lia].
    rewrite Hline. option_step. unfold int_max in *. unwrap.
    rewrite slice_to_Some by lia. option_step.
    rewrite slice_from_Some by lia. option_step.
    rewrite store_Some by lia. option_step.
    match goal with |- exists ta', refresh ?x = _ /\ _ =>
      assert (Hx : cursor_ok x); [|destruct (refresh_at x Hx) as (ta1 & E & R1 & R2 & R3 & R4)] end.
    { unfold cursor_ok. cbn [Lines set_Lines set_cursorLine set_cursorCol cursorLine cursorCol].
      split; [apply nonempty_len; rewrite len_insert; lia|].
      split; [rewrite len_insert; lia|].
      eexists. split.
      - apply index_at; [lia|]. apply list_lookup_insert_eq. exact Hlt.
      - rewrite <- Utf8Facts.String_app.
        rewrite Utf8Facts.RuneLen_String, len_app, len_take, len_drop by lia. unwrap. lia. }
    exists ta1. split; [exact E|]. left. rewrite R1, R2, R3. cbn. unwrap. auto.
  - assert (E0 : cursorCol ta = 0) by lia.
    destruct (Z.eqb_spec (cursorLine ta) 0) as [El|El].
    + rewrite E0. cbn. exists ta. split; [reflexivity|]. right. right. auto.
    + cbn [andb]. rewrite clamp_if_outside_id by exact Hcl. option_step.
      destruct (Z.gtb_spec (cursorCol ta) 0); [lia|].
      unfold int_max in *. unwrap.
      destruct (index_Some (Lines ta) (cursorLine ta - 1)) as (prev & Hprev & Hplk); [lia|].
      rewrite Hprev. option_step. rewrite Hline. option_step.
      rewrite store_Some by lia. option_step.
      cbn [Lines set_Lines cursorLine]. unwrap.
      rewrite slice_to_Some by (rewrite len_insert; lia). option_step.
      rewrite slice_from_Some by (rewrite len_insert; lia). option_step.
      replace (Z.to_nat (cursorLine ta + 1)) with (S (Z.to_nat (cursorLine ta))) by lia.
      set (M := <[Z.to_nat (cursorLine ta - 1) := String (Runes prev) ++ String (Runes line)]>
                  (Lines ta)).
      assert (HM : length M = length (Lines ta)) by (unfold M; apply length_insert).
      assert (Hk : (take (Z.to_nat (cursorLine ta)) M ++ drop (S (Z.to_nat (cursorLine ta))) M)
                     !! Z.to_nat (cursorLine ta - 1)
                   = Some (String (Runes prev) ++ String (Runes line))).
      { rewrite lookup_app_l by (rewrite length_take; lia).
        rewrite lookup_take_lt by lia. unfold M. apply list_lookup_insert_eq. lia. }
      match goal with |- exists ta', refresh ?x = _ /\ _ =>
        assert (Hx : cursor_ok x); [|destruct (refresh_at x Hx) as (ta1 & E & R1 & R2 & R3 & R4)] end.
      { unfold cursor_ok. cbn [Lines set_Lines set_cursorLine set_cursorCol cursorLine cursorCol].
        pose proof (lookup_lt_Some _ _ _ Hk) as Hkl.
        split; [intros Hnil; rewrite Hnil in Hkl; simpl in Hkl; lia|].
        split; [unfold len; lia|].
        eexists. split.
        - apply index_at; [lia|]. exact Hk.
        - rewrite <- Utf8Facts.String_app.
          rewrite Utf8Facts.RuneLen_String, len_app.
          pose proof (len_nonneg (Runes prev)). pose proof (len_nonneg (Runes line)). lia. }
      exists ta1. split; [exact E|]. right. left.
      split; [exact E0|]. split; [lia|]. exists prev. split; [reflexivity|].
      rewrite R1, R2, R3. cbn. auto.
Qed.

(** X22. Typing and then deleting backwards restores the text: in an
    active text area with room left, [InsertChar] puts a rune into the
    line at the cursor and moves the cursor one column on (a line break
    cuts the line in two and moves the cursor to the start of the new
    line), and [DeleteChar] after it puts the cursor back and leaves
    the lines as they were, the line of the cursor re-encoded as UTF-8
    (unchanged when it was well-formed). *)
Theorem InsertChar_DeleteChar (ta : t) (r : Z) (line : bytes)
    (Hok : cursor_ok ta) (Hfit : fits ta) (Hact : IsActive ta = true)
    (Hroom : (maxChars ta >? 0) && (charCount ta >=? maxChars ta) && negb (r =? NL) = false)
    (Hline : index (Lines ta) (cursorLine ta) = Some line) :
  let l := Z.to_nat (cursorLine ta) in
  let before := take (Z.to_nat (cursorCol ta)) (Runes line) in
  let after := drop (Z.to_nat (cursorCol ta)) (Runes line) in
  exists ta1 ta2, InsertChar r ta = Some ta1 /\ DeleteChar ta1 = Some ta2 /\
    ((r <> NL /\ Lines ta1 = <[l := String (before ++ r :: after)]> (Lines ta) /\
      cursorLine ta1 = cursorLine ta /\ cursorCol ta1 = cursorCol ta + 1) \/
     (r = NL /\
      Lines ta1 = take l (Lines ta) ++ [String before; String after] ++ drop (S l) (Lines ta) /\
      cursorLine ta1 = cursorLine ta + 1 /\ cursorCol ta1 = 0)) /\
    Lines ta2 = <[l := String (Runes line)]> (Lines ta) /\
    cursorLine ta2 = cursorLine ta /\ cursorCol ta2 = cursorCol ta /\
    (String (Runes line) = line -> Lines ta2 = Lines ta).
Proof.
  cbv zeta.
  pose proof Hok as (Hne & Hcl & line' & Hline' & Hcol).
  rewrite Hline in Hline'. injection Hline' as <-.
  pose proof (rune_bound ta _ _ Hfit Hline) as Hrl.
  pose proof (index_inv _ _ _ Hline) as [_ Hlk].
  pose proof (lookup_lt_Some _ _ _ Hlk) as Hlt.
  unfold RuneLen in Hcol.
  destruct (InsertChar_spec ta r line Hok Hfit Hact Hroom Hline)
    as (ta1 & E1 & A1 & Hok1 & C1). cbv zeta in C1.
  set (c := Z.to_nat (cursorCol ta)) in *. set (l := Z.to_nat (cursorLine ta)) in *.
  assert (Hc : (c <= length (Runes line))%nat) by (unfold c, len in *; lia).
  assert (Hjoin : String (take c (Runes line)) ++ String (drop c (Runes line))
                  = String (Runes line)).
  { rewrite <- Utf8Facts.String_app, take_drop. reflexivity. }
  assert (Hid : String (Runes line) = line ->
                <[l := String (Runes line)]> (Lines ta) = Lines ta).
  { intros ->. apply list_insert_id. exact Hlk. }
  destruct Hfit as [Hlen Hrunes].
  destruct C1 as [(Er & L1 & Cl & Cc)|(Er & L1 & Cl & Cc)].
  - (* a rune *)
    assert (Hl1 : index (Lines ta1) (cursorLine ta1)
                  = Some (String (take c (Runes line) ++ r :: drop c (Runes line)))).
    { rewrite L1, Cl. apply index_at; [lia|]. apply list_lookup_insert_eq. exact Hlt. }
    destruct (DeleteChar_spec ta1 _ Hok1 ltac:(rewrite L1, len_insert; lia)
                ltac:(rewrite Cc; unfold int_max in *; lia) A1 Hl1)
      as (ta2 & E2 & C2). cbv zeta in C2.
    exists ta1, ta2. split; [exact E1|]. split; [exact E2|].
    split; [left; auto|].
    destruct C2 as [(P & L2 & Dl & Dc)|[(P & _)|(P & _)]]; [|lia|lia].
    rewrite Cc in L2, Dc. rewrite Cl in L2, Dl.
    replace (Z.to_nat (cursorCol ta + 1 - 1)) with c in L2 by (unfold c; lia).
    replace (Z.to_nat (cursorCol ta + 1)) with (S c) in L2 by (unfold c; lia).
    rewrite Utf8Facts.Runes_String, map_app in L2. cbn [map] in L2.
    rewrite take_app_length' in L2 by (rewrite length_map, length_take; lia).
    rewrite (cons_middle (sanitize r)), app_assoc in L2.
    rewrite drop_app_length' in L2
      by (rewrite length_app, length_map, length_take; simpl; lia).
    rewrite !String_sanitize, Hjoin in L2.
    fold l in L2. rewrite L1, list_insert_insert_eq in L2.
    split; [exact L2|]. split; [exact Dl|]. split; [lia|].
    intros Hv. rewrite L2. apply Hid. exact Hv.
  - (* a line break *)
    destruct (lookup_split l (Lines ta) (String (take c (Runes line)))
                (String (drop c (Runes line))) Hlt) as (K1 & K2 & K3).
    assert (Hl1 : index (Lines ta1) (cursorLine ta1) = Some (String (drop c (Runes line)))).
    { rewrite L1, Cl. apply index_at; [lia|].
      replace (Z.to_nat (cursorLine ta + 1)) with (S l) by (unfold l; lia). exact K2. }
    destruct (DeleteChar_spec ta1 _ Hok1
                ltac:(rewrite L1; unfold len in *; rewrite K3; lia)
                ltac:(rewrite Cc; unfold int_max; lia) A1 Hl1)
      as (ta2 & E2 & C2). cbv zeta in C2.
    exists ta1, ta2. split; [exact E1|]. split; [exact E2|].
    split; [right; auto|].
    destruct C2 as [(P & _)|[(P & P' & prev & Hprev & L2 & Dl & Dc)|(P & P' & _)]];
      [lia| |lia].
    rewrite Cl in Hprev, L2, Dl.
    replace (cursorLine ta + 1 - 1) with (cursorLine ta) in Hprev, L2, Dl by lia.
    replace (Z.to_nat (cursorLine ta + 1)) with (S l) in L2 by (unfold l; lia).
    fold l in L2.
    assert (Ep : prev = String (take c (Runes line))).
    { apply index_inv in Hprev as [_ Hp]. rewrite L1 in Hp. fold l in Hp.
      rewrite K1 in Hp. injection Hp as <-. reflexivity. }
    subst prev. rewrite L1 in L2.
    rewrite (join_lines l (Lines ta) _ _ _ Hlt) in L2.
    rewrite !String_Runes_String, Hjoin in L2.
    split; [exact L2|]. split; [exact Dl|].
    split; [rewrite Dc, Utf8Facts.RuneLen_String; unfold len; rewrite length_take;
            unfold c, len in *; lia|].
    intros Hv. rewrite L2. apply Hid. exact Hv.
Qed.

Lemma InsertChar_DeleteChar_witness :
  exists ta1 ta2, InsertChar 10 Samples.tall_text_area = Some ta1 /\
    DeleteChar ta1 = Some ta2 /\
    Lines ta2 = Lines Samples.tall_text_area /\
    cursorLine ta2 = cursorLine Samples.tall_text_area /\
    cursorCol ta2 = cursorCol Samples.tall_text_area.
Proof.
  destruct (InsertChar_DeleteChar Samples.tall_text_area 10 ["b"%char]
              (proj1 tall_text_area_ok) (proj1 (proj2 tall_text_area_ok))
              eq_refl eq_refl eq_refl)
    as (ta1 & ta2 & E1 & E2 & _ & _ & Hl & Hc & Hid).
  exists ta1, ta2. split; [exact E1|]. split; [exact E2|].
  split; [apply Hid; reflexivity|]. split; [exact Hl|exact Hc].
Defined.

End TextAreaMore.

(** ** Menus: the selection and closing *)

Module MenuMore.
Import Menu Shape.

Lemma set_item_active_spec (i : Z) (v : bool) (m : t) :
  0 <= i < len (Items m) ->
  exists item, Items m !! Z.to_nat i = Some item /\
    set_item_active i v m
    = Some (set_Items (<[Z.to_nat i := set_IsActive v item]> (Items m)) m).
Proof.
  intros Hi. unfold set_item_active.
  destruct (index_Some (Items m) i Hi) as (item & E & Hitem). rewrite E. cbn.
  rewrite (store_Some _ _ _ Hi). cbn. eauto.
Qed.

Lemma clear_selection_spec (m : t) :
  menu_ok m ->
  exists m1, clear_selection m = Some m1 /\
    len (Items m1) = len (Items m) /\ SelectedIdx m1 = SelectedIdx m /\
    IsOpen m1 = IsOpen m /\ IsTopLevel m1 = IsTopLevel m /\
    (forall (i : nat) item, Items m1 !! i = Some item -> IsActive item = false) /\
    (forall (i : nat), SubMenu <$> Items m1 !! i = SubMenu <$> Items m !! i).
Proof.
  intros (Hs & Hl & Hm). unfold clear_selection.
  destruct (Z.geb_spec (SelectedIdx m) 0) as [H0|H0].
  - destruct (Z.ltb_spec (SelectedIdx m) (len (Items m))) as [H1|H1]; cbn [andb].
    + destruct (set_item_active_spec (SelectedIdx m) false m ltac:(lia)) as (it & Hit & ->).
      eexists. split; [reflexivity|]. cbn [Items set_Items SelectedIdx IsOpen IsTopLevel].
      split; [apply len_insert|]. repeat split.
      * intros i item Hx.
        apply list_lookup_insert_Some in Hx as [(Hi & <- & _)|(Hi & Hx)]; [reflexivity|].
        apply (Hm i item Hx). lia.
      * intros i. destruct (decide (i = Z.to_nat (SelectedIdx m))) as [->|Hi].
        -- rewrite list_lookup_insert_eq by (eapply lookup_lt_Some; eauto).
           rewrite Hit. reflexivity.
        -- rewrite list_lookup_insert_ne by congruence. reflexivity.
    + exists m. split; [reflexivity|]. repeat split.
      intros i item Hx. apply (Hm i item Hx).
      pose proof (lookup_lt_Some _ _ _ Hx). unfold len in *. lia.
  - cbn [andb]. exists m. split; [reflexivity|]. repeat split.
    intros i item Hx. apply (Hm i item Hx). lia.
Qed.

(** The two selection moves share everything but the new index. *)
Lemma menu_select_spec (m : t) (next : Z) :
  menu_ok m -> 0 <= next < len (Items m) ->
  exists m1 m',
    clear_selection m = Some m1 /\ len (Items m1) = len (Items m) /\
    SelectedIdx m1 = SelectedIdx m /\
    set_item_active next true (set_SelectedIdx next m1) = Some m' /\
    menu_ok m' /\ SelectedIdx m' = next /\ len (Items m') = len (Items m) /\
    IsOpen m' = IsOpen m /\ IsTopLevel m' = IsTopLevel m /\
    (exists item, Items m' !! Z.to_nat next = Some item /\ IsActive item = true) /\
    (forall (i : nat), SubMenu <$> Items m' !! i = SubMenu <$> Items m !! i).
Proof.
  intros Hok Hnext. pose proof Hok as (Hs & Hl & Hm).
  destruct (clear_selection_spec m Hok) as (m1 & E1 & L1 & S1 & O1 & T1 & A1 & Sub1).
  exists m1.
  destruct (set_item_active_spec next true (set_SelectedIdx next m1)) as (it & Hit & E');
    [cbn [Items set_SelectedIdx]; rewrite L1; exact Hnext|].
  cbn [Items set_SelectedIdx] in Hit, E'.
  eexists. split; [exact E1|]. split; [exact L1|]. split; [exact S1|].
  split; [exact E'|]. cbn [Items set_Items SelectedIdx set_SelectedIdx IsOpen IsTopLevel].
  rewrite len_insert, L1.
  split; [|split; [reflexivity|split; [reflexivity|split; [exact O1|split; [exact T1|split]]]]].
  - unfold menu_ok. cbn [Items set_Items SelectedIdx set_SelectedIdx].
    rewrite len_insert, L1. split; [lia|]. split; [exact Hl|].
    intros i item Hx Hi.
    apply list_lookup_insert_Some in Hx as [(Hj & _ & _)|(Hj & Hx)]; [lia|].
    apply (A1 i item Hx).
  - eexists. split; [apply list_lookup_insert_eq; eapply lookup_lt_Some; eauto|reflexivity].
  - intros i. rewrite <- Sub1. destruct (decide (i = Z.to_nat next)) as [->|Hi].
    + rewrite list_lookup_insert_eq by (eapply lookup_lt_Some; eauto).
      rewrite Hit. reflexivity.
    + rewrite list_lookup_insert_ne by congruence. reflexivity.
Qed.

Lemma SelectNext_spec (m : t) :
  menu_ok m -> 0 < len (Items m) ->
  exists m', SelectNext m = Some m' /\ menu_ok m' /\
    SelectedIdx m' = (SelectedIdx m + 1) mod len (Items m) /\
    len (Items m') = len (Items m) /\ IsOpen m' = IsOpen m /\ IsTopLevel m' = IsTopLevel m /\
    (exists item, Items m' !! Z.to_nat (SelectedIdx m') = Some item /\ IsActive item = true) /\
    (forall (i : nat), SubMenu <$> Items m' !! i = SubMenu <$> Items m !! i).
Proof.
  intros Hok Hn. pose proof Hok as (Hs & Hl & Hm).
  unfold SelectNext. destruct (Z.eqb_spec (len (Items m)) 0); [lia|].
  set (next := (SelectedIdx m + 1) mod len (Items m)).
  assert (Hnext : 0 <= next < len (Items m)) by (apply Z.mod_pos_bound; lia).
  destruct (menu_select_spec m next Hok Hnext)
    as (m1 & m' & E1 & L1 & S1 & E' & Hok' & S' & L' & O' & T' & A' & Sub').
  rewrite E1. cbn [mbind option_bind]. rewrite S1, L1.
  unfold int_max in Hl. unwrap. rewrite Z.rem_mod_nonneg by lia. fold next.
  cbn [SelectedIdx set_SelectedIdx].
  exists m'. rewrite S'. repeat split; try assumption; apply Hok'.
Qed.

Lemma SelectPrevious_spec (m : t) :
  menu_ok m -> 0 < len (Items m) ->
  exists m', SelectPrevious m = Some m' /\ menu_ok m' /\
    SelectedIdx m' = (if SelectedIdx m <=? 0 then len (Items m) - 1 else SelectedIdx m - 1) /\
    len (Items m') = len (Items m) /\ IsOpen m' = IsOpen m /\ IsTopLevel m' = IsTopLevel m /\
    (exists item, Items m' !! Z.to_nat (SelectedIdx m') = Some item /\ IsActive item = true) /\
    (forall (i : nat), SubMenu <$> Items m' !! i = SubMenu <$> Items m !! i).
Proof.
  intros Hok Hn. pose proof Hok as (Hs & Hl & Hm).
  unfold SelectPrevious. destruct (Z.eqb_spec (len (Items m)) 0); [lia|].
  set (next := if SelectedIdx m <=? 0 then len (Items m) - 1 else SelectedIdx m - 1).
  assert (Hnext : 0 <= next < len (Items m))
    by (unfold next; destruct (Z.leb_spec (SelectedIdx m) 0); lia).
  destruct (menu_select_spec m next Hok Hnext)
    as (m1 & m' & E1 & L1 & S1 & E' & Hok' & S' & L' & O' & T' & A' & Sub').
  rewrite E1. cbn [mbind option_bind]. unfold int_max in Hl.
  assert (Enext : (if SelectedIdx (set_SelectedIdx (SelectedIdx m1 -i 1) m1) <? 0
                   then set_SelectedIdx (len (Items (set_SelectedIdx (SelectedIdx m1 -i 1) m1)) -i 1)
                          (set_SelectedIdx (SelectedIdx m1 -i 1) m1)
                   else set_SelectedIdx (SelectedIdx m1 -i 1) m1)
                  = set_SelectedIdx next m1).
  { cbn. rewrite S1, L1. unwrap. unfold next.
    destruct (Z.ltb_spec (SelectedIdx m - 1) 0); destruct (Z.leb_spec (SelectedIdx m) 0);
      try lia; unwrap; reflexivity. }
  cbv zeta. rewrite Enext. cbn [SelectedIdx set_SelectedIdx].
  exists m'. rewrite S'. repeat split; try assumption; apply Hok'.
Qed.

(** X23. On a menu with items whose only marked item is the selected
    one, [SelectNext] and [SelectPrevious] return (no index panic),
    move the selection one item on or back, around the ends (from "no
    selection" to the first or to the last item), mark the newly
    selected item and no other, and leave the sub-menus alone;
    [SelectPrevious] after [SelectNext] is back at the item selected
    before (at the last item when none was).  A menu without items is
    left as it is. *)
Theorem Menu_selection_cycles (m : t) (Hok : menu_ok m) :
  let n := len (Items m) in
  (n = 0 -> SelectNext m = Some m /\ SelectPrevious m = Some m) /\
  (0 < n ->
   (exists m', SelectNext m = Some m' /\ menu_ok m' /\ len (Items m') = n /\
      SelectedIdx m' = (SelectedIdx m + 1) mod n /\
      (exists item, Items m' !! Z.to_nat (SelectedIdx m') = Some item /\ IsActive item = true) /\
      (forall i : nat, SubMenu <$> Items m' !! i = SubMenu <$> Items m !! i) /\
      exists m'', SelectPrevious m' = Some m'' /\ menu_ok m'' /\
        SelectedIdx m'' = (if SelectedIdx m <? 0 then n - 1 else SelectedIdx m)) /\
   (exists m', SelectPrevious m = Some m' /\ menu_ok m' /\ len (Items m') = n /\
      SelectedIdx m' = (if SelectedIdx m <=? 0 then n - 1 else SelectedIdx m - 1) /\
      (exists item, Items m' !! Z.to_nat (SelectedIdx m') = Some item /\ IsActive item = true) /\
      (forall i : nat, SubMenu <$> Items m' !! i = SubMenu <$> Items m !! i))).
Proof.
  cbv zeta. pose proof Hok as (Hs & Hl & Hm). split.
  - intros E. unfold SelectNext, SelectPrevious. rewrite E. auto.
  - intros Hn. split.
    + destruct (SelectNext_spec m Hok Hn) as (m' & E & Hok' & S' & L' & _ & _ & A' & Sub').
      exists m'. repeat split; try assumption; try apply Hok'.
      destruct (SelectPrevious_spec m' Hok' ltac:(lia)) as (m'' & E2 & Hok2 & S2 & _).
      exists m''. split; [exact E2|]. split; [exact Hok2|].
      rewrite S2, S', L'.
      destruct (Z.ltb_spec (SelectedIdx m) 0).
      * replace (SelectedIdx m + 1) with 0 by lia. rewrite Z.mod_0_l by lia. reflexivity.
      * destruct (Z.eq_dec (SelectedIdx m + 1) (len (Items m))) as [Ee|Ee].
        -- rewrite Ee, Z.mod_same by lia. cbn. lia.
        -- rewrite Z.mod_small by lia.
           destruct (Z.leb_spec (SelectedIdx m + 1) 0); lia.
    + destruct (SelectPrevious_spec m Hok Hn) as (m' & E & Hok' & S' & L' & _ & _ & A' & Sub').
      exists m'. repeat split; try assumption; apply Hok'.
Qed.

Lemma Menu_selection_cycles_witness :
  exists m', SelectNext (MenuBar.Menu Samples.nested_bar) = Some m' /\ SelectedIdx m' = 0.
Proof.
  assert (Hok : menu_ok (MenuBar.Menu Samples.nested_bar)).
  { split; [vm_compute; split; [discriminate|reflexivity]|].
    split; [vm_compute; reflexivity|].
    intros [|[|i]] item Hx _; vm_compute in Hx; [|discriminate|discriminate].
    injection Hx as <-. reflexivity. }
  destruct (Menu_selection_cycles _ Hok) as [_ H].
  destruct (H ltac:(vm_compute; reflexivity)) as [(m' & E & _ & _ & S & _) _].
  exists m'. split; [exact E|]. rewrite S. vm_compute. reflexivity.
Defined.

(** *** Closing *)

Lemma lookup_map {A B} (f : A -> B) (l : list A) (i : nat) :
  map f l !! i = f <$> l !! i.
Proof.
  revert i. induction l as [|x l IH]; intros [|i]; cbn; try reflexivity. apply IH.
Qed.

Lemma CloseSubMenus_Items (m : t) :
  Items (CloseSubMenus m)
  = map (fun item =>
           match SubMenu item with
           | Some sub => set_SubMenu (Some (set_IsOpen false (CloseSubMenus sub))) item
           | None => item
           end) (Items m).
Proof. destruct m. reflexivity. Qed.

Lemma CloseSubMenus_frame (m : t) :
  SelectedIdx (CloseSubMenus m) = SelectedIdx m /\ IsOpen (CloseSubMenus m) = IsOpen m /\
  len (Items (CloseSubMenus m)) = len (Items m).
Proof.
  rewrite CloseSubMenus_Items. unfold len. rewrite length_map. destruct m. auto.
Qed.

(** Below a menu that [CloseSubMenus] went through no sub-menu is open. *)
Lemma CloseSubMenus_get (p : path) (m sub : t) :
  p <> [] -> get (CloseSubMenus m) p = Some sub -> IsOpen sub = false.
Proof.
  revert m. induction p as [|i p IH]; intros m Hne H; [contradiction|].
  cbn [get] in H. rewrite CloseSubMenus_Items, lookup_map in H.
  destruct (Items m !! i) as [item|]; [|discriminate]. cbn in H.
  destruct (SubMenu item) as [s|] eqn:Es; cbn in H.
  - destruct p as [|j p].
    + cbn in H. injection H as <-. reflexivity.
    + apply (IH s); [discriminate|]. exact H.
  - rewrite Es in H. discriminate.
Qed.

Lemma CloseSubMenus_collect (here : path) (m : t) :
  collectSubmenus here (CloseSubMenus m) = [].
Proof.
  destruct m as [items x y w h s o tl z].
  cbn [CloseSubMenus collectSubmenus Items set_Items].
  generalize 0%nat. induction items as [|item items IH]; intros i; [reflexivity|].
  cbn [map]. destruct (SubMenu item) as [sub|] eqn:Es.
  - cbn [SubMenu set_SubMenu IsOpen set_IsOpen]. apply IH.
  - rewrite Es. apply IH.
Qed.

(** X24. [MenuBar.Deactivate] always returns and leaves nothing of the
    menu on the screen but the bar: the bar is inactive, no sub-menu is
    the active one, nothing is selected, every sub-menu at every depth
    is closed, the compositor finds no open sub-menu to paint, and no
    item of the bar stays marked when none but the selected one was. *)
Theorem Deactivate_closes_everything (mb : MenuBar.t) :
  exists mb', MenuBar.Deactivate mb = Some mb' /\
    MenuBar.IsActive mb' = false /\ MenuBar.ActiveMenu mb' = None /\
    SelectedIdx (MenuBar.Menu mb') = -1 /\
    len (Items (MenuBar.Menu mb')) = len (Items (MenuBar.Menu mb)) /\
    (forall p sub, p <> [] -> get (MenuBar.Menu mb') p = Some sub -> IsOpen sub = false) /\
    collectSubmenus [] (MenuBar.Menu mb') = [] /\
    (menu_ok (MenuBar.Menu mb) ->
     menu_ok (MenuBar.Menu mb') /\
     forall (i : nat) item, Items (MenuBar.Menu mb') !! i = Some item -> IsActive item = false).
Proof.
  unfold MenuBar.Deactivate. cbv zeta. cbn [MenuBar.Menu MenuBar.set_IsActive MenuBar.set_ActiveMenu].
  assert (Hc : exists m1, clear_selection (MenuBar.Menu mb) = Some m1 /\
                 len (Items m1) = len (Items (MenuBar.Menu mb)) /\
                 (menu_ok (MenuBar.Menu mb) ->
                  forall (i : nat) item, Items m1 !! i = Some item -> IsActive item = false)).
  { unfold clear_selection.
    destruct (Z.geb_spec (SelectedIdx (MenuBar.Menu mb)) 0) as [H0|H0];
      [destruct (Z.ltb_spec (SelectedIdx (MenuBar.Menu mb)) (len (Items (MenuBar.Menu mb))))
         as [H1|H1]|]; cbn [andb].
    - destruct (set_item_active_spec (SelectedIdx (MenuBar.Menu mb)) false (MenuBar.Menu mb)
                  ltac:(lia)) as (it & Hit & E).
      eexists. split; [exact E|]. cbn [Items set_Items]. split; [apply len_insert|].
      intros (_ & _ & Hm) i item Hx.
      apply list_lookup_insert_Some in Hx as [(Hi & <- & _)|(Hi & Hx)]; [reflexivity|].
      apply (Hm i item Hx). lia.
    - exists (MenuBar.Menu mb). split; [reflexivity|]. split; [reflexivity|].
      intros (Hs & _ & Hm) i item Hx. apply (Hm i item Hx).
      pose proof (lookup_lt_Some _ _ _ Hx) as Hlt. unfold len in *. lia.
    - exists (MenuBar.Menu mb). split; [reflexivity|]. split; [reflexivity|].
      intros (Hs & _ & Hm) i item Hx. apply (Hm i item Hx). lia. }
  destruct Hc as (m1 & E1 & L1 & A1). rewrite E1. cbn [mbind option_bind].
  eexists. split; [reflexivity|]. cbn [MenuBar.IsActive MenuBar.ActiveMenu MenuBar.Menu MenuBar.set_Menu].
  destruct (CloseSubMenus_frame (set_SelectedIdx (-1) m1)) as (F1 & F2 & F3).
  split; [reflexivity|]. split; [reflexivity|]. split; [rewrite F1; reflexivity|].
  split; [rewrite F3; exact L1|].
  split; [intros p sub Hp Hg; exact (CloseSubMenus_get p _ sub Hp Hg)|].
  split; [apply CloseSubMenus_collect|].
  intros Hok.
  assert (Hin : forall (i : nat) item,
            Items (CloseSubMenus (set_SelectedIdx (-1) m1)) !! i = Some item ->
            IsActive item = false).
  { intros i item Hx. rewrite CloseSubMenus_Items, lookup_map in Hx. cbn [Items set_SelectedIdx] in Hx.
    destruct (Items m1 !! i) as [it|] eqn:Ei; [|discriminate]. cbn in Hx. injection Hx as <-.
    pose proof (A1 Hok i it Ei) as Ha.
    destruct (SubMenu it); [cbn|]; exact Ha. }
  split; [|exact Hin].
  unfold menu_ok. rewrite F1, F3. cbn [SelectedIdx Items set_SelectedIdx]. rewrite L1.
  destruct Hok as (_ & Hl & _). split; [lia|]. split; [exact Hl|].
  intros i item Hx _. exact (Hin i item Hx).
Qed.

(** *** Opening a sub-menu from the bar and going back *)

Lemma open_at_spec (x y : Z) (sub : t) :
  exists sub1, open_at x y sub = Some sub1 /\
    IsOpen sub1 = true /\ SelectedIdx sub1 = 0 /\ X sub1 = x /\ Y sub1 = y /\
    len (Items sub1) = len (Items sub) /\
    (0 < len (Items sub) ->
     exists first, Items sub1 !! 0%nat = Some first /\ IsActive first = true).
Proof.
  unfold open_at. cbv zeta. cbn [Items set_SelectedIdx set_IsOpen set_X set_Y].
  destruct (Z.gtb_spec (len (Items sub)) 0) as [Hn|Hn].
  - destruct (set_item_active_spec 0 true
                (set_SelectedIdx 0 (set_IsOpen true (set_Y y (set_X x sub))))) as (it & Hit & E);
      [cbn; lia|].
    rewrite E. eexists. split; [reflexivity|]. cbn. rewrite len_insert.
    repeat split. intros _. cbn in Hit.
    destruct (Items sub) as [|a l]; [discriminate|]. cbn in Hit. injection Hit as ->.
    eexists. split; reflexivity.
  - eexists. split; [reflexivity|]. cbn. repeat split. lia.
Qed.

(** X25. Down on the active bar opens the sub-menu of the selected
    item, below that item, with its first item selected and marked, and
    makes it the active menu; while it is the active one Left and Right
    do nothing; Up on its first item closes it again and gives the
    navigation back to the bar, whose selection has not moved. *)
Theorem MoveDown_then_MoveUp (mb : MenuBar.t) (i : nat) (item : MenuItem) (sub : t)
    (Hactive : MenuBar.IsActive mb = true) (Hnone : MenuBar.ActiveMenu mb = None)
    (Hsel : SelectedIdx (MenuBar.Menu mb) = Z.of_nat i)
    (Hitem : Items (MenuBar.Menu mb) !! i = Some item) (Hsub : SubMenu item = Some sub) :
  exists mb1 mb2 sub1,
    MenuBar.MoveDown mb = Some mb1 /\
    MenuBar.IsActive mb1 = true /\ MenuBar.ActiveMenu mb1 = Some [i] /\
    get (MenuBar.Menu mb1) [i] = Some sub1 /\
    IsOpen sub1 = true /\ SelectedIdx sub1 = 0 /\
    X sub1 = MenuBar.X mb +i ItemX item /\ Y sub1 = MenuBar.Y mb +i 1 /\
    (0 < len (Items sub) ->
     exists first, Items sub1 !! 0%nat = Some first /\ IsActive first = true) /\
    MenuBar.MoveRight mb1 = Some mb1 /\ MenuBar.MoveLeft mb1 = Some mb1 /\
    MenuBar.MoveUp mb1 = Some mb2 /\
    MenuBar.IsActive mb2 = true /\ MenuBar.ActiveMenu mb2 = None /\
    get (MenuBar.Menu mb2) [i] = Some (set_IsOpen false sub1) /\
    SelectedIdx (MenuBar.Menu mb2) = Z.of_nat i.
Proof.
  pose proof (lookup_lt_Some _ _ _ Hitem) as Hlt.
  assert (Hr : 0 <= Z.of_nat i < len (Items (MenuBar.Menu mb))) by (unfold len; lia).
  assert (Hi : index (Items (MenuBar.Menu mb)) (Z.of_nat i) = Some item).
  { unfold index. destruct (Z.leb_spec 0 (Z.of_nat i)); [|lia].
    destruct (Z.ltb_spec (Z.of_nat i) (len (Items (MenuBar.Menu mb)))); [|lia].
    cbn [andb]. rewrite Nat2Z.id. exact Hitem. }
  destruct (open_at_spec (MenuBar.X mb +i ItemX item) (MenuBar.Y mb +i 1) sub)
    as (sub1 & Eo & O1 & O2 & O3 & O4 & O5 & O6).
  set (mb1 := MenuBar.set_ActiveMenu (Some [i])
                (MenuBar.set_Menu
                   (set_Items (<[i := set_SubMenu (Some sub1) item]> (Items (MenuBar.Menu mb)))
                      (MenuBar.Menu mb)) mb)).
  assert (E1 : MenuBar.MoveDown mb = Some mb1).
  { unfold MenuBar.MoveDown. rewrite Hactive, Hnone. cbn [negb]. rewrite Hsel.
    destruct (Z.geb_spec (Z.of_nat i) 0); [|lia].
    destruct (Z.ltb_spec (Z.of_nat i) (len (Items (MenuBar.Menu mb)))); [|lia]. cbn [andb].
    rewrite Hi. cbn [mbind option_bind]. rewrite Hsub, Eo. cbn [mbind option_bind].
    rewrite store_Some by exact Hr. cbn [mbind option_bind]. rewrite Nat2Z.id. reflexivity. }
  assert (G1 : get (MenuBar.Menu mb1) [i] = Some sub1).
  { unfold mb1. cbn [MenuBar.Menu MenuBar.set_ActiveMenu MenuBar.set_Menu get Items set_Items].
    rewrite list_lookup_insert_eq by exact Hlt. reflexivity. }
  destruct (MenuFacts.MoveUp_first_item mb1 [i] sub1 Hactive eq_refl G1 ltac:(lia))
    as (mb2 & E2 & A2 & M2 & G2 & S2).
  exists mb1, mb2, sub1.
  split; [exact E1|]. split; [exact Hactive|]. split; [reflexivity|]. split; [exact G1|].
  split; [exact O1|]. split; [exact O2|]. split; [exact O3|]. split; [exact O4|].
  split; [exact O6|].
  split; [unfold MenuBar.MoveRight; cbn; rewrite Hactive; reflexivity|].
  split; [unfold MenuBar.MoveLeft; cbn; rewrite Hactive; reflexivity|].
  split; [exact E2|].
  split.
  { assert (E2' : MenuBar.MoveUp mb1
                  = Some (MenuBar.set_ActiveMenu None
                            (MenuBar.set_Menu
                               (put (MenuBar.Menu mb1) [i] (set_IsOpen false sub1)) mb1))).
    { unfold MenuBar.MoveUp. change (MenuBar.IsActive mb1) with (MenuBar.IsActive mb).
      rewrite Hactive. cbn [negb]. change (MenuBar.ActiveMenu mb1) with (Some [i]).
      cbv iota beta. rewrite G1. cbn [mbind option_bind]. rewrite O2. reflexivity. }
    rewrite E2' in E2. injection E2 as <-. exact Hactive. }
  split; [exact A2|]. split; [exact G2|].
  rewrite (S2 ltac:(discriminate)). exact Hsel.
Qed.

Lemma MoveDown_then_MoveUp_witness :
  exists mb1 mb2,
    MenuBar.MoveDown Samples.active_bar = Some mb1 /\
    MenuBar.ActiveMenu mb1 = Some [0%nat] /\
    MenuBar.MoveUp mb1 = Some mb2 /\ MenuBar.ActiveMenu mb2 = None.
Proof.
  destruct (Items (MenuBar.Menu Samples.active_bar) !! 0%nat) as [item|] eqn:Ei;
    [|vm_compute in Ei; discriminate].
  destruct (SubMenu item) as [sub|] eqn:Es;
    [|vm_compute in Ei; injection Ei as <-; vm_compute in Es; discriminate].
  destruct (MoveDown_then_MoveUp Samples.active_bar 0 item sub eq_refl eq_refl eq_refl Ei Es)
    as (mb1 & mb2 & sub1 & E1 & _ & A1 & _ & _ & _ & _ & _ & _ & _ & _ & E2 & _ & A2 & _).
  exists mb1, mb2. auto.
Defined.

End MenuMore.

(** ** The order in which the compositor paints *)

Module PaintFacts.
Import Window.

(** *** The stable sort keeps what is in order *)

Section Sort.
Context {A : Type} (key : A -> Z).

Lemma before_cons (x a b : A) (l : list A) : before a b l -> before a b (x :: l).
Proof. intros (l1 & l2 & l3 & ->). exists (x :: l1), l2, l3. reflexivity. Qed.

Lemma before_head (a b : A) (l : list A) : b ∈ l -> before a b (a :: l).
Proof.
  intros Hb. apply list_elem_of_split in Hb as (l2 & l3 & ->).
  exists [], l2, l3. reflexivity.
Qed.

Lemma before_inv (x a b : A) (l : list A) :
  before a b (x :: l) -> (x = a /\ b ∈ l) \/ before a b l.
Proof.
  intros ([|y l1] & l2 & l3 & E); injection E as -> ->.
  - left. split; [reflexivity|]. apply elem_of_app. right. left.
  - right. exists l1, l2, l3. reflexivity.
Qed.

Lemma before_elem (a b : A) (l : list A) : before a b l -> a ∈ l /\ b ∈ l.
Proof.
  intros (l1 & l2 & l3 & ->). split.
  - apply elem_of_app. right. left.
  - apply elem_of_app. right. right. apply elem_of_app. right. left.
Qed.

Lemma insert_stable_before (x a b : A) (l : list A) :
  before a b l -> before a b (insert_stable key x l).
Proof.
  induction l as [|y l IH]; intros H; cbn [insert_stable].
  - destruct H as ([|? ?] & ? & ? & E); discriminate.
  - destruct (key y <? key x); [|apply before_cons; exact H].
    apply before_inv in H as [[-> Hb]|H].
    + apply before_head. rewrite SortFacts.insert_stable_Permutation. right. exact Hb.
    + apply before_cons, IH, H.
Qed.

Lemma insert_stable_first (x b : A) (l : list A) :
  b ∈ l -> key x <= key b -> before x b (insert_stable key x l).
Proof.
  induction l as [|y l IH]; intros Hb Hk; cbn [insert_stable].
  - apply elem_of_nil in Hb. contradiction.
  - destruct (Z.ltb_spec (key y) (key x)); [|apply before_head; exact Hb].
    apply elem_of_cons in Hb as [->|Hb]; [lia|].
    apply before_cons, IH; assumption.
Qed.

(** What is in order before the sort stays in order. *)
Lemma SliceStable_before (a b : A) (l : list A) :
  before a b l -> key a <= key b -> before a b (SliceStable key l).
Proof.
  induction l as [|x l IH]; intros H Hk.
  - destruct H as ([|? ?] & ? & ? & E); discriminate.
  - cbn [SliceStable]. apply before_inv in H as [[-> Hb]|H].
    + apply insert_stable_first; [|exact Hk].
      rewrite SortFacts.SliceStable_Permutation. exact Hb.
    + apply insert_stable_before, IH; assumption.
Qed.

Lemma sorted_before (a b : A) (l : list A) :
  StronglySorted (by_key key) l -> before a b l -> key a <= key b.
Proof.
  intros Hs (l1 & l2 & l3 & ->).
  induction l1 as [|y l1 IH]; cbn in Hs.
  - apply StronglySorted_inv in Hs as [_ Hall].
    rewrite Forall_forall in Hall. apply Hall.
    apply elem_of_app. right. left.
  - apply StronglySorted_inv in Hs as [Hs _]. exact (IH Hs).
Qed.

End Sort.

(** *** The open sub-menus the compositor collects *)

Lemma depth_sub (m : Menu.t) (item : Menu.MenuItem) (sub : Menu.t) :
  item ∈ Menu.Items m -> Menu.SubMenu item = Some sub ->
  (Menu.depth sub < Menu.depth m)%nat.
Proof.
  destruct m as [items x y w h s o tl z]. cbn [Menu.depth Menu.Items].
  induction items as [|it items IH]; intros Hin Es.
  - apply elem_of_nil in Hin. contradiction.
  - cbn [fold_right]. apply elem_of_cons in Hin as [<-|Hin].
    + rewrite Es. lia.
    + specialize (IH Hin Es). lia.
Qed.

Lemma collect_items (x y w h s : Z) (o tl : bool) (z : Z) (here p : Menu.path)
    (l pre : list Menu.MenuItem) :
  (forall it, it ∈ l -> forall sub, Menu.SubMenu it = Some sub ->
     forall here p, p ∈ Menu.collectSubmenus here sub ->
     exists q sub', p = here ++ q /\ q <> [] /\ Menu.get sub q = Some sub' /\
                    Menu.IsOpen sub' = true) ->
  p ∈ (fix items (i : nat) (l : list Menu.MenuItem) {struct l} : list Menu.path :=
         match l with
         | [] => []
         | item :: l' =>
             match Menu.SubMenu item with
             | Some sub =>
                 if Menu.IsOpen sub
                 then (here ++ [i]) :: Menu.collectSubmenus (here ++ [i]) sub ++ items (S i) l'
                 else items (S i) l'
             | None => items (S i) l'
             end
         end) (length pre) l ->
  exists q sub, p = here ++ q /\ q <> [] /\
    Menu.get (Menu.mk (pre ++ l) x y w h s o tl z) q = Some sub /\ Menu.IsOpen sub = true.
Proof.
  revert pre. induction l as [|item l IHl]; intros pre Hsub Hp.
  - apply elem_of_nil in Hp. contradiction.
  - assert (Hrest : p ∈ (fix items (i : nat) (l : list Menu.MenuItem) {struct l}
                          : list Menu.path :=
                   match l with
                   | [] => []
                   | item :: l' =>
                       match Menu.SubMenu item with
                       | Some sub =>
                           if Menu.IsOpen sub
                           then (here ++ [i])
                                :: Menu.collectSubmenus (here ++ [i]) sub ++ items (S i) l'
                           else items (S i) l'
                       | None => items (S i) l'
                       end
                   end) (S (length pre)) l ->
                exists q sub, p = here ++ q /\ q <> [] /\
                  Menu.get (Menu.mk (pre ++ item :: l) x y w h s o tl z) q = Some sub /\
                  Menu.IsOpen sub = true).
    { intros Hr. specialize (IHl (pre ++ [item])).
      rewrite length_app, Nat.add_1_r, <- app_assoc in IHl. apply IHl; [|exact Hr].
      intros it Hit. apply Hsub. right. exact Hit. }
    destruct (Menu.SubMenu item) as [sub|] eqn:Es; [|exact (Hrest Hp)].
    destruct (Menu.IsOpen sub) eqn:Eo; [|exact (Hrest Hp)].
    apply elem_of_cons in Hp as [->|Hp].
    + exists [length pre], sub. split; [reflexivity|]. split; [discriminate|].
      cbn [Menu.get Menu.Items]. rewrite list_lookup_middle by reflexivity.
      cbn. rewrite Es. cbn. auto.
    + apply elem_of_app in Hp as [Hp|Hp]; [|exact (Hrest Hp)].
      destruct (Hsub item ltac:(left) sub Es _ _ Hp) as (q & sub' & -> & Hq & Hg & Ho).
      exists (length pre :: q), sub'. split; [rewrite <- app_assoc; reflexivity|].
      split; [discriminate|]. cbn [Menu.get Menu.Items].
      rewrite list_lookup_middle by reflexivity. cbn. rewrite Es. cbn. auto.
Qed.

(** Every path [collectSubmenus] returns leads to a sub-menu, an open one. *)
Lemma collect_get (m : Menu.t) (here p : Menu.path) :
  p ∈ Menu.collectSubmenus here m ->
  exists q sub, p = here ++ q /\ q <> [] /\ Menu.get m q = Some sub /\
                Menu.IsOpen sub = true.
Proof.
  remember (Menu.depth m) as n eqn:En.
  assert (Hn : (Menu.depth m <= n)%nat) by lia. clear En.
  revert m here p Hn. induction n as [|n IH]; intros m here p Hn Hp.
  - destruct m. cbn in Hn. lia.
  - pose proof (depth_sub m) as Hd.
    destruct m as [items x y w h s o tl z].
    apply (collect_items x y w h s o tl z here p items []); [|exact Hp].
    intros it Hit sub Es here' p' Hp'. apply IH; [|exact Hp'].
    specialize (Hd it sub Hit Es). lia.
Qed.

(** X26. The compositor paints what [getAllElements] lists, each entry
    once, in the order of the z-index, entries of one z-index in the
    order of the list.  So an open sub-menu of a menu bar of the window
    is painted, and it is painted after (over) its menu bar and after
    every element of the window whose z-index is at most 100 (every
    element but a sub-menu that was added as an element itself). *)
Theorem paint_order (st : State) :
  let all := getAllElements st in
  let sorted := getSortedElements st in
  Permutation sorted all /\
  (forall a b, before a b sorted -> zIndexOf st a <= zIndexOf st b) /\
  (forall a b, before a b all -> zIndexOf st a <= zIndexOf st b -> before a b sorted) /\
  (forall a mb p, Obj a ∈ Elements (win st) -> heap st !! a = Some (EMenuBar mb) ->
     p ∈ Menu.collectSubmenus [] (MenuBar.Menu mb) ->
     SubMenuOf a p ∈ sorted /\
     100 <= zIndexOf st (SubMenuOf a p) /\
     before (Obj a) (SubMenuOf a p) sorted /\
     forall r, r ∈ Elements (win st) -> zIndexOf st r <= 100 ->
               before r (SubMenuOf a p) sorted).
Proof.
  cbv zeta. destruct (WindowFacts.getSortedElements_stable_sort st) as (Hs & Hp & _).
  split; [exact Hp|]. split; [intros a b; apply sorted_before, Hs|].
  split; [intros a b; apply SliceStable_before|].
  intros a mb p Ha Hmb Hc.
  assert (Hsubs : SubMenuOf a p ∈
            flat_map
              (fun element =>
                 match element, deref st element with
                 | Obj a, Some (EMenuBar menuBar) =>
                     SubMenuOf a <$> Menu.collectSubmenus [] (MenuBar.Menu menuBar)
                 | _, _ => []
                 end) (Elements (win st))).
  { apply list_elem_of_In, in_flat_map. exists (Obj a).
    split; [apply list_elem_of_In; exact Ha|]. cbn [deref]. rewrite Hmb.
    apply list_elem_of_In, list_elem_of_fmap_2. exact Hc. }
  assert (Hall : forall r, r ∈ Elements (win st) -> before r (SubMenuOf a p) (getAllElements st)).
  { intros r Hr. unfold getAllElements.
    apply list_elem_of_split in Hsubs as (k1 & k2 & Ek). rewrite Ek.
    apply list_elem_of_split in Hr as (l1 & l2 & Er). rewrite Er.
    exists l1, (l2 ++ k1), k2. rewrite <- !app_assoc. reflexivity. }
  assert (Hz : 100 <= zIndexOf st (SubMenuOf a p)).
  { destruct (collect_get _ _ _ Hc) as (q & sub & -> & _ & Hg & _).
    unfold zIndexOf. cbn [deref]. rewrite Hmb. cbn [app]. rewrite Hg. cbn.
    unfold zOf. cbn. unfold Menu.GetZIndex. destruct (Menu.IsTopLevel sub); lia. }
  split.
  { rewrite Hp. apply (before_elem _ _ _ (Hall (Obj a) Ha)). }
  split; [exact Hz|]. split.
  - apply SliceStable_before; [apply Hall, Ha|].
    assert (E : zIndexOf st (Obj a) = 100) by (unfold zIndexOf; cbn [deref]; rewrite Hmb; reflexivity).
    lia.
  - intros r Hr Hzr. apply SliceStable_before; [apply Hall, Hr|lia].
Qed.

End PaintFacts.

(** ** Segment groups *)

Module SegmentFacts.
Import SegmentGroup.

Lemma sum_app (a b : list Z) : sum (a ++ b) = sum a + sum b.
Proof. unfold sum. induction a as [|x a IH]; cbn; [reflexivity|]. rewrite IH. lia. Qed.

Lemma sum_nonneg (l : list Z) : Forall (fun w => 0 <= w) l -> 0 <= sum l.
Proof. unfold sum. induction 1; cbn; lia. Qed.

Lemma widths_app (h : store) (a b : list nat) : widths h (a ++ b) = widths h a ++ widths h b.
Proof. unfold widths. apply omap_app. Qed.

Lemma widths_length (h : store) (l : list nat) :
  (forall a, a ∈ l -> is_Some (h !! a)) -> length (widths h l) = length l.
Proof.
  unfold widths. induction l as [|a l IH]; intros H; [reflexivity|].
  cbn. destruct (H a ltac:(left)) as [s Es]. rewrite Es. cbn. rewrite IH; [reflexivity|].
  intros b Hb. apply H. right. exact Hb.
Qed.

(** A sum of three [int]s that is an [int] is what the wrapped
    additions compute, whatever the sum of the last two wraps to. *)
Lemma add_add_id (a b c : Z) : in_int (a + (b + c)) -> a +i (b +i c) = a + (b + c).
Proof.
  intros H. unfold add. rewrite <- (wrap_id (a + (b + c)) H). unfold wrap. f_equal.
  replace (a + ((b + c + 2 ^ 63) mod 2 ^ 64 - 2 ^ 63) + 2 ^ 63)
    with (a + (b + c + 2 ^ 63) mod 2 ^ 64) by lia.
  rewrite Zplus_mod_idemp_r. f_equal. lia.
Qed.

(** The loop of [AddSegment] adds up the widths and one column each. *)
Lemma advance_spec (h : store) (l : list nat) (currentX : Z) :
  (forall a, a ∈ l -> is_Some (h !! a)) ->
  Forall (fun w => 0 <= w) (widths h l) ->
  int_min <= currentX -> currentX + sum (widths h l) + len l <= int_max ->
  advance h currentX l = Some (currentX + sum (widths h l) + len l).
Proof.
  revert currentX. induction l as [|a l IH]; intros currentX Hin Hw Hlo Hhi.
  - cbn. f_equal. unfold len. cbn. lia.
  - destruct (Hin a ltac:(left)) as [s Es].
    assert (Ew : widths h (a :: l) = Segment.Width s :: widths h l)
      by (unfold widths; cbn; rewrite Es; reflexivity).
    rewrite Ew in *. apply Forall_cons in Hw as [Hs Hw].
    pose proof (sum_nonneg _ Hw) as Hsum. pose proof (len_nonneg l) as Hl.
    rewrite len_cons in *. change (sum (Segment.Width s :: widths h l))
      with (Segment.Width s + sum (widths h l)) in *.
    cbn [advance]. rewrite Es. cbn [mbind option_bind].
    rewrite add_add_id by (unfold in_int, int_min, int_max in *; lia).
    unfold int_min, int_max in *.
    rewrite IH; [apply (f_equal Some); lia| |exact Hw|lia|lia].
    intros b Hb. apply Hin. right. exact Hb.
Qed.

(** The loop of [GetTotalWidth]: the widths and a column after each
    segment but the last. *)
Lemma total_from_spec (h : store) (n : Z) (l : list nat) (i totalWidth : Z) :
  (forall a, a ∈ l -> is_Some (h !! a)) ->
  Forall (fun w => 0 <= w) (widths h l) ->
  i + len l = n -> 0 <= i -> n <= int_max ->
  0 <= totalWidth -> totalWidth + sum (widths h l) + len l <= int_max ->
  total_from h n i totalWidth l
  = Some (totalWidth + sum (widths h l) + Z.max 0 (len l - 1)).
Proof.
  revert i totalWidth. induction l as [|a l IH]; intros i tw Hin Hw Hn Hi Hmax Htw Hhi.
  - cbn. f_equal. unfold len. cbn. lia.
  - destruct (Hin a ltac:(left)) as [s Es].
    assert (Ew : widths h (a :: l) = Segment.Width s :: widths h l)
      by (unfold widths; cbn; rewrite Es; reflexivity).
    rewrite Ew in *. apply Forall_cons in Hw as [Hs Hw].
    pose proof (sum_nonneg _ Hw) as Hsum. pose proof (len_nonneg l) as Hl.
    rewrite len_cons in *. change (sum (Segment.Width s :: widths h l))
      with (Segment.Width s + sum (widths h l)) in *.
    cbn [total_from]. rewrite Es. cbn [mbind option_bind].
    unfold int_min, int_max in *. unwrap.
    destruct (Z.ltb_spec i (n - 1)).
    + unwrap. rewrite IH; [apply (f_equal Some); lia| |exact Hw|lia|lia|lia|lia|lia].
      intros b Hb. apply Hin. right. exact Hb.
    + rewrite IH; [apply (f_equal Some); lia| |exact Hw|lia|lia|lia|lia|lia].
      intros b Hb. apply Hin. right. exact Hb.
Qed.

Lemma widths_placed (x y : Z) (h0 : store) (done : list nat) (st : t * store) (l : list nat) :
  placed x y h0 done st -> widths (snd st) l = widths h0 l.
Proof.
  intros (_ & _ & _ & Hd & Ho). unfold widths. induction l as [|a l IH]; [reflexivity|].
  cbn [omap list_omap]. rewrite IH. f_equal.
  destruct (decide (a ∈ done)) as [Hin|Hin].
  - apply list_elem_of_lookup in Hin as (k & Hk).
    destruct (Hd k a Hk) as (s & -> & ->). reflexivity.
  - rewrite (Ho a Hin). reflexivity.
Qed.

Lemma position_nil (x : Z) : position x [] = x.
Proof.
  unfold position. change (len (@nil Z)) with 0. change (sum []) with 0.
  change (0 >? 0) with false. cbv iota. lia.
Qed.

Lemma position_snoc (x : Z) (ws : list Z) (w : Z) :
  Forall (fun w => 0 <= w) ws -> 0 <= w ->
  position x ws + w < position x (ws ++ [w]).
Proof.
  intros Hws Hw. unfold position. rewrite sum_app, len_app.
  change (sum [w]) with (w + 0). change (len [w]) with 1.
  pose proof (len_nonneg ws).
  destruct (Z.gtb_spec (len ws) 0); destruct (Z.gtb_spec (len ws + 1) 0); lia.
Qed.

(** One [AddSegment]. *)
Lemma AddSegment_placed (x y : Z) (h0 : store) (done : list nat) (st : t * store)
    (a : nat) (s : Segment.t) :
  placed x y h0 done st ->
  (forall b, b ∈ done -> is_Some (h0 !! b)) ->
  Forall (fun w => 0 <= w) (widths h0 done) ->
  a ∉ done -> h0 !! a = Some s ->
  int_min <= x -> x + 1 + sum (widths h0 done) + len done <= int_max ->
  exists st', AddSegment a st = Some st' /\ placed x y h0 (done ++ [a]) st'.
Proof.
  intros Hp Hin Hw Ha Hs Hlo Hhi. pose proof (widths_placed _ _ _ _ _ done Hp) as Ew.
  destruct st as [sg h1]. pose proof Hp as (Px & Py & Pd & Pk & Po). cbn [fst snd] in *.
  pose proof (sum_nonneg _ Hw) as Hsum. pose proof (len_nonneg done) as Hl.
  assert (Hin1 : forall b, b ∈ done -> is_Some (h1 !! b)).
  { intros b Hb. apply list_elem_of_lookup in Hb as (k & Hk).
    destruct (Pk k b Hk) as (sb & _ & ->). eauto. }
  unfold AddSegment. rewrite Pd, Px, Py.
  assert (Ea : advance h1 (if len done >? 0 then x +i 1 else x) done
               = Some (position x (widths h0 done))).
  { assert (Elen : len (widths h0 done) = len done)
      by (unfold len; rewrite widths_length by exact Hin; reflexivity).
    unfold position. rewrite Elen.
    unfold int_min, int_max in *.
    destruct (Z.gtb_spec (len done) 0).
    - unwrap. rewrite advance_spec; rewrite ?Ew; unfold int_min, int_max;
        [apply (f_equal Some); unfold len; lia|exact Hin1|exact Hw|lia|lia].
    - rewrite advance_spec; rewrite ?Ew; unfold int_min, int_max;
        [apply (f_equal Some); unfold len; lia|exact Hin1|exact Hw|lia|lia]. }
  rewrite Ea. cbn [mbind option_bind]. rewrite (Po a Ha), Hs. cbn [mbind option_bind].
  eexists. split; [reflexivity|]. unfold placed. cbn [fst snd X Y Segments].
  repeat split.
  - intros k b Hk. destruct (decide (k < length done)%nat) as [Hlt|Hge].
    + rewrite lookup_app_l in Hk by exact Hlt.
      destruct (Pk k b Hk) as (sb & E0 & E1). exists sb. split; [exact E0|].
      rewrite lookup_insert_ne by (intros ->; apply Ha; eapply list_elem_of_lookup_2; eauto).
      rewrite take_app_le by lia. exact E1.
    + rewrite lookup_app_r in Hk by lia.
      destruct (k - length done)%nat as [|j] eqn:Ej; [|destruct j; discriminate].
      injection Hk as <-. exists s. split; [exact Hs|].
      rewrite lookup_insert_eq.
      rewrite take_app_ge by lia. replace (k - length done)%nat with 0%nat by lia.
      rewrite take_0, app_nil_r. reflexivity.
  - intros b Hb. rewrite lookup_insert_ne; [apply Po|].
    + intros Hd. apply Hb, elem_of_app. left. exact Hd.
    + intros ->. apply Hb, elem_of_app. right. left.
Qed.

Lemma AddSegments_placed (x y : Z) (h0 : store) (rest done : list nat) (st : t * store) :
  placed x y h0 done st ->
  NoDup (done ++ rest) ->
  (forall b, b ∈ done ++ rest -> is_Some (h0 !! b)) ->
  Forall (fun w => 0 <= w) (widths h0 (done ++ rest)) ->
  int_min <= x -> x + 1 + sum (widths h0 (done ++ rest)) + len (done ++ rest) <= int_max ->
  exists st', AddSegments rest st = Some st' /\ placed x y h0 (done ++ rest) st'.
Proof.
  revert done st. induction rest as [|a rest IH]; intros done st Hp Hnd Hin Hw Hlo Hhi.
  - rewrite app_nil_r. exists st. split; [reflexivity|exact Hp].
  - destruct (Hin a ltac:(apply elem_of_app; right; left)) as [s Hs].
    assert (Ha : a ∉ done).
    { apply NoDup_app in Hnd as (_ & Hd & _). intros Hx. apply (Hd a Hx). left. }
    rewrite widths_app, sum_app, len_app in Hhi. rewrite widths_app in Hw.
    apply Forall_app in Hw as [Hw1 Hw2].
    assert (Ewa : widths h0 (a :: rest) = Segment.Width s :: widths h0 rest)
      by (unfold widths; cbn; rewrite Hs; reflexivity).
    assert (Ew1 : widths h0 [a] = [Segment.Width s])
      by (unfold widths; cbn; rewrite Hs; reflexivity).
    rewrite Ewa in Hw2, Hhi. apply Forall_cons in Hw2 as [Hws Hw2].
    change (sum (Segment.Width s :: widths h0 rest))
      with (Segment.Width s + sum (widths h0 rest)) in Hhi.
    rewrite len_cons in Hhi.
    pose proof (sum_nonneg _ Hw2) as Hs2. pose proof (len_nonneg rest) as Hl2.
    destruct (AddSegment_placed x y h0 done st a s Hp) as (st1 & E1 & Hp1);
      [intros b Hb; apply Hin, elem_of_app; left; exact Hb|exact Hw1|exact Ha|exact Hs
      |exact Hlo|lia|].
    cbn [AddSegments]. rewrite E1. cbn [mbind option_bind].
    replace (done ++ a :: rest) with ((done ++ [a]) ++ rest) in *
      by (rewrite <- app_assoc; reflexivity).
    apply IH; try assumption.
    + rewrite !widths_app, Ew1. apply Forall_app. split; [|exact Hw2].
      apply Forall_app. split; [exact Hw1|]. repeat constructor. exact Hws.
    + rewrite !widths_app, !sum_app, !len_app, Ew1.
      change (sum [Segment.Width s]) with (Segment.Width s + 0).
      change (len [a]) with 1. lia.
Qed.

(** X27. [AddSegments] on a new group, with distinct segments of
    non-negative widths, returns and lays the segments out from left to
    right in the row of the group: the first at the group's column, each
    next one behind its left neighbour with at least one column between
    them (the separator), so that no two segments overlap; it changes
    nothing of a segment but its position and writes to no other
    segment.  [GetTotalWidth] is then the sum of the widths plus one
    column between neighbours. *)
Theorem AddSegments_layout (x y : Z) (h : store) (segs : list nat)
    (Hdup : NoDup segs)
    (Hin : forall a, a ∈ segs -> is_Some (h !! a))
    (Hw : Forall (fun w => 0 <= w) (widths h segs))
    (Hx : int_min <= x)
    (Hfit : x + 1 + sum (widths h segs) + len segs <= int_max)
    (Htotal : sum (widths h segs) + len segs <= int_max) :
  exists sg h',
    AddSegments segs (NewSegmentGroup x y, h) = Some (sg, h') /\
    placed x y h segs (sg, h') /\
    (forall a s, segs !! 0%nat = Some a -> h' !! a = Some s -> Segment.X s = x) /\
    (forall (k : nat) a b sa sb, segs !! k = Some a -> segs !! S k = Some b ->
       h' !! a = Some sa -> h' !! b = Some sb ->
       Segment.X sa + Segment.Width sa < Segment.X sb) /\
    GetTotalWidth sg h' = Some (sum (widths h segs) + Z.max 0 (len segs - 1)).
Proof.
  assert (H0 : placed x y h [] (NewSegmentGroup x y, h)).
  { unfold placed. cbn. repeat split. intros k a Hk. destruct k; discriminate. }
  destruct (AddSegments_placed x y h segs [] _ H0) as ([sg h'] & E & Hp); try assumption.
  exists sg, h'. split; [exact E|]. cbn [app] in Hp. split; [exact Hp|].
  pose proof Hp as (Px & Py & Pd & Pk & Po). cbn [fst snd] in *.
  assert (Hpre : forall k, Forall (fun w => 0 <= w) (widths h (take k segs))).
  { intros k. rewrite <- (take_drop k segs), widths_app in Hw.
    apply Forall_app in Hw as [Hw1 _]. exact Hw1. }
  split; [|split].
  - intros a s Ha Hs. destruct (Pk 0%nat a Ha) as (s0 & _ & E0).
    rewrite E0 in Hs. injection Hs as <-. cbn [Segment.X Segment.set_pos].
    apply position_nil.
  - intros k a b sa sb Ha Hb Hsa Hsb.
    destruct (Pk k a Ha) as (s1 & E1 & F1). destruct (Pk (S k) b Hb) as (s2 & E2 & F2).
    rewrite F1 in Hsa. rewrite F2 in Hsb. injection Hsa as <-. injection Hsb as <-.
    cbn [Segment.X Segment.Width Segment.set_pos].
    rewrite (take_S_r segs k a Ha), widths_app.
    assert (Ew : widths h [a] = [Segment.Width s1])
      by (unfold widths; cbn; rewrite E1; reflexivity).
    rewrite Ew. apply position_snoc; [apply Hpre|].
    specialize (Hpre (S k)). rewrite (take_S_r segs k a Ha), widths_app, Ew in Hpre.
    apply Forall_app in Hpre as [_ Hpre]. apply Forall_cons in Hpre as [Hpre _]. exact Hpre.
  - unfold GetTotalWidth. rewrite Pd.
    pose proof (widths_placed _ _ _ _ _ segs Hp) as Ew. cbn [snd] in Ew.
    pose proof (len_nonneg segs) as Hl. pose proof (sum_nonneg _ Hw) as Hs.
    rewrite total_from_spec; rewrite ?Ew; unfold int_max in *;
      [reflexivity| |exact Hw|lia|lia|lia|lia|lia].
    intros b Hb. apply list_elem_of_lookup in Hb as (k & Hk).
    destruct (Pk k b Hk) as (sb & _ & ->). eauto.
Qed.

Lemma AddSegments_layout_witness :
  let h : store := {[ 0%nat := Segment.NewSegment 0 0 10 3; 1%nat := Segment.NewSegment 0 0 5 4 ]} in
  exists sg h',
    AddSegments [0%nat; 1%nat] (NewSegmentGroup 2 1, h) = Some (sg, h') /\
    Segment.X <$> h' !! 0%nat = Some 2 /\ Segment.X <$> h' !! 1%nat = Some 14 /\
    GetTotalWidth sg h' = Some 16.
Proof.
  cbv zeta.
  destruct (AddSegments_layout 2 1
              {[ 0%nat := Segment.NewSegment 0 0 10 3; 1%nat := Segment.NewSegment 0 0 5 4 ]}
              [0%nat; 1%nat])
    as (sg & h' & E & Hp & _ & _ & Ht).
  - apply NoDup_cons. split; [intros H; apply list_elem_of_singleton in H; discriminate|].
    apply NoDup_cons. split; [apply not_elem_of_nil|apply NoDup_nil_2].
  - intros a Ha. apply elem_of_cons in Ha as [->|Ha];
      [|apply list_elem_of_singleton in Ha as ->]; vm_compute; eauto.
  - vm_compute. repeat constructor; discriminate.
  - vm_compute. discriminate.
  - vm_compute. discriminate.
  - vm_compute. discriminate.
  - exists sg, h'. split; [exact E|].
    destruct Hp as (_ & _ & _ & Pk & _). cbn [snd] in Pk.
    destruct (Pk 0%nat 0%nat eq_refl) as (s0 & E0 & ->).
    destruct (Pk 1%nat 1%nat eq_refl) as (s1 & E1 & ->).
    vm_compute in E0. injection E0 as <-. vm_compute in E1. injection E1 as <-.
    split; [vm_compute; reflexivity|]. split; [vm_compute; reflexivity|].
    rewrite Ht. vm_compute. reflexivity.
Defined.

End SegmentFacts.

(** ** Text wrapping *)

Module BannerFacts.
Import Banner.

Lemma Join_snoc (g : list bytes) (w sep : bytes) :
  g <> [] -> Join (g ++ [w]) sep = Join g sep ++ sep ++ w.
Proof.
  induction g as [|e g IH]; intros Hne; [contradiction|].
  destruct g as [|e2 g]; [reflexivity|].
  change ((e :: e2 :: g) ++ [w]) with (e :: (e2 :: g) ++ [w]).
  rewrite GoStringsFacts.Join_cons by (intros H; inversion H).
  rewrite IH by discriminate.
  rewrite (GoStringsFacts.Join_cons e (e2 :: g)) by discriminate.
  rewrite <- !app_assoc. reflexivity.
Qed.

(** The length of the words joined by single spaces. *)
Lemma Join_len (e : bytes) (rest : list bytes) :
  len (Join (e :: rest) [" "%char])
  = len e + fold_right (fun w n => len w + 1 + n) 0 rest.
Proof.
  revert e. induction rest as [|w rest IH]; intros e; [cbn [Join fold_right]; lia|].
  rewrite GoStringsFacts.Join_cons by discriminate.
  rewrite !len_app, IH. cbn [fold_right]. change (len [" "%char]) with 1. lia.
Qed.

Section WithFields.
Variable Fields : bytes -> list bytes.

(** The loop of [wrapText], started on a line that holds the words [g]:
    [pre] are the words it adds to that line, [tail] the lines after it. *)
Lemma wrap_loop_spec (width : Z) (words : list bytes) (lines : list bytes) (g : list bytes) :
  g <> [] ->
  len (Join g [" "%char]) + fold_right (fun w n => len w + 1 + n) 0 words <= int_max ->
  ((2 <= length g)%nat -> len (Join g [" "%char]) <= width) ->
  exists pre tail,
    wrap_loop width lines (Join g [" "%char]) words
    = lines ++ Join (g ++ pre) [" "%char] :: map (fun g' => Join g' [" "%char]) tail /\
    pre ++ concat tail = words /\
    Forall (fun g' => g' <> []) tail /\
    Forall (fun g' => (2 <= length g')%nat -> len (Join g' [" "%char]) <= width)
           ((g ++ pre) :: tail) /\
    (forall (i : nat) g1 g2 w, ((g ++ pre) :: tail) !! i = Some g1 ->
       ((g ++ pre) :: tail) !! S i = Some g2 -> head g2 = Some w ->
       width < len (Join g1 [" "%char]) + len w + 1).
Proof.
  revert lines g. induction words as [|word rest IH]; intros lines g Hne Hfit Hg.
  - exists [], []. rewrite app_nil_r. cbn [wrap_loop map concat app].
    repeat split; try constructor; try assumption; try constructor.
    intros i g1 g2 w _ H2. destruct i; discriminate.
  - cbn [fold_right] in Hfit. pose proof (len_nonneg (Join g [" "%char])) as H0.
    pose proof (len_nonneg word) as H1.
    assert (Hrest : 0 <= fold_right (fun w n => len w + 1 + n) 0 rest).
    { clear. induction rest as [|w rest IH]; cbn [fold_right]; [lia|].
      pose proof (len_nonneg w). lia. }
    cbn [wrap_loop]. unfold int_max in *. unwrap.
    destruct (Z.leb_spec (len (Join g [" "%char]) + len word + 1) width) as [Hle|Hgt].
    + change ([" "%char] ++ word) with (" "%char :: word).
      assert (Ej : Join g [" "%char] ++ " "%char :: word = Join (g ++ [word]) [" "%char])
        by (rewrite Join_snoc by exact Hne; reflexivity).
      rewrite Ej.
      destruct (IH lines (g ++ [word])) as (pre & tail & E & Ew & Hn & Hf & Hgr).
      * destruct g; discriminate.
      * rewrite <- Ej, len_app, len_cons. lia.
      * intros _. rewrite <- Ej, len_app, len_cons. lia.
      * exists (word :: pre), tail. rewrite <- app_assoc in E, Hf, Hgr.
        split; [exact E|]. split; [cbn; rewrite Ew; reflexivity|].
        split; [exact Hn|]. split; [exact Hf|exact Hgr].
    + destruct (IH (lines ++ [Join g [" "%char]]) [word]) as (pre & tail & E & Ew & Hn & Hf & Hgr).
      * discriminate.
      * cbn [Join]. lia.
      * cbn [length]. lia.
      * exists [], ((word :: pre) :: tail). rewrite app_nil_r.
        change (Join [word] [" "%char]) with word in E. rewrite E, <- app_assoc.
        cbn [app map concat] in *.
        split; [reflexivity|]. split; [rewrite Ew; reflexivity|].
        split; [constructor; [discriminate|exact Hn]|].
        split; [constructor; [exact Hg|exact Hf]|].
        intros [|i] g1 g2 w I1 I2 Hw.
        -- cbn in I1, I2. injection I1 as <-. injection I2 as <-. cbn in Hw.
           injection Hw as <-. lia.
        -- exact (Hgr i g1 g2 w I1 I2 Hw).
Qed.

(** X28. [wrapText] keeps the words of the text, in order: its lines
    are the words cut into consecutive groups, none empty, each group
    joined by single spaces.  A line of more than one word is at most
    [width] bytes long (a word longer than that stands alone on its
    line), and a line ends only where the next word would not fit.  For
    a text without words the result is one empty line. *)
Theorem wrapText_spec (text : bytes) (width : Z)
    (Hfit : len (Join (Fields text) [" "%char]) <= int_max) :
  let lines := wrapText Fields text width in
  lines <> [] /\
  (Fields text = [] -> lines = [[]]) /\
  (Fields text <> [] ->
   exists groups,
     lines = map (fun g => Join g [" "%char]) groups /\
     concat groups = Fields text /\
     Forall (fun g => g <> []) groups /\
     Forall (fun g => (2 <= length g)%nat -> len (Join g [" "%char]) <= width) groups /\
     (forall (i : nat) g1 g2 w, groups !! i = Some g1 -> groups !! S i = Some g2 ->
        head g2 = Some w -> width < len (Join g1 [" "%char]) + len w + 1)).
Proof.
  cbv zeta. unfold wrapText. destruct (Fields text) as [|first rest] eqn:Ef.
  - split; [discriminate|]. split; [reflexivity|]. intros H. contradiction.
  - destruct (wrap_loop_spec width rest [] [first]) as (pre & tail & E & Ew & Hn & Hf & Hgr).
    + discriminate.
    + rewrite Join_len in Hfit. cbn [Join]. exact Hfit.
    + cbn [length]. lia.
    + change (Join [first] [" "%char]) with first in E. rewrite E. cbn [app] in *.
      split; [discriminate|]. split; [discriminate|]. intros _.
      exists ((first :: pre) :: tail). split; [reflexivity|].
      split; [cbn; rewrite Ew; reflexivity|].
      split; [constructor; [discriminate|exact Hn]|]. split; [exact Hf|exact Hgr].
Qed.

End WithFields.

Lemma wrapText_spec_witness :
  let Fields := fun _ : bytes => [["a"; "b"]; ["c"; "d"; "e"]; ["f"]]%char in
  len (Join (Fields []) [" "%char]) <= int_max /\
  wrapText Fields [] 5 <> [].
Proof.
  cbv zeta.
  assert (H : len (Join [["a"; "b"]; ["c"; "d"; "e"]; ["f"]]%char [" "%char]) <= int_max)
    by (vm_compute; discriminate).
  split; [exact H|].
  exact (proj1 (wrapText_spec (fun _ : bytes => [["a"; "b"]; ["c"; "d"; "e"]; ["f"]]%char)
                  [] 5 H)).
Defined.

End BannerFacts.

(** ** Progress bars *)

Module ProgressBarFacts.
Import ProgressBar.

(** *** The order of the floats *)

Lemma SFcompare_antisym (x y : float64) :
  SFcompare y x = CompOpp <$> SFcompare x y.
Proof.
  destruct x as [sx|sx| |sx mx ex], y as [sy|sy| |sy my ey]; cbn;
    try reflexivity; try (destruct sx; reflexivity); try (destruct sy; reflexivity);
    try (destruct sx, sy; reflexivity).
  destruct sx, sy; cbn; try reflexivity; f_equal;
    rewrite (Z.compare_antisym ex ey); destruct (ex ?= ey)%Z; cbn; try reflexivity.
  - rewrite (Pos.compare_cont_antisym mx my Eq). reflexivity.
  - rewrite (Pos.compare_cont_antisym mx my Eq). reflexivity.
Qed.

Lemma SFcompare_refl (x : float64) : x <> S754_nan -> SFcompare x x = Some Eq.
Proof.
  destruct x as [s|s| |s m e]; intros H; cbn; try reflexivity; try contradiction.
  - destruct s; reflexivity.
  - rewrite Z.compare_refl.
    assert (E : Pos.compare_cont Eq m m = Eq) by (apply Pos.compare_cont_refl).
    destruct s; cbn [CompOpp]; f_equal;
      change (PosDef.Pos.compare_cont Eq m m) with (Pos.compare_cont Eq m m);
      rewrite E; reflexivity.
Qed.

Lemma SFcompare_nan (x y : float64) :
  x <> S754_nan -> y <> S754_nan -> exists c, SFcompare x y = Some c.
Proof.
  destruct x, y; intros Hx Hy; cbn; try contradiction; eauto.
Qed.

(** For numbers, [not (x < y)] is [y <= x]. *)
Lemma not_lt_le (x y : float64) :
  x <> S754_nan -> y <> S754_nan -> SFltb x y = false -> SFleb y x = true.
Proof.
  intros Hx Hy. unfold SFltb, SFleb. rewrite (SFcompare_antisym x y).
  destruct (SFcompare_nan x y Hx Hy) as [c ->]. destruct c; cbn; congruence.
Qed.

Lemma le_not_lt (x y : float64) : SFleb x y = true -> SFltb y x = false.
Proof.
  unfold SFltb, SFleb. rewrite (SFcompare_antisym x y).
  destruct (SFcompare x y) as [[| |]|]; cbn; congruence.
Qed.

Lemma le_not_nan (x y : float64) : SFleb x y = true -> x <> S754_nan /\ y <> S754_nan.
Proof.
  unfold SFleb. destruct x, y; cbn; intros H; split; congruence.
Qed.

(** X29. [SetValue] of a progress bar whose maximum is a number not
    below 0 stores a number between 0 and the maximum: the argument
    itself when it is in that range, 0 when it is below it and the
    maximum when it is above it.  An argument that is not a number
    passes both comparisons and is stored as it is.  Nothing else of
    the bar changes. *)
Theorem SetValue_range (pb : t) (value : float64) (Hmax : SFleb f0 (MaxValue pb) = true) :
  let pb' := SetValue value pb in
  pb' = mk (Value pb') (MaxValue pb) (ShowPercentage pb) (X pb) (Y pb) (Width pb) /\
  (value = S754_nan -> Value pb' = S754_nan) /\
  (value <> S754_nan ->
     SFleb f0 (Value pb') = true /\ SFleb (Value pb') (MaxValue pb) = true) /\
  (SFltb value f0 = true -> Value pb' = f0) /\
  (SFltb (MaxValue pb) value = true -> Value pb' = MaxValue pb) /\
  (SFleb f0 value = true -> SFleb value (MaxValue pb) = true -> Value pb' = value).
Proof.
  cbv zeta. destruct (le_not_nan _ _ Hmax) as [_ Hm].
  assert (H0 : f0 <> S754_nan) by discriminate.
  unfold SetValue. cbn [Value].
  split; [reflexivity|]. split; [intros ->; destruct (MaxValue pb); reflexivity|].
  split; [|split; [|split]].
  - intros Hv. destruct (SFltb value f0) eqn:E1.
    + split; [reflexivity|exact Hmax].
    + destruct (SFltb (MaxValue pb) value) eqn:E2.
      * split; [exact Hmax|]. unfold SFleb. rewrite SFcompare_refl by exact Hm. reflexivity.
      * split; apply not_lt_le; assumption.
  - intros ->. reflexivity.
  - intros E2. destruct (SFltb value f0) eqn:E1; [|rewrite E2; reflexivity].
    (* below 0 and above the maximum at once: impossible *)
    exfalso. destruct (le_not_nan _ _ Hmax) as [_ Hm'].
    unfold SFltb, SFleb in *.
    destruct value as [sv|sv| |sv mv ev]; cbn in E1; try discriminate;
      destruct (MaxValue pb) as [sm|sm| |sm mm em]; cbn in Hmax, E2; try discriminate;
      destruct sv; try discriminate; destruct sm; discriminate.
  - intros L0 L1. rewrite (le_not_lt _ _ L0), (le_not_lt _ _ L1). reflexivity.
Qed.

Lemma SetValue_range_witness :
  Value (SetValue (S754_finite false 4503599627370496 (-50))
           (NewProgressBar 0 0 20 f0 f100 true))
  = S754_finite false 4503599627370496 (-50).
Proof.
  destruct (SetValue_range (NewProgressBar 0 0 20 f0 f100 true)
              (S754_finite false 4503599627370496 (-50)) eq_refl)
    as (_ & _ & _ & _ & _ & H).
  apply H; reflexivity.
Defined.

End ProgressBarFacts.
